(* ===== verification/_CoqProject ===== *)
-Q . S2P
Prelude.v
Sha256.v
GoStrings.v
GoTime.v
Netip.v
GoPath.v
NetGate.v
Endpoint.v
Claims.v
Feeds.v
Ledger.v
Config.v
PolicyModel.v
Snapshot.v
Host.v
Store.v
ClaimStore.v
NftScript.v
ScriptText.v
GoText.v
WgConfig.v
Discovery.v
Json.v
Routing.v
BootGuard.v
Api.v
WgControl.v
SetupJournal.v
SetupEngine.v
SetupSafety.v
SetupLive.v
SetupSample.v
NftJson.v
Backend.v
SetUpdates.v
SetBatch.v
Collision.v
Manager.v
ClaimRuntime.v
Compiler.v
Compiled.v
Intent.v
Docker.v
Recovery.v
Invariant.v
Reads.v
Safety.v
Sample.v
Live.v
Publication.v
Refresh.v
Evidence.v
Health.v
Protocol.v
RuntimeControl.v
RuntimeSafety.v
Nftfwd.v
