(* ===== verification/Prelude.v ===== *)
(** * NFT Firewall V2: a verification library

    NFT Firewall V2 (src/) is a fail-closed host firewall written in Go.  An operator's
    intent or an advanced TOML configuration is validated, compiled into an nft script, and
    installed as a numbered generation; a generation is first applied, then committed or
    rolled back, and a durable pointer names the one that must be enforced after a boot.
    Claims (blocks, temporary access, feeds, country lists) change the members of the
    kernel's sets without a new generation.  This library models the parts of src/internal/
    that decide what is enforced and proves what makes them correct.

    ** The parts and their files

    Foundations.  Prelude (this file): error values, the host monad with its fault oracle,
    the error-or-value checks, sorting and loop lemmas.  Models of Go's standard library:
    Sha256, GoStrings, GoTime, Netip, GoPath, GoText, Json.

    From intent to script.  WgConfig reads a provider's WireGuard profile
    (internal/wgconfig), Discovery classifies the host (internal/discovery), Intent turns
    both into the managed intent and its configuration (internal/intent).  Docker is the
    observation of Docker's bridges and the rebinding of a configuration to the bridges of
    the day (internal/containers, without the checks of daemon.json and unit files).  Config is
    internal/config: the records of the document and every rule of Validate in order.
    PolicyModel is internal/policy: what explain answers.  Compiler is internal/compiler:
    each emit function is the list of lines it writes; Compiled is its theory, on ScriptText.

    The backend.  NftScript is the guard of scripts in internal/nft/backend.go, NftJson its
    reading of nft's JSON, Backend the operations on the kernel, SetUpdates and SetBatch the
    replacement of set members (backend.go, leases.go), Collision the audit of foreign use
    of the conntrack mark (provenance_collision.go).  The nft command itself is a parameter:
    the class [Nft] says what it answers about a kernel state and what a script does to it.

    State.  Ledger is internal/provenance.  Snapshot, Host, Store are internal/state: the
    enforcement pointer and generation snapshot values, the state that processes share (as
    they see it and as stable storage holds it), and the generation rows, immutable files
    and pointer protocol.  Claims and ClaimStore are the claim tables of store.go and the
    claim service internal/blocks.  Feeds is internal/threatintel and internal/geo.

    The generation protocol.  Manager and Recovery are internal/reconcile: Apply, Commit,
    Rollback, Reconcile, RecoverAtBoot, RollbackExpired, VerifyEnforcement, each call in the
    code's order.  Invariant, Reads, Safety, Live, Sample, Evidence, Protocol are its theory.

    Publication of claims.  ClaimRuntime is the claim side of internal/app/runtime.go;
    Publication and Refresh are its theory.  Endpoint is internal/wireguard/endpoint.go.

    The tunnel.  WgControl is internal/wireguard/controller.go, what wg shows and the move of
    the peer's endpoint.  Routing is internal/routing: the tunnel's interface, routes, rules
    and resolver brought up and down by commands, over the class [IPRoute] of what ip does.

    The daemon.  RuntimeControl is the generation side of internal/app/runtime.go: a request
    assembles an artifact from the configuration on disk, Docker, the ledger, the claims and
    the endpoints and hands it to Manager; timers, refreshes and the restoration of the sets
    run beside it.  RuntimeSafety is its theory; a step of [daemon_step] is one complete or
    interrupted run of any of them.  The configuration on disk, Docker, DNS and the clock
    may answer anything at any time.  Health is the status report (internal/health,
    internal/nft/status.go), Api the handling of a connection (internal/api).  Nftfwd is the
    program cmd/nftfwd on top of them: the dispatch of requests, the timers, the start, and
    the modes recover, roll back and verify of the boot services; a step of its [host_step]
    is one connection, tick or mode.  BootGuard is internal/bootguard, the removal of the
    initramfs's deny table.

    Managed setup.  NetGate is internal/netgate; SetupJournal and SetupEngine are
    internal/setup/journal.go and engine.go; SetupSafety, SetupLive and SetupSample their
    theory.  The executor's operations are parameters, a record of the host's calls.

    ** How they interact

    Config supplies records to PolicyModel, Compiler and Intent; Compiler produces the
    artifact that Manager applies through Backend and records through Store.  Store and
    ClaimStore run transactions of Claims and Ledger on a [Host].  ClaimRuntime reads claims
    and settings, computes members and calls SetUpdates.  SetupEngine drives its executor
    and records each phase in SetupJournal.  A client's theorem uses the laws of a class
    ([Nft] and its laws, [CommitContract]) or a section's hypotheses for code that is not
    under src/; a witness instantiates them with concrete functions.  Manager's PostRestore
    is a callback that answers a new kernel state in which the owned tables are still
    present ([restores_sets]) with their markers and fingerprint ([transparent]);
    RestoreRuntimeState, which the daemon installs there, is modelled as an operation of
    its own.

    ** Effects and faults

    Stateful code is a computation [M S A] (this file): an oracle and a state give an
    outcome, the rest of the oracle and a state.  Each system call draws a fault: it works,
    it fails without effect, it fails after taking effect, or the process dies before or
    after its effect.  A theorem for every oracle thus covers every pattern of failures and
    crashes.  An interleaving of processes is a sequence of whole operations, because every
    mutating operation runs under the mutation lock (internal/state), whose file is not
    modelled.
    A power loss replaces the live pointer and temporary files by what stable storage holds.

    ** What the theorems show

    - The generation protocol: the durable-state invariant over all histories of operations,
      faults, crashes and power losses; commitments are kept; a committed firewall is never
      taken down; what a success of Apply, Commit, RecoverAtBoot and VerifyEnforcement means.
    - The daemon: the same invariant over all histories of what its clients send, its
      timers, its start and the boot modes, with the artifacts it compiles itself; such an
      artifact is ready to install and its provenance numbers are reserved and live.  A
      connection without root's credentials or an accepted request changes at most the
      audit log; a status that says enforced or healthy is so; the guard of the initramfs is
      removed only when it is exactly what was installed.  An accepted observation of
      Docker is exactly what was declared, and rebinding changes bridges only.
    - The tunnel: bringing it up or down keeps every foreign rule under any failure, and a
      reported success means that its interface, route and rules are there, or gone.
    - Scripts: an accepted script stays within the owned tables; everything the compiler
      writes is accepted and installs all of them; compilation does not depend on the order
      of observations; output rules are pinned to the tunnel; the foreign-use audit is exact.
    - Configuration and policy: Validate yields a well-formed configuration and Docker
      address plan; explain allows exactly what the policies say.
    - Managed intent: the generated configuration allows to the host exactly what the intent
      grants, exposing a port opens that port only, and the result always compiles to an
      accepted script; a profile is read back as it was written.
    - Ledger: identities are permanent, reservations are all or nothing, capacity is bounded.
    - Claims: publication never says more than the kernel holds, a refresh reaches the
      published state, replacement and removal touch only what they name, stored claims stay
      readable, feeds are bounded and public, set batches say what was asked for.
    - Setup: each operation runs only under a journal that names it, a committed setup is
      never rolled back, and a setup without faults completes; the network producers found
      are canonical; the endpoint cache stays bounded.
    - Some theorems state where the code departs from its documentation; the manifest lists
      them as findings.

    ** Bounds and fuel

    Machine integers are Z or N with the source's bounds written out ([wrap64] for Go's
    int64 arithmetic on durations, identities as 8-bit marks, ports below 65536).  Fuel is
    used where recursion is not structural: Sha256's block loop gets the number of words,
    more than its blocks ([process_fuel]); the IPv6 reader gets eight groups, what an address
    has.  All other recursion is structural, on the text, list or JSON value read.

    ** Assumptions

    Regular expressions are their boolean readings.  Texts are byte strings; where Go works
    on runes the difference is named at the definition.  JSON objects of nft do not repeat
    names.  The daemon's theorems assume that generation numbers stay below 2^64 - 1
    ([room]) and that a batch of set commands leaves the owned tables present ([NftBatch]);
    the status report's, that nft's listing of the ruleset shows each table as its own
    listing does ([NftListings]).
    SQLite transactions are atomic and serial; [sort.Slice] is stable where equal
    keys are refused later anyway.  TOML, DNS, HTTP, nft, systemctl and Docker are inputs.

    ** Not modelled

    The executor of the setup (internal/setup/system.go, backup.go, retired setups), systemd
    units and the check of the rollback timer's unit, Docker's own configuration files,
    adoption, operator backup, offline migration, opening and closing the runtime, the
    operator's CLI and the web front end, scripts and packaging: they mostly sequence
    commands and files of the host whose behaviour is not in the source, and are listed as
    components with that status.  In modelled packages the file-ownership and mode checks of
    loaders are inputs or left out; the component notes say which. *)

From stdpp Require Export base tactics list option gmap strings pretty.
From Stdlib Require Export ZArith NArith Lia Sorted.

Declare Scope host_scope.
Delimit Scope host_scope with host.

(** ** Errors

    A Go [error] value.  [Errorf]/[errors.New] messages keep their format string
    and arguments; [%w] wrapping and [errors.Join] keep the wrapped values, since
    the program inspects them with [errors.Is] and [errors.As]. *)

Inductive arg := ArgN (n : N) | ArgZ (z : Z) | ArgS (s : string) | ArgB (b : bool).

Inductive err :=
  | ErrNoRows                                     (* sql.ErrNoRows *)
  | ErrNotExist                                   (* os.ErrNotExist *)
  | ErrIO                                         (* a failed system, database or process call *)
  | Sentinel (text : string)                      (* a package's own error variable *)
  | ErrApplyExecution (e : err)                   (* nft.ApplyExecutionError *)
  | Errorf (fmt : string) (args : list arg)       (* errors.New, fmt.Errorf without %w *)
  | Wrapf (fmt : string) (args : list arg) (e : err) (* fmt.Errorf with %w *)
  | Join (e1 e2 : err).                           (* errors.Join *)

(** [errors.Is(err, sql.ErrNoRows)] and [errors.Is(err, os.ErrNotExist)]. *)
Fixpoint is_no_rows (e : err) : bool :=
  match e with
  | ErrNoRows => true
  | ErrApplyExecution e | Wrapf _ _ e => is_no_rows e
  | Join e1 e2 => is_no_rows e1 || is_no_rows e2
  | _ => false
  end.

Fixpoint is_not_exist (e : err) : bool :=
  match e with
  | ErrNotExist => true
  | ErrApplyExecution e | Wrapf _ _ e => is_not_exist e
  | Join e1 e2 => is_not_exist e1 || is_not_exist e2
  | _ => false
  end.

(** [errors.Is(err, sentinel)] *)
Fixpoint is_sentinel (text : string) (e : err) : bool :=
  match e with
  | Sentinel t => String.eqb t text
  | ErrApplyExecution e | Wrapf _ _ e => is_sentinel text e
  | Join e1 e2 => is_sentinel text e1 || is_sentinel text e2
  | _ => false
  end.

(** ** The fault monad

    A computation runs against an oracle that decides, one answer per system
    call, whether the call succeeds, fails without effect, reports an error after
    its effect took place, or is the point where the process dies (before or
    after the effect).  An exhausted oracle answers [FOk]. *)

Inductive fault := FOk | FFail | FLost | FCrash | FCrashLate.

Inductive outcome (A : Type) :=
  | Ret (a : A)
  | Error (e : err)
  | Crash.
Arguments Ret {A} _.
Arguments Error {A} _.
Arguments Crash {A}.

Definition oracle := list fault.
Definition M (S A : Type) : Type := oracle → S → outcome A * oracle * S.

Definition draw (o : oracle) : fault * oracle :=
  match o with [] => (FOk, []) | f :: o' => (f, o') end.

Section monad.
Context {S : Type}.

Definition ret {A} (a : A) : M S A := λ o s, (Ret a, o, s).
Definition throw {A} (e : err) : M S A := λ o s, (Error e, o, s).
Definition bind {A B} (m : M S A) (f : A → M S B) : M S B := λ o s,
  match m o s with
  | (Ret a, o', s') => f a o' s'
  | (Error e, o', s') => (Error e, o', s')
  | (Crash, o', s') => (Crash, o', s')
  end.

(** [if err := m; err != nil { return h err }]. *)
Definition catch {A} (m : M S A) (h : err → M S A) : M S A := λ o s,
  match m o s with
  | (Error e, o', s') => h e o' s'
  | r => r
  end.

(** The two-result form [v, err := m]: the error becomes a value. *)
Definition try_ {A} (m : M S A) : M S (err + A) := λ o s,
  match m o s with
  | (Ret a, o', s') => (Ret (inr a), o', s')
  | (Error e, o', s') => (Ret (inl e), o', s')
  | (Crash, o', s') => (Crash, o', s')
  end.

(** [defer c]: the cleanup runs on return and on error, not on a crash; its own
    error is dropped, as [defer] drops it. *)
Definition finally {A} (m : M S A) (c : M S unit) : M S A := λ o s,
  match m o s with
  | (Crash, o', s') => (Crash, o', s')
  | (r, o', s') =>
      match c o' s' with
      | (Crash, o'', s'') => (Crash, o'', s'')
      | (_, o'', s'') => (r, o'', s'')
      end
  end.

(** A read-only system call. *)
Definition io_read {A} (f : S → outcome A) : M S A := λ o s,
  let '(x, o') := draw o in
  match x with
  | FOk => (f s, o', s)
  | FFail | FLost => (Error ErrIO, o', s)
  | FCrash | FCrashLate => (Crash, o', s)
  end.

(** A system call with an atomic effect [f].  When [f] itself answers [Error] it
    leaves the state as it was. *)
Definition io_write {A} (f : S → outcome A * S) : M S A := λ o s,
  let '(x, o') := draw o in
  match x with
  | FOk => let '(r, s') := f s in (r, o', s')
  | FFail => (Error ErrIO, o', s)
  | FLost => let '(_, s') := f s in (Error ErrIO, o', s')
  | FCrash => (Crash, o', s)
  | FCrashLate => let '(_, s') := f s in (Crash, o', s')
  end.

(** A command that the host runs: [None] is one that fails, whatever it did before. *)
Definition host_command {A} (run : S → option A * S) (e : err) : M S A :=
  io_write (λ s, let '(a, s') := run s in (match a with Some x => Ret x | None => Error e end, s')).

(** Process-local state, no system call. *)
Definition gets {A} (f : S → A) : M S A := λ o s, (Ret (f s), o, s).
Definition modify (f : S → S) : M S unit := λ o s, (Ret tt, o, f s).

Definition require (b : bool) (e : err) : M S unit := if b then ret tt else throw e.

Definition lift_option {A} (x : option A) (e : err) : M S A :=
  match x with Some a => ret a | None => throw e end.
(** An answer that is an error is thrown. *)
Definition lift_check {A} (r : err + A) : M S A := match r with inl e => throw e | inr a => ret a end.

(** What is left of a run: the final state, whatever the outcome. *)
Definition final {A} (r : outcome A * oracle * S) : S := snd r.
Definition result {A} (r : outcome A * oracle * S) : outcome A := fst (fst r).
End monad.

Notation "x <- m ;; k" := (bind m (λ x, k))
  (at level 100, m at next level, right associativity) : host_scope.
Notation "'let*' p <- m ;; k" := (bind m (λ x, match x with p => k end))
  (at level 100, p pattern, m at next level, right associativity) : host_scope.
Notation "m ;; k" := (bind m (λ _, k))
  (at level 100, right associativity) : host_scope.
Open Scope host_scope.

(** ** Reasoning about faulty runs

    [safe I m P s]: from [s], under every oracle, [m] ends (returning, failing or
    crashing) in a state satisfying [I], and when it returns a value that value
    and the final state satisfy [P]. *)

Definition safe {S A} (I : S → Prop) (m : M S A) (P : A → S → Prop) (s : S) : Prop :=
  ∀ o, let r := m o s in
       I (final r) ∧ match result r with Ret a => P a (final r) | _ => True end.

Section safe.
Context {S : Type}.
Implicit Types (I : S → Prop) (s : S).

Lemma safe_mono {A} I (m : M S A) (P Q : A → S → Prop) s :
  safe I m P s → (∀ a s', I s' → P a s' → Q a s') → safe I m Q s.
Proof.
  intros H HPQ o. specialize (H o). simpl in *. destruct H as [HI H].
  split; [done|]. destruct (result (m o s)); auto.
Qed.

Lemma safe_inv_mono {A} I J (m : M S A) (P : A → S → Prop) s :
  (∀ s', I s' → J s') → safe I m P s → safe J m P s.
Proof. intros HIJ H o. destruct (H o). split; auto. Qed.

Lemma safe_final {A} I (m : M S A) P s o : safe I m P s → I (final (m o s)).
Proof. intros H. apply (H o). Qed.

Lemma safe_ret {A} I (a : A) P s : I s → P a s → safe I (ret a) P s.
Proof. intros ?? o. done. Qed.

Lemma safe_throw {A} I e (P : A → S → Prop) s : I s → safe I (throw e) P s.
Proof. intros ? o. done. Qed.

Lemma safe_bind {A B} I (m : M S A) (f : A → M S B) P s :
  safe I m (λ a s', safe I (f a) P s') s → safe I (bind m f) P s.
Proof.
  intros H o. specialize (H o). unfold bind, safe, result, final in *. simpl in *.
  destruct (m o s) as [[[a|e|] o'] s']; simpl in *; destruct H as [HI H]; try done; apply (H o').
Qed.

Lemma safe_catch {A} I (m : M S A) h P s :
  (∀ o, let r := m o s in
     I (final r) ∧ match result r with
                   | Ret a => P a (final r)
                   | Error e => safe I (h e) P (final r)
                   | Crash => True end) →
  safe I (catch m h) P s.
Proof.
  intros H o. specialize (H o). unfold catch, safe, result, final in *. simpl in *.
  destruct (m o s) as [[[a|e|] o'] s']; simpl in *; destruct H as [HI H]; try done; apply (H o').
Qed.

(** When the handler only needs the invariant. *)
Lemma safe_catch_inv {A} I (m : M S A) h P s :
  safe I m P s → (∀ e s', I s' → safe I (h e) P s') → safe I (catch m h) P s.
Proof.
  intros H Hh. apply safe_catch. intros o. specialize (H o). simpl in *.
  destruct H as [HI H]. split; [done|].
  destruct (result (m o s)); auto.
Qed.

Lemma safe_try {A} I (m : M S A) P s :
  (∀ o, let r := m o s in
     I (final r) ∧ match result r with
                   | Ret a => P (inr a) (final r)
                   | Error e => P (inl e) (final r)
                   | Crash => True end) →
  safe I (try_ m) P s.
Proof.
  intros H o. specialize (H o). unfold try_, safe, result, final in *. simpl in *.
  destruct (m o s) as [[[a|e|] o'] s']; simpl in *; done.
Qed.

Lemma safe_try_inv {A} I (m : M S A) P Q s :
  safe I m Q s → (∀ a s', I s' → Q a s' → P (inr a) s') → (∀ e s', I s' → P (inl e) s') →
  safe I (try_ m) P s.
Proof.
  intros H Hr He. apply safe_try. intros o. specialize (H o). simpl in *.
  destruct H as [HI H]. split; [done|].
  destruct (result (m o s)); auto.
Qed.

Lemma safe_finally {A} I (m : M S A) c P s :
  safe I m (λ a s', safe I c (λ _ s'', P a s'') s' ∧ ∀ s'', I s'' → P a s'') s →
  (∀ s', I s' → safe I c (λ _ _, True) s') →
  safe I (finally m c) P s.
Proof.
  intros H Hc o. specialize (H o). unfold finally, safe, result, final in *. simpl in *.
  destruct (m o s) as [[[a|e|] o'] s']; simpl in *; destruct H as [HI H]; try done.
  - destruct H as [H Hany]. specialize (H o'). specialize (Hc s' HI o').
    destruct (c o' s') as [[[b|e|] o''] s'']; simpl in *; destruct H as [HI' H]; auto.
  - specialize (Hc s' HI o').
    destruct (c o' s') as [[[b|e'|] o''] s'']; simpl in *; intuition auto.
Qed.

(** The cleanup keeps [P]. *)
Lemma safe_finally_frame {A} I (m : M S A) c P s :
  safe I m P s →
  (∀ (Q : S → Prop) s', (∃ a, Q = P a) ∨ Q = (λ _, True) → I s' → Q s' →
     ∀ o, I (final (c o s')) ∧ Q (final (c o s'))) →
  safe I (finally m c) P s.
Proof.
  intros H Hc o. specialize (H o). unfold finally, safe, result, final in *. simpl in *.
  destruct (m o s) as [[[a|e|] o'] s']; simpl in *; destruct H as [HI H]; try done.
  - destruct (Hc (P a) s' (or_introl (ex_intro _ a eq_refl)) HI H o') as [H1 H2].
    destruct (c o' s') as [[[b|e|] o''] s'']; simpl in *; auto.
  - destruct (Hc (λ _, True) s' (or_intror eq_refl) HI Logic.I o') as [H1 _].
    destruct (c o' s') as [[[b|e'|] o''] s'']; simpl in *; auto.
Qed.

Lemma safe_io_read {A} I (f : S → outcome A) P s :
  I s → (∀ a, f s = Ret a → P a s) → safe I (io_read f) P s.
Proof.
  intros HI HP o. unfold io_read, result, final. simpl.
  destruct (draw o) as [[] o']; simpl; try done.
  split; [done|]. destruct (f s) eqn:E; auto.
Qed.

Lemma safe_io_write {A} I (f : S → outcome A * S) P s :
  I s → I (snd (f s)) → (∀ a s', f s = (Ret a, s') → P a s') → safe I (io_write f) P s.
Proof.
  intros HI HI' HP o. unfold io_write, result, final. simpl.
  destruct (draw o) as [[] o']; simpl; try done;
    destruct (f s) as [r s'] eqn:E; simpl in *; split; try done.
  destruct r; auto.
Qed.

Lemma safe_host_command {A} I (run : S → option A * S) e P s : I s →
  (∀ a s', run s = (a, s') → I s' ∧ ∀ x, a = Some x → P x s') → safe I (host_command run e) P s.
Proof.
  intros HI Hx. unfold host_command. destruct (run s) as [a s'] eqn:E. destruct (Hx _ _ eq_refl) as [H1 H2].
  apply safe_io_write; rewrite ?E; [done|done|]. intros x s'' [= Ho <-]. destruct a; [|done]. injection Ho as ->. by apply H2.
Qed.

Lemma safe_gets {A} I (f : S → A) P s : I s → P (f s) s → safe I (gets f) P s.
Proof. intros ?? o. done. Qed.

Lemma safe_modify I (f : S → S) P s : I (f s) → P tt (f s) → safe I (modify f) P s.
Proof. intros ?? o. done. Qed.

Lemma safe_require I b e P s : I s → (b = true → P tt s) → safe I (require b e) P s.
Proof. intros HI HP o. destruct b; split; simpl; auto. Qed.

Lemma safe_lift_option {A} I (x : option A) e P s :
  I s → (∀ a, x = Some a → P a s) → safe I (lift_option x e) P s.
Proof. intros HI HP o. destruct x; split; simpl; auto. Qed.

Lemma safe_lift_check {A} I (r : err + A) P s : I s → (∀ a, r = inr a → P a s) → safe I (lift_check r) P s.
Proof. intros HI HP o. destruct r; split; simpl; auto. Qed.
End safe.

Create HintDb safe.

(** One step of a [safe] goal, following the shape of the program. *)
Ltac safe_step :=
  lazymatch goal with
  | |- safe _ (bind _ _) _ _ => apply safe_bind
  | |- safe _ (ret _) _ _ => apply safe_ret
  | |- safe _ (throw _) _ _ => apply safe_throw
  | |- safe _ (io_read _) _ _ => apply safe_io_read; [|let a := fresh "a" in intros a ?]
  | |- safe _ (io_write _) _ _ => apply safe_io_write; [| |let a := fresh "a" in let s := fresh "s" in intros a s ?]
  | |- safe _ (gets _) _ _ => apply safe_gets
  | |- safe _ (modify _) _ _ => apply safe_modify
  | |- safe _ (require _ _) _ _ => apply safe_require; [|intros ?]
  | |- safe _ (lift_option _ _) _ _ => apply safe_lift_option; [|let a := fresh "a" in intros a ?]
  | |- safe _ (lift_check _) _ _ => apply safe_lift_check; [|let a := fresh "a" in intros a ?]
  | |- safe _ (match ?x with _ => _ end) _ _ => destruct x eqn:?
  | |- safe _ (let '(_, _) := ?x in _) _ _ => destruct x eqn:?
  end.

(** ** Lists and maps *)

(** Building a map by inserting list elements under their keys. *)
Lemma foldl_insert_lookup {K A} `{Countable K} (key : A → K) (l : list A) (m : gmap K A) n a :
  (∀ x y, x ∈ l → y ∈ l → key x = key y → x = y) →
  foldl (λ m a, <[key a := a]> m) m l !! n = Some a ↔
  (a ∈ l ∧ key a = n) ∨ (m !! n = Some a ∧ ∀ b, b ∈ l → key b ≠ n).
Proof.
  revert m. induction l as [|x l IH]; intros m Hinj; simpl.
  - split; [intros; right; split; [done|set_solver]|]. intros [[? _]|[? _]]; [set_solver|done].
  - rewrite IH by (intros; apply Hinj; set_solver). split.
    + intros [[Ha Hk]|[[[<- <-]|[Hne Hm]]%lookup_insert_Some Hb]]; [set_solver..|].
      right. split; [done|]. intros b [->|Hin]%elem_of_cons; eauto.
    + intros [[[->|Hin]%elem_of_cons Hk]|[Hm Hb]].
      * destruct (decide (n ∈ map key l)) as [(b & Hbk & Hb)%list_elem_of_fmap|Hno].
        { left. assert (b = x) as -> by (apply Hinj; set_solver). done. }
        right. subst n. rewrite lookup_insert_eq. split; [done|]. intros b Hb Hbk.
        apply Hno. rewrite <-Hbk. by apply list_elem_of_fmap_2.
      * left. done.
      * right. split; [|set_solver]. rewrite lookup_insert_ne; set_solver.
Qed.

(** ** Sorting *)

Section sorting.
Context {A : Type} (leb : A → A → bool).

Fixpoint insert_by (x : A) (l : list A) : list A :=
  match l with
  | [] => [x]
  | y :: l' => if leb x y then x :: l else y :: insert_by x l'
  end.
Definition sort_by (l : list A) : list A := foldr insert_by [] l.

Lemma insert_by_perm x l : insert_by x l ≡ₚ x :: l.
Proof.
  induction l as [|y l IH]; simpl; [done|]. destruct (leb x y); [done|].
  rewrite IH. apply Permutation_swap.
Qed.
Lemma sort_by_perm l : sort_by l ≡ₚ l.
Proof. induction l as [|x l IH]; simpl; [done|]. by rewrite insert_by_perm, IH. Qed.
Lemma elem_of_sort_by x l : x ∈ sort_by l ↔ x ∈ l.
Proof. by rewrite sort_by_perm. Qed.
Lemma NoDup_sort_by l : NoDup (sort_by l) ↔ NoDup l.
Proof. by rewrite sort_by_perm. Qed.
Lemma length_sort_by l : length (sort_by l) = length l.
Proof. apply Permutation_length, sort_by_perm. Qed.

Context (Htotal : ∀ x y, leb x y = false → leb y x = true).
Context (Htrans : ∀ x y z, leb x y = true → leb y z = true → leb x z = true).

Lemma insert_by_sorted x l : StronglySorted (λ a b, leb a b = true) l → StronglySorted (λ a b, leb a b = true) (insert_by x l).
Proof.
  induction 1 as [|y l Hl IH Hy]; simpl; [by repeat constructor|].
  destruct (leb x y) eqn:E; constructor; try done.
  - by constructor.
  - constructor; [done|]. eapply Forall_impl; [exact Hy|]. eauto.
  - rewrite insert_by_perm. constructor; auto.
Qed.
Lemma sort_by_sorted l : StronglySorted (λ a b, leb a b = true) (sort_by l).
Proof. induction l; [constructor|]. simpl. by apply insert_by_sorted. Qed.

(** Sorting is the identity on sorted lists, so two permutations sort alike when the
    order is antisymmetric. *)
Lemma sort_by_id l : StronglySorted (λ a b, leb a b = true) l → sort_by l = l.
Proof.
  induction 1 as [|x l Hl IH Hx]; [done|]. simpl. rewrite IH.
  destruct Hx as [|y l Hy]; simpl; [done|]. by rewrite Hy.
Qed.
Lemma sorted_unique l k : (∀ x y, leb x y = true → leb y x = true → x = y) →
  l ≡ₚ k → StronglySorted (λ a b, leb a b = true) l → StronglySorted (λ a b, leb a b = true) k → l = k.
Proof.
  intros Ha Hp Hl. revert k Hp. induction Hl as [|x l Hl IH Hx]; intros k Hp Hk.
  - by apply Permutation_nil_l in Hp.
  - destruct Hk as [|y k Hk Hy]; [by apply Permutation_nil_r in Hp|].
    assert (x = y) as ->.
    { assert (x ∈ y :: k) as [->|Hxk]%elem_of_cons by (rewrite <-Hp; set_solver); [done|].
      assert (y ∈ x :: l) as [->|Hyl]%elem_of_cons by (rewrite Hp; set_solver); [done|].
      rewrite Forall_forall in Hx, Hy. apply Ha; auto. }
    f_equal. apply IH; [by eapply Permutation_cons_inv|done].
Qed.
End sorting.

(** ** Checks

    Validation code returns at the first check that fails: [fails b e] is
    [if b { return e }], [then?] continues after a check that passed, and [fold_err]
    is a loop that carries state and may return. *)

Declare Scope check_scope.
Delimit Scope check_scope with check.

Definition fails (b : bool) (e : err) : err + unit := if b then inl e else inr tt.
Definition err_bind {A B} (m : err + A) (f : A → err + B) : err + B :=
  match m with inl e => inl e | inr a => f a end.
Definition wrap_err {A} (fmt : string) (args : list arg) (m : err + A) : err + A :=
  match m with inl e => inl (Wrapf fmt args e) | inr a => inr a end.
Definition of_option {A} (x : option A) (e : err) : err + A := match x with Some a => inr a | None => inl e end.
Definition refused (x : option err) : err + unit := match x with Some e => inl e | None => inr tt end.
Fixpoint fold_err {A S} (f : S → A → err + S) (s : S) (l : list A) : err + S :=
  match l with
  | [] => inr s
  | a :: l' => match f s a with inl e => inl e | inr s' => fold_err f s' l' end
  end.
Definition each {A} (f : A → err + unit) (l : list A) : err + unit := fold_err (λ _ a, f a) tt l.

Notation "m 'then?' k" := (err_bind m (λ _, k)) (at level 100, k at level 200, right associativity, only parsing) : check_scope.
Notation "x '<-?' m ';;' k" := (err_bind m (λ x, k)) (at level 100, m at next level, right associativity, only parsing) : check_scope.

Lemma fails_ok b e u : fails b e = inr u ↔ b = false.
Proof. destruct b, u; simpl; split; intros H; congruence. Qed.
Lemma err_bind_ok {A B} (m : err + A) (f : A → err + B) b : err_bind m f = inr b ↔ ∃ a, m = inr a ∧ f a = inr b.
Proof. destruct m; simpl; naive_solver. Qed.
Lemma wrap_err_ok {A} fmt args (m : err + A) a : wrap_err fmt args m = inr a ↔ m = inr a.
Proof. destruct m; simpl; naive_solver. Qed.
Lemma of_option_ok {A} (x : option A) e a : of_option x e = inr a ↔ x = Some a.
Proof. destruct x; simpl; naive_solver. Qed.
Lemma refused_ok x u : refused x = inr u ↔ x = None.
Proof. destruct x, u; simpl; split; congruence. Qed.

(** A loop that returned its state keeps an invariant of the elements gone through. *)
Lemma fold_err_inv {A S} (f : S → A → err + S) (I : list A → S → Prop) l :
  (∀ pre a s s', a ∈ l → I pre s → f s a = inr s' → I (pre ++ [a]) s') →
  ∀ s s', I [] s → fold_err f s l = inr s' → I l s'.
Proof.
  intros Hstep. enough (∀ pre s s', I pre s → fold_err f s l = inr s' → I (pre ++ l) s') as H by (intros; by eapply (H [])).
  induction l as [|a l IH]; intros pre s s' HI; simpl.
  - intros [= <-]. by rewrite app_nil_r.
  - destruct (f s a) as [|s1] eqn:E; [done|]. intros H.
    replace (pre ++ a :: l) with ((pre ++ [a]) ++ l) by by rewrite <-app_assoc.
    eapply IH; [| |exact H]; [|by eapply Hstep; [left| |]]. intros. eapply Hstep; [by right| |]; done.
Qed.
Lemma fold_err_app {A S} (f : S → A → err + S) l1 l2 s :
  fold_err f s (l1 ++ l2) = err_bind (fold_err f s l1) (λ s, fold_err f s l2).
Proof. revert s. induction l1 as [|a l1 IH]; intros s; simpl; [done|]. destruct (f s a); [done|apply IH]. Qed.
Lemma each_ok {A} (f : A → err + unit) l u : each f l = inr u ↔ Forall (λ a, f a = inr tt) l.
Proof.
  destruct u. unfold each. induction l as [|a l IH]; simpl; [naive_solver|]. rewrite Forall_cons.
  destruct (f a) as [|[]] eqn:E; [naive_solver|]. rewrite IH. naive_solver.
Qed.
#[export] Hint Rewrite @fails_ok @wrap_err_ok @of_option_ok @refused_ok @each_ok : checks.

(** A loop that refuses a key it has seen: [mem] is the set or the domain of the table
    in its state. *)
Lemma fold_err_unique {A S K} (f : S → A → err + S) (mem : S → K → Prop) (key : A → K) (P : A → Prop) l s s' :
  (∀ s a s', f s a = inr s' → ¬ mem s (key a) ∧ (∀ k, mem s' k ↔ k = key a ∨ mem s k) ∧ P a) →
  fold_err f s l = inr s' →
  NoDup (map key l) ∧ (∀ k, mem s' k ↔ k ∈ map key l ∨ mem s k) ∧ (∀ k, k ∈ map key l → ¬ mem s k) ∧ Forall P l.
Proof.
  intros Hf. revert s. induction l as [|a l IH]; intros s; simpl.
  - intros [= <-]. split; [constructor|]. split; [|split; [|constructor]]; set_solver.
  - destruct (f s a) as [|s1] eqn:E; [done|]. intros H. apply Hf in E as (Hnew & Hmem & HP).
    destruct (IH _ H) as (Hnd & Hk & Hfresh & Hall). split; [|split; [|split; [|by constructor]]].
    + constructor; [|done]. intros Hin. eapply Hfresh; [exact Hin|]. apply Hmem. by left.
    + intros k. rewrite Hk, Hmem, elem_of_cons. tauto.
    + intros k [->|Hin]%elem_of_cons; [done|]. specialize (Hfresh k Hin). rewrite Hmem in Hfresh. tauto.
Qed.

(** A loop that fills a table without overwriting. *)
Lemma fold_err_table {A S K V} `{Countable K} (f : S → A → err + S) (tab : S → gmap K V) (key : A → K) (val : A → V) l s s' :
  (∀ s a s', f s a = inr s' → tab s !! key a = None ∧ tab s' = <[key a := val a]> (tab s)) →
  fold_err f s l = inr s' →
  ∀ k v, tab s' !! k = Some v ↔ (∃ a, a ∈ l ∧ key a = k ∧ val a = v) ∨ tab s !! k = Some v.
Proof.
  intros Hf. revert s. induction l as [|a l IH]; intros s; simpl.
  - intros [= <-] k v. split; [by right|]. intros [(a & Ha & _)|]; [set_solver|done].
  - destruct (f s a) as [|s1] eqn:E; [done|]. intros Hl k v. rewrite (IH _ Hl k v). apply Hf in E as [Hnew ->].
    rewrite lookup_insert_Some. split.
    + intros [(b & Hb & Hk)|[[<- <-]|[Hne Hs]]]; [left|left|by right]; [exists b|exists a]; set_solver.
    + intros [(b & [->|Hb]%elem_of_cons & <- & <-)|Hs]; [by right; left|by left; exists b|].
      right. destruct (decide (key a = k)) as [<-|]; [congruence|by right].
Qed.

Ltac invert_checks :=
  repeat match goal with
  | H : err_bind _ _ = inr _ |- _ => apply err_bind_ok in H as (? & ? & H)
  | H : fails _ _ = inr _ |- _ => apply fails_ok in H
  | H : wrap_err _ _ _ = inr _ |- _ => apply wrap_err_ok in H
  | H : of_option _ _ = inr _ |- _ => apply of_option_ok in H
  | H : refused _ = inr _ |- _ => apply refused_ok in H
  | H : each _ _ = inr _ |- _ => apply each_ok in H
  | H : inl _ = inr _ |- _ => discriminate H
  | H : inr _ = inr _ |- _ => injection H as H
  | H : _ || _ = false |- _ => apply orb_false_iff in H as [? H]
  | H : negb _ = false |- _ => apply negb_false_iff in H
  | H : negb _ = true |- _ => apply negb_true_iff in H
  | H : bool_decide _ = false |- _ => apply bool_decide_eq_false in H
  | H : bool_decide _ = true |- _ => apply bool_decide_eq_true in H
  | H : String.eqb _ _ = true |- _ => apply String.eqb_eq in H
  | H : String.eqb _ _ = false |- _ => apply String.eqb_neq in H
  | u : unit |- _ => destruct u
  end.

Lemma sort_by_ext {A} (leb leb' : A → A → bool) l :
  (∀ a b, a ∈ l → b ∈ l → leb a b = leb' a b) → sort_by leb l = sort_by leb' l.
Proof.
  assert (∀ x l, (∀ y, y ∈ l → leb x y = leb' x y) → insert_by leb x l = insert_by leb' x l) as Hins.
  { intros x k. induction k as [|y k IH]; simpl; [done|]. intros H. rewrite H by set_solver.
    destruct (leb' x y); [done|]. f_equal. apply IH. set_solver. }
  induction l as [|x l IH]; simpl; [done|]. intros H. rewrite IH by (intros; apply H; set_solver).
  apply Hins. intros y Hy%elem_of_sort_by. apply H; set_solver.
Qed.
