(* ===== verification/Sha256.v ===== *)
(** SHA-256 as [crypto/sha256.Sum256] computes it, over Rocq strings read as
    byte strings, with the hexadecimal codecs of [encoding/hex].  Every
    checksum of the program (generation scripts, snapshots, fingerprints,
    ledger digests) goes through [sha256_hex]. *)

From Stdlib Require Import NArith PeanoNat List String Ascii Bool Lia.
Import ListNotations.
Local Open Scope N_scope.

(** ** 32-bit word operations *)

Definition word_mask : N := 0xffffffff.
Definition w32 (x : N) : N := N.land x word_mask.
Definition add32 (x y : N) : N := w32 (x + y).
Definition rotr32 (n x : N) : N :=
  N.lor (N.shiftr x n) (w32 (N.shiftl x (32 - n))).
Definition not32 (x : N) : N := N.lxor x word_mask.

Definition choose (x y z : N) : N := N.lxor (N.land x y) (N.land (not32 x) z).
Definition majority (x y z : N) : N :=
  N.lxor (N.lxor (N.land x y) (N.land x z)) (N.land y z).
Definition big_sigma0 (x : N) : N := N.lxor (N.lxor (rotr32 2 x) (rotr32 13 x)) (rotr32 22 x).
Definition big_sigma1 (x : N) : N := N.lxor (N.lxor (rotr32 6 x) (rotr32 11 x)) (rotr32 25 x).
Definition small_sigma0 (x : N) : N := N.lxor (N.lxor (rotr32 7 x) (rotr32 18 x)) (N.shiftr x 3).
Definition small_sigma1 (x : N) : N := N.lxor (N.lxor (rotr32 17 x) (rotr32 19 x)) (N.shiftr x 10).

(** The constants are the leading fractional bits of roots of the first primes:
    cube roots for the rounds, square roots for the initial state. *)
Fixpoint cube_root_from (bits : nat) (root n : N) : N :=
  match bits with
  | O => root
  | S b =>
      let next := root + N.shiftl 1 (N.of_nat b) in
      cube_root_from b (if next * next * next <=? n then next else root) n
  end.
Definition is_prime (n : nat) : bool :=
  Nat.ltb 1 n && forallb (fun d => negb (Nat.eqb (Nat.modulo n d) 0)) (seq 2 (n - 2)%nat).
Definition primes : list N := Eval vm_compute in map N.of_nat (List.filter is_prime (seq 0 312)).

Definition round_constants : list N :=
  Eval vm_compute in map (fun p => w32 (cube_root_from 35 0 (N.shiftl p 96))) primes.

(** The working state is an 8-tuple of words. *)
Definition hstate : Type := (N * N * N * N * (N * N * N * N))%type.

Definition initial_state : hstate :=
  Eval vm_compute in
    match map (fun p => w32 (N.sqrt (N.shiftl p 64))) primes with
    | a :: b :: c :: d :: e :: f :: g :: h :: _ => (a, b, c, d, (e, f, g, h))
    | _ => (0, 0, 0, 0, (0, 0, 0, 0))
    end.

(** The message schedule keeps the last sixteen words, oldest first: each
    round consumes the oldest and appends the next. *)
Definition next_word (window : list N) : N :=
  add32 (add32 (small_sigma1 (nth 14 window 0)) (nth 9 window 0))
        (add32 (small_sigma0 (nth 1 window 0)) (nth 0 window 0)).

Definition round (k w : N) (st : hstate) : hstate :=
  let '(a, b, c, d, (e, f, g, h)) := st in
  let t1 := add32 (add32 (add32 h (big_sigma1 e)) (add32 (choose e f g) k)) w in
  let t2 := add32 (big_sigma0 a) (majority a b c) in
  (add32 t1 t2, a, b, c, (add32 d t1, e, f, g)).

Fixpoint rounds (ks : list N) (window : list N) (st : hstate) : hstate :=
  match ks with
  | [] => st
  | k :: ks' =>
      let st' := round k (hd 0 window) st in
      rounds ks' (tl window ++ [next_word window]) st'
  end.

Definition compress (block : list N) (st : hstate) : hstate :=
  let '(a, b, c, d, (e, f, g, h)) := st in
  let '(a', b', c', d', (e', f', g', h')) := rounds round_constants block st in
  (add32 a a', add32 b b', add32 c c', add32 d d',
   (add32 e e', add32 f f', add32 g g', add32 h h')).

(** ** Padding and block splitting *)

Fixpoint bytes_of_string (s : string) : list N :=
  match s with
  | EmptyString => []
  | String c s' => N_of_ascii c :: bytes_of_string s'
  end.

Fixpoint be_bytes (n : nat) (x : N) : list N :=
  match n with
  | O => []
  | S n' => be_bytes n' (N.shiftr x 8) ++ [N.land x 255]
  end.

Definition pad_zeros (len : nat) : nat := Nat.modulo (119 - Nat.modulo len 64)%nat 64.

Definition pad (msg : list N) : list N :=
  (msg ++ [128] ++ repeat 0 (pad_zeros (List.length msg)) ++ be_bytes 8 (8 * N.of_nat (List.length msg)))%list.

Fixpoint words_of_bytes (l : list N) : list N :=
  match l with
  | a :: b :: c :: d :: l' =>
      (N.shiftl a 24 + N.shiftl b 16 + N.shiftl c 8 + d) :: words_of_bytes l'
  | _ => []
  end.

Fixpoint process (fuel : nat) (ws : list N) (st : hstate) : hstate :=
  match fuel with
  | O => st
  | S fuel' =>
      match ws with
      | [] => st
      | _ => process fuel' (skipn 16 ws) (compress (firstn 16 ws) st)
      end
  end.

Definition state_words (st : hstate) : list N :=
  let '(a, b, c, d, (e, f, g, h)) := st in [a; b; c; d; e; f; g; h].

(** [sha256.Sum256]: the 32 digest bytes.  A block is sixteen words, so the
    number of words is more fuel than the blocks need. *)
Definition sha256 (s : string) : list N :=
  let ws := words_of_bytes (pad (bytes_of_string s)) in
  flat_map (be_bytes 4) (state_words (process (List.length ws) ws initial_state)).

(** ** Hexadecimal *)

Definition hex_digit (n : N) : ascii :=
  ascii_of_N (if n <? 10 then 48 + n else 87 + n).

(** [hex.EncodeToString] *)
Fixpoint hex_encode (l : list N) : string :=
  match l with
  | [] => EmptyString
  | b :: l' => String (hex_digit (N.land (N.shiftr b 4) 15)) (String (hex_digit (N.land b 15)) (hex_encode l'))
  end.

(** One hexadecimal digit of either case, as [hex.DecodeString] accepts it. *)
Definition hex_value (c : ascii) : option N :=
  let n := N_of_ascii c in
  if (48 <=? n) && (n <=? 57) then Some (n - 48)
  else if (97 <=? n) && (n <=? 102) then Some (n - 87)
  else if (65 <=? n) && (n <=? 70) then Some (n - 55)
  else None.

(** [hex.DecodeString]: [None] is its error (odd length or a foreign byte). *)
Fixpoint hex_decode (s : string) : option (list N) :=
  match s with
  | EmptyString => Some []
  | String a (String b s') =>
      match hex_value a, hex_value b, hex_decode s' with
      | Some x, Some y, Some l => Some (16 * x + y :: l)
      | _, _, _ => None
      end
  | String _ EmptyString => None
  end.

Definition sha256_hex (s : string) : string := hex_encode (sha256 s).

(** ** Lemmas *)

Lemma length_be_bytes n x : List.length (be_bytes n x) = n.
Proof.
  revert x; induction n as [|n IH]; intros x; [reflexivity|].
  simpl; rewrite length_app, IH; simpl; lia.
Qed.

Lemma land_255_lt x : N.land x 255 < 256.
Proof.
  change 255 with (N.ones 8). rewrite N.land_ones. now apply N.mod_lt.
Qed.

Lemma be_bytes_range n x : Forall (fun b => b < 256) (be_bytes n x).
Proof.
  revert x; induction n as [|n IH]; intros x; simpl; [constructor|].
  apply Forall_app; split; [apply IH|].
  constructor; [apply land_255_lt | constructor].
Qed.

Lemma length_sha256 s : List.length (sha256 s) = 32%nat.
Proof.
  unfold sha256, state_words.
  destruct (process _ _ _) as [[[[a b] c] d] [[[e f] g] h]].
  cbn [flat_map]. now rewrite !length_app, !length_be_bytes.
Qed.

Lemma flat_map_be_bytes_range ws : Forall (fun b => b < 256) (flat_map (be_bytes 4) ws).
Proof.
  induction ws as [|w ws IH]; [constructor|].
  cbn [flat_map]. apply Forall_app; split; [apply be_bytes_range | exact IH].
Qed.

Lemma sha256_range s : Forall (fun b => b < 256) (sha256 s).
Proof. apply flat_map_be_bytes_range. Qed.

Lemma hex_value_digit n : n < 16 -> hex_value (hex_digit n) = Some n.
Proof.
  intros H.
  assert (Hn : n = N.of_nat (N.to_nat n)) by lia. rewrite Hn.
  assert (Hlt : (N.to_nat n < 16)%nat) by lia.
  revert Hlt. generalize (N.to_nat n). intros m Hm.
  do 16 (destruct m as [|m]; [reflexivity|]). lia.
Qed.

Lemma nibbles b : b < 256 -> 16 * N.land (N.shiftr b 4) 15 + N.land b 15 = b.
Proof.
  intros H. change 15 with (N.ones 4). rewrite !N.land_ones, N.shiftr_div_pow2.
  change (2 ^ 4) with 16.
  rewrite (N.mod_small (b / 16)); [symmetry; apply N.div_mod; discriminate|].
  apply N.Div0.div_lt_upper_bound; lia.
Qed.

Lemma land_15_lt b : N.land b 15 < 16.
Proof. change 15 with (N.ones 4). rewrite N.land_ones. now apply N.mod_lt. Qed.

(** Decoding inverts encoding on byte strings. *)
Lemma hex_decode_encode l : Forall (fun b => b < 256) l -> hex_decode (hex_encode l) = Some l.
Proof.
  induction 1 as [|b l Hb _ IH]; [reflexivity|].
  cbn [hex_encode hex_decode]. rewrite !hex_value_digit by apply land_15_lt.
  rewrite IH. cbv iota. now rewrite nibbles by assumption.
Qed.

Lemma hex_decode_sha256_hex s : hex_decode (sha256_hex s) = Some (sha256 s).
Proof. apply hex_decode_encode, sha256_range. Qed.

(** The padded message is a number of whole blocks, and the fuel is enough for them: more
    gives the same. *)
Lemma pad_blocks msg : exists n, List.length (pad msg) = (64 * n)%nat.
Proof.
  unfold pad, pad_zeros. rewrite !length_app, repeat_length, length_be_bytes. set (k := List.length msg).
  exists (Nat.sub (Nat.add (Nat.div k 64) 2) (Nat.div (Nat.sub 119 (Nat.modulo k 64)) 64)).
  pose proof (Nat.div_mod_eq k 64%nat). pose proof (Nat.mod_upper_bound k 64 ltac:(lia)).
  pose proof (Nat.div_mod_eq (Nat.sub 119 (Nat.modulo k 64)) 64). pose proof (Nat.mod_upper_bound (Nat.sub 119 (Nat.modulo k 64)) 64 ltac:(lia)).
  simpl List.length. lia.
Qed.
Lemma process_fuel fuel ws st : (List.length ws <= fuel)%nat -> process fuel ws st = process (List.length ws) ws st.
Proof.
  assert (forall n ws st f f', List.length ws <= n -> List.length ws <= f -> List.length ws <= f' ->
    process f ws st = process f' ws st)%nat as H.
  { induction n as [|n IH]; intros ws' st' f f' Hn Hf Hf'.
    - destruct ws'; [|simpl in Hn; lia]. destruct f, f'; reflexivity.
    - destruct f as [|f], f' as [|f']; destruct ws' as [|w ws']; try reflexivity; try (simpl in *; lia).
      cbn [process]. apply IH; rewrite length_skipn; simpl in *; lia. }
  intros Hl. apply (H (List.length ws)); lia.
Qed.

(** Published test vectors. *)
Example sha256_empty :
  sha256_hex "" = "e3b0c44298fc1c149afbf4c8996fb92427ae41e4649b934ca495991b7852b855"%string.
Proof. vm_compute. reflexivity. Qed.

Example sha256_abc :
  sha256_hex "abc" = "ba7816bf8f01cfea414140de5dae2223b00361a396177a9cb410ff61f20015ad"%string.
Proof. vm_compute. reflexivity. Qed.

Example sha256_two_blocks :
  sha256_hex "abcdbcdecdefdefgefghfghighijhijkijkljklmklmnlmnomnopnopq"
  = "248d6a61d20638b8e5c026930c3e6039a33ce45964ff2167f6ecedd419db06c1"%string.
Proof. vm_compute. reflexivity. Qed.
