(* ===== verification/GoStrings.v ===== *)
(** Byte strings as the program's Go code uses them: the functions of packages
    [strings], [strconv] and [fmt] that the modelled components call, and the
    character classes of their regular expressions. *)

From S2P Require Import Prelude Sha256.
From Stdlib Require Import Ascii String.
Local Open Scope string_scope.
Abbreviation length := List.length.

Abbreviation slen := String.length.

(** ** Characters *)

Definition code (c : ascii) : N := N_of_ascii c.
Definition in_range (lo hi : N) (c : ascii) : bool := (lo <=? code c)%N && (code c <=? hi)%N.
Definition is_digit : ascii → bool := in_range 48 57.
Definition is_upper : ascii → bool := in_range 65 90.
Definition is_lower : ascii → bool := in_range 97 122.
Definition is_alpha (c : ascii) : bool := is_upper c || is_lower c.
Definition is_alnum (c : ascii) : bool := is_alpha c || is_digit c.
Definition lower_hex (c : ascii) : bool := is_digit c || in_range 97 102 c.

(** ASCII white space: tab, newline, vertical tab, form feed, carriage return, space. *)
Definition is_space (c : ascii) : bool := in_range 9 13 c || (code c =? 32)%N.

Definition one_of (cs : string) (c : ascii) : bool :=
  existsb (Ascii.eqb c) (list_ascii_of_string cs).

(** ** Strings as lists of bytes *)

Definition chars (s : string) : list ascii := list_ascii_of_string s.
Definition of_chars (l : list ascii) : string := string_of_list_ascii l.

Definition all_chars (p : ascii → bool) (s : string) : bool := forallb p (chars s).

(** A regular expression [^c1 c2{lo,hi}$]: one character of the first class, then
    [lo] to [hi] characters of the second. *)
Definition matches_head_tail (first rest : ascii → bool) (lo hi : nat) (s : string) : bool :=
  match chars s with
  | [] => false
  | c :: l => first c && forallb rest l && (lo <=? length l)%nat && (length l <=? hi)%nat
  end.

Definition has_prefix (s pre : string) : bool := String.prefix pre s.

Definition trim_prefix (s pre : string) : string :=
  if has_prefix s pre then substring (slen pre) (slen s - slen pre) s else s.

Fixpoint drop_while {A} (p : A → bool) (l : list A) : list A :=
  match l with
  | [] => []
  | x :: l' => if p x then drop_while p l' else l
  end.

Definition trim_list {A} (p : A → bool) (l : list A) : list A :=
  rev (drop_while p (rev (drop_while p l))).

(** [strings.Trim(s, cutset)] *)
Definition trim (s cutset : string) : string := of_chars (trim_list (one_of cutset) (chars s)).
Definition to_lower_char (c : ascii) : ascii :=
  if is_upper c then ascii_of_N (code c + 32) else c.
Definition to_lower (s : string) : string := of_chars (map to_lower_char (chars s)).

(** [strings.FieldsFunc]: maximal runs of characters that are not separators. *)
Fixpoint fields_go (sep : ascii → bool) (acc : list ascii) (l : list ascii) : list string :=
  match l with
  | [] => match acc with [] => [] | _ => [of_chars (rev acc)] end
  | c :: l' =>
      if sep c
      then match acc with
           | [] => fields_go sep [] l'
           | _ => of_chars (rev acc) :: fields_go sep [] l'
           end
      else fields_go sep (c :: acc) l'
  end.
Definition fields_func (sep : ascii → bool) (s : string) : list string := fields_go sep [] (chars s).

(** The white space of [unicode.IsSpace] beyond ASCII, in UTF-8.  A lead byte never
    continues another sequence, so matching at any byte position is exact. *)
Definition space2 (a b : ascii) : bool :=
  (code a =? 0xc2)%N && ((code b =? 0x85)%N || (code b =? 0xa0)%N).
Definition space3 (a b c : ascii) : bool :=
  (code a =? 0xe1)%N && (code b =? 0x9a)%N && (code c =? 0x80)%N ||
  (code a =? 0xe2)%N && (code b =? 0x80)%N &&
    (in_range 0x80 0x8a c || (code c =? 0xa8)%N || (code c =? 0xa9)%N || (code c =? 0xaf)%N) ||
  (code a =? 0xe2)%N && (code b =? 0x81)%N && (code c =? 0x9f)%N ||
  (code a =? 0xe3)%N && (code b =? 0x80)%N && (code c =? 0x80)%N.

(** Every such sequence becomes one space. *)
Fixpoint ascii_spaces (l : list ascii) : list ascii :=
  match l with
  | [] => []
  | a :: l1 =>
      match l1 with
      | [] => [a]
      | b :: l2 =>
          if space2 a b then " "%char :: ascii_spaces l2
          else match l2 with
               | [] => a :: ascii_spaces l1
               | c :: l3 => if space3 a b c then " "%char :: ascii_spaces l3 else a :: ascii_spaces l1
               end
      end
  end.

(** [strings.TrimSpace]: white space from the front, then from the back. *)
Fixpoint drop_spaces (l : list ascii) : list ascii :=
  match l with
  | a :: l1 =>
      if is_space a then drop_spaces l1
      else match l1 with
           | b :: l2 =>
               if space2 a b then drop_spaces l2
               else match l2 with c :: l3 => if space3 a b c then drop_spaces l3 else l | [] => l end
           | [] => l
           end
  | [] => []
  end.
Fixpoint drop_spaces_rev (l : list ascii) : list ascii :=
  match l with
  | c :: l1 =>
      if is_space c then drop_spaces_rev l1
      else match l1 with
           | b :: l2 =>
               if space2 b c then drop_spaces_rev l2
               else match l2 with a :: l3 => if space3 a b c then drop_spaces_rev l3 else l | [] => l end
           | [] => l
           end
  | [] => []
  end.
Definition trim_space (s : string) : string :=
  of_chars (rev (drop_spaces_rev (rev (drop_spaces (chars s))))).

(** [strings.Fields].  [strings.TrimSpace s == ""] is [fields s = []]. *)
Definition fields (s : string) : list string := fields_go is_space [] (ascii_spaces (chars s)).

(** [strings.ReplaceAll] for single-character strings. *)
Definition replace_char (a b : ascii) (s : string) : string :=
  of_chars (map (λ c, if Ascii.eqb c a then b else c) (chars s)).

(** [strings.Join] *)
Definition join (sep : string) (l : list string) : string := String.concat sep l.

(** ** Byte order *)

(** Go's [<] on strings, and SQLite's BINARY collation of TEXT. *)
Fixpoint str_ltb (a b : string) : bool :=
  match a, b with
  | EmptyString, EmptyString => false
  | EmptyString, String _ _ => true
  | String _ _, EmptyString => false
  | String x a', String y b' =>
      (code x <? code y)%N || ((code x =? code y)%N && str_ltb a' b')
  end.
Definition str_leb (a b : string) : bool := negb (str_ltb b a).
(** [sort.Strings] *)
Definition sort_strings : list string → list string := sort_by str_leb.

(** ** Numbers *)

Definition zeros (n : nat) : string := of_chars (replicate n "0"%char).

(** [fmt.Sprintf("%0wd", n)] *)
Definition sprintf_0d (w : nat) (n : N) : string :=
  let d := pretty n in zeros (w - slen d) +:+ d.

(** [fmt.Sprintf] and [fmt.Errorf] on the verbs the program uses ([%d], [%s], [%v],
    [%q], [%t]): each verb takes the next argument, [%w] the wrapped error's text. *)
Definition arg_text (a : arg) : string :=
  match a with
  | ArgN n => pretty n
  | ArgZ z => pretty z
  | ArgS s => s
  | ArgB b => if b then "true" else "false"
  end.
(** [strconv.Quote]; bytes outside ASCII are kept, as in a printable UTF-8 text. *)
Definition quote_char (c : ascii) : list ascii :=
  let n := code c in
  let esc (x : ascii) := [ascii_of_N 92; x] in
  if (n =? 34)%N || (n =? 92)%N then esc c
  else if (n =? 7)%N then esc "a"%char
  else if (n =? 8)%N then esc "b"%char
  else if (n =? 12)%N then esc "f"%char
  else if (n =? 10)%N then esc "n"%char
  else if (n =? 13)%N then esc "r"%char
  else if (n =? 9)%N then esc "t"%char
  else if (n =? 11)%N then esc "v"%char
  else if (n <? 32)%N || (n =? 127)%N then esc "x"%char ++ chars (hex_encode [n])
  else [c].
Definition quote (s : string) : string :=
  String (ascii_of_N 34) (of_chars (flat_map quote_char (chars s)) +:+ String (ascii_of_N 34) EmptyString).

Fixpoint sprintf_go (wrapped : string) (l : list ascii) (args : list arg) : string :=
  match l with
  | [] => ""
  | c :: l' =>
      if Ascii.eqb c "%"%char then
        match l' with
        | [] => "%"
        | v :: l'' =>
            if Ascii.eqb v "w"%char then wrapped +:+ sprintf_go wrapped l'' args
            else match args with
                 | a :: args' =>
                     (if Ascii.eqb v "q"%char then quote (arg_text a) else arg_text a) +:+ sprintf_go wrapped l'' args'
                 | [] => sprintf_go wrapped l'' []
                 end
        end
      else String c (sprintf_go wrapped l' args)
  end.
Definition sprintf (fmt : string) (args : list arg) : string := sprintf_go "" (chars fmt) args.

(** [error.Error()].  The text of an operating-system or database error is not
    modelled. *)
Fixpoint err_text (e : err) : string :=
  match e with
  | ErrNoRows => "sql: no rows in result set"
  | ErrNotExist => "file does not exist"
  | ErrIO => "input/output error"
  | Sentinel text => text
  | ErrApplyExecution e => err_text e
  | Errorf fmt args => sprintf fmt args
  | Wrapf fmt args e => sprintf_go (err_text e) (chars fmt) args
  | Join e1 e2 => err_text e1 +:+ String (ascii_of_N 10) (err_text e2)
  end.

(** ** Lemmas *)

Lemma string_app_nil (b : string) : "" +:+ b = b.
Proof. done. Qed.
Lemma string_app_cons c (a b : string) : String c a +:+ b = String c (a +:+ b).
Proof. done. Qed.

Lemma chars_app a b : chars (a +:+ b) = (chars a ++ chars b)%list.
Proof. induction a as [|c a IH]; [done|]. unfold chars in *. simpl. by rewrite IH. Qed.
Lemma of_chars_app a b : of_chars (a ++ b)%list = of_chars a +:+ of_chars b.
Proof. induction a as [|c a IH]; [done|]. unfold of_chars in *. simpl. by rewrite IH. Qed.
Lemma chars_of_chars l : chars (of_chars l) = l.
Proof. apply list_ascii_of_string_of_list_ascii. Qed.
Lemma of_chars_chars s : of_chars (chars s) = s.
Proof. apply string_of_list_ascii_of_string. Qed.
Lemma chars_inj a b : chars a = chars b → a = b.
Proof. intros H. by rewrite <-(of_chars_chars a), H, of_chars_chars. Qed.

Lemma str_ltb_irrefl a : str_ltb a a = false.
Proof.
  induction a as [|c a IH]; [done|]. simpl.
  rewrite N.ltb_irrefl, IH. by destruct (_ =? _)%N.
Qed.

Lemma code_inj x y : code x = code y → x = y.
Proof. apply (f_equal ascii_of_N) || idtac. intros H. rewrite <-(ascii_N_embedding x), <-(ascii_N_embedding y). unfold code in H. by rewrite H. Qed.

Lemma str_ltb_total a b : str_ltb a b = false → str_ltb b a = false → a = b.
Proof.
  revert b; induction a as [|x a IH]; intros [|y b]; simpl; try done.
  rewrite !orb_false_iff, !andb_false_iff, !N.ltb_ge, !N.eqb_neq.
  intros [H1 H2] [H3 H4].
  assert (code x = code y) as E by lia.
  f_equal; [by apply code_inj|]. apply IH; [by destruct H2 | by destruct H4].
Qed.

Lemma str_ltb_trans a b c : str_ltb a b = true → str_ltb b c = true → str_ltb a c = true.
Proof.
  revert b c; induction a as [|x a IH]; intros [|y b] [|z c]; simpl; try done.
  rewrite !orb_true_iff, !andb_true_iff, !N.ltb_lt, !N.eqb_eq.
  intros [H1|[H1 H1']] [H2|[H2 H2']]; [left; lia.. |].
  right. split; [lia|]. by apply (IH b).
Qed.

Lemma str_ltb_asym a b : str_ltb a b = true → str_ltb b a = false.
Proof.
  intros H. destruct (str_ltb b a) eqn:E; [|done].
  by rewrite <-(str_ltb_irrefl a), (str_ltb_trans a b a).
Qed.

(** A common prefix does not change the order. *)
Lemma str_ltb_app p a b : str_ltb (p +:+ a) (p +:+ b) = str_ltb a b.
Proof.
  induction p as [|c p IH]; [done|]. simpl.
  by rewrite N.ltb_irrefl, N.eqb_refl, IH.
Qed.

Lemma str_leb_total a b : str_leb a b = false → str_leb b a = true.
Proof. unfold str_leb. rewrite negb_false_iff. intros H. by rewrite (str_ltb_asym _ _ H). Qed.
Lemma str_leb_antisym a b : str_leb a b = true → str_leb b a = true → a = b.
Proof. unfold str_leb. rewrite !negb_true_iff. intros. by apply str_ltb_total. Qed.
Lemma str_leb_trans a b c : str_leb a b = true → str_leb b c = true → str_leb a c = true.
Proof.
  unfold str_leb. rewrite !negb_true_iff. intros H1 H2. destruct (str_ltb c a) eqn:E; [|done].
  destruct (str_ltb a b) eqn:E'.
  - by rewrite (str_ltb_trans _ _ _ E E') in H2.
  - assert (a = b) as -> by by apply str_ltb_total. by rewrite E in H2.
Qed.
Lemma sort_strings_perm l : sort_strings l ≡ₚ l.
Proof. apply sort_by_perm. Qed.
Lemma sort_strings_sorted l : StronglySorted (λ a b, str_leb a b = true) (sort_strings l).
Proof. apply sort_by_sorted; [apply str_leb_total|apply str_leb_trans]. Qed.
