(* ===== verification/GoTime.v ===== *)
(** Times as the program stores them: a [time.Time] in UTC is a number of
    nanoseconds since Go's zero time, 0001-01-01T00:00:00Z, and its text form is
    [time.RFC3339Nano], which drops trailing zeros of the fraction. *)

From S2P Require Import Prelude GoStrings.
From Stdlib Require Import Ascii.
Local Open Scope string_scope.
Local Open Scope Z_scope.

Definition time := Z.
Definition second : Z := 1000000000.
Definition zero_time : time := 0.
Definition is_zero_time (t : time) : bool := t =? 0.

(** [t.Sub(u)] saturates at the bounds of a [time.Duration]. *)
Definition max_int64 : Z := 2 ^ 63 - 1.
Definition min_int64 : Z := - 2 ^ 63.
(** Wrapping of an [int64]. *)
Definition wrap64 (n : Z) : Z := (n + 2 ^ 63) mod 2 ^ 64 - 2 ^ 63.
Definition duration_sub (t u : time) : Z := Z.max min_int64 (Z.min max_int64 (t - u)).

Definition day_of (t : time) : Z := t / (86400 * second).
Definition second_of_day (t : time) : Z := (t / second) mod 86400.
Definition nanos_of (t : time) : Z := t mod second.

(** The proleptic Gregorian date of a day number (day 0 is 0001-01-01), through
    eras of 400 years that start on March 1st. *)
Definition civil (day : Z) : Z * Z * Z :=
  let z := day + 306 in
  let era := z / 146097 in
  let doe := z mod 146097 in
  let yoe := (doe - doe / 1460 + doe / 36524 - doe / 146096) / 365 in
  let doy := doe - (365 * yoe + yoe / 4 - yoe / 100) in
  let mp := (5 * doy + 2) / 153 in
  let d := doy - (153 * mp + 2) / 5 + 1 in
  let m := if mp <? 10 then mp + 3 else mp - 9 in
  (yoe + era * 400 + (if m <=? 2 then 1 else 0), m, d).

Definition dec (w : nat) (n : Z) : string := sprintf_0d w (Z.to_N n).

(** The fraction of a second, nine digits without their trailing zeros, and
    nothing at all for a whole second. *)
Definition trim_zeros (s : string) : string :=
  of_chars (rev (drop_while (λ c, Ascii.eqb c "0"%char) (rev (chars s)))).
Definition fraction (ns : Z) : string :=
  if ns =? 0 then "" else "." +:+ trim_zeros (dec 9 ns).

(** [t.UTC().Format(time.RFC3339Nano)] *)
Definition format_rfc3339nano (t : time) : string :=
  let '(y, m, d) := civil (day_of t) in
  let s := second_of_day t in
  dec 4 y +:+ "-" +:+ dec 2 m +:+ "-" +:+ dec 2 d +:+ "T" +:+
  dec 2 (s / 3600) +:+ ":" +:+ dec 2 ((s / 60) mod 60) +:+ ":" +:+ dec 2 (s mod 60) +:+
  fraction (nanos_of t) +:+ "Z".

Example format_zero : format_rfc3339nano 0 = "0001-01-01T00:00:00Z".
Proof. vm_compute. reflexivity. Qed.

Example format_leap_day :
  format_rfc3339nano ((63844761600 + 3661) * second + 120000000) = "2024-02-29T01:01:01.12Z".
Proof. vm_compute. reflexivity. Qed.
