(* ===== verification/Netip.v ===== *)
(** IP addresses and prefixes as package net/netip presents them to the program:
    parsing, printing, masking and classification.  An address is the number its
    bytes spell, with its family and, for IPv6, its zone. *)

From S2P Require Import Prelude Sha256 GoStrings.
From Stdlib Require Import Ascii String.
Local Open Scope string_scope.
Local Open Scope N_scope.

Inductive Addr := V4 (n : N) | V6 (n : N) (zone : string).
#[export] Instance Addr_eq_dec : EqDecision Addr.
Proof. solve_decision. Defined.

Definition addr_num (a : Addr) : N := match a with V4 n | V6 n _ => n end.
Definition BitLen (a : Addr) : N := match a with V4 _ => 32 | V6 _ _ => 128 end.
Definition Is4 (a : Addr) : bool := match a with V4 _ => true | V6 _ _ => false end.
Definition Is6 (a : Addr) : bool := negb (Is4 a).
Definition Is4In6 (a : Addr) : bool := match a with V4 _ => false | V6 n _ => N.shiftr n 32 =? 0xffff end.
Definition has_zone (a : Addr) : bool := match a with V4 _ => false | V6 _ z => negb (String.eqb z "") end.
Definition without_zone (a : Addr) : Addr := match a with V4 n => V4 n | V6 n _ => V6 n "" end.
Definition Unmap (a : Addr) : Addr :=
  match a with V6 n _ => if Is4In6 a then V4 (N.land n 0xffffffff) else a | V4 _ => a end.

(** ** Parsing *)

(** [parseIPv4Fields]: [val] and [digits] are the current octet's, [before] the octets
    read so far, last first; [fresh] says that no digit of the octet was read. *)
Fixpoint ipv4_fields (l : list ascii) (before : list N) (val : N) (digits : nat) : option (list N) :=
  match l with
  | [] =>
      if (digits =? 0)%nat then None
      else if (List.length before =? 3)%nat then Some (rev (val :: before)) else None
  | c :: l' =>
      if is_digit c then
        if (digits =? 1)%nat && (val =? 0) then None
        else let val' := val * 10 + (code c - 48) in
             if 255 <? val' then None else ipv4_fields l' before val' (S digits)
      else if Ascii.eqb c "."%char then
        if (digits =? 0)%nat || (3 <=? List.length before)%nat then None
        else ipv4_fields l' (val :: before) 0 0
      else None
  end.

Definition of_bytes (l : list N) : N := foldl (λ acc b, acc * 256 + b) 0 l.
Definition parseIPv4 (l : list ascii) : option Addr := V4 ∘ of_bytes <$> ipv4_fields l [] 0 0.

(** The hexadecimal digits at the head of a group: their value, their number and the
    rest. [None] is a group of more than four digits. *)
Definition hex_digit_value (c : ascii) : option N :=
  if is_digit c then Some (code c - 48)
  else if in_range 97 102 c then Some (code c - 87)
  else if in_range 65 70 c then Some (code c - 55)
  else None.
Fixpoint hex_group (l : list ascii) (acc : N) (digits : nat) : option (N * nat * list ascii) :=
  match l with
  | [] => Some (acc, digits, [])
  | c :: l' =>
      match hex_digit_value c with
      | Some d => if (3 <? digits)%nat then None else hex_group l' (acc * 16 + d) (S digits)
      | None => Some (acc, digits, l)
      end
  end.

(** The group loop of [parseIPv6]: the bytes read so far, where the ellipsis stands, and
    the answer when the text is used up.  At most eight groups are read. *)
Fixpoint ipv6_groups (fuel : nat) (l : list ascii) (bytes : list N) (ellipsis : option nat) : option (list N * option nat) :=
  match fuel with
  | O => None (* sixteen bytes and text left: trailing garbage *)
  | S fuel' =>
      match hex_group l 0 0 with
      | None => None
      | Some (acc, digits, rest) =>
          if (digits =? 0)%nat then None
          else
            let bytes' := (bytes ++ [N.shiftr acc 8; N.land acc 255])%list in
            match rest with
            | [] => Some (bytes', ellipsis)
            | c :: rest' =>
                if Ascii.eqb c "."%char then
                  if (match ellipsis with None => negb (List.length bytes =? 12)%nat | Some _ => false end) ||
                     (12 <? List.length bytes)%nat then None
                  else match ipv4_fields l [] 0 0 with
                       | Some fields => Some (bytes ++ fields, ellipsis)%list
                       | None => None
                       end
                else if negb (Ascii.eqb c ":"%char) then None
                else match rest' with
                     | [] => None
                     | c' :: rest'' =>
                         if Ascii.eqb c' ":"%char then
                           match ellipsis with
                           | Some _ => None
                           | None =>
                               match rest'' with
                               | [] => Some (bytes', Some (List.length bytes'))
                               | _ => ipv6_groups fuel' rest'' bytes' (Some (List.length bytes'))
                               end
                           end
                         else ipv6_groups fuel' rest' bytes' ellipsis
                     end
            end
      end
  end.

Definition expand (r : list N * option nat) : option (list N) :=
  let '(bytes, ellipsis) := r in
  let n := (16 - List.length bytes)%nat in
  match ellipsis with
  | None => if (n =? 0)%nat then Some bytes else None
  | Some i => if (n =? 0)%nat then None else Some (take i bytes ++ replicate n 0 ++ drop i bytes)%list
  end.

Definition parse_groups (l : list ascii) (ellipsis : option nat) : option N :=
  of_bytes <$> (ipv6_groups 8 l [] ellipsis ≫= expand).
Definition parseIPv6_text (l : list ascii) : option N :=
  match l with
  | c :: c' :: rest =>
      if Ascii.eqb c ":"%char && Ascii.eqb c' ":"%char then
        match rest with [] => Some 0 | _ => parse_groups rest (Some 0%nat) end
      else parse_groups l None
  | _ => parse_groups l None
  end.

(** The text before and after the first [c]. *)
Fixpoint split_at (c : ascii) (l : list ascii) : option (list ascii * list ascii) :=
  match l with
  | [] => None
  | x :: l' =>
      if Ascii.eqb x c then Some ([], l')
      else match split_at c l' with Some (a, b) => Some (x :: a, b) | None => None end
  end.

Definition parseIPv6 (l : list ascii) : option Addr :=
  match split_at "%"%char l with
  | None => (λ n, V6 n "") <$> parseIPv6_text l
  | Some (_, []) => None
  | Some (text, zone) => (λ n, V6 n (of_chars zone)) <$> parseIPv6_text text
  end.

(** The first separator selects the family. *)
Fixpoint separator (l : list ascii) : option ascii :=
  match l with
  | [] => None
  | c :: l' => if one_of ".:%" c then Some c else separator l'
  end.
Definition ParseAddr (s : string) : option Addr :=
  match separator (chars s) with
  | Some "."%char => parseIPv4 (chars s)
  | Some ":"%char => parseIPv6 (chars s)
  | _ => None
  end.

(** ** Printing *)

Definition octets (n : N) : list N :=
  [N.shiftr n 24 mod 256; N.shiftr n 16 mod 256; N.shiftr n 8 mod 256; n mod 256].
Definition string4 (n : N) : string := join "." (map pretty (octets n)).

(** The eight 16-bit groups, most significant first. *)
Definition groups (n : N) : list N := map (λ k, N.shiftr n (16 * k) mod 65536) [7; 6; 5; 4; 3; 2; 1; 0].

Definition hex_digit (d : N) : ascii := if d <? 10 then ascii_of_N (48 + d) else ascii_of_N (87 + d).
(** [appendHex]: at most four digits, no leading zeros. *)
Definition hex_text (v : N) : list ascii :=
  (if 0x1000 <=? v then [hex_digit (v / 0x1000)] else []) ++
  (if 0x100 <=? v then [hex_digit (v / 0x100 mod 16)] else []) ++
  (if 0x10 <=? v then [hex_digit (v / 16 mod 16)] else []) ++
  [hex_digit (v mod 16)].

Fixpoint zero_run (l : list N) : nat :=
  match l with 0 :: l' => S (zero_run l') | _ => O end.
(** The first longest run of at least two zero groups: where it starts and its length. *)
Fixpoint longest_run (i : nat) (l : list N) (best : nat * nat) : nat * nat :=
  match l with
  | [] => best
  | _ :: l' =>
      let r := zero_run l in
      longest_run (S i) l' (if ((2 <=? r) && (snd best <? r))%nat then (i, r) else best)
  end.

Definition hex_join (l : list N) : list ascii :=
  match map hex_text l with
  | [] => []
  | g :: gs => g ++ flat_map (λ x, ":"%char :: x) gs
  end.
Definition string6 (n : N) : list ascii :=
  let '(i, r) := longest_run 0 (groups n) (0, 0)%nat in
  if (r =? 0)%nat then hex_join (groups n)
  else hex_join (take i (groups n)) ++ [":"%char; ":"%char] ++ hex_join (drop (i + r) (groups n)).

Definition addr_String (a : Addr) : string :=
  match a with
  | V4 n => string4 n
  | V6 n z =>
      (if Is4In6 a then "::ffff:" +:+ string4 (N.land n 0xffffffff) else of_chars (string6 n)) +:+
      (if String.eqb z "" then "" else "%" +:+ z)
  end.

(** ** Prefixes *)

(** A valid [netip.Prefix]: its address carries no zone. *)
Record Prefix := mkPrefix { pfx_addr : Addr; pfx_bits : N }.
#[export] Instance Prefix_eq_dec : EqDecision Prefix.
Proof. solve_decision. Defined.

(** [PrefixFrom(a, bits)] for bits in range. *)
Definition PrefixFrom (a : Addr) (bits : N) : Prefix := mkPrefix (without_zone a) bits.

Definition low_bits (a : Addr) (bits : N) : N := BitLen a - bits.
Definition clear_low (n k : N) : N := N.shiftl (N.shiftr n k) k.
Definition map_num (f : N → N) (a : Addr) : Addr := match a with V4 n => V4 (f n) | V6 n z => V6 (f n) z end.
Definition Masked (p : Prefix) : Prefix :=
  mkPrefix (map_num (λ n, clear_low n (low_bits (pfx_addr p) (pfx_bits p))) (pfx_addr p)) (pfx_bits p).
Definition IsSingleIP (p : Prefix) : bool := pfx_bits p =? BitLen (pfx_addr p).

(** [Prefix.Contains]: the families agree, the address has no zone, and the bits of
    the mask agree. *)
Definition Contains (p : Prefix) (a : Addr) : bool :=
  negb (has_zone a) && Bool.eqb (Is4 (pfx_addr p)) (Is4 a) &&
  (let k := low_bits (pfx_addr p) (pfx_bits p) in
   N.shiftr (addr_num (pfx_addr p)) k =? N.shiftr (addr_num a) k).
(** [Prefix.Overlaps] *)
Definition Overlaps (p q : Prefix) : bool :=
  Bool.eqb (Is4 (pfx_addr p)) (Is4 (pfx_addr q)) &&
  (let k := BitLen (pfx_addr p) - N.min (pfx_bits p) (pfx_bits q) in
   N.shiftr (addr_num (pfx_addr p)) k =? N.shiftr (addr_num (pfx_addr q)) k).

Definition prefix_String (p : Prefix) : string := addr_String (pfx_addr p) +:+ "/" +:+ pretty (pfx_bits p).

Definition digits_value (l : list ascii) : N := foldl (λ acc c, acc * 10 + (code c - 48)) 0 l.
(** The text before and after the last [c]. *)
Definition split_last (c : ascii) (l : list ascii) : option (list ascii * list ascii) :=
  (λ '(a, b), (rev b, rev a)) <$> split_at c (rev l).
(** The bit count: no sign, no leading zero. *)
Definition parse_bits (l : list ascii) : option N :=
  match l with
  | [] => None
  | c :: l' =>
      if forallb is_digit l && (match l' with [] => true | _ => in_range 49 57 c end) then Some (digits_value l) else None
  end.
Definition ParsePrefix (s : string) : option Prefix :=
  match split_last "/"%char (chars s) with
  | None => None
  | Some (text, bits) =>
      match ParseAddr (of_chars text), parse_bits bits with
      | Some a, Some n => if negb (has_zone a) && (n <=? BitLen a) then Some (PrefixFrom a n) else None
      | _, _ => None
      end
  end.

(** The program's idiom for an address or a prefix: [ParsePrefix], then [ParseAddr]. *)
Definition parse_prefix_or_addr (s : string) : option Prefix :=
  match ParsePrefix s with
  | Some p => Some p
  | None => (λ a, PrefixFrom a (BitLen a)) <$> ParseAddr s
  end.

(** ** Classes of addresses *)

Definition pfx (a : Addr) (bits : N) : Prefix := mkPrefix a bits.
Definition in_v4 (n : N) (bits : N) (a : Addr) : bool := Contains (pfx (V4 n) bits) (Unmap a).
Definition in_v6 (n : N) (bits : N) (a : Addr) : bool := Contains (pfx (V6 n "") bits) (without_zone (Unmap a)).
Definition IsUnspecified (a : Addr) : bool := match a with V4 n => n =? 0 | V6 n z => (n =? 0) && String.eqb z "" end.
Definition IsLoopback (a : Addr) : bool :=
  in_v4 0x7f000000 8 a || match Unmap a with V6 n _ => n =? 1 | V4 _ => false end.
Definition IsMulticast (a : Addr) : bool := in_v4 0xe0000000 4 a || in_v6 (0xff * 2 ^ 120) 8 a.
Definition IsLinkLocalUnicast (a : Addr) : bool := in_v4 0xa9fe0000 16 a || in_v6 (0xfe80 * 2 ^ 112) 10 a.
Definition IsPrivate (a : Addr) : bool :=
  in_v4 0x0a000000 8 a || in_v4 0xac100000 12 a || in_v4 0xc0a80000 16 a || in_v6 (0xfc00 * 2 ^ 112) 7 a.
Definition IsGlobalUnicast (a : Addr) : bool :=
  match Unmap a with
  | V4 n => negb (n =? 0) && negb (n =? 0xffffffff) && negb (IsLoopback a) && negb (IsMulticast a) && negb (IsLinkLocalUnicast a)
  | V6 n z => negb ((n =? 0) && String.eqb z "") && negb (IsLoopback a) && negb (IsMulticast a) && negb (IsLinkLocalUnicast a)
  end.

Definition addr_ok (a : Addr) : Prop := addr_num a < 2 ^ BitLen a.
Definition prefix_ok (p : Prefix) : Prop :=
  addr_ok (pfx_addr p) ∧ has_zone (pfx_addr p) = false ∧ pfx_bits p <= BitLen (pfx_addr p).

Example print_v6 : addr_String (V6 0x20010db8000000000000000000000010 "") = "2001:db8::10". Proof. reflexivity. Qed.
Example print_mapped : addr_String (V6 0xffffc0000201 "") = "::ffff:192.0.2.1". Proof. reflexivity. Qed.
Example print_any : addr_String (V6 0 "") = "::". Proof. reflexivity. Qed.
Example print_runs : addr_String (V6 0x00010000000000020000000000000003 "") = "1:0:0:2::3". Proof. reflexivity. Qed.
Example parse_v6 : ParsePrefix "2001:DB8::10/64" = Some (mkPrefix (V6 0x20010db8000000000000000000000010 "") 64). Proof. reflexivity. Qed.
Example parse_zero_pad : ParseAddr "192.0.02.1" = None. Proof. reflexivity. Qed.
Example parse_bits_pad : ParsePrefix "192.0.2.1/08" = None. Proof. reflexivity. Qed.
Example mask_v4 : prefix_String <$> (Masked <$> ParsePrefix "203.0.113.27/24") = Some "203.0.113.0/24". Proof. reflexivity. Qed.

(** ** Reading back what was printed *)

(** *** Decimal numbers below 256 *)

Definition dec_shape (n : N) : bool :=
  match chars (pretty n) with
  | [a] => is_digit a && (code a - 48 =? n)
  | [a; b] => in_range 49 57 a && is_digit b && ((code a - 48) * 10 + (code b - 48) =? n)
  | [a; b; c] =>
      in_range 49 57 a && is_digit b && is_digit c &&
      (((code a - 48) * 10 + (code b - 48)) * 10 + (code c - 48) =? n)
  | _ => false
  end.

Lemma below_256 (p : N → bool) : forallb p (map N.of_nat (seq 0 256)) = true → ∀ n, n < 256 → p n = true.
Proof.
  rewrite forallb_forall. intros H n Hn. apply H.
  apply in_map_iff. exists (N.to_nat n). split; [lia|]. apply in_seq. lia.
Qed.
Lemma dec_shape_256 n : n < 256 → dec_shape n = true.
Proof. revert n. apply below_256. vm_compute. reflexivity. Qed.

Lemma is_digit_bounds c : is_digit c = true ↔ 48 <= code c <= 57.
Proof. unfold is_digit, in_range. rewrite andb_true_iff, !N.leb_le. lia. Qed.
Lemma in_range_bounds lo hi c : in_range lo hi c = true ↔ lo <= code c <= hi.
Proof. unfold in_range. rewrite andb_true_iff, !N.leb_le. lia. Qed.

(** What may follow an octet. *)
Definition octet_end (l : list ascii) : Prop := match l with [] => True | c :: _ => c = "."%char end.

Lemma ipv4_fields_dec n rest before : n < 256 → octet_end rest →
  ∃ k, k ≠ 0%nat ∧ ipv4_fields (chars (pretty n) ++ rest) before 0 0 = ipv4_fields rest before n k.
Proof.
  intros Hn Hrest. pose proof (dec_shape_256 n Hn) as H. unfold dec_shape in H.
  destruct (chars (pretty n)) as [|a [|b [|c [|]]]]; try done; simpl; repeat rewrite andb_true_iff in H;
    rewrite ?is_digit_bounds, ?in_range_bounds, ?N.eqb_eq in H.
  all: repeat match goal with H : _ ∧ _ |- _ => destruct H end.
  all: rewrite ?(proj2 (is_digit_bounds _)) by lia; simpl.
  all: repeat match goal with
       | |- context [255 <? ?x] => replace (255 <? x) with false by (symmetry; apply N.ltb_ge; lia); simpl
       | |- context [?x =? 0] => replace (x =? 0) with false by (symmetry; apply N.eqb_neq; lia); simpl
       end.
  all: eexists; split; [|f_equal; lia]; done.
Qed.

Lemma octets_lt n : Forall (λ x, x < 256) (octets n).
Proof. repeat constructor; apply N.mod_lt; done. Qed.

Lemma ipv4_fields_octets a b c d : a < 256 → b < 256 → c < 256 → d < 256 →
  ipv4_fields (chars (join "." (map pretty [a; b; c; d]))) [] 0 0 = Some [a; b; c; d].
Proof.
  intros Ha Hb Hc Hd. unfold join. simpl.
  rewrite !chars_app. change (chars ".") with ["."%char].
  destruct (ipv4_fields_dec a (["."%char] ++ chars (pretty b) ++ ["."%char] ++ chars (pretty c) ++ ["."%char] ++ chars (pretty d)) [] Ha eq_refl) as ([|k1] & ? & ->); [done|].
  simpl. destruct (ipv4_fields_dec b ("."%char :: chars (pretty c) ++ "."%char :: chars (pretty d)) [a] Hb eq_refl) as ([|k2] & ? & ->); [done|].
  simpl. destruct (ipv4_fields_dec c ("."%char :: chars (pretty d)) [b; a] Hc eq_refl) as ([|k3] & ? & ->); [done|].
  simpl. rewrite <-(app_nil_r (chars (pretty d))).
  destruct (ipv4_fields_dec d [] [c; b; a] Hd Logic.I) as ([|k4] & ? & ->); done.
Qed.

Lemma shiftr_div n k : N.shiftr n k = n / 2 ^ k.
Proof. apply N.shiftr_div_pow2. Qed.

(** One more digit in base [b]. *)
Lemma digit_step n b k : b ≠ 0 → k ≠ 0 → n / (b * k) * b + n / k mod b = n / k.
Proof.
  intros Hb Hk. rewrite (N.mul_comm b k), <-N.Div0.div_div.
  pose proof (N.div_mod (n / k) b Hb). lia.
Qed.

Lemma of_bytes_octets n : n < 2 ^ 32 → of_bytes (octets n) = n.
Proof.
  intros Hn. unfold of_bytes, octets. rewrite !shiftr_div.
  change (2 ^ 24) with 16777216. change (2 ^ 16) with 65536. change (2 ^ 8) with 256. change (2 ^ 32) with 4294967296 in Hn.
  cbn [foldl].
  replace (n / 16777216 mod 256) with (n / 16777216)
    by (symmetry; apply N.mod_small, N.Div0.div_lt_upper_bound; lia).
  rewrite N.mul_0_l, N.add_0_l.
  change 16777216 with (256 * 65536) at 1. rewrite digit_step by done.
  change 65536 with (256 * 256) at 1. rewrite digit_step by done.
  pose proof (digit_step n 256 1 ltac:(done) ltac:(done)) as H. rewrite !N.div_1_r in H.
  change (256 * 1) with 256 in H. exact H.
Qed.

Lemma parseIPv4_string4 n : n < 2 ^ 32 → parseIPv4 (chars (string4 n)) = Some (V4 n).
Proof.
  intros Hn. unfold parseIPv4, string4. pose proof (octets_lt n) as H. unfold octets in *.
  rewrite !Forall_cons in H. destruct H as (? & ? & ? & ? & _).
  rewrite ipv4_fields_octets by done. simpl. f_equal. f_equal. by apply of_bytes_octets.
Qed.

(** *** The family of a text *)

Lemma separator_skip p l r : (∀ c, p c = true → one_of ".:%" c = false) → forallb p l = true → separator (l ++ r)%list = separator r.
Proof.
  intros Hp. induction l as [|c l IH]; [done|]. simpl. rewrite andb_true_iff. intros [H1 H2].
  rewrite Hp by done. auto.
Qed.
Lemma split_at_skip c l r : Forall (λ x, x ≠ c) l → split_at c (l ++ r)%list = (λ '(a, b), ((l ++ a)%list, b)) <$> split_at c r.
Proof.
  induction 1 as [|x l Hx _ IH]; simpl; [by destruct (split_at c r) as [[]|]|].
  destruct (Ascii.eqb_spec x c); [done|]. rewrite IH. by destruct (split_at c r) as [[]|].
Qed.
Lemma split_at_none c l : Forall (λ x, x ≠ c) l → split_at c l = None.
Proof. intros H. rewrite <-(app_nil_r l). by rewrite split_at_skip. Qed.

(** A digit or a hexadecimal letter is no separator. *)
Definition hex_char (c : ascii) : bool := match hex_digit_value c with Some _ => true | None => false end.
Lemma hex_char_sep : ∀ c, hex_char c = true → one_of ".:%/" c = false.
Proof. intros c. destruct c as [[][][][][][][][]]; vm_compute; done. Qed.
Lemma hex_char_sep3 c : hex_char c = true → one_of ".:%" c = false.
Proof. destruct c as [[][][][][][][][]]; vm_compute; done. Qed.

Lemma hex_digit_ok d : d < 16 → hex_digit_value (hex_digit d) = Some d.
Proof.
  intros Hd. pose (ok := λ d, (16 <=? d) || match hex_digit_value (hex_digit d) with Some x => x =? d | None => false end).
  assert (ok d = true) as H by (revert d Hd; intros d Hd; apply below_256; [vm_compute; reflexivity | lia]).
  unfold ok in H. apply orb_true_iff in H as [H|H]; [apply N.leb_le in H; lia|].
  destruct (hex_digit_value _); [|done]. by apply N.eqb_eq in H as ->.
Qed.
Lemma hex_text_chars v : v < 65536 → forallb hex_char (hex_text v) = true.
Proof.
  intros Hv. unfold hex_text, hex_char. rewrite !forallb_app.
  assert (∀ b : bool, ∀ d, d < 16 → forallb (λ c, match hex_digit_value c with Some _ => true | None => false end) (if b then [hex_digit d] else []) = true) as H.
  { intros [] d Hd; simpl; [|done]. by rewrite hex_digit_ok. }
  rewrite !H; [|apply N.mod_lt; done..|apply N.Div0.div_lt_upper_bound; lia].
  simpl. by rewrite hex_digit_ok by (apply N.mod_lt; done).
Qed.

(** What may follow a group. *)
Definition group_end (l : list ascii) : Prop := match l with [] => True | c :: _ => hex_char c = false end.

Lemma hex_group_end acc k rest : group_end rest → hex_group rest acc k = Some (acc, k, rest).
Proof. destruct rest as [|c rest]; [done|]. simpl. unfold hex_char. by destruct (hex_digit_value c). Qed.
Lemma hex_group_digit d rest acc k : d < 16 → (k <= 3)%nat →
  hex_group (hex_digit d :: rest) acc k = hex_group rest (acc * 16 + d) (S k).
Proof. intros Hd Hk. simpl. rewrite hex_digit_ok by done. destruct (Nat.ltb_spec 3 k); [lia|done]. Qed.

Lemma hex_group_text v rest : v < 65536 → group_end rest →
  ∃ k, k ≠ 0%nat ∧ hex_group (hex_text v ++ rest)%list 0 0 = Some (v, k, rest).
Proof.
  intros Hv Hr. unfold hex_text.
  assert (v / 4096 < 16) as H1 by (apply N.Div0.div_lt_upper_bound; lia).
  assert (v / 256 mod 16 < 16) as H2 by (by apply N.mod_lt).
  assert (v / 16 mod 16 < 16) as H3 by (by apply N.mod_lt).
  assert (v mod 16 < 16) as H4 by (by apply N.mod_lt).
  pose proof (digit_step v 16 256 ltac:(done) ltac:(done)) as D1.
  pose proof (digit_step v 16 16 ltac:(done) ltac:(done)) as D2.
  pose proof (digit_step v 16 1 ltac:(done) ltac:(done)) as D3.
  change (16 * 256) with 4096 in D1. change (16 * 16) with 256 in D2. change (16 * 1) with 16 in D3. rewrite N.div_1_r in D3.
  assert (∀ m, v < m → v / m = 0) as Z by (intros; by apply N.div_small).
  destruct (N.leb_spec 0x1000 v); [|assert (v / 4096 = 0) by auto];
  (destruct (N.leb_spec 0x100 v); [|assert (v / 256 = 0) by auto]);
  (destruct (N.leb_spec 0x10 v); [|assert (v / 16 = 0) by auto]); try lia;
  cbn [app]; rewrite !hex_group_digit by (done || lia);
  rewrite hex_group_end by done; eexists; (split; [|f_equal; f_equal; f_equal; lia]); done.
Qed.

(** *** The group loop *)

Definition group_bytes (v : N) : list N := [N.shiftr v 8; N.land v 255].
Definition all_bytes (gs : list N) : list N := flat_map group_bytes gs.
Lemma length_all_bytes gs : List.length (all_bytes gs) = (2 * List.length gs)%nat.
Proof. unfold all_bytes. induction gs; simpl; lia. Qed.

Lemma hex_join_cons g g' gs : hex_join (g :: g' :: gs) = (hex_text g ++ ":"%char :: hex_join (g' :: gs))%list.
Proof. unfold hex_join. simpl. done. Qed.
Lemma hex_join_one g : hex_join [g] = hex_text g.
Proof. unfold hex_join. simpl. apply app_nil_r. Qed.
(** A group's text starts with a hexadecimal digit. *)
Lemma hex_text_head v : v < 65536 → ∃ c l, hex_text v = c :: l ∧ hex_char c = true.
Proof.
  intros Hv. pose proof (hex_text_chars v Hv) as H. destruct (hex_text v) as [|c l] eqn:E.
  - exfalso. unfold hex_text in E. repeat apply app_eq_nil in E as [_ E]. done.
  - simpl in H. apply andb_true_iff in H as [? _]. eauto.
Qed.
Lemma hex_join_head g gs : g < 65536 → ∃ c l, hex_join (g :: gs) = c :: l ∧ hex_char c = true.
Proof.
  intros Hv. destruct (hex_text_head g Hv) as (c & l & E & Hc). destruct gs as [|g' gs].
  - rewrite hex_join_one, E. eauto.
  - rewrite hex_join_cons, E. simpl. eauto.
Qed.
Lemma colon_no_hex : hex_char ":" = false.
Proof. reflexivity. Qed.

(** One group and what follows it. *)
Lemma ipv6_groups_last fuel g bytes e : g < 65536 →
  ipv6_groups (S fuel) (hex_text g) bytes e = Some (bytes ++ group_bytes g, e)%list.
Proof.
  intros Hg. destruct (hex_group_text g [] Hg Logic.I) as ([|k] & ? & E); [done|].
  rewrite app_nil_r in E. cbn [ipv6_groups]. by rewrite E.
Qed.
Lemma ipv6_groups_next fuel g c t bytes e : g < 65536 → hex_char c = true →
  ipv6_groups (S fuel) (hex_text g ++ ":"%char :: c :: t) bytes e =
  ipv6_groups fuel (c :: t) (bytes ++ group_bytes g) e.
Proof.
  intros Hg Hc. destruct (hex_group_text g (":"%char :: c :: t) Hg colon_no_hex) as ([|k] & ? & E'); [done|].
  cbn [ipv6_groups]. rewrite E'. cbn [Nat.eqb negb Ascii.eqb Bool.eqb].
  by destruct (Ascii.eqb_spec c ":"%char) as [->|].
Qed.
Lemma ipv6_groups_ellipsis fuel g r bytes : g < 65536 → Forall (λ g, g < 65536) r →
  ipv6_groups (S fuel) (hex_text g ++ ":"%char :: ":"%char :: hex_join r) bytes None =
  let bytes' := (bytes ++ group_bytes g)%list in
  match r with
  | [] => Some (bytes', Some (List.length bytes'))
  | _ => ipv6_groups fuel (hex_join r) bytes' (Some (List.length bytes'))
  end.
Proof.
  intros Hg Hr. destruct (hex_group_text g (":"%char :: ":"%char :: hex_join r) Hg colon_no_hex) as ([|k] & ? & E'); [done|].
  cbn [ipv6_groups]. rewrite E'. cbn [Nat.eqb]. destruct r as [|g' r]; [done|]. inversion Hr; subst.
  by destruct (hex_join_head g' r ltac:(done)) as (c & l & -> & _).
Qed.

Lemma ipv6_groups_list gs fuel bytes e : Forall (λ g, g < 65536) gs → gs ≠ [] → (List.length gs <= fuel)%nat →
  ipv6_groups fuel (hex_join gs) bytes e = Some (bytes ++ all_bytes gs, e)%list.
Proof.
  revert fuel bytes. induction gs as [|g gs IH]; intros fuel bytes Hgs Hne Hf; [done|].
  apply Forall_cons in Hgs as [Hg Hgs]. destruct fuel as [|fuel]; [simpl in Hf; lia|]. destruct gs as [|g' gs].
  - rewrite hex_join_one, ipv6_groups_last by done. unfold all_bytes. simpl. done.
  - rewrite hex_join_cons. destruct (hex_join_head g' gs) as (c & t & E & Hc); [by inversion Hgs|].
    rewrite E, ipv6_groups_next by done. rewrite <-E, IH by (done || (simpl in *; lia)).
    unfold all_bytes. simpl. by rewrite <-!app_assoc.
Qed.
Lemma ipv6_groups_split l r fuel bytes : Forall (λ g, g < 65536) l → Forall (λ g, g < 65536) r → l ≠ [] →
  (List.length l + List.length r <= fuel)%nat →
  ipv6_groups fuel (hex_join l ++ ":"%char :: ":"%char :: hex_join r) bytes None =
  Some (bytes ++ all_bytes l ++ all_bytes r, Some (List.length bytes + List.length (all_bytes l)))%list%nat.
Proof.
  revert fuel bytes. induction l as [|g l IH]; intros fuel bytes Hl Hr Hne Hf; [done|].
  apply Forall_cons in Hl as [Hg Hl]. destruct fuel as [|fuel]; [simpl in Hf; lia|]. destruct l as [|g' l].
  - rewrite hex_join_one, ipv6_groups_ellipsis by done. destruct r as [|g' r].
    + simpl. unfold all_bytes. simpl. rewrite !length_app. done.
    + rewrite ipv6_groups_list by (done || (simpl in *; lia)). unfold all_bytes. simpl.
      rewrite <-app_assoc, length_app. done.
  - rewrite hex_join_cons. rewrite <-app_assoc. cbn [app].
    assert (∃ c t, hex_join (g' :: l) = c :: t ∧ hex_char c = true) as (c & t & E & Hc).
    { apply hex_join_head. by inversion Hl. }
    rewrite E. cbn [app]. rewrite ipv6_groups_next by done.
    replace (c :: t ++ ":"%char :: ":"%char :: hex_join r)%list with (hex_join (g' :: l) ++ ":"%char :: ":"%char :: hex_join r)%list by by rewrite E.
    rewrite IH by (done || (simpl in *; lia)). f_equal. f_equal.
    + unfold all_bytes. simpl. by rewrite <-!app_assoc.
    + f_equal. rewrite length_app, !length_all_bytes. simpl. lia.
Qed.

(** *** The compressed run of zeros *)

Definition run_of (full : list N) (ir : nat * nat) : Prop :=
  snd ir = 0%nat ∨ ((2 <= snd ir)%nat ∧ full = (take (fst ir) full ++ replicate (snd ir) 0 ++ drop (fst ir + snd ir) full)%list ∧
                    (fst ir + snd ir <= List.length full)%nat).
Lemma zero_run_take l : l = (replicate (zero_run l) 0 ++ drop (zero_run l) l)%list ∧ (zero_run l <= List.length l)%nat.
Proof.
  induction l as [|[|p] l [IH1 IH2]]; simpl; [split; [done|lia]| |split; [done|lia]].
  split; [by rewrite <-IH1|lia].
Qed.
Lemma longest_run_of pre l best : run_of (pre ++ l)%list best → run_of (pre ++ l)%list (longest_run (List.length pre) l best).
Proof.
  revert pre best. induction l as [|x l IH]; intros pre best H; [done|]. cbn [longest_run].
  replace (pre ++ x :: l)%list with ((pre ++ [x]) ++ l)%list in * by by rewrite <-app_assoc.
  replace (S (List.length pre)) with (List.length (pre ++ [x])%list) by (rewrite length_app; simpl; lia).
  apply IH. destruct (_ && _)%bool eqn:E; [|done]. apply andb_true_iff in E as [E _]. apply Nat.leb_le in E.
  right. rewrite <-app_assoc. change ([x] ++ l)%list with (x :: l).
  destruct (zero_run_take (x :: l)) as [H1 H2]. cbn [fst snd]. split; [done|].
  rewrite take_app_length, drop_app_add by done. rewrite length_app. split; [|lia]. by rewrite <-H1.
Qed.
Lemma longest_run_groups n : run_of (groups n) (longest_run 0 (groups n) (0, 0)%nat).
Proof. apply (longest_run_of [] (groups n)). by left. Qed.

Lemma groups_lt n : Forall (λ g, g < 65536) (groups n).
Proof. repeat constructor; apply N.mod_lt; done. Qed.
Lemma length_groups n : List.length (groups n) = 8%nat.
Proof. done. Qed.

Lemma group_bytes_value acc g : g < 65536 → foldl (λ acc b, acc * 256 + b) acc (group_bytes g) = acc * 65536 + g.
Proof.
  intros Hg. cbn [group_bytes foldl]. rewrite shiftr_div. change 255 with (N.ones 8). rewrite N.land_ones.
  change (2 ^ 8) with 256. pose proof (N.div_mod g 256 ltac:(done)). lia.
Qed.
Lemma all_bytes_value gs acc : Forall (λ g, g < 65536) gs →
  foldl (λ acc b, acc * 256 + b) acc (all_bytes gs) = foldl (λ acc g, acc * 65536 + g) acc gs.
Proof.
  intros H. revert acc. induction H as [|g gs Hg _ IH]; intros acc; [done|].
  unfold all_bytes. cbn [flat_map]. rewrite foldl_app, group_bytes_value by done. apply IH.
Qed.
Lemma of_bytes_groups n : n < 2 ^ 128 → of_bytes (all_bytes (groups n)) = n.
Proof.
  intros Hn. unfold of_bytes. rewrite all_bytes_value by apply groups_lt.
  assert (∀ j k, j = N.succ k → n / 2 ^ (16 * j) * 65536 + n / 2 ^ (16 * k) mod 65536 = n / 2 ^ (16 * k)) as D.
  { intros j k ->. replace (16 * N.succ k) with (16 + 16 * k) by lia. rewrite N.pow_add_r. change (2 ^ 16) with 65536.
    apply digit_step; [done|]. by apply N.pow_nonzero. }
  unfold groups. cbn [map foldl]. rewrite !shiftr_div.
  rewrite (N.mod_small (n / 2 ^ (16 * 7))) by (apply N.Div0.div_lt_upper_bound; exact Hn).
  rewrite N.mul_0_l, N.add_0_l.
  rewrite (D 7 6), (D 6 5), (D 5 4), (D 4 3), (D 3 2), (D 2 1), (D 1 0) by done. apply N.div_1_r.
Qed.

Lemma all_bytes_app a b : all_bytes (a ++ b) = (all_bytes a ++ all_bytes b)%list.
Proof. apply flat_map_app. Qed.
Lemma all_bytes_zeros r : all_bytes (replicate r 0) = replicate (2 * r) 0.
Proof. induction r as [|r IH]; [done|]. replace (2 * S r)%nat with (S (S (2 * r))) by lia. simpl. f_equal. f_equal. apply IH. Qed.

(** What the compressed text of [l ++ zeros ++ r] expands to. *)
Lemma expand_run l r k : (List.length l + k + List.length r = 8)%nat → k ≠ 0%nat →
  expand (all_bytes l ++ all_bytes r, Some (List.length (all_bytes l)))%list = Some (all_bytes (l ++ replicate k 0 ++ r)).
Proof.
  intros Hlen Hk. unfold expand. rewrite length_app, !length_all_bytes.
  replace (16 - (2 * List.length l + 2 * List.length r))%nat with (2 * k)%nat by lia.
  destruct (Nat.eqb_spec (2 * k) 0); [lia|]. rewrite <-length_all_bytes, take_app_length, drop_app_length.
  by rewrite !all_bytes_app, all_bytes_zeros.
Qed.

(** A text that does not start with a colon is read without an initial ellipsis. *)
Lemma parse_text_head c t : hex_char c = true → parseIPv6_text (c :: t) = of_bytes <$> (ipv6_groups 8 (c :: t) [] None ≫= expand).
Proof.
  intros Hc. assert (Ascii.eqb c ":"%char = false) as E by (destruct (Ascii.eqb_spec c ":"%char) as [->|]; done).
  destruct t as [|c' t]; [done|]. unfold parseIPv6_text. by rewrite E.
Qed.

Lemma parse_string6 n : n < 2 ^ 128 → parseIPv6_text (string6 n) = Some n.
Proof.
  intros Hn. unfold string6. pose proof (groups_lt n) as Hg. pose proof (longest_run_groups n) as Hrun.
  pose proof (length_groups n) as Hlen. pose proof (of_bytes_groups n Hn) as Hval.
  destruct (longest_run 0 (groups n) (0, 0)%nat) as [i r]. destruct (Nat.eqb_spec r 0) as [->|Hr].
  - destruct (groups n) as [|g gs] eqn:E; [done|].
    destruct (hex_join_head g gs ltac:(by inversion Hg)) as (c & t & Ej & Hc).
    rewrite Ej, parse_text_head, <-Ej by done.
    rewrite ipv6_groups_list by (done || lia). cbn [mbind option_bind]. unfold expand.
    rewrite app_nil_l, length_all_bytes, Hlen. cbn -[of_bytes all_bytes]. by rewrite Hval.
  - destruct Hrun as [Hrun|(H2 & Hfull & Hle)]; [done|]. cbn [fst snd] in *.
    revert Hfull Hval. generalize (drop (i + r) (groups n)) (length_drop (groups n) (i + r)) (Forall_drop _ (i + r) _ Hg).
    assert (List.length (take i (groups n)) = i) as Hl by (rewrite length_take; lia).
    revert Hl. generalize (take i (groups n)) (Forall_take _ i _ Hg). intros l Hgl Hl rr Hr' Hgr Hfull Hval.
    rewrite Hfull in Hval. rewrite Hlen in Hr', Hle.
    destruct l as [|g l].
    + cbn [hex_join map app]. simpl in Hl. subst i.
      pose proof (expand_run [] rr r ltac:(simpl; lia) ltac:(lia)) as He. change (all_bytes []) with (@nil N) in He. rewrite !app_nil_l in He. change (List.length (@nil N)) with 0%nat in He.
      destruct rr as [|g rr].
      * cbn [hex_join map]. simpl in *. assert (r = 8%nat) as -> by lia. by rewrite <-Hval.
      * destruct (hex_join_head g rr ltac:(by inversion Hgr)) as (c & t & Ej & Hc).
        rewrite Ej. change (parseIPv6_text (":"%char :: ":"%char :: c :: t)) with (of_bytes <$> (ipv6_groups 8 (c :: t) [] (Some 0%nat) ≫= expand)).
        rewrite <-Ej, ipv6_groups_list by (done || lia). cbn [mbind option_bind]. rewrite app_nil_l.
        rewrite He. cbn -[of_bytes all_bytes]. by rewrite <-Hval.
    + destruct (hex_join_head g l ltac:(by inversion Hgl)) as (c & t & Ej & Hc).
      rewrite Ej. cbn [app]. rewrite parse_text_head by done.
      replace (c :: t ++ ":"%char :: ":"%char :: hex_join rr)%list with (hex_join (g :: l) ++ ":"%char :: ":"%char :: hex_join rr)%list by by rewrite Ej.
      rewrite ipv6_groups_split by (done || lia). cbn [mbind option_bind]. rewrite app_nil_l, Nat.add_0_l.
      rewrite (expand_run _ _ r) by lia. cbn -[of_bytes all_bytes]. by rewrite <-Hval.
Qed.

(** *** Addresses *)

Definition addr_char (c : ascii) : bool := hex_char c || Ascii.eqb c ":"%char || Ascii.eqb c "."%char.
Lemma addr_char_plain c : addr_char c = true → c ≠ "%"%char ∧ c ≠ "/"%char.
Proof. destruct c as [[][][][][][][][]]; first [discriminate 1 | by split]. Qed.
Lemma addr_char_hex c : hex_char c = true → addr_char c = true.
Proof. unfold addr_char. by intros ->. Qed.
Lemma forallb_impl {A} (p q : A → bool) l : (∀ x, p x = true → q x = true) → forallb p l = true → forallb q l = true.
Proof. intros H. rewrite !forallb_forall. eauto. Qed.

Lemma hex_join_chars gs : Forall (λ g, g < 65536) gs → forallb addr_char (hex_join gs) = true.
Proof.
  intros H. destruct H as [|g gs Hg Hgs]; [done|]. unfold hex_join. cbn [map].
  rewrite forallb_app, (forallb_impl _ _ _ addr_char_hex (hex_text_chars _ Hg)).
  induction Hgs as [|x l Hx _ IH]; [done|]. cbn [map flat_map]. rewrite forallb_app. cbn [forallb andb].
  rewrite (forallb_impl _ _ _ addr_char_hex (hex_text_chars _ Hx)). apply IH.
Qed.
Lemma string6_chars n : forallb addr_char (string6 n) = true.
Proof.
  unfold string6. pose proof (groups_lt n) as H. destruct (longest_run _ _ _) as [i r].
  destruct (r =? 0)%nat; [by apply hex_join_chars|].
  rewrite !forallb_app, !hex_join_chars; [done|by apply Forall_drop|by apply Forall_take].
Qed.

Lemma is_digit_hex c : is_digit c = true → hex_char c = true.
Proof. destruct c as [[][][][][][][][]]; first [discriminate 1 | done]. Qed.
Lemma pretty_digits n : n < 256 → forallb is_digit (chars (pretty n)) = true.
Proof.
  intros Hn. pose proof (dec_shape_256 n Hn) as H. unfold dec_shape in H.
  destruct (chars (pretty n)) as [|a [|b [|c [|]]]]; try done; repeat rewrite andb_true_iff in H;
    rewrite ?in_range_bounds in H; simpl; repeat match goal with H : _ ∧ _ |- _ => destruct H end;
    rewrite ?(proj2 (is_digit_bounds _)) by (rewrite ?is_digit_bounds in *; lia); done.
Qed.
Lemma pretty_digits_nonempty n : n < 256 → ∃ c l, chars (pretty n) = c :: l.
Proof.
  intros Hn. pose proof (dec_shape_256 n Hn) as H. unfold dec_shape in H.
  destruct (chars (pretty n)) as [|a l]; [done|]. eauto.
Qed.
Lemma chars_string4 n : chars (string4 n) =
  (chars (pretty (N.shiftr n 24 mod 256)) ++ "."%char :: chars (pretty (N.shiftr n 16 mod 256)) ++
   "."%char :: chars (pretty (N.shiftr n 8 mod 256)) ++ "."%char :: chars (pretty (n mod 256)))%list.
Proof.
  unfold string4, octets. generalize (N.shiftr n 24 mod 256) (N.shiftr n 16 mod 256) (N.shiftr n 8 mod 256) (n mod 256).
  intros a b c d. unfold join. simpl. by rewrite !chars_app.
Qed.
Lemma octet_chars n : forallb addr_char (chars (pretty (n mod 256))) = true.
Proof. eapply forallb_impl, pretty_digits, N.mod_lt; [|done]. intros. by apply addr_char_hex, is_digit_hex. Qed.
Lemma string4_chars n : forallb addr_char (chars (string4 n)) = true.
Proof. rewrite chars_string4. repeat (rewrite forallb_app; cbn [forallb andb]). by rewrite !octet_chars. Qed.

Lemma separator_string4 n : separator (chars (string4 n)) = Some "."%char.
Proof.
  rewrite chars_string4, (separator_skip is_digit); [done| |by apply pretty_digits, N.mod_lt].
  intros c Hc. by apply hex_char_sep3, is_digit_hex.
Qed.

Lemma no_char c l : addr_char c = false → forallb addr_char l = true → Forall (λ x, x ≠ c) l.
Proof. rewrite forallb_forall, Forall_forall. intros Hc H x Hx%list_elem_of_In%H ->. congruence. Qed.

Lemma parseIPv6_plain l : forallb addr_char l = true → parseIPv6 l = (λ n, V6 n "") <$> parseIPv6_text l.
Proof. intros H. unfold parseIPv6. by rewrite split_at_none by (by apply no_char). Qed.

(** The text of an IPv6 address has a colon before any dot. *)
Lemma separator_hex_join g g' gs rest : g < 65536 → separator (hex_join (g :: g' :: gs) ++ rest)%list = Some ":"%char.
Proof.
  intros Hg. rewrite hex_join_cons, <-app_assoc, (separator_skip hex_char); [done|apply hex_char_sep3|by apply hex_text_chars].
Qed.
Lemma separator_string6 n : separator (string6 n) = Some ":"%char.
Proof.
  unfold string6. pose proof (groups_lt n) as Hg. pose proof (length_groups n) as Hlen.
  destruct (longest_run _ _ _) as [i r]. destruct (r =? 0)%nat.
  - destruct (groups n) as [|g [|g' gs]]; [discriminate|discriminate|]. rewrite <-(app_nil_r (hex_join _)).
    apply separator_hex_join. by inversion Hg.
  - apply (Forall_take _ i) in Hg. destruct (take i (groups n)) as [|g [|g' gs]]; [done| |].
    + rewrite hex_join_one, (separator_skip hex_char); [done|apply hex_char_sep3|]. apply hex_text_chars. by inversion Hg.
    + apply separator_hex_join. by inversion Hg.
Qed.

Lemma parse_addr_6 l : separator l = Some ":"%char → ParseAddr (of_chars l) = parseIPv6 l.
Proof. intros H. unfold ParseAddr. by rewrite chars_of_chars, H. Qed.

(** The IPv4-mapped form. *)
Lemma parse_text_ellipsis c t : hex_char c = true →
  parseIPv6_text (":"%char :: ":"%char :: c :: t) = of_bytes <$> (ipv6_groups 8 (c :: t) [] (Some 0%nat) ≫= expand).
Proof. done. Qed.
Lemma mapped_prefix l : (chars "::ffff:" ++ l)%list = ":"%char :: ":"%char :: "f"%char :: "f"%char :: "f"%char :: "f"%char :: ":"%char :: l.
Proof. done. Qed.
Lemma mapped_prefix_string x : chars ("::ffff:" +:+ x) = ":"%char :: ":"%char :: "f"%char :: "f"%char :: "f"%char :: "f"%char :: ":"%char :: chars x.
Proof. by rewrite chars_app, mapped_prefix. Qed.
Lemma hex_group_octet v rest : v < 256 → group_end rest →
  ∃ a b, hex_group (chars (pretty v) ++ rest)%list 0 0 = Some (a, S b, rest).
Proof.
  intros Hv Hr. pose proof (dec_shape_256 v Hv) as Hs. pose proof (pretty_digits v Hv) as Hd. unfold dec_shape in Hs.
  assert (∀ c acc k l, is_digit c = true → (k <= 3)%nat → hex_group (c :: l) acc k = hex_group l (acc * 16 + (code c - 48)) (S k)) as Hc.
  { intros c acc k l Hx Hk. cbn [hex_group]. unfold hex_digit_value. rewrite Hx. destruct (Nat.ltb_spec 3 k); [lia|done]. }
  destruct (chars (pretty v)) as [|x [|y [|z [|]]]]; try discriminate Hs; cbn [forallb] in Hd;
    repeat rewrite andb_true_iff in Hd; repeat match goal with H : _ ∧ _ |- _ => destruct H end;
    cbn [app]; rewrite !Hc, hex_group_end by (done || lia); eauto.
Qed.
Lemma ipv6_groups_dotted fuel l a b d bytes i f : hex_group l 0 0 = Some (a, S b, "."%char :: d) →
  (List.length bytes <= 12)%nat → ipv4_fields l [] 0 0 = Some f →
  ipv6_groups (S fuel) l bytes (Some i) = Some (bytes ++ f, Some i)%list.
Proof.
  intros Hh Hb Hf. cbn [ipv6_groups]. rewrite Hh. cbn [Nat.eqb].
  destruct (Nat.ltb_spec 12 (List.length bytes)); [lia|]. cbn [orb]. by rewrite Hf.
Qed.
Lemma parse_mapped n : Is4In6 (V6 n "") = true →
  parseIPv6_text (chars ("::ffff:" +:+ string4 (N.land n 0xffffffff))) = Some n.
Proof.
  cbn [Is4In6]. rewrite N.eqb_eq. intros Hn. rewrite chars_app.
  assert (N.land n 0xffffffff < 2 ^ 32) as Hlt.
  { change 0xffffffff with (N.ones 32). rewrite N.land_ones. by apply N.mod_lt. }
  set (m := N.land n 0xffffffff) in *.
  pose proof (octets_lt m) as Ho. unfold octets in Ho. rewrite !Forall_cons in Ho. destruct Ho as (H1 & H2 & H3 & H4 & _).
  pose proof (ipv4_fields_octets _ _ _ _ H1 H2 H3 H4) as Hf. change (join "." (map pretty _)) with (string4 m) in Hf.
  destruct (pretty_digits_nonempty _ H1) as (c & l & Hc).
  assert (∃ a b d, hex_group (chars (string4 m)) 0 0 = Some (a, S b, "."%char :: d)) as (a & b & d & Hh).
  { rewrite chars_string4. destruct (hex_group_octet _ ("."%char :: chars (pretty (N.shiftr m 16 mod 256)) ++
      "."%char :: chars (pretty (N.shiftr m 8 mod 256)) ++ "."%char :: chars (pretty (m mod 256))) H1 eq_refl) as (a & b & E). eauto. }
  assert (∃ c l, chars (string4 m) = c :: l ∧ hex_char c = true) as (c' & l' & E & Hc').
  { rewrite chars_string4, Hc. eexists _, _. split; [done|]. apply is_digit_hex.
    pose proof (pretty_digits _ H1) as Hd. rewrite Hc in Hd. simpl in Hd. by apply andb_true_iff in Hd as [? _]. }
  rewrite mapped_prefix, parse_text_ellipsis by done.
  pose proof (ipv6_groups_next 7 0xffff c' l' [] (Some 0%nat) eq_refl Hc') as Hnext.
  change (hex_text 0xffff) with ["f"%char; "f"%char; "f"%char; "f"%char] in Hnext. cbn [app] in Hnext.
  rewrite E, Hnext, <-E.
  rewrite (ipv6_groups_dotted 6 _ a b d (group_bytes 0xffff) 0 _ Hh ltac:(cbn; lia) Hf). cbn [mbind option_bind].
  match goal with |- context [expand ?x] => change (expand x) with (Some (replicate 10 0 ++ [255; 255] ++ octets m)%list) end.
  cbn [fmap option_fmap option_map]. f_equal.
  assert (of_bytes (octets m) = m) as Hm by by apply of_bytes_octets.
  transitivity (65535 * 2 ^ 32 + of_bytes (octets m)).
  { unfold of_bytes, octets. generalize (N.shiftr m 24 mod 256) (N.shiftr m 16 mod 256) (N.shiftr m 8 mod 256) (m mod 256).
    intros x y z w. cbn [replicate app foldl]. change (2 ^ 32) with 4294967296. lia. }
  rewrite Hm. subst m. change 0xffffffff with (N.ones 32). rewrite N.land_ones.
  rewrite shiftr_div in Hn. rewrite (N.div_mod n (2 ^ 32)) at 2 by done. rewrite Hn. lia.
Qed.

Lemma chars_addr_6 n : chars (addr_String (V6 n "")) =
  if Is4In6 (V6 n "") then chars ("::ffff:" +:+ string4 (N.land n 0xffffffff)) else string6 n.
Proof.
  unfold addr_String. rewrite String.eqb_refl, chars_app. change (chars "") with (@nil ascii).
  rewrite app_nil_r. destruct (Is4In6 (V6 n "")); [done|apply chars_of_chars].
Qed.
Lemma addr_6_chars n : forallb addr_char (chars (addr_String (V6 n ""))) = true ∧
  separator (chars (addr_String (V6 n ""))) = Some ":"%char.
Proof.
  rewrite chars_addr_6. destruct (Is4In6 _); [|split; [apply string6_chars|apply separator_string6]].
  rewrite mapped_prefix_string. split; [|done]. cbn [forallb]. by rewrite string4_chars.
Qed.

(** An address without a zone is read back from its text. *)
Lemma ParseAddr_String a : addr_ok a → has_zone a = false → ParseAddr (addr_String a) = Some a.
Proof.
  unfold addr_ok, has_zone. destruct a as [n|n z]; cbn [addr_num BitLen]; intros Hn Hz.
  - unfold ParseAddr. cbn [addr_String]. rewrite separator_string4. by apply parseIPv4_string4.
  - apply negb_false_iff, String.eqb_eq in Hz as ->.
    destruct (addr_6_chars n) as [Hc Hs]. rewrite <-(of_chars_chars (addr_String (V6 n ""))), parse_addr_6, parseIPv6_plain, chars_addr_6 by done.
    destruct (Is4In6 (V6 n "")) eqn:E; [by rewrite parse_mapped|]. by rewrite parse_string6.
Qed.

(** *** Prefixes *)

Lemma addr_String_no_slash a : has_zone a = false → Forall (λ c, c ≠ "/"%char) (chars (addr_String a)).
Proof.
  intros Hz. apply no_char; [done|]. destruct a as [n|n z]; [apply string4_chars|].
  apply negb_false_iff, String.eqb_eq in Hz as ->. apply addr_6_chars.
Qed.
Lemma parse_bits_pretty n : n < 256 → parse_bits (chars (pretty n)) = Some n.
Proof.
  intros Hn. pose proof (dec_shape_256 n Hn) as H. pose proof (pretty_digits n Hn) as Hd. unfold dec_shape in H.
  unfold parse_bits. destruct (chars (pretty n)) as [|a [|b [|c [|]]]] eqn:E; try done;
    rewrite Hd; cbn [andb]; repeat rewrite andb_true_iff in H; repeat match goal with H : _ ∧ _ |- _ => destruct H end;
    try (match goal with H : in_range 49 57 a = true |- _ => rewrite H end);
    unfold digits_value; cbn [foldl]; f_equal;
    repeat match goal with H : (_ =? _) = true |- _ => apply N.eqb_eq in H end; lia.
Qed.

Lemma ParsePrefix_String p : prefix_ok p → ParsePrefix (prefix_String p) = Some p.
Proof.
  destruct p as [a bits]. intros (Ha & Hz & Hb). cbn [pfx_addr pfx_bits] in *.
  assert (bits < 256) as Hlt by (destruct a; cbn [BitLen] in Hb; lia).
  unfold ParsePrefix, prefix_String, split_last. cbn [pfx_addr pfx_bits]. rewrite !chars_app.
  change (chars "/") with ["/"%char]. rewrite !rev_app_distr, <-app_assoc. cbn [rev app].
  rewrite split_at_skip.
  2:{ apply Forall_rev, no_char; [done|]. eapply forallb_impl, pretty_digits, Hlt. intros. by apply addr_char_hex, is_digit_hex. }
  cbn [split_at]. simpl. rewrite app_nil_r, !rev_involutive, of_chars_chars, ParseAddr_String, parse_bits_pretty by done.
  rewrite Hz. cbn [negb andb]. rewrite (proj2 (N.leb_le _ _) Hb). unfold PrefixFrom. f_equal. f_equal.
  destruct a as [|n z]; [done|]. by apply negb_false_iff, String.eqb_eq in Hz as ->.
Qed.

(** ** What parses is in range *)

Definition byte (x : N) : Prop := x < 256.

Lemma ipv4_fields_ok l before val digits r : ipv4_fields l before val digits = Some r →
  Forall byte before → val < 256 → List.length r = 4%nat ∧ Forall byte r.
Proof.
  revert before val digits. induction l as [|c l IH]; intros before val digits; cbn [ipv4_fields].
  - destruct (digits =? 0)%nat; [done|]. destruct (Nat.eqb_spec (List.length before) 3) as [E|]; [|done].
    intros [= <-] Hb Hv. split; [rewrite ?length_app, length_rev; simpl; lia|]. apply (Forall_rev (P := byte) (l := val :: before)). by constructor.
  - destruct (is_digit c).
    + destruct (_ && _); [done|]. destruct (N.ltb_spec 255 (val * 10 + (code c - 48))); [done|].
      intros E Hb Hv. apply IH in E; [done|done|]. lia.
    + destruct (Ascii.eqb c _); [|done]. destruct (_ || _); [done|]. intros E Hb Hv. apply IH in E; [done| |lia]. by constructor.
Qed.

Lemma of_bytes_lt l acc : Forall byte l → foldl (λ acc b, acc * 256 + b) acc l < (acc + 1) * 256 ^ N.of_nat (List.length l).
Proof.
  intros H. revert acc. induction H as [|x l Hx _ IH]; intros acc; [simpl; lia|].
  cbn [foldl List.length]. rewrite Nat2N.inj_succ, N.pow_succ_r'. eapply N.lt_le_trans; [apply IH|].
  unfold byte in Hx. rewrite N.mul_assoc. apply N.mul_le_mono_r. lia.
Qed.

Lemma parseIPv4_ok l a : parseIPv4 l = Some a → addr_ok a.
Proof.
  unfold parseIPv4. intros (r & E & ->)%fmap_Some. destruct (ipv4_fields_ok _ _ _ _ _ E (proj2 (Forall_nil byte) Logic.I)) as [Hl Hr]; [done|].
  pose proof (of_bytes_lt r 0 Hr) as H. rewrite Hl in H. exact H.
Qed.

Lemma hex_digit_value_lt c d : hex_digit_value c = Some d → d < 16.
Proof.
  unfold hex_digit_value. destruct (is_digit c) eqn:E1; [intros [= <-]; apply is_digit_bounds in E1; lia|].
  destruct (in_range 97 102 c) eqn:E2; [intros [= <-]; apply in_range_bounds in E2; lia|].
  destruct (in_range 65 70 c) eqn:E3; [intros [= <-]; apply in_range_bounds in E3; lia|done].
Qed.
Lemma hex_group_ok l acc k v k' rest : hex_group l acc k = Some (v, k', rest) → acc < 16 ^ N.of_nat k → (k <= 4)%nat → v < 65536.
Proof.
  revert acc k. induction l as [|c l IH]; intros acc k; cbn [hex_group].
  - intros [= <- _ _] H Hk. eapply N.lt_le_trans; [exact H|]. change 65536 with (16 ^ 4). apply N.pow_le_mono_r; lia.
  - destruct (hex_digit_value c) as [d|] eqn:Ed.
    + destruct (Nat.ltb_spec 3 k); [done|]. intros E H' Hk. apply IH in E; [done| |lia].
      apply hex_digit_value_lt in Ed. rewrite Nat2N.inj_succ, N.pow_succ_r'. lia.
    + intros [= <- _ _] H Hk. eapply N.lt_le_trans; [exact H|]. change 65536 with (16 ^ 4). apply N.pow_le_mono_r; lia.
Qed.
Lemma group_bytes_ok v : v < 65536 → Forall byte (group_bytes v).
Proof.
  intros Hv. repeat constructor.
  - rewrite shiftr_div. apply N.Div0.div_lt_upper_bound. exact Hv.
  - change 255 with (N.ones 8). rewrite N.land_ones. by apply N.mod_lt.
Qed.

Lemma ipv6_groups_ok fuel l bytes e r : ipv6_groups fuel l bytes e = Some r →
  Forall byte bytes → (List.length bytes + 2 * fuel <= 16)%nat →
  match e with Some i => (i <= List.length bytes)%nat | None => True end →
  Forall byte (fst r) ∧ (List.length (fst r) <= 16)%nat ∧ match snd r with Some i => (i <= List.length (fst r))%nat | None => True end.
Proof.
  revert l bytes e. induction fuel as [|fuel IH]; intros l bytes e; [done|]. cbn [ipv6_groups].
  destruct (hex_group l 0 0) as [[[v k] rest]|] eqn:Eg; [|done]. apply hex_group_ok in Eg; [|done|lia].
  destruct (k =? 0)%nat; [done|].
  assert (∀ b, Forall byte b → Forall byte (b ++ group_bytes v)%list) as Happ by (intros; apply Forall_app; auto using group_bytes_ok).
  assert (List.length (bytes ++ group_bytes v) = List.length bytes + 2)%nat as Hlen by (rewrite length_app; done).
  change ([N.shiftr v 8; N.land v 255]) with (group_bytes v).
  intros E Hb Hf He.
  assert (∀ rest e', ipv6_groups fuel rest (bytes ++ group_bytes v)%list e' = Some r →
    match e' with Some i => (i <= List.length (bytes ++ group_bytes v))%nat | None => True end →
    Forall byte (fst r) ∧ (List.length (fst r) <= 16)%nat ∧ match snd r with Some i => (i <= List.length (fst r))%nat | None => True end) as Hrec.
  { intros rest' e' E' He'. eapply IH; [exact E'|auto|lia|done]. }
  assert (∀ e', Some (bytes ++ group_bytes v, e')%list = Some r →
    match e' with Some i => (i <= List.length (bytes ++ group_bytes v))%nat | None => True end →
    Forall byte (fst r) ∧ (List.length (fst r) <= 16)%nat ∧ match snd r with Some i => (i <= List.length (fst r))%nat | None => True end) as Hend.
  { intros e' [= <-] He'. cbn [fst snd]. split; [auto|]. split; [lia|done]. }
  assert (match e with Some i => (i <= List.length (bytes ++ group_bytes v))%nat | None => True end) as He2 by (destruct e; [lia|done]).
  clear IH.
  destruct rest as [|c rest']; [by eapply Hend|]. destruct (Ascii.eqb c "."%char).
  - destruct (_ || _) eqn:Eo; [done|]. apply orb_false_iff in Eo as [_ Eo]. apply Nat.ltb_ge in Eo.
    destruct (ipv4_fields l [] 0 0) as [f|] eqn:Ef; [|done]. injection E as [= <-]. cbn [fst snd].
    destruct (ipv4_fields_ok _ _ _ _ _ Ef (proj2 (Forall_nil byte) Logic.I)) as [Hfl Hfb]; [done|].
    rewrite length_app. split; [by apply Forall_app|]. split; [lia|]. destruct e; [lia|done].
  - destruct (negb _); [done|]. destruct rest' as [|c' rest'']; [done|]. destruct (Ascii.eqb c' ":"%char).
    + destruct e; [done|]. destruct rest''; [eapply Hend; [exact E|cbn; lia]|eapply Hrec; [exact E|cbn; lia]].
    + eapply Hrec; [exact E|done].
Qed.

Lemma expand_ok r bs : expand r = Some bs → Forall byte (fst r) → (List.length (fst r) <= 16)%nat →
  match snd r with Some i => (i <= List.length (fst r))%nat | None => True end → Forall byte bs ∧ List.length bs = 16%nat.
Proof.
  destruct r as [b e]. unfold expand. cbn [fst snd]. intros E Hb Hl He. destruct e as [i|].
  - destruct (Nat.eqb_spec (16 - List.length b) 0); [done|]. injection E as <-. split.
    + repeat apply Forall_app_2; [by apply Forall_take|by apply Forall_replicate|by apply Forall_drop].
    + rewrite !length_app, length_replicate, length_take, length_drop. lia.
  - destruct (Nat.eqb_spec (16 - List.length b) 0); [|done]. injection E as <-. split; [done|lia].
Qed.

Lemma parse_groups_ok l e n : parse_groups l e = Some n → (match e with Some i => i = 0%nat | None => True end) → n < 2 ^ 128.
Proof.
  unfold parse_groups. intros (bs & E & ->)%fmap_Some He. apply bind_Some in E as (r & E1 & E2).
  apply ipv6_groups_ok in E1 as (H1 & H2 & H3); [|by apply Forall_nil|simpl; lia|destruct e; [simpl; lia|done]].
  destruct (expand_ok _ _ E2 H1 H2 H3) as [Hb Hl]. pose proof (of_bytes_lt bs 0 Hb) as H. rewrite Hl in H. exact H.
Qed.
Lemma parseIPv6_text_ok l n : parseIPv6_text l = Some n → n < 2 ^ 128.
Proof.
  unfold parseIPv6_text. destruct l as [|c [|c' rest]]; [by intros H%parse_groups_ok..|].
  destruct (_ && _); [|by intros H%parse_groups_ok]. destruct rest; [by intros [= <-]|by intros H%parse_groups_ok].
Qed.
Lemma ParseAddr_ok s a : ParseAddr s = Some a → addr_ok a.
Proof.
  unfold ParseAddr, parseIPv6. destruct (separator (chars s)) as [c|]; [|done]. intros H.
  assert (parseIPv4 (chars s) = Some a ∨ parseIPv6 (chars s) = Some a) as [E|E].
  { unfold parseIPv6. destruct c as [[][][][][][][][]]; try done; auto. }
  - by eapply parseIPv4_ok.
  - unfold parseIPv6 in E. destruct (split_at _ _) as [[t z]|].
    + destruct z; [done|]. apply fmap_Some in E as (n & E & ->). by eapply parseIPv6_text_ok.
    + apply fmap_Some in E as (n & E & ->). by eapply parseIPv6_text_ok.
Qed.

Lemma PrefixFrom_ok a bits : addr_ok a → bits <= BitLen a → prefix_ok (PrefixFrom a bits).
Proof. destruct a; intros Ha Hb; (split; [exact Ha|split; [done|exact Hb]]). Qed.
Lemma ParsePrefix_ok s p : ParsePrefix s = Some p → prefix_ok p.
Proof.
  unfold ParsePrefix. destruct (split_last _ _) as [[t b]|]; [|done].
  destruct (ParseAddr (of_chars t)) as [a|] eqn:Ea; [|done]. destruct (parse_bits b) as [n|]; [|done].
  destruct (_ && _) eqn:E; [|done]. intros [= <-]. apply andb_true_iff in E as [_ E]. apply N.leb_le in E.
  apply PrefixFrom_ok; [by eapply ParseAddr_ok|done].
Qed.
Lemma parse_prefix_or_addr_ok s p : parse_prefix_or_addr s = Some p → prefix_ok p.
Proof.
  unfold parse_prefix_or_addr. destruct (ParsePrefix s) as [q|] eqn:E.
  - intros [= <-]. by eapply ParsePrefix_ok.
  - intros (a & Ea & ->)%fmap_Some. apply PrefixFrom_ok; [by eapply ParseAddr_ok|lia].
Qed.

(** *** Masking *)

Lemma clear_low_le n k : clear_low n k <= n.
Proof. unfold clear_low. rewrite N.shiftl_mul_pow2, shiftr_div, N.mul_comm. apply N.Div0.mul_div_le. Qed.
Lemma clear_low_idem n k : clear_low (clear_low n k) k = clear_low n k.
Proof. unfold clear_low. by rewrite N.shiftr_shiftl_l, N.sub_diag, N.shiftl_0_r. Qed.
Lemma Masked_ok p : prefix_ok p → prefix_ok (Masked p).
Proof.
  destruct p as [a bits]. intros (Ha & Hz & Hb). unfold Masked, prefix_ok. cbn [pfx_addr pfx_bits] in *.
  destruct a as [n|n z]; cbn [map_num BitLen] in *; (split; [|done]); unfold addr_ok in *; cbn [addr_num BitLen] in *;
    eapply N.le_lt_trans; [apply clear_low_le|exact Ha| apply clear_low_le|exact Ha].
Qed.
Lemma Masked_idem p : Masked (Masked p) = Masked p.
Proof.
  destruct p as [[n|n z] bits]; unfold Masked; cbn [pfx_addr pfx_bits map_num BitLen low_bits]; f_equal; f_equal;
    unfold low_bits; cbn [BitLen]; apply clear_low_idem.
Qed.
Lemma Masked_bits p : pfx_bits (Masked p) = pfx_bits p.
Proof. done. Qed.
Lemma Masked_Is4 p : Is4 (pfx_addr (Masked p)) = Is4 (pfx_addr p).
Proof. by destruct p as [[]]. Qed.

(** *** The characters of a text that parses *)

Lemma addr_char_dot : addr_char "." = true.
Proof. reflexivity. Qed.
Lemma ipv4_fields_chars l before val digits r : ipv4_fields l before val digits = Some r → forallb addr_char l = true.
Proof.
  revert before val digits. induction l as [|c l IH]; intros before val digits; cbn [ipv4_fields forallb]; [done|].
  destruct (is_digit c) eqn:Ed.
  - rewrite (addr_char_hex c) by by apply is_digit_hex. destruct (_ && _); [done|]. destruct (_ <? _); [done|]. apply IH.
  - destruct (Ascii.eqb_spec c "."%char) as [->|]; [|done]. rewrite addr_char_dot. destruct (_ || _); [done|]. apply IH.
Qed.
Lemma hex_group_chars l acc k v k' rest : hex_group l acc k = Some (v, k', rest) →
  ∃ h, l = (h ++ rest)%list ∧ forallb hex_char h = true.
Proof.
  revert acc k. induction l as [|c l IH]; intros acc k; cbn [hex_group].
  - intros [= _ _ <-]. by exists [].
  - destruct (hex_digit_value c) as [d|] eqn:Ed.
    + destruct (3 <? k)%nat; [done|]. intros (h & -> & Hh)%IH. exists (c :: h). split; [done|]. simpl. rewrite Hh. unfold hex_char. by rewrite Ed.
    + intros [= _ _ <-]. by exists [].
Qed.
Lemma ipv6_groups_chars fuel l bytes e r : ipv6_groups fuel l bytes e = Some r → forallb addr_char l = true.
Proof.
  revert l bytes e. induction fuel as [|fuel IH]; intros l bytes e; [done|]. cbn [ipv6_groups].
  destruct (hex_group l 0 0) as [[[v k] rest]|] eqn:Eg; [|done]. apply hex_group_chars in Eg as (h & -> & Hh).
  destruct (k =? 0)%nat; [done|].
  assert (forallb addr_char h = true) as Ha by (eapply forallb_impl; [|exact Hh]; apply addr_char_hex).
  destruct rest as [|c rest']; [by rewrite app_nil_r|].
  destruct (Ascii.eqb_spec c "."%char) as [->|].
  - destruct (_ || _); [done|]. destruct (ipv4_fields _ _ _ _) eqn:E4; [|done]. by intros _; apply ipv4_fields_chars in E4.
  - destruct (Ascii.eqb_spec c ":"%char) as [->|]; [|done]. simpl negb. cbn iota. rewrite forallb_app, Ha. simpl.
    destruct rest' as [|c' rest'']; [done|]. destruct (Ascii.eqb_spec c' ":"%char) as [->|].
    + destruct e; [done|]. destruct rest''; [done|]. by intros Hr%IH.
    + by intros Hr%IH.
Qed.
Lemma parseIPv6_text_chars l n : parseIPv6_text l = Some n → forallb addr_char l = true.
Proof.
  assert (∀ k e, parse_groups k e = Some n → forallb addr_char k = true) as H.
  { intros k e. unfold parse_groups. intros (x & Hx & _)%fmap_Some. apply bind_Some in Hx as (y & Hy & _).
    by eapply ipv6_groups_chars. }
  unfold parseIPv6_text. destruct l as [|c [|c' l]]; [apply H..|].
  destruct (Ascii.eqb c ":"%char && Ascii.eqb c' ":"%char) eqn:E; [|apply H].
  apply andb_true_iff in E as [->%Ascii.eqb_eq ->%Ascii.eqb_eq]. destruct l; [done|]. intros Hg%H. simpl in *. done.
Qed.
Lemma ParseAddr_family s a : ParseAddr s = Some a → parseIPv4 (chars s) = Some a ∨ parseIPv6 (chars s) = Some a.
Proof.
  unfold ParseAddr. destruct (separator (chars s)) as [c|]; [|done].
  unfold parseIPv6. destruct c as [[][][][][][][][]]; try done; auto.
Qed.
Lemma ParseAddr_chars s a : ParseAddr s = Some a → has_zone a = false → forallb addr_char (chars s) = true.
Proof.
  intros [E|E]%ParseAddr_family Hz.
  - unfold parseIPv4 in E. apply fmap_Some in E as (x & E & _). by eapply ipv4_fields_chars.
  - unfold parseIPv6 in E. destruct (split_at _ _) as [[t z]|].
    + destruct z as [|c z]; [done|]. apply fmap_Some in E as (n & _ & ->). done.
    + apply fmap_Some in E as (n & E & _). by eapply parseIPv6_text_chars.
Qed.

(** The characters of addresses and of prefixes. *)
Definition prefix_char (c : ascii) : bool := addr_char c || Ascii.eqb c "/"%char.
Lemma split_at_app c l a b : split_at c l = Some (a, b) → l = (a ++ c :: b)%list.
Proof.
  revert a b. induction l as [|x l IH]; intros a b; [done|]. simpl. destruct (Ascii.eqb_spec x c) as [->|].
  - by intros [= <- <-].
  - destruct (split_at c l) as [[u v]|]; [|done]. intros [= <- <-]. by rewrite (IH _ _ eq_refl).
Qed.
Lemma digits_addr l : forallb is_digit l = true → forallb addr_char l = true.
Proof. apply forallb_impl. intros c H. by apply addr_char_hex, is_digit_hex. Qed.
Lemma ParsePrefix_chars s p : ParsePrefix s = Some p → forallb prefix_char (chars s) = true ∧ "/"%char ∈ chars s.
Proof.
  unfold ParsePrefix, split_last. destruct (split_at "/"%char (rev (chars s))) as [[x y]|] eqn:E; [|done]. simpl.
  apply split_at_app in E. apply (f_equal (@rev ascii)) in E. rewrite rev_involutive, rev_app_distr in E. simpl in E. rewrite <-app_assoc in E. simpl in E.
  destruct (ParseAddr _) as [a|] eqn:Ea; [|done]. destruct (parse_bits (rev x)) as [n|] eqn:En; [|done].
  destruct (negb (has_zone a) && _) eqn:Ez; [|done]. intros _. apply andb_true_iff in Ez as [Ez%negb_true_iff _].
  apply ParseAddr_chars in Ea; [|done]. rewrite chars_of_chars in Ea. rewrite E. split; [|set_solver].
  assert (forallb is_digit (rev x) = true) as Hd.
  { unfold parse_bits in En. destruct (rev x); [done|]. destruct (forallb is_digit _); [done|by simpl in En]. }
  apply digits_addr in Hd. rewrite forallb_app. simpl. unfold prefix_char.
  rewrite (forallb_impl _ _ _ (λ c H, orb_true_intro _ _ (or_introl H)) Ea), (forallb_impl _ _ _ (λ c H, orb_true_intro _ _ (or_introl H)) Hd).
  done.
Qed.
Lemma ParseAddr_v4_chars s n : ParseAddr s = Some (V4 n) → forallb addr_char (chars s) = true.
Proof. intros H. by eapply ParseAddr_chars. Qed.
Lemma pretty_N_go_digits n acc : forallb is_digit (chars acc) = true → forallb is_digit (chars (pretty_N_go n acc)) = true.
Proof.
  revert acc. induction (N.lt_wf_0 n) as [n _ IH]. intros acc Ha. destruct (decide (0 < n)) as [H|H].
  - rewrite pretty_N_go_step by done. apply IH; [by apply N.div_lt|].
    cbn [chars list_ascii_of_string forallb]. change (list_ascii_of_string acc) with (chars acc). rewrite Ha, andb_true_r.
    assert (n mod 10 < 10) as Hm by (by apply N.mod_lt). revert Hm. generalize (n mod 10) as d. clear. intros d Hd.
    assert (d = 0 ∨ d = 1 ∨ d = 2 ∨ d = 3 ∨ d = 4 ∨ d = 5 ∨ d = 6 ∨ d = 7 ∨ d = 8 ∨ d = 9) as Hc by lia. by destruct_or! Hc; subst.
  - assert (n = 0) as -> by lia. done.
Qed.
Lemma pretty_N_digits (n : N) : forallb is_digit (chars (pretty n)) = true.
Proof. unfold pretty, pretty_N. destruct (decide (n = 0)); [done|]. by apply pretty_N_go_digits. Qed.
Lemma pretty_N_go_nonempty n acc : acc ≠ ""%string → pretty_N_go n acc ≠ ""%string.
Proof.
  revert acc. induction (N.lt_wf_0 n) as [n _ IH]. intros acc Ha. destruct (decide (0 < n)) as [H|H].
  - rewrite pretty_N_go_step by done. apply IH; [by apply N.div_lt|done].
  - by assert (n = 0) as -> by lia.
Qed.
Lemma pretty_N_nonempty (n : N) : chars (pretty n) ≠ [].
Proof.
  assert (pretty n ≠ ""%string) as H.
  { unfold pretty, pretty_N. destruct (decide (n = 0)); [done|]. rewrite pretty_N_go_step by lia. by apply pretty_N_go_nonempty. }
  by destruct (pretty n).
Qed.
Lemma pretty_Z_digits (z : Z) : (0 <= z)%Z → forallb is_digit (chars (pretty z)) = true ∧ chars (pretty z) ≠ [].
Proof.
  intros H. destruct z as [|p|p]; [done| |lia]. change (pretty (Z.pos p)) with (pretty (N.pos p)).
  split; [apply pretty_N_digits|apply pretty_N_nonempty].
Qed.
