(* ===== verification/GoPath.v ===== *)
(** File paths and URLs as packages [path/filepath] and [net/url] present them to the
    program: cleaning and joining paths, and the parts of a URL the configuration
    looks at. *)

From S2P Require Import Prelude GoStrings Netip.
From Stdlib Require Import Ascii String.
Local Open Scope string_scope.
Local Open Scope nat_scope.
Abbreviation length := List.length.

(** ** Splitting *)

(** [strings.Split(s, c)] on characters: never empty. *)
Fixpoint split_on (c : ascii) (cur l : list ascii) : list (list ascii) :=
  match l with
  | [] => [rev cur]
  | x :: l' => if Ascii.eqb x c then rev cur :: split_on c [] l' else split_on c (x :: cur) l'
  end.
Definition split_string (c : ascii) (s : string) : list string := map of_chars (split_on c [] (chars s)).

Definition has_suffix (s suf : string) : bool :=
  has_prefix (of_chars (rev (chars s))) (of_chars (rev (chars suf))).
Definition trim_suffix (s suf : string) : string :=
  if has_suffix s suf then substring 0 (slen s - slen suf) s else s.
Definition contains_any (s cs : string) : bool := existsb (one_of cs) (chars s).

(** ** Paths *)

Definition IsAbs (path : string) : bool := has_prefix path "/".

(** The components of [Clean], last first. *)
Definition clean_step (rooted : bool) (acc : list string) (c : string) : list string :=
  if String.eqb c "" || String.eqb c "." then acc
  else if String.eqb c ".." then
    match acc with
    | last :: acc' => if String.eqb last ".." then c :: acc else acc'
    | [] => if rooted then [] else [c]
    end
  else c :: acc.
Definition Clean (path : string) : string :=
  let rooted := IsAbs path in
  let body := join "/" (rev (foldl (clean_step rooted) [] (split_string "/"%char path))) in
  if rooted then "/" +:+ body else if String.eqb body "" then "." else body.

Definition Join (elems : list string) : string :=
  match List.filter (λ e, negb (String.eqb e "")) elems with
  | [] => ""
  | l => Clean (join "/" l)
  end.

(** The text after the last slash, and what comes before it (with the slash). *)
Fixpoint until_slash (l : list ascii) : list ascii :=
  match l with [] => [] | c :: l' => if Ascii.eqb c "/"%char then [] else c :: until_slash l' end.
Definition Base (path : string) : string :=
  if String.eqb path "" then "."
  else match drop_while (Ascii.eqb "/"%char) (rev (chars path)) with
       | [] => "/"
       | l => of_chars (rev (until_slash l))
       end.
Definition Dir (path : string) : string :=
  Clean (of_chars (rev (drop_while (λ c, negb (Ascii.eqb c "/"%char)) (rev (chars path))))).

Example clean_dots : Clean "/var//lib/./x/../nftfw/" = "/var/lib/nftfw". Proof. reflexivity. Qed.
Example clean_up : Clean "../../a/.." = "../..". Proof. reflexivity. Qed.
Example clean_root : Clean "/.." = "/". Proof. reflexivity. Qed.
Example join_root : Join ["/var/lib/nftfw"; "generation-state"; "state.db"] = "/var/lib/nftfw/generation-state/state.db". Proof. reflexivity. Qed.
Example base_conf : Base "/etc/wireguard/wg0.conf" = "wg0.conf". Proof. reflexivity. Qed.
Example dir_conf : Dir "/etc/wireguard/wg0.conf" = "/etc/wireguard". Proof. reflexivity. Qed.

(** ** URLs *)

Record URL := mkURL {
  Scheme : string;
  HasUser : bool;             (* User != nil *)
  HostPart : string;          (* Host *)
  RawQuery : string;
  ForceQuery : bool;
  Fragment : string
}.

Definition is_hex (c : ascii) : bool := is_digit c || in_range 97 102 c || in_range 65 70 c.
Definition unhex (c : ascii) : N := default 0%N (hex_digit_value c).

(** [shouldEscape] for hosts and zones, on ASCII. *)
Definition host_char (c : ascii) : bool :=
  (128 <=? code c)%N || is_alnum c || one_of "!$&'()*+,;=:[]<>-_.~" c || (code c =? 34)%N.

Inductive url_part := InHost | InZone | InPath.
(** [unescape]: the decoded text, or the escape error. *)
Fixpoint unescape (mode : url_part) (l : list ascii) : option (list ascii) :=
  match l with
  | [] => Some []
  | "%"%char :: l' =>
      match l' with
      | a :: b :: l'' =>
          if is_hex a && is_hex b then
            let v := ascii_of_N (unhex a * 16 + unhex b) in
            let percent := Ascii.eqb a "2"%char && Ascii.eqb b "5"%char in
            let bad := match mode with
                       | InHost => (unhex a <? 8)%N && negb percent
                       | InZone => negb percent && negb (Ascii.eqb v " "%char) && negb (host_char v)
                       | InPath => false
                       end in
            if bad then None else cons v <$> unescape mode l''
          else None
      | _ => None
      end
  | c :: l' =>
      if match mode with InPath => false | _ => negb (host_char c) end then None else cons c <$> unescape mode l'
  end.

Definition validOptionalPort (l : list ascii) : bool :=
  match l with [] => true | c :: l' => Ascii.eqb c ":"%char && forallb is_digit l' end.

(** The last occurrence of [c] in [l]: what precedes it and what follows. *)
Definition cut_last : ascii → list ascii → option (list ascii * list ascii) := split_last.
Fixpoint find_zone (before l : list ascii) : option (list ascii * list ascii) :=
  match l with
  | [] => None
  | "%"%char :: "2"%char :: "5"%char :: _ => Some (rev before, l)
  | c :: l' => find_zone (c :: before) l'
  end.
Definition parseHost (host : list ascii) : option (list ascii) :=
  match host with
  | "["%char :: _ =>
      match cut_last "]"%char host with
      | None => None
      | Some (inner, port) =>
          if validOptionalPort port then
            match find_zone [] inner with
            | Some (a, zone) =>
                match unescape InHost a, unescape InZone zone, unescape InHost ("]"%char :: port) with
                | Some x, Some y, Some z => Some (x ++ y ++ z)%list
                | _, _, _ => None
                end
            | None => unescape InHost host
            end
          else None
      end
  | _ =>
      match cut_last ":"%char host with
      | Some (_, port) => if validOptionalPort (":"%char :: port) then unescape InHost host else None
      | None => unescape InHost host
      end
  end.

(** [getScheme]: [None] is the missing-scheme error; otherwise the scheme and the rest. *)
Fixpoint getScheme (first : bool) (before l : list ascii) : option (list ascii * list ascii) :=
  match l with
  | [] => Some ([], rev before)
  | c :: l' =>
      if is_alpha c then getScheme false (c :: before) l'
      else if is_digit c || one_of "+-." c then
        if first then Some ([], l) else getScheme false (c :: before) l'
      else if Ascii.eqb c ":"%char then if first then None else Some (rev before, l')
      else Some ([], (rev before ++ l)%list)
  end.

Definition cut (c : ascii) (l : list ascii) : list ascii * list ascii :=
  match split_at c l with Some r => r | None => (l, []) end.

(** [url.Parse] for URLs with a scheme; a text without one has an empty scheme, which
    is all the program looks at. *)
Definition parse_url (s : string) : option URL :=
  let '(text, fragment) := cut "#"%char (chars s) in
  if existsb (λ c, (code c <? 32)%N || (code c =? 127)%N) text then None
  else
  match getScheme true [] text with
  | None => None
  | Some ([], _) => Some (mkURL "" false "" "" false "")
  | Some (scheme, rest) =>
      let scheme := to_lower (of_chars scheme) in
      let force := match rev rest with c :: l => Ascii.eqb c "?"%char && negb (existsb (Ascii.eqb "?"%char) l) | [] => false end in
      let '(rest, query) := if force then (removelast rest, []) else cut "?"%char rest in
      let whole user host := Some (mkURL scheme user (of_chars host) (of_chars query) force (of_chars fragment)) in
      if (match unescape InPath fragment with None => true | Some _ => false end) then None
      else match rest with
           | "/"%char :: "/"%char :: authority =>
               let hostpart := until_slash authority in
               let path := drop (length hostpart) authority in
               match unescape InPath path with
               | None => None
               | Some _ =>
                   match cut_last "@"%char hostpart with
                   | Some (_, host) => match parseHost host with None => None | Some h => whole true h end
                   | None => match parseHost hostpart with None => None | Some h => whole false h end
                   end
               end
           | "/"%char :: _ => match unescape InPath rest with None => None | Some _ => whole false [] end
           | _ => whole false []
           end
  end.

Example url_feed : parse_url "HTTPS://feeds.example.net:8443/list%20a?x" =
  Some (mkURL "https" false "feeds.example.net:8443" "x" false ""). Proof. reflexivity. Qed.
Example url_user : HasUser <$> parse_url "https://u:p@example.net/" = Some true. Proof. reflexivity. Qed.
Example url_force : ForceQuery <$> parse_url "https://example.net/?" = Some true. Proof. reflexivity. Qed.
Example url_bad_host : parse_url "https://exa mple.net/" = None. Proof. reflexivity. Qed.
