(* ===== verification/NetGate.v ===== *)
(** The network producers (internal/netgate/netgate.go): which systemd services own the
    host's interfaces, and that they wait for enforcement.  What systemctl prints is an
    input; the files are read by the callers. *)

From S2P Require Import Prelude GoStrings GoPath.
From Stdlib Require Import Ascii String.
Local Open Scope string_scope.
Local Open Scope nat_scope.
Abbreviation length := List.length.

Record unitSpec := mkSpec { us_unit : string; us_probe : string; us_primary : bool }.
Definition supported : list unitSpec :=
  [mkSpec "NetworkManager.service" "NetworkManager.service" true; mkSpec "dhcpcd.service" "dhcpcd.service" true;
   mkSpec "dhcpcd@.service" "dhcpcd@nftfw-probe.service" false; mkSpec "ifup@.service" "ifup@nftfw-probe.service" false;
   mkSpec "networking.service" "networking.service" true; mkSpec "systemd-networkd.service" "systemd-networkd.service" true].
Definition unsupported : list string := ["connman.service"; "netctl.service"; "wicked.service"; "wicd.service"].
Definition maxUnitOutput : nat := 4096.
Definition newline : string := String (ascii_of_nat 10) EmptyString.

(** ** Observation *)

Record observedUnit := mkObserved {
  ob_ID : string; ob_LoadState : string; ob_ActiveState : string; ob_UnitFileState : string; ob_FragmentPath : string
}.
Definition shown_keys : list string := ["Id"; "LoadState"; "ActiveState"; "UnitFileState"; "FragmentPath"].
(** [strings.Cut(line, "=")] *)
Definition cut_equals (line : string) : option (string * string) :=
  (λ '(a, b), (of_chars a, of_chars b)) <$> Netip.split_at "="%char (chars line).
(** The lines of a nonempty output that ends its last line. *)
Definition output_lines (data : string) : option (list string) :=
  if (slen data =? 0) || (maxUnitOutput <? slen data) || negb (has_suffix data newline) then None
  else Some (split_string (ascii_of_nat 10) (trim_suffix data newline)).
Fixpoint unit_values (lines : list string) (values : gmap string string) : option (gmap string string) :=
  match lines with
  | [] => Some values
  | line :: lines' =>
      match cut_equals line with
      | Some (key, value) =>
          if contains_any value (String (ascii_of_nat 13) newline) then None
          else if negb (bool_decide (key ∈ shown_keys)) || bool_decide (is_Some (values !! key)) then None
          else unit_values lines' (<[key := value]> values)
      | None => None
      end
  end.
Definition observe (data : string) : option observedUnit :=
  lines ← output_lines data;
  values ← unit_values lines ∅;
  id ← values !! "Id"; load ← values !! "LoadState"; active ← values !! "ActiveState"; file ← values !! "UnitFileState";
  path ← values !! "FragmentPath";
  Some (mkObserved id load active file path).
(** [inspect]: [None] is a failed or malformed answer. *)
Definition inspect (systemctl : string → err + string) (unit : string) : option observedUnit :=
  match systemctl unit with inl _ => None | inr data => observe data end.

Definition absent (o : observedUnit) (probe : string) : bool :=
  String.eqb (ob_ID o) probe && String.eqb (ob_LoadState o) "not-found" && String.eqb (ob_ActiveState o) "inactive" &&
  String.eqb (ob_UnitFileState o) "" && String.eqb (ob_FragmentPath o) "".
Definition canonicalVendorPath (path unit : string) : bool :=
  String.eqb path ("/usr/lib/systemd/system/" +:+ unit) || String.eqb path ("/lib/systemd/system/" +:+ unit).
Definition allowedActiveState (v : string) : bool :=
  existsb (String.eqb v) ["active"; "inactive"; "activating"; "deactivating"; "reloading"; "failed"; "maintenance"].
Definition allowedUnitFileState (v : string) : bool :=
  existsb (String.eqb v) ["enabled"; "enabled-runtime"; "disabled"; "static"; "indirect"; "generated"].

(** ** Discovery *)

Definition failed_inspection : err := Errorf "SETUP_NETWORK_PRODUCER_INSPECTION_FAILED" [].
Definition unsafe_producer : err := Errorf "SETUP_NETWORK_PRODUCER_UNSAFE" [].
Fixpoint contains_text (sub s : string) : bool :=
  has_prefix s sub || match s with EmptyString => false | String _ s' => contains_text sub s' end.

Definition is_template (s : unitSpec) : bool := contains_text "@." (us_unit s).
Definition selected (s : unitSpec) (o : observedUnit) : bool :=
  us_primary s && (String.eqb (ob_ActiveState o) "active" || String.eqb (ob_UnitFileState o) "enabled" || String.eqb (ob_UnitFileState o) "enabled-runtime").
Definition safe_unit (s : unitSpec) (o : observedUnit) : bool :=
  String.eqb (ob_ID o) (us_probe s) && String.eqb (ob_LoadState o) "loaded" && allowedActiveState (ob_ActiveState o) &&
  allowedUnitFileState (ob_UnitFileState o) && canonicalVendorPath (ob_FragmentPath o) (us_unit s) &&
  negb (is_template s && negb (String.eqb (ob_ActiveState o) "inactive")).
(** The units present, and how many primary ones are selected. *)
Fixpoint find_producers (systemctl : string → err + string) (l : list unitSpec) : err + (list string * nat) :=
  match l with
  | [] => inr ([], 0)
  | s :: l' =>
      match inspect systemctl (us_probe s) with
      | None => inl failed_inspection
      | Some o =>
          if absent o (us_probe s) then find_producers systemctl l'
          else if negb (safe_unit s o) then inl unsafe_producer
          else match find_producers systemctl l' with
               | inl e => inl e
               | inr (units, n) => inr (us_unit s :: units, if selected s o then S n else n)
               end
      end
  end.
Fixpoint refuse_unsupported (systemctl : string → err + string) (l : list string) : option err :=
  match l with
  | [] => None
  | unit :: l' =>
      match inspect systemctl unit with
      | None => Some failed_inspection
      | Some o => if absent o unit then refuse_unsupported systemctl l' else Some (Errorf "SETUP_NETWORK_PRODUCER_UNSUPPORTED" [])
      end
  end.
Definition Discover (systemctl : string → err + string) : err + list string :=
  match find_producers systemctl supported with
  | inl e => inl e
  | inr (units, n) =>
      match refuse_unsupported systemctl unsupported with
      | Some e => inl e
      | None =>
          if negb (n =? 1) || (length units =? 0) then inl (Errorf "SETUP_NETWORK_PRODUCER_AMBIGUOUS" [])
          else inr (sort_strings units)
      end
  end.

(** ** Sets of units *)

Definition invalid_set : err := Errorf "SETUP_NETWORK_PRODUCER_SET_INVALID" [].
Fixpoint ascending (previous : string) (units : list string) : bool :=
  match units with
  | [] => true
  | unit :: units' =>
      existsb (λ s, String.eqb (us_unit s) unit) supported && (String.eqb previous "" || str_ltb previous unit) && ascending unit units'
  end.
Definition ValidateUnits (units : list string) : option err :=
  if (length units =? 0) || (length supported <? length units) || negb (ascending "" units) then Some invalid_set else None.

Definition DropInName : string := "50-nftfw-enforcement-ready.conf".
Definition DropInPath (systemdDir unit : string) : err + string :=
  if negb (IsAbs systemdDir) || negb (String.eqb (Clean systemdDir) systemdDir) || String.eqb systemdDir "/" ||
     bool_decide (is_Some (ValidateUnits [unit]))
  then inl (Errorf "SETUP_NETWORK_PRODUCER_PATH_INVALID" [])
  else inr (Join [systemdDir; unit +:+ ".d"; DropInName]).
Fixpoint drop_in_paths (systemdDir : string) (units : list string) : err + list string :=
  match units with
  | [] => inr []
  | unit :: units' =>
      match DropInPath systemdDir unit with
      | inl e => inl e
      | inr p => match drop_in_paths systemdDir units' with inl e => inl e | inr r => inr (p :: r) end
      end
  end.
Definition DropInPaths (systemdDir : string) (units : list string) : err + list string :=
  match ValidateUnits units with Some e => inl e | None => drop_in_paths systemdDir units end.

Definition bootMarkerHeader : string := "nftfw.setup-network-producers.v1".
Definition BootMarkerData (units : list string) : err + string :=
  match ValidateUnits units with
  | Some e => inl e
  | None => inr (bootMarkerHeader +:+ newline +:+ join newline units +:+ newline)
  end.

(** ** The effective dependency *)

Definition ready_service : string := "nftfw-enforcement-ready.service".
Definition dependency_keys : list string := ["Requires"; "BindsTo"; "After"].
Fixpoint dependency_values (lines : list string) (values : gmap string (list string)) : option (gmap string (list string)) :=
  match lines with
  | [] => Some values
  | line :: lines' =>
      match cut_equals line with
      | Some (key, value) =>
          if negb (bool_decide (key ∈ dependency_keys)) || bool_decide (is_Some (values !! key)) then None
          else dependency_values lines' (<[key := fields value]> values)
      | None => None
      end
  end.
Definition occurrences (x : string) (l : list string) : nat := length (List.filter (String.eqb x) l).
Definition effectiveDependency (data : string) : bool :=
  match (lines ← output_lines data; dependency_values lines ∅) with
  | Some values => forallb (λ key, match values !! key with Some l => occurrences ready_service l =? 1 | None => false end) dependency_keys
  | None => false
  end.
Definition probeFor (unit : string) : option string := us_probe <$> List.find (λ s, String.eqb (us_unit s) unit) supported.
(** [drop_in_ok] says whether the file is exactly the owned drop-in ([ValidateDropIn]). *)
Fixpoint verify_units (drop_in_ok : string → bool) (systemctl : string → err + string) (l : list (string * string)) : bool :=
  match l with
  | [] => true
  | (unit, path) :: l' =>
      drop_in_ok path &&
      match probeFor unit with
      | Some probe => match systemctl probe with inl _ => false | inr data => effectiveDependency data end
      | None => false
      end && verify_units drop_in_ok systemctl l'
  end.
Definition VerifyEffective (drop_in_ok : string → bool) (systemctl : string → err + string) (systemdDir : string) (units : list string) : option err :=
  match DropInPaths systemdDir units with
  | inl _ => Some (Errorf "SETUP_NETWORK_PRODUCER_VERIFY_FAILED" [])
  | inr paths =>
      if verify_units drop_in_ok systemctl (zip units paths) then None else Some (Errorf "SETUP_NETWORK_PRODUCER_VERIFY_FAILED" [])
  end.

(** ** What discovery finds *)

Lemma elem_of_sublist {A} (l k : list A) x : sublist l k → x ∈ l → x ∈ k.
Proof. intros H. induction H; set_solver. Qed.
Lemma str_ltb_leb_ne a b : str_leb a b = true → a ≠ b → str_ltb a b = true.
Proof.
  unfold str_leb. intros H%negb_true_iff Hn. destruct (str_ltb a b) eqn:E; [done|]. exfalso. by apply Hn, str_ltb_total.
Qed.
(** The units found are the ones present, each safe; the count is of the selected ones. *)
Definition present (systemctl : string → err + string) (s : unitSpec) : Prop :=
  ∃ o, inspect systemctl (us_probe s) = Some o ∧ absent o (us_probe s) = false ∧ safe_unit s o = true.
Definition chosen (systemctl : string → err + string) (s : unitSpec) : bool :=
  match inspect systemctl (us_probe s) with Some o => negb (absent o (us_probe s)) && selected s o | None => false end.
Lemma find_producers_spec systemctl l units n : find_producers systemctl l = inr (units, n) →
  n = length (List.filter (chosen systemctl) l) ∧ sublist units (map us_unit l) ∧
  ∃ found, units = map us_unit found ∧ sublist found l ∧ Forall (present systemctl) found ∧
    ∀ s, s ∈ l → s ∈ found ∨ ∃ o, inspect systemctl (us_probe s) = Some o ∧ absent o (us_probe s) = true.
Proof.
  revert units n. induction l as [|s l IH]; intros units n; simpl.
  { intros [= <- <-]. split; [done|]. split; [constructor|]. exists []. split; [done|]. split; [constructor|]. split; [constructor|set_solver]. }
  destruct (inspect systemctl (us_probe s)) as [o|] eqn:Eo; [|done]. unfold chosen at 1. rewrite Eo. destruct (absent o (us_probe s)) eqn:Ea.
  - intros H. destruct (IH _ _ H) as (Hn & Hs & found & Hu & Hf & Hp & Hc). split; [done|]. split; [by constructor|].
    exists found. split; [done|]. split; [by constructor|]. split; [done|]. intros x [->|Hx]%elem_of_cons; [right; by exists o|by apply Hc].
  - destruct (safe_unit s o) eqn:Es; simpl; [|done]. destruct (find_producers systemctl l) as [|[u k]]; [done|].
    intros [= <- <-]. destruct (IH _ _ eq_refl) as (-> & Hs & found & -> & Hf & Hp & Hc). split; [by destruct (selected s o)|]. split; [by constructor|].
    exists (s :: found). split; [done|]. split; [by constructor|]. split; [constructor; [by exists o|done]|].
    intros x [->|Hx]%elem_of_cons; [left; by left|]. destruct (Hc x Hx); [left; by right|by right].
Qed.
Lemma refuse_unsupported_spec systemctl l : refuse_unsupported systemctl l = None →
  Forall (λ u, ∃ o, inspect systemctl u = Some o ∧ absent o u = true) l.
Proof.
  induction l as [|u l IH]; simpl; [done|]. destruct (inspect systemctl u) as [o|] eqn:E; [|done]. destruct (absent o u) eqn:Ea; [|done].
  intros H. constructor; [by exists o|by apply IH].
Qed.
Lemma ascending_ok l previous : StronglySorted (λ a b, str_leb a b = true) l → NoDup l → (∀ u, u ∈ l → u ∈ map us_unit supported) →
  (∀ u, u ∈ l → previous = "" ∨ str_ltb previous u = true) → ascending previous l = true.
Proof.
  revert previous. induction l as [|u l IH]; intros previous Hs Hn Hsup Hp; [done|]. cbn [ascending]. apply NoDup_cons in Hn as [Hu Hn].
  inversion Hs as [|? ? Hs' Hall]; subst. rewrite IH; [rewrite andb_true_r|done|done|intros; apply Hsup; by right|].
  - apply andb_true_iff. split.
    + assert (u ∈ map us_unit supported) as H by (apply Hsup; by left). apply list_elem_of_In, in_map_iff in H as (s & <- & H).
      apply existsb_exists. exists s. split; [done|apply String.eqb_refl].
    + destruct (Hp u) as [->|H]; [by left|done|by rewrite H, orb_true_r].
  - intros v Hv. right. rewrite list.Forall_forall in Hall. apply str_ltb_leb_ne; [by apply Hall|]. by intros ->.
Qed.
(** C31: whatever systemctl answers, a set that [Discover] returns is canonical (what the setup journal and the boot marker accept), holds exactly the supported units that are present, each a vendor unit in a known state, with exactly one primary producer active or enabled among them and none of the known other managers installed. *)
Theorem Discover_sound systemctl units : Discover systemctl = inr units →
  ValidateUnits units = None ∧ length (List.filter (chosen systemctl) supported) = 1 ∧
  (∀ u, u ∈ units → ∃ s, s ∈ supported ∧ us_unit s = u ∧ present systemctl s) ∧
  (∀ s, s ∈ supported → us_unit s ∈ units ∨ ∃ o, inspect systemctl (us_probe s) = Some o ∧ absent o (us_probe s) = true) ∧
  Forall (λ u, ∃ o, inspect systemctl u = Some o ∧ absent o u = true) unsupported.
Proof.
  unfold Discover. destruct (find_producers systemctl supported) as [|[found n]] eqn:E; [done|].
  destruct (refuse_unsupported systemctl unsupported) eqn:Er; [done|]. apply find_producers_spec in E as (-> & Hs & specs & -> & Hsub & Hp & Hall).
  destruct (Nat.eqb_spec (length (List.filter (chosen systemctl) supported)) 1) as [Hone|]; [|done].
  destruct (Nat.eqb_spec (length (map us_unit specs)) 0) as [|Hne]; [done|]. intros [= <-].
  assert (NoDup (map us_unit supported)) as Hnd by (apply (bool_decide_eq_true_1 _); vm_compute; reflexivity).
  split; [|split; [done|split; [|split; [|by apply refuse_unsupported_spec]]]].
  - unfold ValidateUnits. unfold sort_strings. rewrite length_sort_by. destruct (Nat.eqb_spec (length (map us_unit specs)) 0); [done|].
    pose proof (sublist_length _ _ Hs) as Hl. rewrite length_map in Hl.
    destruct (Nat.ltb_spec (length supported) (length (map us_unit specs))); [rewrite length_map in *; lia|]. simpl.
    rewrite ascending_ok; [done|apply sort_strings_sorted| | |by left].
    + unfold sort_strings. rewrite NoDup_sort_by. by eapply sublist_NoDup.
    + intros u Hu. unfold sort_strings in Hu. rewrite elem_of_sort_by in Hu. by eapply elem_of_sublist.
  - intros u Hu. unfold sort_strings in Hu. rewrite elem_of_sort_by in Hu. apply list_elem_of_In, in_map_iff in Hu as (s & <- & Hin%list_elem_of_In).
    exists s. rewrite list.Forall_forall in Hp. split; [|split; [done|by apply Hp]]. by eapply elem_of_sublist.
  - intros s Hin. destruct (Hall s Hin) as [H|H]; [left|by right]. unfold sort_strings. rewrite elem_of_sort_by. by apply list_elem_of_fmap_2.
Qed.

(** A host on which systemd-networkd runs, dhcpcd's template is installed, and nothing
    else is. *)
Definition unit_text (id load active state path : string) : string :=
  "Id=" +:+ id +:+ newline +:+ "LoadState=" +:+ load +:+ newline +:+ "ActiveState=" +:+ active +:+ newline +:+
  "UnitFileState=" +:+ state +:+ newline +:+ "FragmentPath=" +:+ path +:+ newline.
Definition networkd_host (unit : string) : err + string :=
  inr (if String.eqb unit "systemd-networkd.service"
       then unit_text unit "loaded" "active" "enabled" "/usr/lib/systemd/system/systemd-networkd.service"
       else if String.eqb unit "dhcpcd@nftfw-probe.service"
       then unit_text unit "loaded" "inactive" "disabled" "/usr/lib/systemd/system/dhcpcd@.service"
       else unit_text unit "not-found" "inactive" "" "").
Lemma Discover_sound_witness : Discover networkd_host = inr ["dhcpcd@.service"; "systemd-networkd.service"] ∧
  ValidateUnits ["dhcpcd@.service"; "systemd-networkd.service"] = None.
Proof.
  assert (Discover networkd_host = inr ["dhcpcd@.service"; "systemd-networkd.service"]) as H by (vm_compute; reflexivity).
  split; [exact H|]. exact (proj1 (Discover_sound networkd_host _ H)).
Defined.
