(* ===== verification/Endpoint.v ===== *)
(** The WireGuard endpoint resolver (internal/wireguard/endpoint.go): addresses of the
    endpoint's host names, with a bounded cache of the ones seen lately.  The lookup and
    the cache file are inputs: what the name server answered, what the file held and
    whether saving it worked. *)

From S2P Require Import Prelude GoStrings GoTime Netip.
From Stdlib Require Import Ascii String.
Local Open Scope string_scope.
Local Open Scope Z_scope.
Abbreviation length := List.length.

Record CachedIP := mkCached { ci_Address : string; ci_SeenAt : time }.
(** [Cache.Hosts] *)
Abbreviation Cache := (gmap string (list CachedIP)).
Record Resolver := mkResolver { rs_Max : Z; rs_KeepRecent : Z; rs_MaxStale : Z }.

Definition resolver_max (r : Resolver) : nat := Z.to_nat (if rs_Max r <=? 0 then 16 else rs_Max r).
Definition resolver_keep (r : Resolver) : nat := Z.to_nat (rs_KeepRecent r).
Definition resolver_stale (r : Resolver) : Z := if rs_MaxStale r <=? 0 then 24 * 3600 * second else rs_MaxStale r.
Definition clock_skew : Z := 5 * 60 * second.

Definition usableEndpointAddress (a : Addr) : bool :=
  IsGlobalUnicast a && negb (IsUnspecified a) && negb (IsMulticast a) && negb (IsLoopback a) && negb (IsLinkLocalUnicast a).
Definition usable (raw : string) : option Addr :=
  a ← ParseAddr raw; if usableEndpointAddress a then Some a else None.

(** Neither unset, nor from the future, nor stale. *)
Definition fresh (r : Resolver) (now : time) (e : CachedIP) : bool :=
  negb (is_zero_time (ci_SeenAt e)) && (ci_SeenAt e <=? now + clock_skew) && (duration_sub now (ci_SeenAt e) <=? resolver_stale r).

Definition cachedAddresses (l : list CachedIP) : list string := map ci_Address l.

(** [loadLocked]: the cache a readable, safe file holds. *)
Definition loadLocked (file : option Cache) : Cache :=
  match file with
  | Some c => if (64 <? size c)%nat then ∅ else c
  | None => ∅
  end.

(** The loop of [record] over the addresses seen before. *)
Fixpoint keep_recent (r : Resolver) (now : time) (old merged : list CachedIP) (seen : gset string) (recent : nat) : list CachedIP :=
  match old with
  | [] => merged
  | e :: old' =>
      match usable (ci_Address e) with
      | Some a =>
          let s := addr_String a in
          if fresh r now e && negb (bool_decide (s ∈ seen)) && (recent <? resolver_keep r)%nat && (length merged <? resolver_max r)%nat
          then keep_recent r now old' (merged ++ [mkCached s (ci_SeenAt e)]) ({[s]} ∪ seen) (S recent)
          else keep_recent r now old' merged seen recent
      | None => keep_recent r now old' merged seen recent
      end
  end.
Definition merge (r : Resolver) (now : time) (addrs : list string) (old : list CachedIP) : list CachedIP :=
  take (resolver_max r)
    (keep_recent r now old (map (λ a, mkCached a now) addrs) (list_to_set addrs) 0).

(** [saveLocked]: done, failed before the rename, or failed to sync the directory. *)
Inductive save := Saved | Unsaved (e : err) | Unsynced (e : err).
Definition save_error (s : save) : option err := match s with Saved => None | Unsaved e | Unsynced e => Some e end.
(** [record]: the addresses, the error of saving, and the file afterwards. *)
Definition record (r : Resolver) (host : string) (addrs : list string) (file : option Cache) (now : time) (saved : save)
    : list string * option err * option Cache :=
  let cache := loadLocked file in
  let merged := merge r now addrs (default [] (cache !! host)) in
  (cachedAddresses merged, save_error saved, match saved with Unsaved _ => file | _ => Some (<[host := merged]> cache) end).

(** [cached] *)
Definition cached_addresses (r : Resolver) (now : time) (entries : list CachedIP) : list string :=
  take (resolver_max r) (omap (λ e, a ← usable (ci_Address e); if fresh r now e then Some (addr_String a) else None) entries).
Definition cached (r : Resolver) (host : string) (cause : err) (file : option Cache) (now : time) : list string * option err :=
  let result := cached_addresses r now (default [] (loadLocked file !! host)) in
  (result, Some (match result with
                 | [] => cause
                 | _ => Wrapf "%w; using %d cached endpoint(s)" [ArgZ (Z.of_nat (length result))] cause
                 end)).

(** The addresses of a lookup that the product can use, in order of first appearance. *)
Fixpoint distinct_usable (l : list string) (seen : gset string) : list string :=
  match l with
  | [] => []
  | raw :: l' =>
      match usable raw with
      | Some a => let s := addr_String a in
                  if bool_decide (s ∈ seen) then distinct_usable l' seen else s :: distinct_usable l' ({[s]} ∪ seen)
      | None => distinct_usable l' seen
      end
  end.
(** [Resolve]: the answer, its error, and the cache file afterwards. *)
Definition Resolve (r : Resolver) (host : string) (lookup : err + list string) (file : option Cache) (now : time) (saved : save)
    : list string * option err * option Cache :=
  if String.eqb host "" then ([], Some (Errorf "endpoint host is empty" []), file)
  else
    match lookup with
    | inl e => (cached r host (Wrapf "resolve %s: %w" [ArgS host] e) file now, file)
    | inr answer =>
        match distinct_usable answer ∅ with
        | [] => (cached r host (Errorf "resolver returned no valid addresses" []) file now, file)
        | result =>
            let '(addresses, error, file) := record r host (take (resolver_max r) (sort_strings result)) file now saved in
            (addresses, Wrapf "persist endpoint cache: %w" [] <$> error, file)
        end
    end.

(** [ValidateRetainedCache], once the file is read and decoded canonically. *)
Fixpoint retained_entries (now : time) (seen : gset string) (l : list CachedIP) : bool :=
  match l with
  | [] => true
  | e :: l' =>
      match usable (ci_Address e) with
      | Some a =>
          String.eqb (addr_String a) (ci_Address e) && negb (is_zero_time (ci_SeenAt e)) &&
          (ci_SeenAt e <=? now + clock_skew) && negb (bool_decide (ci_Address e ∈ seen)) &&
          retained_entries now ({[ci_Address e]} ∪ seen) l'
      | None => false
      end
  end.
Definition ValidateRetainedCache (c : Cache) (now : time) : bool :=
  (size c <=? 64)%nat &&
  forallb (λ kv : string * list CachedIP,
    negb (String.eqb kv.1 "") && (slen kv.1 <=? 253)%nat && (length kv.2 <=? 64)%nat && retained_entries now ∅ kv.2) (map_to_list c).

(** [FamilySets] *)
Definition host_prefix_of (a : Addr) : string := addr_String a +:+ if Is4 a then "/32" else "/128".
Definition FamilySets (addrs : list string) : list string * list string :=
  let all := omap ParseAddr addrs in
  (sort_strings (map host_prefix_of (List.filter Is4 all)), sort_strings (map host_prefix_of (List.filter (λ a, negb (Is4 a)) all))).

(** ** What a resolver answers *)

Definition entry_ok (now : time) (e : CachedIP) : Prop :=
  ∃ a, usable (ci_Address e) = Some a ∧ addr_String a = ci_Address e ∧ ci_SeenAt e ≠ zero_time ∧ ci_SeenAt e <= now + clock_skew.
Lemma entry_ok_later now now' e : now <= now' → entry_ok now e → entry_ok now' e.
Proof. intros H (a & H1 & H2 & H3 & H4). exists a. repeat split; try done. lia. Qed.

Lemma retained_spec now l : ∀ seen, retained_entries now seen l = true ↔
  Forall (entry_ok now) l ∧ NoDup (cachedAddresses l) ∧ ∀ x, x ∈ cachedAddresses l → x ∉ seen.
Proof.
  induction l as [|e l IH]; intros seen; simpl.
  { split; [|done]. intros _. split; [constructor|]. split; [constructor|]. set_solver. }
  rewrite list.Forall_cons, NoDup_cons. unfold entry_ok at 1. destruct (usable (ci_Address e)) as [a|]; [|naive_solver].
  unfold is_zero_time, zero_time. rewrite !andb_true_iff, IH, String.eqb_eq, !negb_true_iff, Z.leb_le, bool_decide_eq_false, Z.eqb_neq.
  split.
  - intros ((((H1 & H2) & H3) & H4) & H5 & H6 & H7). split; [split; [by exists a|done]|]. split; [split; [|done]|].
    + intros Hin. by apply (H7 _ Hin), elem_of_union_l, elem_of_singleton.
    + intros x [->|Hx]%elem_of_cons; [done|]. specialize (H7 x Hx). set_solver.
  - intros (((a' & [= <-] & H2 & H3 & H4) & H5) & (H6 & H7) & H8). repeat split; try done.
    + apply H8. by left.
    + intros x Hx. assert (x ≠ ci_Address e) by (intros ->; done). specialize (H8 x). set_solver.
Qed.

(** The entries carried over are entries of the cache that are still fresh. *)
Lemma keep_recent_ok r now old : ∀ merged seen recent,
  Forall (entry_ok now) old → Forall (entry_ok now) merged → NoDup (cachedAddresses merged) →
  (∀ x, x ∈ cachedAddresses merged → x ∈ seen) →
  let l := keep_recent r now old merged seen recent in
  Forall (entry_ok now) l ∧ NoDup (cachedAddresses l) ∧ (length l <= length merged `max` resolver_max r)%nat ∧
  ∀ e, e ∈ l → e ∈ merged ∨ e ∈ old ∧ fresh r now e = true.
Proof.
  induction old as [|e old IH]; intros merged seen recent Ho Hm Hn Hs; simpl.
  { split; [done|]. split; [done|]. split; [lia|]. by left. }
  apply list.Forall_cons in Ho as [He Ho]. destruct He as (a & Ha & Hc & Ht). rewrite Ha.
  assert (∀ l : list CachedIP, (∀ x, x ∈ l → x ∈ merged ∨ x ∈ old ∧ fresh r now x = true) →
    ∀ x, x ∈ l → x ∈ merged ∨ x ∈ e :: old ∧ fresh r now x = true) as Hw.
  { intros l H x Hx. destruct (H x Hx) as [|[? ?]]; [by left|right]. split; [by right|done]. }
  destruct (fresh r now e && _ && _ && _) eqn:E.
  - apply andb_true_iff in E as [[[Hf Hd%negb_true_iff]%andb_true_iff _]%andb_true_iff Hl%Nat.ltb_lt]. apply bool_decide_eq_false in Hd.
    assert (mkCached (addr_String a) (ci_SeenAt e) = e) as Ee by (rewrite Hc; by destruct e). rewrite Ee, Hc. rewrite Hc in Hd.
    destruct (IH (merged ++ [e])%list ({[ci_Address e]} ∪ seen) (S recent) Ho) as (H1 & H2 & H3 & H4).
    + apply Forall_app_2; [done|]. constructor; [by exists a|constructor].
    + unfold cachedAddresses. rewrite map_app. apply NoDup_app. split; [done|]. split; [|apply NoDup_singleton].
      intros x Hx ->%list_elem_of_singleton. by apply Hd, Hs.
    + intros x. unfold cachedAddresses. rewrite map_app. intros [Hx%Hs| ->%list_elem_of_singleton]%elem_of_app; set_solver.
    + split; [done|]. split; [done|]. rewrite length_app in H3. simpl in H3. split; [lia|].
      intros x Hx. destruct (H4 x Hx) as [[?| ->%list_elem_of_singleton]%elem_of_app|[? ?]]; [by left|right|right].
      * split; [by left|done]. * split; [by right|done].
  - destruct (IH merged seen recent Ho Hm Hn Hs) as (H1 & H2 & H3 & H4). split; [done|]. split; [done|]. split; [done|]. by apply Hw.
Qed.

Lemma keep_recent_prefix r now old : ∀ merged seen recent,
  cachedAddresses merged `prefix_of` cachedAddresses (keep_recent r now old merged seen recent).
Proof.
  induction old as [|e old IH]; intros merged seen recent; simpl; [done|]. destruct (usable _); [|done].
  destruct (_ && _); [|done]. etrans; [|apply IH]. unfold cachedAddresses. rewrite map_app. by apply prefix_app_r.
Qed.

Lemma distinct_usable_ok l : ∀ seen,
  NoDup (distinct_usable l seen) ∧ ∀ s, s ∈ distinct_usable l seen → s ∉ seen ∧ ∃ raw a, raw ∈ l ∧ usable raw = Some a ∧ s = addr_String a.
Proof.
  induction l as [|raw l IH]; intros seen; simpl; [split; [constructor|set_solver]|].
  destruct (usable raw) as [a|] eqn:E.
  - case_bool_decide as Hs.
    + destruct (IH seen) as [H1 H2]. split; [done|]. intros s Hin. destruct (H2 s Hin) as (H3 & x & y & H4 & H5). split; [done|].
      exists x, y. split; [by right|done].
    + destruct (IH ({[addr_String a]} ∪ seen)) as [H1 H2]. split.
      * constructor; [|done]. intros Hin. destruct (H2 _ Hin) as [H3 _]. set_solver.
      * intros s [->|Hin]%elem_of_cons; [split; [done|]; exists raw, a; split; [by left|done]|].
        destruct (H2 s Hin) as (H3 & x & y & H4 & H5). split; [set_solver|]. exists x, y. split; [by right|done].
  - destruct (IH seen) as [H1 H2]. split; [done|]. intros s Hin. destruct (H2 s Hin) as (H3 & x & y & H4 & H5). split; [done|].
    exists x, y. split; [by right|done].
Qed.

Definition cache_ok (now : time) (c : Cache) : Prop := ValidateRetainedCache c now = true.
Lemma cache_ok_spec now c : cache_ok now c ↔ (size c <= 64)%nat ∧
  ∀ h l, c !! h = Some l → h ≠ "" ∧ (slen h <= 253)%nat ∧ (length l <= 64)%nat ∧ Forall (entry_ok now) l ∧ NoDup (cachedAddresses l).
Proof.
  unfold cache_ok, ValidateRetainedCache. rewrite andb_true_iff, Nat.leb_le, forallb_forall. split.
  - intros [H1 H2]. split; [done|]. intros h l Hl. specialize (H2 (h, l)). rewrite <-list_elem_of_In, elem_of_map_to_list in H2.
    specialize (H2 Hl). simpl in H2. rewrite !andb_true_iff, negb_true_iff, String.eqb_neq, !Nat.leb_le, retained_spec in H2.
    destruct H2 as (((? & ?) & ?) & ? & ? & _). done.
  - intros [H1 H2]. split; [done|]. intros [h l]. rewrite <-list_elem_of_In, elem_of_map_to_list. intros Hl. simpl.
    rewrite !andb_true_iff, negb_true_iff, String.eqb_neq, !Nat.leb_le, retained_spec. destruct (H2 h l Hl) as (?&?&?&?&?).
    repeat split; try done.
Qed.

Lemma usable_spec raw a : usable raw = Some a ↔ ParseAddr raw = Some a ∧ usableEndpointAddress a = true.
Proof.
  unfold usable. destruct (ParseAddr raw) as [b|]; cbn; [|by split; [|intros [? _]]].
  destruct (usableEndpointAddress b) eqn:E; split; [by intros [= <-]|by intros [[= <-] _]|done|intros [[= <-] H]; by rewrite E in H].
Qed.

Section resolve.
Context (r : Resolver) (host : string) (lookup : err + list string) (now : time) (saved : save).
(** [net.IP] texts carry no zone. *)
Context (Hzone : ∀ answer raw a, lookup = inr answer → raw ∈ answer → ParseAddr raw = Some a → has_zone a = false).
Context (Hmax : (resolver_max r <= 64)%nat) (Hnow : now ≠ zero_time).

Definition endpoint_ok (s : string) : Prop := ∃ a, ParseAddr s = Some a ∧ usableEndpointAddress a = true.

Lemma looked_up answer s : lookup = inr answer → s ∈ distinct_usable answer ∅ → entry_ok now (mkCached s now).
Proof.
  intros E Hs. destruct (distinct_usable_ok answer ∅) as [_ H]. destruct (H s Hs) as (_ & raw & a & Hr & Ha & ->).
  apply usable_spec in Ha as [Hp Hu]. exists a. simpl. unfold clock_skew, second.
  rewrite usable_spec, ParseAddr_String; [|by eapply ParseAddr_ok|by eapply Hzone]. repeat split; try done. lia.
Qed.
Lemma entry_endpoint e : entry_ok now e → endpoint_ok (ci_Address e).
Proof. intros (a & [H1 H2]%usable_spec & _). by exists a. Qed.

Lemma cached_ok entries : let l := cached_addresses r now entries in
  (length l <= resolver_max r)%nat ∧ ∀ s, s ∈ l → ∃ e a, e ∈ entries ∧ usable (ci_Address e) = Some a ∧ s = addr_String a ∧ fresh r now e = true.
Proof.
  unfold cached_addresses. cbv zeta. rewrite length_take. split; [lia|]. intros s Hs.
  apply elem_of_take in Hs as (i & Hi & _). apply list_elem_of_lookup_2, list_elem_of_omap in Hi as (e & He & Hs).
  destruct (usable (ci_Address e)) as [a|] eqn:E; simpl in Hs; [|done]. destruct (fresh r now e) eqn:Ef; [|done].
  injection Hs as <-. by exists e, a.
Qed.

Lemma fresh_addresses answer : lookup = inr answer →
  let l := take (resolver_max r) (sort_strings (distinct_usable answer ∅)) in
  Forall (entry_ok now) (map (λ a, mkCached a now) l) ∧ NoDup l ∧ (length l <= resolver_max r)%nat ∧ ∀ s, s ∈ l → s ∈ distinct_usable answer ∅.
Proof.
  intros E. cbv zeta. set (l := take _ _). assert (∀ s, s ∈ l → s ∈ distinct_usable answer ∅) as Hl.
  { intros s Hs. apply elem_of_take in Hs as (i & Hi & _). apply list_elem_of_lookup_2 in Hi. by rewrite sort_strings_perm in Hi. }
  split; [|split; [|split; [unfold l; rewrite length_take; lia|done]]].
  - apply list.Forall_forall. intros e (s & -> & Hs)%list_elem_of_fmap. eapply looked_up; [done|by apply Hl].
  - apply sublist_NoDup with (sort_strings (distinct_usable answer ∅)); [|apply sublist_take].
    rewrite sort_strings_perm. apply distinct_usable_ok.
Qed.

Lemma cached_addresses_map l : cachedAddresses (map (λ a, mkCached a now) l) = l.
Proof. unfold cachedAddresses. rewrite map_map. apply map_id. Qed.

(** The merged entries of a host: the fresh answer first, then what the cache adds. *)
Lemma merge_ok answer old : lookup = inr answer → Forall (entry_ok now) old →
  let l := take (resolver_max r) (sort_strings (distinct_usable answer ∅)) in
  let m := merge r now l old in
  Forall (entry_ok now) m ∧ NoDup (cachedAddresses m) ∧ (length m <= resolver_max r)%nat ∧ l `prefix_of` cachedAddresses m ∧
  ∀ e, e ∈ m → ci_Address e ∈ distinct_usable answer ∅ ∨ e ∈ old ∧ fresh r now e = true.
Proof.
  intros E Ho. destruct (fresh_addresses answer E) as (H1 & H2 & H3 & H4). cbv zeta in *. set (l := take _ _) in *.
  destruct (keep_recent_ok r now old (map (λ a, mkCached a now) l) (list_to_set l) 0 Ho H1) as (K1 & K2 & K3 & K4).
  { by rewrite cached_addresses_map. } { intros x. rewrite cached_addresses_map. set_solver. }
  rewrite length_map, Nat.max_r in K3 by done. unfold merge. rewrite take_ge by done. repeat split; try done.
  - pose proof (keep_recent_prefix r now old (map (λ a, mkCached a now) l) (list_to_set l) 0) as Hp. by rewrite cached_addresses_map in Hp.
  - intros e He. destruct (K4 e He) as [(s & -> & Hs)%list_elem_of_fmap|Hk]; [left; by apply H4|by right].
Qed.

Lemma known_entries file earlier : earlier <= now → cache_ok earlier (loadLocked file) →
  Forall (entry_ok now) (default [] (loadLocked file !! host)) ∧ NoDup (cachedAddresses (default [] (loadLocked file !! host))) ∧
  cache_ok now (loadLocked file).
Proof.
  intros Ht [Hs Hc]%cache_ok_spec. assert (cache_ok now (loadLocked file)) as Hnowc.
  { apply cache_ok_spec. split; [done|]. intros h l Hl. destruct (Hc h l Hl) as (?&?&?&H4&?). repeat split; try done.
    eapply Forall_impl; [exact H4|]. intros e. by apply entry_ok_later. }
  split; [|split; [|done]]; destruct (loadLocked file !! host) as [l|] eqn:E; simpl; try constructor;
    destruct (Hc _ _ E) as (_ & _ & _ & H4 & H5); [|done].
  eapply Forall_impl; [exact H4|]. intros e. by apply entry_ok_later.
Qed.

Lemma cached_answer old : Forall (entry_ok now) old → NoDup (cachedAddresses old) →
  let l := cached_addresses r now old in
  NoDup l ∧ Forall endpoint_ok l ∧ ∀ s, s ∈ l → ∃ e, e ∈ old ∧ ci_Address e = s ∧ fresh r now e = true.
Proof.
  intros Ho Hn. cbv zeta. rewrite list.Forall_forall in Ho.
  assert (∀ s, s ∈ cached_addresses r now old → ∃ e, e ∈ old ∧ ci_Address e = s ∧ fresh r now e = true) as Hs.
  { intros s Hs. destruct (cached_ok old) as [_ H]. destruct (H s Hs) as (e & a & He & Ha & -> & Hf). exists e. split; [done|]. split; [|done].
    destruct (Ho e He) as (b & Hb & <- & _). congruence. }
  split; [|split; [|exact Hs]].
  - apply sublist_NoDup with (cachedAddresses old); [done|]. unfold cached_addresses. etrans; [apply sublist_take|].
    clear Hs Hn. induction old as [|e old IH]; [done|]. simpl. destruct (Ho e) as (b & Hb & Eb & _); [by left|]. rewrite Hb. simpl.
    assert (∀ x, x ∈ old → entry_ok now x) as Ho' by (intros x Hx; apply Ho; by right).
    destruct (fresh r now e); [|by apply sublist_cons, IH]. rewrite Eb. by apply sublist_skip, IH.
  - apply list.Forall_forall. intros s (e & He & <- & _)%Hs. by apply entry_endpoint, Ho.
Qed.

End resolve.

(** ** A sample *)

Definition sample_cache : Cache :=
  {[ "vpn.example.net" := [mkCached "203.0.113.7" (5000 * second); mkCached "198.51.100.9" second] ]}.
Definition sample_resolver : Resolver := mkResolver 64 2 (24 * 3600 * second).
Definition sample_now : time := 90000 * second.
Definition sample_lookup : err + list string := inr ["203.0.113.8"; "127.0.0.1"; "203.0.113.8"].
Lemma sample_no_zone answer raw a : sample_lookup = inr answer → raw ∈ answer → ParseAddr raw = Some a → has_zone a = false.
Proof. intros [= <-] Hr. rewrite !elem_of_cons, elem_of_nil in Hr. by destruct Hr as [->|[->|[->|[]]]]; vm_compute; intros [= <-]. Qed.
