(* ===== verification/Claims.v ===== *)
(** The claim tables of the generation database (internal/state/store.go): which
    addresses are blocked or temporarily allowed and on whose authority, the state of
    each integration, the publication revisions, and the audit log.  One transaction
    is one function of these tables; ClaimStore.v runs them against the host.

    A timestamp column holds the [time.RFC3339Nano] text of an instant, which is kept
    here as the instant: [time.Parse] returns it when its year has four digits. *)

From S2P Require Import Prelude GoStrings GoTime Netip.
From Stdlib Require Import Ascii String.
Local Open Scope string_scope.
Abbreviation length := List.length.
Local Open Scope Z_scope.
Local Open Scope host_scope.

(** ** Rows *)

Record Claim := mkClaim {
  cl_ID : Z;
  cl_Address : string;
  cl_Family : string;
  cl_Source : string;
  cl_Reason : string;
  cl_Actor : string;
  cl_CreatedAt : time;
  cl_ExpiresAt : option time
}.
#[export] Instance Claim_eq_dec : EqDecision Claim.
Proof. solve_decision. Defined.

(** [it_UpdatedAt] is [None] for a text [time.Parse] rejects: the migration writes
    [datetime('now')]. *)
Record IntegrationRow := mkIntegration {
  it_Status : string;
  it_EntryCount : Z;
  it_LastSuccess : option time;
  it_UpdatedAt : option time
}.

Record ClaimPublication := mkPublication { DesiredRevision : N; AppliedRevision : N }.

Record AuditRow := mkAudit { aud_id : N; aud_actor : string; aud_event : string; aud_detail : string }.

(** Tables claims (with the AUTOINCREMENT sequence), integration_state and
    runtime_claim_publication (its row, when there is one). *)
Record ClaimTables := mkTables {
  ct_claims : gmap Z Claim;
  ct_seq : Z;
  ct_integrations : gmap string IntegrationRow;
  ct_publication : option ClaimPublication
}.
Definition Tables : Type := ClaimTables * list AuditRow.
Abbreviation Tx := (M Tables).

Definition set_claims (f : gmap Z Claim → gmap Z Claim) (t : Tables) : Tables :=
  (mkTables (f (ct_claims t.1)) (ct_seq t.1) (ct_integrations t.1) (ct_publication t.1), t.2).
Definition set_integrations (f : gmap string IntegrationRow → gmap string IntegrationRow) (t : Tables) : Tables :=
  (mkTables (ct_claims t.1) (ct_seq t.1) (f (ct_integrations t.1)) (ct_publication t.1), t.2).
Definition set_publication (p : ClaimPublication) (t : Tables) : Tables :=
  (mkTables (ct_claims t.1) (ct_seq t.1) (ct_integrations t.1) (Some p), t.2).

(** The tables as the migrations leave them on an empty database. *)
Definition no_claims : ClaimTables :=
  mkTables ∅ 0 {[ "runtime/claims" := mkIntegration "degraded" 0 None None ]} (Some (mkPublication 1 0)).

(** ** Validation *)

Definition isAllowSource (source : string) : bool := String.eqb source "allow" || has_prefix source "allow/".

(** [^[a-zA-Z][a-zA-Z0-9_.-]{0,63}(/[a-zA-Z0-9_.-]{1,64})?$] *)
Definition source_char (c : ascii) : bool := is_alnum c || one_of "_.-" c.
Definition source_head (l : list ascii) : bool := matches_head_tail is_alpha source_char 0 63 (of_chars l).
Definition claimSourcePattern (s : string) : bool :=
  match split_at "/"%char (chars s) with
  | None => source_head (chars s)
  | Some (a, b) => source_head a && forallb source_char b && (1 <=? length b)%nat && (length b <=? 64)%nat
  end.

Definition ValidateClaim (address family : string) : option err :=
  if negb (String.eqb family "ipv4") && negb (String.eqb family "ipv6")
  then Some (Errorf "claim family must be ipv4 or ipv6" [])
  else match parse_prefix_or_addr address with
       | None => Some (Errorf "invalid claim address %q" [ArgS address])
       | Some p =>
           if (pfx_bits p =? 0)%N then Some (Errorf "claim /0 is forbidden" [])
           else if String.eqb family "ipv4" && negb (Is4 (pfx_addr p)) ||
                   String.eqb family "ipv6" && negb (Is6 (pfx_addr p))
           then Some (Errorf "claim family/address mismatch" [])
           else None
       end.

Definition validateClaimMetadata (c : Claim) : option err :=
  if negb (claimSourcePattern (cl_Source c)) || String.eqb (cl_Actor c) ""
  then Some (Errorf "claim source or actor is invalid" [])
  else if (128 <? slen (cl_Actor c))%nat || (1024 <? slen (cl_Reason c))%nat
  then Some (Errorf "claim actor or reason exceeds its size limit" [])
  else if isAllowSource (cl_Source c) && negb (bool_decide (is_Some (cl_ExpiresAt c)))
  then Some (Errorf "temporary access claim requires an expiry" [])
  else None.

(** The year of the text has four digits. *)
Definition storable (t : time) : bool := let '(y, _, _) := civil (day_of t) in (0 <=? y) && (y <=? 9999).

(** One row of [scanClaims]. *)
Definition scan_claim (c : Claim) : err + Claim :=
  if negb (storable (cl_CreatedAt c)) then inl (Errorf "claim has invalid creation timestamp" [])
  else if negb (from_option storable true (cl_ExpiresAt c)) then inl (Errorf "claim has invalid expiry timestamp" [])
  else match ValidateClaim (cl_Address c) (cl_Family c) with
       | Some e => inl (Wrapf "invalid persisted claim %d: %w" [ArgZ (cl_ID c)] e)
       | None =>
           match validateClaimMetadata c with
           | Some e => inl (Wrapf "invalid persisted claim %d: %w" [ArgZ (cl_ID c)] e)
           | None => inr c
           end
       end.
Fixpoint scanClaims (l : list Claim) : err + list Claim :=
  match l with
  | [] => inr []
  | c :: l' =>
      match scan_claim c with
      | inl e => inl e
      | inr c => match scanClaims l' with inl e => inl e | inr r => inr (c :: r) end
      end
  end.

(** ** Queries *)

(** [expires_at IS NULL OR expires_at>?]: the comparison is on the column's text. *)
Definition active (now : time) (c : Claim) : bool :=
  match cl_ExpiresAt c with
  | None => true
  | Some t => str_ltb (format_rfc3339nano now) (format_rfc3339nano t)
  end.
(** [expires_at IS NOT NULL AND expires_at<=?] *)
Definition lapsed (now : time) (c : Claim) : bool :=
  match cl_ExpiresAt c with
  | None => false
  | Some t => str_leb (format_rfc3339nano t) (format_rfc3339nano now)
  end.

(** [ORDER BY address,source,id] *)
Definition claim_leb (a b : Claim) : bool :=
  str_ltb (cl_Address a) (cl_Address b) ||
  String.eqb (cl_Address a) (cl_Address b) &&
    (str_ltb (cl_Source a) (cl_Source b) ||
     String.eqb (cl_Source a) (cl_Source b) && (cl_ID a <=? cl_ID b)).
Definition rows (m : gmap Z Claim) : list Claim := (map_to_list m).*2.
Definition select_active (now : time) (t : Tables) : list Claim :=
  sort_by claim_leb (List.filter (active now) (rows (ct_claims t.1))).
Definition count_where (p : Claim → bool) (t : Tables) : Z :=
  Z.of_nat (length (List.filter p (rows (ct_claims t.1)))).

(** ** Statements *)

(** [INSERT INTO claims] without and with an explicit id; the columns' constraints. *)
Definition family_allowed (f : string) : bool := String.eqb f "ipv4" || String.eqb f "ipv6".
Definition with_id (id : Z) (c : Claim) : Claim :=
  mkClaim id (cl_Address c) (cl_Family c) (cl_Source c) (cl_Reason c) (cl_Actor c) (cl_CreatedAt c) (cl_ExpiresAt c).
Definition put_claim (id : Z) (c : Claim) (t : Tables) : Tables :=
  (mkTables (<[id := with_id id c]> (ct_claims t.1)) (Z.max (ct_seq t.1) id) (ct_integrations t.1) (ct_publication t.1), t.2).
Definition insert_claim (c : Claim) : Tx Z :=
  seq <- gets (λ t, ct_seq t.1) ;;
  require ((seq <? max_int64) && family_allowed (cl_Family c)) ErrIO ;;
  modify (put_claim (seq + 1) c) ;;
  ret (seq + 1).
Definition insert_claim_id (c : Claim) : Tx unit :=
  m <- gets (λ t, ct_claims t.1) ;;
  require (bool_decide (m !! cl_ID c = None) && family_allowed (cl_Family c)) ErrIO ;;
  modify (put_claim (cl_ID c) c).

(** [DELETE FROM claims WHERE p], and the rows affected. *)
Definition delete_claims (p : Claim → bool) : Tx Z :=
  n <- gets (count_where p) ;;
  modify (set_claims (filter (λ kv, p kv.2 = false))) ;;
  ret n.

Definition MaxAuditRows : N := 10000.

(** [INSERT INTO audit]: the identifier continues an AUTOINCREMENT column, and the
    trigger [audit_prune_after_insert] drops the oldest rows. *)
Definition insert_audit (actor event detail : string) (rows : list AuditRow) : list AuditRow :=
  let id := match rows with [] => 1%N | r :: _ => (aud_id r + 1)%N end in
  mkAudit id actor event detail :: filter (λ r, (id < aud_id r + MaxAuditRows)%N) rows.
Definition log_audit (actor event detail : string) : Tx unit :=
  modify (λ t, (t.1, insert_audit actor event detail t.2)).

(** ** Publication state *)

Definition runtime_claims : string := "runtime/claims".

(** The upsert keeps [last_success] of a row that is there. *)
Definition markRuntimeClaimsDegradedTx (now : time) : Tx unit :=
  count <- gets (count_where (active now)) ;;
  modify (set_integrations (λ m,
    <[runtime_claims := mkIntegration "degraded" count (m !! runtime_claims ≫= it_LastSuccess) (Some now)]> m)).

Definition markClaimPublicationDirtyTx (now : time) : Tx unit :=
  p <- gets (λ t, ct_publication t.1) ;;
  match p with
  | None => throw (Errorf "runtime claim publication state is missing" [])
  | Some p =>
      modify (set_publication (mkPublication (DesiredRevision p + 1) (AppliedRevision p))) ;;
      markRuntimeClaimsDegradedTx now
  end.

(** [SELECT desired_revision,applied_revision] and the check of the answer. *)
Definition read_publication : Tx ClaimPublication :=
  p <- gets (λ t, ct_publication t.1) ;;
  match p with
  | None => throw ErrNoRows
  | Some p =>
      require (AppliedRevision p <=? DesiredRevision p)%N (Errorf "runtime claim publication revision is invalid" []) ;;
      ret p
  end.

(** ** Transactions *)

Definition AddClaim_tx (c : Claim) (max : Z) (now : time) : Tx Z :=
  (if 0 <? max then
     count <- gets (count_where (active now)) ;;
     require (count <? max) (Errorf "claim limit reached (%d)" [ArgZ max])
   else ret tt) ;;
  id <- insert_claim c ;;
  log_audit (cl_Actor c) "claim_added"
    (sprintf "id=%d address=%s source=%s" [ArgZ id; ArgS (cl_Address c); ArgS (cl_Source c)]) ;;
  markClaimPublicationDirtyTx now ;;
  ret id.

Definition RemoveClaim_tx (id : Z) (actor : string) (now : time) : Tx unit :=
  n <- delete_claims (λ c, cl_ID c =? id) ;;
  require (negb (n =? 0)) ErrNoRows ;;
  log_audit actor "claim_removed" (sprintf "id=%d" [ArgZ id]) ;;
  markClaimPublicationDirtyTx now.

Definition removable (kind source : string) : bool :=
  String.eqb kind "block" && String.eqb source "manual" || String.eqb kind "allow" && isAllowSource source.
Definition RemoveOperatorClaim_tx (id : Z) (actor kind : string) (now : time) : Tx unit :=
  m <- gets (λ t, ct_claims t.1) ;;
  match m !! id with
  | None => throw ErrNoRows
  | Some c =>
      require (removable kind (cl_Source c))
        (Errorf "claim %d with source %s cannot be removed as %s" [ArgZ id; ArgS (cl_Source c); ArgS kind]) ;;
      delete_claims (λ c, cl_ID c =? id) ;;
      log_audit actor "claim_removed" (sprintf "id=%d" [ArgZ id]) ;;
      markClaimPublicationDirtyTx now
  end.

(** The first loop of [ReplaceSourceClaimsBounded]: canonical texts in order of first
    appearance. *)
Fixpoint canonical_addresses (l : list string) (seen : gset string) : err + list string :=
  match l with
  | [] => inr []
  | raw :: l' =>
      match parse_prefix_or_addr raw with
      | None => inl (Errorf "invalid replacement claim %q" [ArgS raw])
      | Some p =>
          if (pfx_bits p =? 0)%N then inl (Errorf "replacement claim /0 is forbidden" [])
          else let value := prefix_String (Masked p) in
               match canonical_addresses l' ({[value]} ∪ seen) with
               | inl e => inl e
               | inr r => inr (if bool_decide (value ∈ seen) then r else value :: r)
               end
      end
  end.

(** The family column of a canonical text. [ParsePrefix]'s error is dropped: the zero
    prefix's address is not IPv4. *)
Definition address_family (a : string) : string :=
  match ParsePrefix a with
  | Some p => if Is4 (pfx_addr p) then "ipv4" else "ipv6"
  | None => "ipv6"
  end.
Fixpoint insert_source (source reason actor : string) (now : time) (l : list string) : Tx unit :=
  match l with
  | [] => ret tt
  | a :: l' =>
      insert_claim (mkClaim 0 a (address_family a) source reason actor now None) ;;
      insert_source source reason actor now l'
  end.
Definition ReplaceSource_tx (source reason actor : string) (canonical : list string) (max : Z)
    (counted now : time) : Tx Z :=
  delete_claims (λ c, String.eqb (cl_Source c) source) ;;
  (if 0 <? max then
     remaining <- gets (count_where (active counted)) ;;
     require (remaining + Z.of_nat (length canonical) <=? max) (Errorf "claim limit would be exceeded (%d)" [ArgZ max])
   else ret tt) ;;
  insert_source source reason actor now canonical ;;
  log_audit actor "claim_source_replaced"
    (sprintf "source=%s entries=%d" [ArgS source; ArgZ (Z.of_nat (length canonical))]) ;;
  require (storable now) ErrIO ;;
  markClaimPublicationDirtyTx now ;;
  ret (Z.of_nat (length canonical)).

Definition ClaimsWithPublication_tx (now : time) : Tx (list Claim * ClaimPublication) :=
  claims <- gets (select_active now) ;;
  match scanClaims claims with
  | inl e => throw e
  | inr claims => p <- read_publication ;; ret (claims, p)
  end.

Definition PrepareClaimPublication_tx (now : time) : Tx N :=
  p <- read_publication ;;
  if (DesiredRevision p =? AppliedRevision p)%N then
    markClaimPublicationDirtyTx now ;; ret (DesiredRevision p + 1)%N
  else markRuntimeClaimsDegradedTx now ;; ret (DesiredRevision p).

Definition MarkClaimsPublished_tx (revision : N) (count : Z) (now : time) : Tx unit :=
  p <- gets (λ t, ct_publication t.1) ;;
  let changed := throw (Errorf "runtime claims changed during publication" []) in
  match p with
  | None => changed
  | Some p =>
      if (DesiredRevision p =? revision)%N then
        modify (set_publication (mkPublication (DesiredRevision p) revision)) ;;
        modify (set_integrations (<[runtime_claims := mkIntegration "healthy" count (Some now) (Some now)]>))
      else changed
  end.

Definition RestoreClaim_tx (c : Claim) (actor : string) (now : time) : Tx unit :=
  insert_claim_id c ;;
  log_audit actor "claim_restored" (sprintf "id=%d" [ArgZ (cl_ID c)]) ;;
  markClaimPublicationDirtyTx now.

Definition PurgeExpired_tx (now : time) : Tx Z :=
  count <- delete_claims (lapsed now) ;;
  (if 0 <? count then
     log_audit "system" "expired_claims_purged" (sprintf "count=%d" [ArgZ count]) ;;
     markClaimPublicationDirtyTx now
   else ret tt) ;;
  ret count.

(** [LIKE] ignores the case of ASCII letters. *)
Definition like_prefix (pre s : string) : bool := has_prefix (to_lower s) pre.
Definition integration_source (s : string) : bool := like_prefix "threatfeed/" s || like_prefix "geo/" s.
Definition managed_state (name : string) : bool :=
  String.eqb name "docker" || has_prefix name "wireguard/" || has_prefix name "threatfeed/" || has_prefix name "geo/".

Fixpoint delete_sources (l : list string) : Tx Z :=
  match l with
  | [] => ret 0
  | s :: l' =>
      n <- delete_claims (λ c, String.eqb (cl_Source c) s) ;;
      k <- delete_sources l' ;;
      ret (n + k)
  end.
Definition RetireInactive_tx (is_active : string → bool) (now : time) : Tx Z :=
  sources <- gets (λ t, sort_strings (remove_dups
     (List.filter integration_source (map cl_Source (rows (ct_claims t.1)))))) ;;
  let inactive := List.filter (λ s, negb (is_active s)) sources in
  removed <- delete_sources inactive ;;
  names <- gets (λ t, (map_to_list (ct_integrations t.1)).*1) ;;
  let states := List.filter (λ n, managed_state n && negb (is_active n)) (sort_strings names) in
  modify (set_integrations (filter (λ kv, kv.1 ∉ states))) ;;
  (if 0 <? removed then markClaimPublicationDirtyTx now else ret tt) ;;
  (if (0 <? length inactive)%nat || (0 <? length states)%nat then
     log_audit "system" "inactive_integrations_retired"
       (sprintf "claim_sources=%d states=%d claims=%d"
          [ArgZ (Z.of_nat (length inactive)); ArgZ (Z.of_nat (length states)); ArgZ removed])
   else ret tt) ;;
  ret removed.

(** ** What the firewall makes of the claims *)

Definition distinct_sorted (l : list string) : list string := sort_strings (remove_dups l).

Definition EffectiveAddresses (claims : list Claim) (family : string) : list string :=
  distinct_sorted (map cl_Address
    (List.filter (λ c, String.eqb (cl_Family c) family && negb (isAllowSource (cl_Source c))) claims)).

Definition EffectiveAddressesFrom (claims : list Claim) (family prefix : string) : list string :=
  distinct_sorted (map cl_Address
    (List.filter (λ c, String.eqb (cl_Family c) family &&
       (String.eqb prefix "" || String.eqb prefix "allow" && isAllowSource (cl_Source c) ||
        has_prefix (cl_Source c) (prefix +:+ "/"))) claims)).

(** ** Invariant of the tables

    Every stored claim reads back as itself, under its own positive id, which the
    sequence has passed; no revision was applied before it was desired. *)

Definition claim_ok (id : Z) (c : Claim) : Prop := cl_ID c = id ∧ 0 < id ∧ scan_claim c = inr c.
Definition publication_ok (p : ClaimPublication) : Prop := (AppliedRevision p <= DesiredRevision p)%N.
Record tables_ok (t : Tables) : Prop := {
  ok_seq : 0 <= ct_seq t.1;
  ok_claims : map_Forall (λ id c, claim_ok id c ∧ id <= ct_seq t.1) (ct_claims t.1);
  ok_publication : ∀ p, ct_publication t.1 = Some p → publication_ok p
}.

(** How the tables move: the desired revision never falls, and as long as it stays the
    claims stay. *)
Definition advances (t t' : Tables) : Prop :=
  ∀ p, ct_publication t.1 = Some p → ∃ p', ct_publication t'.1 = Some p' ∧
    (DesiredRevision p <= DesiredRevision p')%N ∧
    (DesiredRevision p = DesiredRevision p' → ct_claims t'.1 = ct_claims t.1).
#[export] Instance advances_refl : Reflexive advances.
Proof. intros t p Hp. exists p. repeat split; [done|lia]. Qed.
#[export] Instance advances_trans : Transitive advances.
Proof.
  intros t1 t2 t3 H12 H23 p1 Hp1. destruct (H12 p1 Hp1) as (p2 & Hp2 & ? & Hc2).
  destruct (H23 p2 Hp2) as (p3 & Hp3 & ? & Hc3). exists p3. repeat split; [done|lia|].
  intros E. rewrite Hc3, Hc2 by lia. done.
Qed.

(** A committed transaction: when [body] returns it leaves [P]. *)
Definition commits {A} (body : Tx A) (P : A → Tables → Prop) (t : Tables) : Prop := safe (λ _, True) body P t.

Definition tx_good {A} (body : Tx A) (t : Tables) : Prop :=
  tables_ok t → commits body (λ _ t', tables_ok t' ∧ advances t t') t.

(** *** Statements *)

Lemma scan_claim_id c : scan_claim c = inr c ↔
  storable (cl_CreatedAt c) = true ∧ from_option storable true (cl_ExpiresAt c) = true ∧
  ValidateClaim (cl_Address c) (cl_Family c) = None ∧ validateClaimMetadata c = None.
Proof.
  unfold scan_claim. destruct (storable (cl_CreatedAt c)), (from_option _ _ _); simpl; try (split; [done|naive_solver]).
  destruct (ValidateClaim _ _), (validateClaimMetadata c); naive_solver.
Qed.
Lemma scan_claim_inr c d : scan_claim c = inr d → d = c.
Proof.
  unfold scan_claim. destruct (negb _); [done|]. destruct (negb _); [done|].
  destruct (ValidateClaim _ _); [done|]. destruct (validateClaimMetadata c); [done|]. by intros [= <-].
Qed.
Lemma scan_with_id id c : scan_claim c = inr c → scan_claim (with_id id c) = inr (with_id id c).
Proof. by rewrite !scan_claim_id. Qed.

Lemma validate_family a f : ValidateClaim a f = None → family_allowed f = true.
Proof.
  unfold ValidateClaim, family_allowed. destruct (String.eqb f "ipv4"), (String.eqb f "ipv6"); simpl; done.
Qed.

Lemma put_claim_ok id c t : tables_ok t → 0 < id → scan_claim c = inr c → tables_ok (put_claim id c t).
Proof.
  intros [H1 H2 H3] Hid Hc. split; simpl; [lia| |done].
  apply map_Forall_insert_2.
  - split; [|lia]. split; [done|]. split; [done|]. by apply scan_with_id.
  - eapply map_Forall_impl; [exact H2|]. simpl. intros i d [? ?]. split; [done|lia].
Qed.
Lemma delete_ok p t : tables_ok t → tables_ok (set_claims (filter (λ kv : Z * Claim, p kv.2 = false)) t).
Proof. intros [H1 H2 H3]. split; simpl; [done| |done]. intros i c [Hi _]%map_lookup_filter_Some. by apply H2. Qed.
Lemma log_ok actor event detail t : tables_ok t → tables_ok (t.1, insert_audit actor event detail t.2).
Proof. intros []. by split. Qed.
Lemma integrations_ok f t : tables_ok t → tables_ok (set_integrations f t).
Proof. intros []. by split. Qed.
Lemma publication_set_ok p t : tables_ok t → publication_ok p → tables_ok (set_publication p t).
Proof. intros [] Hp. split; [done|done|]. simpl. by intros q [= <-]. Qed.
#[export] Hint Resolve put_claim_ok delete_ok log_ok integrations_ok publication_set_ok : tables.

(** *** The publication helpers *)

(** What a transaction that changed the claims ends with. *)
Lemma commits_dirty now t t0 : tables_ok t → ct_publication t.1 = ct_publication t0.1 →
  commits (markClaimPublicationDirtyTx now) (λ _ t', tables_ok t' ∧ advances t0 t') t.
Proof.
  intros Ht Hp. unfold commits, markClaimPublicationDirtyTx, markRuntimeClaimsDegradedTx.
  apply safe_bind, safe_gets; [done|]. destruct (ct_publication t.1) as [p|] eqn:E; [|by apply safe_throw].
  pose proof (ok_publication t Ht p E) as Hok. unfold publication_ok in Hok.
  apply safe_bind, safe_modify; [done|]. apply safe_bind, safe_gets; [done|]. apply safe_modify; [done|].
  split.
  - apply integrations_ok, publication_set_ok; [done|]. unfold publication_ok. simpl. lia.
  - intros q Hq. assert (q = p) as -> by congruence. eexists. split; [done|]. simpl. split; [lia|]. intros. lia.
Qed.
Lemma commits_degraded now t : tables_ok t →
  commits (markRuntimeClaimsDegradedTx now) (λ _ t', tables_ok t' ∧ advances t t') t.
Proof.
  intros Ht. unfold commits, markRuntimeClaimsDegradedTx. apply safe_bind, safe_gets; [done|].
  apply safe_modify; [done|]. split; [by apply integrations_ok|].
  intros p Hp. exists p. simpl. repeat split; [done|lia].
Qed.
Lemma commits_read_publication P t : (∀ p, ct_publication t.1 = Some p → publication_ok p → P p t) →
  commits read_publication P t.
Proof.
  intros HP. unfold commits, read_publication. apply safe_bind, safe_gets; [done|].
  destruct (ct_publication t.1) as [p|] eqn:E; [|by apply safe_throw].
  apply safe_bind, safe_require; [done|]. intros Hle%N.leb_le. apply safe_ret; [done|]. by apply HP.
Qed.

(** *** Every transaction keeps the invariant and moves forward *)

Ltac tx_step :=
  lazymatch goal with
  | |- commits _ _ _ => unfold commits at 1
  | |- safe _ (bind (bind _ _) _) _ _ => apply safe_bind
  | |- safe _ (if ?b then _ else _) _ _ => destruct b eqn:?
  | |- safe _ (log_audit _ _ _) _ _ => apply safe_modify; [done|]
  | |- safe _ (delete_claims _) _ _ => unfold delete_claims at 1
  | |- safe _ _ _ _ => safe_step
  end.

Lemma commits_insert c P t : tables_ok t → scan_claim c = inr c →
  (tables_ok (put_claim (ct_seq t.1 + 1) c t) → ct_seq t.1 < max_int64 → P (ct_seq t.1 + 1) (put_claim (ct_seq t.1 + 1) c t)) →
  commits (insert_claim c) P t.
Proof.
  intros Ht Hc HP. unfold insert_claim. repeat tx_step; try done.
  match goal with H : _ && _ = true |- _ => apply andb_true_iff in H as [Hs _]; apply Z.ltb_lt in Hs end.
  apply HP; [|done]. apply put_claim_ok; [done| |done]. pose proof (ok_seq t Ht). lia.
Qed.

(** A check that changes nothing. *)
Lemma safe_check {A} (m : Tx A) Q t : safe (λ _, True) m (λ _ t', t' = t) t → (∀ a, Q a t) → safe (λ _, True) m Q t.
Proof. intros H HQ. eapply safe_mono; [exact H|]. intros a t' _ E. cbn in E. by subst t'. Qed.
Lemma AddClaim_good c max now t : scan_claim c = inr c → tx_good (AddClaim_tx c max now) t.
Proof.
  intros Hc Ht. unfold AddClaim_tx. tx_step. apply safe_bind.
  assert (safe (λ _, True) (if 0 <? max then count <- gets (count_where (active now)) ;;
     require (count <? max) (Errorf "claim limit reached (%d)" [ArgZ max]) else ret tt) (λ _ t', t' = t) t) as Hmax
    by (repeat tx_step; done).
  apply (safe_check _ _ _ Hmax). intros _. apply safe_bind, commits_insert; [done..|].
  intros Hput _. apply safe_bind, safe_modify; [done|]. apply safe_bind.
  eapply safe_mono; [apply (commits_dirty now _ t); [by apply log_ok|done]|].
  intros a t' _ H. by apply safe_ret.
Qed.

Lemma RemoveClaim_good id actor now t : tx_good (RemoveClaim_tx id actor now) t.
Proof.
  intros Ht. unfold RemoveClaim_tx, delete_claims. repeat tx_step; try done.
  apply (commits_dirty now _ t); [|done]. by apply log_ok, (delete_ok (λ c, cl_ID c =? id)).
Qed.
Lemma RemoveOperatorClaim_good id actor kind now t : tx_good (RemoveOperatorClaim_tx id actor kind now) t.
Proof.
  intros Ht. unfold RemoveOperatorClaim_tx, delete_claims. repeat tx_step; try done.
  apply (commits_dirty now _ t); [|done]. by apply log_ok, (delete_ok (λ c, cl_ID c =? id)).
Qed.
Lemma RestoreClaim_good c actor now t : 0 < cl_ID c → scan_claim c = inr c → tx_good (RestoreClaim_tx c actor now) t.
Proof.
  intros Hid Hc Ht. unfold RestoreClaim_tx, insert_claim_id. repeat tx_step; try done.
  apply (commits_dirty now _ t); [|done]. by apply log_ok, put_claim_ok.
Qed.
Lemma filter_none {A} (p : A → bool) l : List.filter p l = [] → ∀ x, In x l → p x = false.
Proof.
  intros H x Hx. destruct (p x) eqn:E; [|done]. assert (In x (List.filter p l)) by by apply filter_In. by rewrite H in *.
Qed.
Lemma elem_of_rows (m : gmap Z Claim) c : In c (rows m) ↔ ∃ id, m !! id = Some c.
Proof.
  unfold rows. rewrite <-list_elem_of_In, list_elem_of_fmap. split.
  - intros ([i d] & -> & H%elem_of_map_to_list). eauto.
  - intros [i H]. exists (i, c). split; [done|]. by apply elem_of_map_to_list.
Qed.
(** Deleting nothing is no change. *)
Lemma delete_none p t : count_where p t <= 0 → set_claims (filter (λ kv : Z * Claim, p kv.2 = false)) t = t.
Proof.
  unfold count_where. intros H. destruct t as [[m s i q] a]. unfold set_claims. simpl in *. f_equal. f_equal.
  apply map_filter_id. intros k c Hk. simpl. apply (filter_none p (rows m)); [|apply elem_of_rows; eauto].
  destruct (List.filter p (rows m)); [done|]. simpl in H. lia.
Qed.
Lemma PurgeExpired_good now t : tx_good (PurgeExpired_tx now) t.
Proof.
  intros Ht. unfold PurgeExpired_tx, delete_claims. repeat tx_step; try done.
  - eapply safe_mono; [apply (commits_dirty now _ t); [by apply log_ok, (delete_ok (lapsed now))|done]|].
    intros a t' _ H. by apply safe_ret.
  - match goal with H : (_ <? _) = false |- _ => apply Z.ltb_ge in H; rewrite delete_none by done end. by split.
Qed.
Lemma Prepare_good now t : tx_good (PrepareClaimPublication_tx now) t.
Proof.
  intros Ht. unfold PrepareClaimPublication_tx. tx_step. apply safe_bind, commits_read_publication.
  intros p Hp Hok. tx_step; apply safe_bind.
  - eapply safe_mono; [by apply (commits_dirty now _ t)|]. intros a t' _ H. by apply safe_ret.
  - eapply safe_mono; [by apply (commits_degraded now t)|]. intros a t' _ H. by apply safe_ret.
Qed.
Lemma Mark_good revision count now t : tx_good (MarkClaimsPublished_tx revision count now) t.
Proof.
  intros Ht. unfold MarkClaimsPublished_tx. tx_step. apply safe_bind, safe_gets; [done|].
  destruct (ct_publication t.1) as [p|] eqn:E; [|by apply safe_throw]. tx_step; [|by apply safe_throw].
  match goal with H : (_ =? _)%N = true |- _ => apply N.eqb_eq in H as <- end.
  apply safe_bind, safe_modify; [done|]. apply safe_modify; [done|]. split.
  - apply integrations_ok, publication_set_ok; [done|]. unfold publication_ok. simpl. lia.
  - intros q Hq. assert (q = p) as -> by congruence. eexists. split; [done|]. simpl. split; [lia|done].
Qed.
Lemma Read_good now t : tx_good (ClaimsWithPublication_tx now) t.
Proof.
  intros Ht. unfold ClaimsWithPublication_tx. tx_step. apply safe_bind, safe_gets; [done|].
  destruct (scanClaims _); [by apply safe_throw|]. apply safe_bind, commits_read_publication. intros.
  by apply safe_ret.
Qed.

(** *** The canonical texts *)

Definition canonical (a : string) : Prop := ∃ p, prefix_ok p ∧ pfx_bits p ≠ 0%N ∧ Masked p = p ∧ a = prefix_String p.

Lemma canonical_parse a : canonical a → ∃ p, prefix_ok p ∧ pfx_bits p ≠ 0%N ∧ Masked p = p ∧ ParsePrefix a = Some p.
Proof. intros (p & Hp & Hb & Hm & ->). exists p. by rewrite ParsePrefix_String. Qed.
Lemma canonical_valid a : canonical a → ValidateClaim a (address_family a) = None.
Proof.
  intros (p & Hp & Hb & _ & E)%canonical_parse. unfold ValidateClaim, address_family, parse_prefix_or_addr. rewrite E.
  apply N.eqb_neq in Hb. rewrite Hb. unfold Is6. destruct (Is4 (pfx_addr p)); done.
Qed.
Lemma canonical_masked raw p : parse_prefix_or_addr raw = Some p → pfx_bits p ≠ 0%N → canonical (prefix_String (Masked p)).
Proof.
  intros Hp%parse_prefix_or_addr_ok Hb. exists (Masked p). repeat split; [by apply Masked_ok..| |]; [done|apply Masked_idem].
Qed.
Lemma canonical_addresses_ok l seen r : canonical_addresses l seen = inr r →
  Forall canonical r ∧ NoDup r ∧ (∀ a, a ∈ r → a ∉ seen) ∧
  (∀ a, a ∈ r ∨ a ∈ seen ↔ a ∈ seen ∨ ∃ raw p, raw ∈ l ∧ parse_prefix_or_addr raw = Some p ∧ a = prefix_String (Masked p)).
Proof.
  revert seen r. induction l as [|raw l IH]; intros seen r; simpl.
  - intros [= <-]. repeat split; [constructor|constructor|set_solver|set_solver|set_solver].
  - destruct (parse_prefix_or_addr raw) as [p|] eqn:Ep; [|done]. destruct (N.eqb_spec (pfx_bits p) 0) as [|Hb]; [done|].
    destruct (canonical_addresses l _) as [|r'] eqn:E; [done|]. apply IH in E as (Hc & Hd & Hn & Hi). clear IH.
    set (v := prefix_String (Masked p)) in *. intros [= <-].
    assert (∀ a, a ∈ (if bool_decide (v ∈ seen) then r' else v :: r') ∨ a ∈ seen ↔ a ∈ r' ∨ a ∈ ({[v]} ∪ seen)) as Hsplit.
    { intros a. case_bool_decide; set_solver. }
    assert (∀ a, (a ∈ seen ∨ ∃ raw0 p0, raw0 ∈ raw :: l ∧ parse_prefix_or_addr raw0 = Some p0 ∧ a = prefix_String (Masked p0)) ↔
      (a ∈ ({[v]} ∪ seen) ∨ ∃ raw0 p0, raw0 ∈ l ∧ parse_prefix_or_addr raw0 = Some p0 ∧ a = prefix_String (Masked p0))) as Hsources.
    { intros a. rewrite elem_of_union, elem_of_singleton. split.
      - intros [?|(raw0 & p0 & [->|Hin]%elem_of_cons & E0 & ->)]; [auto| |eauto 8]. left. left. subst v. congruence.
      - intros [[->|?]|(raw0 & p0 & Hin & E0 & ->)]; [|auto|].
        + right. exists raw, p. set_solver.
        + right. exists raw0, p0. set_solver. }
    split; [|split; [|split]].
    + case_bool_decide; [done|]. constructor; [by eapply canonical_masked|done].
    + case_bool_decide; [done|]. constructor; [|done]. intros Hv%Hn. set_solver.
    + intros a Ha. case_bool_decide; [|apply elem_of_cons in Ha as [->|Ha]; [done|]]; apply Hn in Ha; set_solver.
    + intros a. by rewrite Hsplit, Hsources, Hi.
Qed.

(** *** Replacement of one source *)

Lemma commits_insert_source source reason actor now l P t :
  tables_ok t → Forall canonical l → storable now = true → validateClaimMetadata (mkClaim 0 "" "" source reason actor now None) = None →
  (∀ t', tables_ok t' → ct_publication t'.1 = ct_publication t.1 → P tt t') →
  commits (insert_source source reason actor now l) P t.
Proof.
  intros Ht Hl Hnow Hmeta. revert t Ht. induction Hl as [|a l Ha _ IH]; intros t Ht HP; simpl.
  - apply safe_ret; [done|]. by apply HP.
  - apply safe_bind, commits_insert; [done| |].
    + apply scan_claim_id. simpl. repeat split; [done|by apply canonical_valid|]. exact Hmeta.
    + intros Hput _. apply IH; [done|]. intros t' Ht' Hp. by apply HP.
Qed.
Lemma ReplaceSource_good source reason actor l max counted now t :
  Forall canonical l → validateClaimMetadata (mkClaim 0 "" "" source reason actor now None) = None →
  storable now = true → tx_good (ReplaceSource_tx source reason actor l max counted now) t.
Proof.
  intros Hl Hmeta Hnow Ht. unfold ReplaceSource_tx, delete_claims. tx_step. apply safe_bind, safe_bind, safe_gets; [done|].
  apply safe_bind, safe_modify; [done|]. apply safe_ret; [done|]. apply safe_bind.
  set (t1 := set_claims _ t).
  assert (safe (λ _, True) (if 0 <? max then remaining <- gets (count_where (active counted)) ;;
     require (remaining + Z.of_nat (length l) <=? max) (Errorf "claim limit would be exceeded (%d)" [ArgZ max])
   else ret tt) (λ _ t', t' = t1) t1) as Hmax by (repeat tx_step; done).
  apply (safe_check _ _ _ Hmax). intros _. apply safe_bind, commits_insert_source; [by apply (delete_ok (λ c, String.eqb (cl_Source c) source))|done..|].
  intros t' Ht' Hp. apply safe_bind, safe_modify; [done|]. apply safe_bind, safe_require; [done|]. intros _. apply safe_bind.
  eapply safe_mono; [apply (commits_dirty now _ t); [by apply log_ok|done]|]. intros a t2 _ H. by apply safe_ret.
Qed.

(** *** Retirement *)

Lemma commits_delete_sources l P t : tables_ok t →
  (∀ n t', tables_ok t' → ct_publication t'.1 = ct_publication t.1 → 0 <= n → (n = 0 → ct_claims t'.1 = ct_claims t.1) → P n t') →
  commits (delete_sources l) P t.
Proof.
  revert P t. induction l as [|s l IH]; intros P t Ht HP; simpl.
  - apply safe_ret; [done|]. by apply HP.
  - unfold delete_claims. repeat apply safe_bind. apply safe_gets; [done|]. apply safe_bind, safe_modify; [done|].
    apply safe_ret; [done|]. apply safe_bind. apply IH; [by apply (delete_ok (λ c, String.eqb (cl_Source c) s))|]. intros n t' Ht' Hp Hn Hz. apply safe_ret; [done|].
    assert (0 <= count_where (λ c, String.eqb (cl_Source c) s) t) by (unfold count_where; lia).
    apply HP; [done|done|lia|]. intros E. rewrite Hz by lia. by rewrite (delete_none (λ c, String.eqb (cl_Source c) s)) by lia.
Qed.
Lemma RetireInactive_good is_active now t : tx_good (RetireInactive_tx is_active now) t.
Proof.
  intros Ht. unfold RetireInactive_tx. tx_step. apply safe_bind, safe_gets; [done|]. apply safe_bind.
  apply commits_delete_sources; [done|]. intros n t1 Ht1 Hp Hn Hz. apply safe_bind, safe_gets; [done|].
  apply safe_bind, safe_modify; [done|]. set (t2 := set_integrations _ t1). apply safe_bind.
  assert (safe (λ _, True) (if 0 <? n then markClaimPublicationDirtyTx now else ret tt) (λ _ t', tables_ok t' ∧ advances t t') t2) as Hdirty.
  { destruct (Z.ltb_spec 0 n).
    - apply commits_dirty; [by apply integrations_ok|done].
    - apply safe_ret; [done|]. split; [by apply integrations_ok|]. intros p E. exists p. simpl. rewrite Hp.
      repeat split; [done|lia|]. intros _. apply Hz. lia. }
  eapply safe_mono; [exact Hdirty|]. intros a t3 _ [Ht3 Ha]. apply safe_bind. tx_step.
  - apply safe_modify; [done|]. apply safe_ret; [done|]. split; [by apply log_ok|exact Ha].
  - apply safe_ret; [done|]. by apply safe_ret.
Qed.
