(* ===== verification/Feeds.v ===== *)
(** Address lists from outside: threat feeds (internal/threatintel/feed.go), which are
    untrusted and must stay public, narrow and clear of protected prefixes, and
    operator-supplied country lists (internal/geo/claims.go). *)

From S2P Require Import Prelude GoStrings Netip.
From Stdlib Require Import Ascii String.
Local Open Scope string_scope.
Local Open Scope N_scope.
Abbreviation length := List.length.

(** ** Lines

    [bufio.Scanner] with a 64 KiB buffer: the lines without their ends, up to the
    first one that does not fit, and whether there is such a line. *)
Definition max_line : nat := 65535.
Definition drop_cr (l : list ascii) : list ascii :=
  match rev l with c :: l' => if (code c =? 13) then rev l' else l | [] => [] end.
Fixpoint split_lines (cur : list ascii) (l : list ascii) : list (list ascii) :=
  match l with
  | [] => match cur with [] => [] | _ => [rev cur] end
  | c :: l' => if (code c =? 10) then rev cur :: split_lines [] l' else split_lines (c :: cur) l'
  end.
Fixpoint fitting (l : list (list ascii)) : list string * bool :=
  match l with
  | [] => ([], false)
  | x :: l' =>
      if (max_line <? length x)%nat then ([], true)
      else let '(r, long) := fitting l' in (of_chars (drop_cr x) :: r, long)
  end.
Definition scan_lines (body : string) : list string * bool := fitting (split_lines [] (chars body)).

(** [strings.TrimSpace(strings.SplitN(line, "#", 2)[0])] *)
Definition uncommented (line : string) : string :=
  trim_space match split_at "#"%char (chars line) with Some (a, _) => of_chars a | None => line end.

(** ** Public prefixes *)

Definition minIPv4FeedBits : N := 24.
Definition minIPv6FeedBits : N := 48.
Definition maxIPv4CoverageBits : N := 12.
Definition maxIPv6CoverageBits : N := 36.

Definition nonPublicFeedNetworks : list Prefix := omap ParsePrefix
  ["0.0.0.0/8"; "10.0.0.0/8"; "100.64.0.0/10"; "127.0.0.0/8";
   "169.254.0.0/16"; "172.16.0.0/12"; "192.0.0.0/24"; "192.0.2.0/24";
   "192.88.99.0/24"; "192.168.0.0/16"; "198.18.0.0/15"; "198.51.100.0/24";
   "203.0.113.0/24"; "224.0.0.0/4"; "240.0.0.0/4";
   "::/96"; "64:ff9b::/96"; "64:ff9b:1::/48"; "100::/64"; "100:0:0:1::/64";
   "2001::/23"; "2001:db8::/32"; "2002::/16"; "3fff::/20"; "5f00::/16";
   "fc00::/7"; "fe80::/10"; "ff00::/8"].
Definition publicIPv6GlobalUnicast : Prefix := pfx (V6 (0x2000 * 2 ^ 112) "") 3.

Definition ordinary (a : Addr) : bool :=
  IsGlobalUnicast a && negb (IsPrivate a) && negb (IsLoopback a) && negb (IsLinkLocalUnicast a) &&
  negb (IsMulticast a) && negb (IsUnspecified a).

(** The filter of the feed client's dialer. *)
Definition isPublicFeedAddress (a : Addr) : bool :=
  let a := Unmap a in
  ordinary a && forallb (λ p, negb (Contains p a)) nonPublicFeedNetworks.

Definition isPublicFeedPrefix (p : Prefix) : bool :=
  negb (Is4In6 (pfx_addr p)) &&
  (let p := Masked p in
   let a := pfx_addr p in
   ordinary a &&
   (if Is4 a then minIPv4FeedBits <=? pfx_bits p
    else (minIPv6FeedBits <=? pfx_bits p) && Contains publicIPv6GlobalUnicast a) &&
   forallb (λ r, negb (Overlaps p r)) nonPublicFeedNetworks).

(** ** Aggregate coverage *)

(** [Addr.Less] on addresses without zones, and the order of the sort. *)
Definition prefix_leb (p q : Prefix) : bool :=
  let lp := BitLen (pfx_addr p) in let lq := BitLen (pfx_addr q) in
  if negb (lp =? lq) then lp <? lq
  else if negb (pfx_bits p =? pfx_bits q) then pfx_bits p <? pfx_bits q
  else addr_num (pfx_addr p) <=? addr_num (pfx_addr q).

Definition family_minimum (p : Prefix) : N := if BitLen (pfx_addr p) =? 32 then minIPv4FeedBits else minIPv6FeedBits.
Definition family_limit (len : N) : N :=
  if len =? 32 then N.shiftl 1 (32 - maxIPv4CoverageBits) else N.shiftl 1 (128 - maxIPv6CoverageBits).
(** [PrefixFrom(addr, bits).Masked()] for the lengths from [minimum] to the prefix's own. *)
Definition ancestors (p : Prefix) : list Prefix :=
  let m := family_minimum p in
  map (λ k, Masked (mkPrefix (pfx_addr p) (m + N.of_nat k))) (seq 0 (N.to_nat (pfx_bits p + 1 - m))).
Definition prefix_size (p : Prefix) : N := N.shiftl 1 (BitLen (pfx_addr p) - pfx_bits p).

Fixpoint coverage_loop (l : list Prefix) (seen : list Prefix) (c4 c6 : N) : option err :=
  match l with
  | [] => None
  | p :: l' =>
      let p := Masked p in
      if existsb (λ a, bool_decide (a ∈ seen)) (ancestors p) then coverage_loop l' seen c4 c6
      else
        let v4 := BitLen (pfx_addr p) =? 32 in
        let c4 := if v4 then c4 + prefix_size p else c4 in
        let c6 := if v4 then c6 else c6 + prefix_size p in
        if family_limit (BitLen (pfx_addr p)) <? (if v4 then c4 else c6)
        then Some (Errorf "threat feed aggregate address coverage exceeds its safety limit" [])
        else coverage_loop l' (p :: seen) c4 c6
  end.
Definition validateAggregateCoverage (l : list Prefix) : option err := coverage_loop (sort_by prefix_leb l) [] 0 0.

(** ** Validation and parsing *)

Fixpoint feed_prefixes (l : list string) : err + list Prefix :=
  match l with
  | [] => inr []
  | raw :: l' =>
      let bad := Errorf "threat feed contains a prefix that is not public or is too broad" [] in
      match parse_prefix_or_addr raw with
      | None => inl bad
      | Some p =>
          if isPublicFeedPrefix p then
            match feed_prefixes l' with inl e => inl e | inr r => inr (Masked p :: r) end
          else inl bad
      end
  end.
Fixpoint protected_prefixes (l : list string) : err + list Prefix :=
  match l with
  | [] => inr []
  | raw :: l' =>
      match parse_prefix_or_addr raw with
      | None => inl (Errorf "configured protected prefix is invalid" [])
      | Some p => match protected_prefixes l' with inl e => inl e | inr r => inr (Masked p :: r) end
      end
  end.
Definition Validate (addresses protected : list string) : option err :=
  match feed_prefixes addresses with
  | inl e => Some e
  | inr prefixes =>
      match protected_prefixes protected with
      | inl e => Some e
      | inr keep =>
          if existsb (λ c, existsb (Overlaps c) keep) prefixes
          then Some (Errorf "threat feed overlaps a configured protected prefix" [])
          else validateAggregateCoverage prefixes
      end
  end.

(** The entry loop; [count] is the length of the result so far. *)
Fixpoint parse_feed (lines : list string) (number : N) (max : nat) (seen : gset string) (count : nat) : err + list string :=
  match lines with
  | [] => inr []
  | raw :: lines' =>
      let number := number + 1 in
      let line := uncommented raw in
      if String.eqb line "" then parse_feed lines' number max seen count
      else match parse_prefix_or_addr line with
           | None => inl (Errorf "invalid threat feed entry at line %d" [ArgN number])
           | Some p =>
               if negb (isPublicFeedPrefix p)
               then inl (Errorf "threat feed entry at line %d is not an allowed public prefix" [ArgN number])
               else let canonical := prefix_String (Masked p) in
                    if bool_decide (canonical ∈ seen) then parse_feed lines' number max seen count
                    else if (max <? S count)%nat then inl (Errorf "feed entry limit exceeded" [])
                    else match parse_feed lines' number max ({[canonical]} ∪ seen) (S count) with
                         | inl e => inl e
                         | inr r => inr (canonical :: r)
                         end
           end
  end.
Definition Parse (body : string) (max : Z) : err + list string :=
  let max := if (max <=? 0)%Z then 10000%Z else max in
  let '(lines, long) := scan_lines body in
  match parse_feed lines 0 (Z.to_nat max) ∅ 0 with
  | inl e => inl e
  | inr result =>
      if long then inl (Errorf "scan threat feed response failed" [])
      else match Validate result [] with Some e => inl e | None => inr result end
  end.

(** The entry loop of geo.LoadCIDRs, on the text of the file. *)
Fixpoint parse_geo (lines : list string) (max : nat) (seen : gset string) (count : nat) : err + list string :=
  match lines with
  | [] => inr []
  | raw :: lines' =>
      let line := uncommented raw in
      if String.eqb line "" then parse_geo lines' max seen count
      else match ParsePrefix line with
           | None => inl (Errorf "invalid GeoIP CIDR %q" [ArgS line])
           | Some p =>
               if pfx_bits p =? 0 then inl (Errorf "invalid GeoIP CIDR %q" [ArgS line])
               else let canonical := prefix_String (Masked p) in
                    if bool_decide (canonical ∈ seen) then parse_geo lines' max seen count
                    else if (max <? S count)%nat then inl (Errorf "GeoIP CIDR limit exceeded (%d)" [ArgN (N.of_nat max)])
                    else match parse_geo lines' max ({[canonical]} ∪ seen) (S count) with
                         | inl e => inl e
                         | inr r => inr (canonical :: r)
                         end
           end
  end.
Definition LoadCIDRs (text : string) (max : Z) : err + list string :=
  let max := if (max <=? 0)%Z then 100000%Z else max in
  let '(lines, long) := scan_lines text in
  match parse_geo lines (Z.to_nat max) ∅ 0 with
  | inl e => inl e
  | inr r => if long then inl ErrIO else inr r
  end.

Example feed_entries : Parse "# feed
8.8.8.8
1.1.1.0/24 # dns
8.8.8.8/32
" 0 = inr ["8.8.8.8/32"; "1.1.1.0/24"].
Proof. vm_compute. reflexivity. Qed.
Example feed_private : Validate ["10.0.0.1"] [] ≠ None.
Proof. vm_compute. discriminate. Qed.
Example non_public_count : length nonPublicFeedNetworks = 28%nat.
Proof. vm_compute. reflexivity. Qed.

(** ** Prefixes as sets of addresses *)

Lemma shiftr_coarser m n k k' : N.shiftr m k = N.shiftr n k → k <= k' → N.shiftr m k' = N.shiftr n k'.
Proof. intros H Hk. replace k' with (k + (k' - k)) by lia. by rewrite <-!N.shiftr_shiftr, H. Qed.

Lemma Contains_spec p a : Contains p a = true ↔
  has_zone a = false ∧ Is4 (pfx_addr p) = Is4 a ∧
  N.shiftr (addr_num (pfx_addr p)) (low_bits (pfx_addr p) (pfx_bits p)) = N.shiftr (addr_num a) (low_bits (pfx_addr p) (pfx_bits p)).
Proof. unfold Contains. rewrite !andb_true_iff, negb_true_iff, eqb_true_iff, N.eqb_eq. naive_solver. Qed.

Lemma family_len a b : Is4 a = Is4 b → BitLen a = BitLen b.
Proof. by destruct a, b. Qed.

(** A shorter prefix of an address contains what a longer one does. *)
Lemma Contains_shorter p a q : Contains p a = true → Is4 (pfx_addr q) = Is4 (pfx_addr p) →
  pfx_bits q <= pfx_bits p →
  N.shiftr (addr_num (pfx_addr q)) (low_bits (pfx_addr q) (pfx_bits q)) =
  N.shiftr (addr_num (pfx_addr p)) (low_bits (pfx_addr q) (pfx_bits q)) → Contains q a = true.
Proof.
  rewrite !Contains_spec. intros (H1 & H2 & H3) Hf Hb Hq. split; [done|]. split; [congruence|].
  rewrite Hq. eapply shiftr_coarser; [exact H3|]. unfold low_bits. rewrite (family_len _ _ Hf). lia.
Qed.
Lemma Masked_shiftr p k : low_bits (pfx_addr p) (pfx_bits p) <= k →
  N.shiftr (addr_num (pfx_addr (Masked p))) k = N.shiftr (addr_num (pfx_addr p)) k.
Proof.
  intros Hk. eapply shiftr_coarser; [|exact Hk]. destruct p as [[n|n z] b]; cbn;
    unfold clear_low; rewrite N.shiftr_shiftl_l by lia; by rewrite N.sub_diag, N.shiftl_0_r.
Qed.
Lemma Contains_Masked p a : Contains (Masked p) a = Contains p a.
Proof.
  apply eq_true_iff_eq. rewrite !Contains_spec. rewrite Masked_Is4.
  assert (low_bits (pfx_addr (Masked p)) (pfx_bits (Masked p)) = low_bits (pfx_addr p) (pfx_bits p)) as -> by by destruct p as [[]].
  by rewrite Masked_shiftr by lia.
Qed.
(** Prefixes with an address in common overlap. *)
Lemma Contains_Overlaps p q a : Contains p a = true → Contains q a = true → Overlaps p q = true.
Proof.
  rewrite !Contains_spec. intros (_ & Hp & Ep) (_ & Hq & Eq). unfold Overlaps.
  apply andb_true_iff. split; [apply eqb_true_iff; congruence|]. apply N.eqb_eq.
  assert (BitLen (pfx_addr p) = BitLen (pfx_addr q)) as Hl by (apply family_len; congruence).
  unfold low_bits in *. transitivity (N.shiftr (addr_num a) (BitLen (pfx_addr p) - N.min (pfx_bits p) (pfx_bits q))).
  - eapply shiftr_coarser; [exact Ep|lia].
  - symmetry. eapply shiftr_coarser; [exact Eq|lia].
Qed.

(** *** Counting *)

Lemma NoDup_range_length s : ∀ (b : N) (l : list N), NoDup l → (∀ n, n ∈ l → b <= n < b + s) → N.of_nat (length l) <= s.
Proof.
  induction s as [|s IH] using N.peano_ind; intros b l Hl Hr.
  - destruct l as [|n l]; [apply N.le_0_l|]. specialize (Hr n ltac:(set_solver)). lia.
  - assert (N.of_nat (length (filter (λ n, n ≠ b + s) l)) <= s) as H.
    { apply (IH b); [by apply NoDup_filter|]. intros n [Hn Hin]%list_elem_of_filter. specialize (Hr n Hin). lia. }
    assert (length l <= S (length (filter (λ n, (n ≠ b + s)%N) l)))%nat as H'; [|lia].
    clear -Hl. induction Hl as [|x l Hx Hl IH]; [simpl; lia|]. rewrite filter_cons. destruct (decide (x ≠ b + s)) as [|E]; simpl; [lia|].
    apply dec_stable in E as ->. assert (filter (λ n, (n ≠ b + s)%N) l = l) as ->; [|simpl; lia].
    clear IH. induction l as [|y l IH]; [done|]. rewrite filter_cons_True by set_solver. f_equal.
    apply IH; [set_solver|by inversion Hl].
Qed.
Lemma shiftr_range m n k : N.shiftr m k = N.shiftr n k → N.shiftr m k * 2 ^ k <= n < N.shiftr m k * 2 ^ k + 2 ^ k.
Proof.
  intros ->. rewrite shiftr_div. assert (2 ^ k ≠ 0) as Hk by by apply N.pow_nonzero.
  pose proof (N.div_mod n (2 ^ k) Hk). pose proof (N.mod_lt n (2 ^ k) Hk).
  revert H H0. generalize (n / 2 ^ k) (n mod 2 ^ k). generalize (2 ^ k). intros b q r ? ?. nia.
Qed.

(** The addresses of one family, named by their numbers. *)
Definition addr_of (v4 : bool) (n : N) : Addr := if v4 then V4 n else V6 n "".
Definition family (v4 : bool) (p : Prefix) : bool := Bool.eqb (Is4 (pfx_addr p)) v4.
Definition family_size (v4 : bool) (ks : list Prefix) : N := foldr (λ p acc, prefix_size p + acc) 0 (List.filter (family v4) ks).

Lemma covered_count v4 ks l : NoDup l → (∀ n, n ∈ l → ∃ p, p ∈ ks ∧ Contains p (addr_of v4 n) = true) →
  N.of_nat (length l) <= family_size v4 ks.
Proof.
  revert l. induction ks as [|p ks IH]; intros l Hl Hc.
  - destruct l as [|n l]; [apply N.le_0_l|]. destruct (Hc n ltac:(set_solver)) as (p & ? & _). set_solver.
  - assert (N.of_nat (length (filter (λ n, Contains p (addr_of v4 n) ≠ true) l)) <= family_size v4 ks) as H.
    { apply IH; [by apply NoDup_filter|]. intros n [Hn Hin]%list_elem_of_filter. destruct (Hc n Hin) as (q & [->|?]%elem_of_cons & ?); [done|eauto]. }
    assert (N.of_nat (length (filter (λ n, Contains p (addr_of v4 n) = true) l)) <= if family v4 p then prefix_size p else 0) as H'.
    { unfold family. destruct (Bool.eqb (Is4 (pfx_addr p)) v4) eqn:Ef.
      - eapply NoDup_range_length; [by apply NoDup_filter|]. intros n [Hn _]%list_elem_of_filter.
        apply Contains_spec in Hn as (_ & _ & Hn). apply shiftr_range in Hn. unfold prefix_size. rewrite N.shiftl_1_l.
        destruct v4; exact Hn.
      - destruct (filter (λ n, Contains p (addr_of v4 n) = true) l) as [|n l'] eqn:E; [apply N.le_0_l|]. exfalso. assert (n ∈ n :: l') as Hn by set_solver. rewrite <-E in Hn.
        apply list_elem_of_filter in Hn as [Hn _]. apply Contains_spec in Hn as (_ & Hn & _).
        apply eqb_false_iff in Ef. destruct v4; simpl in Hn; congruence. }
    assert (length l = length (filter (λ n, Contains p (addr_of v4 n) = true) l) + length (filter (λ n, Contains p (addr_of v4 n) ≠ true) l))%nat as E.
    { clear. induction l as [|n l IH]; [done|]. rewrite !filter_cons. destruct (decide (Contains p _ = true)), (decide (Contains p _ ≠ true)); simpl; try done; lia. }
    unfold family_size in *. simpl. destruct (family v4 p); simpl; lia.
Qed.

(** *** The aggregate bound *)

Lemma ancestor_contains p q a : q ∈ ancestors p → Contains p a = true → Contains q a = true.
Proof.
  unfold ancestors. intros (k & -> & Hk)%list_elem_of_fmap Hp. apply elem_of_seq in Hk. rewrite Contains_Masked.
  eapply Contains_shorter; [exact Hp|done|simpl; lia|done].
Qed.

Lemma size_cons v4 p ks : family_size v4 (p :: ks) = (if family v4 p then prefix_size p else 0) + family_size v4 ks.
Proof. unfold family_size. simpl. destruct (family v4 p); simpl; lia. Qed.
Lemma len_family p : (BitLen (pfx_addr p) =? 32) = Is4 (pfx_addr p).
Proof. by destruct p as [[]]. Qed.

Lemma coverage_loop_bound l seen c4 c6 : coverage_loop l seen c4 c6 = None →
  family_size true seen = c4 → family_size false seen = c6 → c4 <= family_limit 32 → c6 <= family_limit 128 →
  ∃ ks, (∀ k, k ∈ seen → k ∈ ks) ∧ family_size true ks <= family_limit 32 ∧ family_size false ks <= family_limit 128 ∧
    ∀ p a, p ∈ l → Contains p a = true → ∃ k, k ∈ ks ∧ Contains k a = true.
Proof.
  revert seen c4 c6. induction l as [|p l IH]; intros seen c4 c6 H H4 H6 L4 L6.
  - exists seen. subst. split; [done|]. split; [done|]. split; [done|]. intros. set_solver.
  - cbn [coverage_loop] in H. destruct (existsb _ (ancestors (Masked p))) eqn:Ea.
    + destruct (IH _ _ _ H H4 H6 L4 L6) as (ks & Hs & K4 & K6 & Hks). exists ks. split; [done|]. split; [done|]. split; [done|].
      intros q a [->|Hq]%elem_of_cons Hc; [|by eapply Hks]. apply existsb_exists in Ea as (k & Hk%list_elem_of_In & Hin%bool_decide_eq_true).
      exists k. split; [by apply Hs|]. eapply ancestor_contains; [exact Hk|]. by rewrite Contains_Masked.
    + rewrite len_family in H. destruct (family_limit _ <? _) eqn:El; [done|]. apply N.ltb_ge in El.
      assert (family_size true (Masked p :: seen) = if Is4 (pfx_addr (Masked p)) then c4 + prefix_size (Masked p) else c4) as S4.
      { rewrite size_cons. unfold family. destruct (Is4 (pfx_addr (Masked p))); simpl; lia. }
      assert (family_size false (Masked p :: seen) = if Is4 (pfx_addr (Masked p)) then c6 else c6 + prefix_size (Masked p)) as S6.
      { rewrite size_cons. unfold family. destruct (Is4 (pfx_addr (Masked p))); simpl; lia. }
      assert ((if Is4 (pfx_addr (Masked p)) then c4 + prefix_size (Masked p) else c4) <= family_limit 32 ∧
              (if Is4 (pfx_addr (Masked p)) then c6 else c6 + prefix_size (Masked p)) <= family_limit 128) as [B4 B6].
      { destruct (pfx_addr (Masked p)); simpl in *; done. }
      destruct (IH _ _ _ H S4 S6 B4 B6) as (ks & Hs & K4 & K6 & Hks). exists ks.
      split; [set_solver|]. split; [done|]. split; [done|]. intros q a [->|Hq]%elem_of_cons Hc; [|by eapply Hks].
      exists (Masked p). split; [set_solver|]. by rewrite Contains_Masked.
Qed.

Lemma aggregate_bound l : validateAggregateCoverage l = None →
  ∃ ks, family_size true ks <= family_limit 32 ∧ family_size false ks <= family_limit 128 ∧
    ∀ p a, p ∈ l → Contains p a = true → ∃ k, k ∈ ks ∧ Contains k a = true.
Proof.
  intros H. destruct (coverage_loop_bound _ _ _ _ H) as (ks & _ & K4 & K6 & Hks); [done|done|done|done|].
  exists ks. split; [done|]. split; [done|]. intros p a Hp. apply Hks. by apply elem_of_sort_by.
Qed.

(** *** Validation *)

(** The addresses a list of texts covers. *)
Definition covers (l : list string) (a : Addr) : Prop :=
  ∃ raw p, raw ∈ l ∧ parse_prefix_or_addr raw = Some p ∧ Contains p a = true.

Lemma feed_prefixes_ok l ps a : feed_prefixes l = inr ps → covers l a →
  ∃ p, Masked p ∈ ps ∧ Contains p a = true ∧ isPublicFeedPrefix p = true.
Proof.
  revert ps. induction l as [|raw l IH]; intros ps; simpl; [intros _ (r & p & ? & _); set_solver|].
  destruct (parse_prefix_or_addr raw) as [p|] eqn:Ep; [|done]. destruct (isPublicFeedPrefix p) eqn:Epub; [|done].
  destruct (feed_prefixes l) as [|r]; [done|]. intros [= <-] (raw' & q & [->|Hin]%elem_of_cons & Eq & Hc).
  - assert (q = p) as -> by congruence. exists p. split; [set_solver|done].
  - destruct (IH r eq_refl) as (p' & ? & ?); [by exists raw', q|]. exists p'. set_solver.
Qed.
Lemma protected_prefixes_ok l ks a : protected_prefixes l = inr ks → covers l a →
  ∃ p, Masked p ∈ ks ∧ Contains p a = true.
Proof.
  revert ks. induction l as [|raw l IH]; intros ks; simpl; [intros _ (r & p & ? & _); set_solver|].
  destruct (parse_prefix_or_addr raw) as [p|] eqn:Ep; [|done].
  destruct (protected_prefixes l) as [|r]; [done|]. intros [= <-] (raw' & q & [->|Hin]%elem_of_cons & Eq & Hc).
  - assert (q = p) as -> by congruence. exists p. split; [set_solver|done].
  - destruct (IH r eq_refl) as (p' & ? & ?); [by exists raw', q|]. exists p'. set_solver.
Qed.

(** Every address of a public prefix is public. *)
Lemma public_prefix_addresses p a : isPublicFeedPrefix p = true → Contains p a = true →
  (∀ r, r ∈ nonPublicFeedNetworks → Contains r a = false) ∧ (Is4 a = false → Contains publicIPv6GlobalUnicast a = true).
Proof.
  unfold isPublicFeedPrefix. rewrite andb_true_iff. intros [_ H]. apply andb_true_iff in H as [H Hover].
  apply andb_true_iff in H as [_ Hfam]. intros Hc. split.
  - intros r Hr. apply not_true_iff_false. intros Hra. rewrite forallb_forall in Hover.
    apply list_elem_of_In, Hover in Hr. apply negb_true_iff in Hr.
    rewrite <-Contains_Masked in Hc. by rewrite (Contains_Overlaps _ _ _ Hc Hra) in Hr.
  - intros H4. rewrite Masked_Is4 in Hfam. pose proof Hc as Hc'. apply Contains_spec in Hc' as (_ & Hf & _). rewrite Hf, H4 in Hfam.
    apply andb_true_iff in Hfam as [Hb Hg]. apply N.leb_le in Hb. apply Contains_spec in Hg as (_ & _ & Hg).
    rewrite <-Contains_Masked in Hc. eapply Contains_shorter; [exact Hc|by rewrite Masked_Is4, Hf| |exact Hg].
    unfold minIPv6FeedBits in Hb. cbn [publicIPv6GlobalUnicast pfx pfx_bits]. rewrite Masked_bits in *. lia.
Qed.

(** What a validated feed can block.  Every address it covers is public address
    space, none lies in a protected prefix, and it covers at most 2^20 IPv4 and 2^92
    IPv6 addresses however its prefixes nest and repeat. *)
Theorem Validate_bounds addresses protected :
  Validate addresses protected = None →
  (∀ a, covers addresses a →
     (∀ r, r ∈ nonPublicFeedNetworks → Contains r a = false) ∧
     (Is4 a = false → Contains publicIPv6GlobalUnicast a = true) ∧
     ¬ covers protected a) ∧
  (∀ l, NoDup l → (∀ n, n ∈ l → covers addresses (V4 n)) → N.of_nat (length l) <= 2 ^ 20) ∧
  (∀ l, NoDup l → (∀ n, n ∈ l → covers addresses (V6 n "")) → N.of_nat (length l) <= 2 ^ 92).
Proof.
  unfold Validate. destruct (feed_prefixes addresses) as [|ps] eqn:Ef; [done|].
  destruct (protected_prefixes protected) as [|ks] eqn:Ek; [done|]. destruct (existsb _ ps) eqn:Eo; [done|].
  intros (cover & K4 & K6 & Hcover)%aggregate_bound.
  assert (∀ a, covers addresses a → ∃ k, k ∈ cover ∧ Contains k a = true) as Hc.
  { intros a Ha. destruct (feed_prefixes_ok _ _ _ Ef Ha) as (p & Hp & Hpa & _). apply (Hcover _ _ Hp). by rewrite Contains_Masked. }
  split; [|split].
  - intros a Ha. destruct (feed_prefixes_ok _ _ _ Ef Ha) as (p & Hp & Hpa & Hpub).
    destruct (public_prefix_addresses _ _ Hpub Hpa) as [H1 H2]. split; [done|]. split; [done|]. intros Hk.
    destruct (protected_prefixes_ok _ _ _ Ek Hk) as (q & Hq & Hqa). apply not_true_iff_false in Eo. apply Eo.
    apply existsb_exists. exists (Masked p). split; [by apply list_elem_of_In|]. apply existsb_exists. exists (Masked q).
    split; [by apply list_elem_of_In|]. apply (Contains_Overlaps _ _ a); by rewrite Contains_Masked.
  - intros l Hl Hin. etrans; [apply (covered_count true cover l Hl)|exact K4]. intros n Hn. apply Hc, Hin, Hn.
  - intros l Hl Hin. etrans; [apply (covered_count false cover l Hl)|exact K6]. intros n Hn. apply Hc, Hin, Hn.
Qed.
Lemma Validate_bounds_witness :
  Validate ["8.8.8.0/24"; "8.8.8.8"; "2600::/48"] ["192.0.2.0/24"] = None ∧ ¬ covers ["192.0.2.0/24"] (V4 0x08080801).
Proof.
  assert (Validate ["8.8.8.0/24"; "8.8.8.8"; "2600::/48"] ["192.0.2.0/24"] = None) as H by (vm_compute; reflexivity).
  assert (covers ["8.8.8.0/24"; "8.8.8.8"; "2600::/48"] (V4 0x08080801)) as Hc.
  { exists "8.8.8.0/24", (mkPrefix (V4 0x08080800) 24). split; [left|]. split; vm_compute; reflexivity. }
  split; [exact H|]. exact (proj2 (proj2 (proj1 (Validate_bounds _ _ H) _ Hc))).
Defined.

(** ** The parsers *)

Lemma parse_feed_ok lines number max seen count r : parse_feed lines number max seen count = inr r → (count <= max)%nat →
  NoDup r ∧ (∀ a, a ∈ r → a ∉ seen) ∧ (length r + count <= max)%nat ∧
  Forall (λ a, ∃ p, prefix_ok p ∧ isPublicFeedPrefix p = true ∧ a = prefix_String (Masked p)) r.
Proof.
  revert number seen count r. induction lines as [|raw lines IH]; intros number seen count r; cbn [parse_feed].
  - intros [= <-] Hm. split; [constructor|]. split; [set_solver|]. split; [simpl; lia|constructor].
  - destruct (String.eqb _ ""); [apply IH|]. destruct (parse_prefix_or_addr _) as [p|] eqn:Ep; [|done].
    destruct (isPublicFeedPrefix p) eqn:Epub; [|done]. simpl. case_bool_decide as Hs; [apply IH|].
    destruct (Nat.ltb_spec max (S count)); [done|]. destruct (parse_feed lines _ _ _ _) as [|r'] eqn:E; [done|]. intros [= <-] Hm.
    apply IH in E as (Hn & Hnot & Hl & Hp); [|lia]. split; [|split; [|split]].
    + constructor; [|done]. intros Hin%Hnot. set_solver.
    + intros a [->|Ha]%elem_of_cons; [done|]. apply Hnot in Ha. set_solver.
    + simpl. lia.
    + constructor; [|done]. exists p. split; [by eapply parse_prefix_or_addr_ok|done].
Qed.

(** A feed that parses is a list of at most [max] distinct canonical prefixes that
    reads back as it was printed and passes the whole-feed checks. *)
Theorem Parse_canonical body max l : (0 < max)%Z → Parse body max = inr l →
  NoDup l ∧ (Z.of_nat (length l) <= max)%Z ∧ Validate l [] = None ∧
  Forall (λ a, ∃ p, ParsePrefix a = Some p ∧ Masked p = p ∧ prefix_String p = a) l.
Proof.
  intros Hmax. unfold Parse. destruct (Z.leb_spec max 0); [lia|]. destruct (scan_lines body) as [lines long].
  destruct (parse_feed lines 0 (Z.to_nat max) ∅ 0) as [|r] eqn:E; [done|]. destruct long; [done|].
  destruct (Validate r []) eqn:Ev; [done|]. intros [= <-]. apply parse_feed_ok in E as (Hn & _ & Hl & Hp); [|lia].
  split; [done|]. split; [lia|]. split; [done|]. eapply Forall_impl; [exact Hp|].
  intros a (p & Hok & _ & ->). exists (Masked p). split; [by apply ParsePrefix_String, Masked_ok|]. split; [apply Masked_idem|done].
Qed.
Lemma Parse_canonical_witness :
  Parse "8.8.8.8 # dns" 5 = inr ["8.8.8.8/32"] ∧ NoDup ["8.8.8.8/32"].
Proof.
  assert (Parse "8.8.8.8 # dns" 5 = inr ["8.8.8.8/32"]) as H by (vm_compute; reflexivity).
  split; [exact H|]. exact (proj1 (Parse_canonical "8.8.8.8 # dns" 5 _ eq_refl H)).
Defined.
