(* ===== verification/Ledger.v ===== *)
(** The provenance ledger (internal/provenance/ledger.go): the permanent
    registry that maps ingress interfaces to conntrack-mark bytes.  Identities are
    never deleted or reassigned, and retirement is monotonic. *)

From S2P Require Import Prelude GoStrings GoTime Sha256.
From stdpp Require Import sorting.
From Stdlib Require Import Ascii String.
Local Open Scope string_scope.
Local Open Scope N_scope.
Local Open Scope host_scope.

(** ** Data *)

Definition Mask : N := 0xff000000.
Definition KeepMask : N := 0x00ffffff.
Definition MinID : N := 1.
Definition MaxID : N := 254.
Definition MaxActive : nat := 64.

(** [provenance.Assignment]; [ID] is a uint8. *)
Record Assignment := mkAssignment {
  Name : string;
  ID : N;
  Retired : bool;
  CreatedAt : time;
  RetiredAt : option time
}.
#[export] Instance Assignment_eq_dec : EqDecision Assignment.
Proof. solve_decision. Defined.

(** [Assignment.Encoded]: the uint32 mark with the identity in its high byte. *)
Definition Encoded (a : Assignment) : N := N.shiftl (ID a) 24.

Definition identity_char (c : ascii) : bool := is_alnum c || one_of "_.:-" c.
Definition identityPattern : string → bool := matches_head_tail is_alnum identity_char 0 127.

(** ** Source-level validation *)

(** The loop of [ValidateActive], with its two maps. *)
Fixpoint validate_active_loop (names : gset string) (ids : gmap N string)
    (l : list Assignment) : option err :=
  match l with
  | [] => None
  | a :: l' =>
      if Retired a then Some (Errorf "active assignment %q is marked retired" [ArgS (Name a)])
      else if negb (identityPattern (Name a)) then Some (Errorf "invalid provenance identity %q" [ArgS (Name a)])
      else if (ID a <? MinID) || (MaxID <? ID a) then
        Some (Errorf "provenance id for %q must be %d..%d" [ArgS (Name a); ArgN MinID; ArgN MaxID])
      else if decide (Name a ∈ names) then Some (Errorf "duplicate provenance identity %q" [ArgS (Name a)])
      else match ids !! ID a with
           | Some prior => Some (Errorf "provenance id %d is assigned to both %q and %q" [ArgN (ID a); ArgS prior; ArgS (Name a)])
           | None => validate_active_loop ({[Name a]} ∪ names) (<[ID a := Name a]> ids) l'
           end
  end.

Definition ValidateActive (assignments : list Assignment) : option err :=
  match assignments with
  | [] => Some (Errorf "at least one ingress provenance assignment is required" [])
  | _ =>
      if (MaxActive <? List.length assignments)%nat
      then Some (Errorf "active ingress provenance assignments exceed %d" [ArgN (N.of_nat MaxActive)])
      else validate_active_loop ∅ ∅ assignments
  end.

(** ** The allocations table *)

(** A row of [allocations], keyed by [interface_name]. *)
Record Alloc := mkAlloc {
  provenance_id : N;
  retired : bool;
  created_at : time;
  retired_at : option time
}.
Abbreviation Table := (gmap string Alloc).

Definition row_assignment (row : string * Alloc) : Assignment :=
  mkAssignment row.1 (provenance_id row.2) (retired row.2) (created_at row.2) (retired_at row.2).

(** The order of [assignmentsFrom]: by identity, then by name. *)
Definition assignment_before (a b : Assignment) : Prop :=
  (if negb (ID a =? ID b) then ID a <? ID b else str_leb (Name a) (Name b)) = true.
#[export] Instance assignment_before_dec : RelDecision assignment_before.
Proof. intros a b. unfold assignment_before. apply _. Defined.

Definition assignmentsFrom (t : Table) : list Assignment :=
  merge_sort assignment_before (map row_assignment (map_to_list t)).

(** [INSERT INTO allocations]: PRIMARY KEY, UNIQUE and CHECK constraints. *)
Definition insert_alloc (t : Table) (name : string) (row : Alloc) : err + Table :=
  match t !! name with
  | Some _ => inl (Errorf "UNIQUE constraint failed: allocations.interface_name" [])
  | None =>
      if decide (map_Exists (λ _ r, provenance_id r = provenance_id row) t)
      then inl (Errorf "UNIQUE constraint failed: allocations.provenance_id" [])
      else if (provenance_id row <? 1) || (254 <? provenance_id row)
      then inl (Errorf "CHECK constraint failed: provenance_id" [])
      else inr (<[name := row]> t)
  end.

(** [UPDATE allocations SET retired=1 ... WHERE interface_name=? AND retired=0] *)
Definition retire_alloc (t : Table) (name : string) (now : time) : Table :=
  alter (λ r, if retired r then r
              else mkAlloc (provenance_id r) true (created_at r) (Some now)) name t.

Definition by_name (l : list Assignment) : gmap string Assignment :=
  foldl (λ m a, <[Name a := a]> m) ∅ l.
Definition by_id (l : list Assignment) : gmap N Assignment :=
  foldl (λ m a, <[ID a := a]> m) ∅ l.
Definition names_of (l : list Assignment) : gset string := list_to_set (map Name l).

(** ** Reserve *)

(** The insertion loop of [Reserve] over the requested active set. *)
Fixpoint reserve_loop (byName : gmap string Assignment) (byID : gmap N Assignment)
    (now : time) (active : list Assignment) (t : Table) : err + Table :=
  match active with
  | [] => inr t
  | a :: rest =>
      match byName !! Name a with
      | Some prior =>
          if negb (ID prior =? ID a)
          then inl (Errorf "provenance identity %q is permanently id %d, not %d" [ArgS (Name a); ArgN (ID prior); ArgN (ID a)])
          else if Retired prior
          then inl (Errorf "provenance identity %q was permanently retired" [ArgS (Name a)])
          else reserve_loop byName byID now rest t
      | None =>
          match byID !! ID a with
          | Some prior => inl (Errorf "provenance id %d is permanently allocated to %q" [ArgN (ID a); ArgS (Name prior)])
          | None =>
              match insert_alloc t (Name a) (mkAlloc (ID a) false now None) with
              | inl e => inl (Wrapf "reserve provenance id %d for %s: %w" [ArgN (ID a); ArgS (Name a)] e)
              | inr t' => reserve_loop byName byID now rest t'
              end
          end
      end
  end.

(** The tombstone loop: every live allocation outside the active set retires. *)
Definition retire_loop (activeNames : gset string) (now : time)
    (existing : list Assignment) (t : Table) : Table :=
  foldl (λ t a, if Retired a || bool_decide (Name a ∈ activeNames) then t
                else retire_alloc t (Name a) now) t existing.

(** The transaction body of [Reserve]. *)
Definition reserve_tx (now : time) (active : list Assignment) (t : Table) : err + Table :=
  let existing := assignmentsFrom t in
  match reserve_loop (by_name existing) (by_id existing) now active t with
  | inl e => inl e
  | inr t' => inr (retire_loop (names_of active) now existing t')
  end.

(** A ledger connection: the table and how it was opened. *)
Record LedgerDB := mkLedgerDB { allocations : Table; readOnly : bool }.

Definition set_allocations (t : Table) (l : LedgerDB) : LedgerDB := mkLedgerDB t (readOnly l).

(** Running a transaction body and committing it is one atomic effect; the fsync
    of file and directory that follows may still fail or be the crash point. *)
Definition commit_tx (body : Table → err + Table) : M LedgerDB unit :=
  io_write (λ l, match body (allocations l) with
                 | inl e => (Error e, l)
                 | inr t => (Ret tt, set_allocations t l)
                 end).
Definition syncLedger : M LedgerDB unit := io_read (λ _, Ret tt).

Definition Reserve (now : time) (active : list Assignment) : M LedgerDB unit :=
  ro <- gets readOnly ;;
  require (negb ro) (Errorf "writable provenance ledger is required" []) ;;
  match ValidateActive active with
  | Some e => throw e
  | None => commit_tx (reserve_tx now active) ;; syncLedger
  end.

(** ** ValidateRequired *)

Fixpoint validate_required_loop (t : Table) (names : gset string) (ids : gmap N string)
    (l : list Assignment) : option err :=
  match l with
  | [] => None
  | a :: l' =>
      if negb (identityPattern (Name a)) || (ID a <? MinID) || (MaxID <? ID a)
      then Some (Errorf "invalid required provenance assignment %q/%d" [ArgS (Name a); ArgN (ID a)])
      else if decide (Name a ∈ names) then Some (Errorf "duplicate required provenance identity %q" [ArgS (Name a)])
      else match ids !! ID a with
      | Some prior => Some (Errorf "required provenance id %d is ambiguous between %q and %q" [ArgN (ID a); ArgS prior; ArgS (Name a)])
      | None =>
          match t !! Name a with
          | None => Some (Errorf "provenance identity %q is absent from the monotonic ledger" [ArgS (Name a)])
          | Some row =>
              if negb (provenance_id row =? ID a)
              then Some (Errorf "provenance identity %q is ledger id %d, generation requires %d" [ArgS (Name a); ArgN (provenance_id row); ArgN (ID a)])
              else validate_required_loop t ({[Name a]} ∪ names) (<[ID a := Name a]> ids) l'
          end
      end
  end.

Definition ValidateRequired (t : Table) (required : list Assignment) : option err :=
  validate_required_loop t ∅ ∅ required.

(** ** MergeFrom *)

(** The compatibility check of the saved rows against the live ones. *)
Fixpoint merge_check (liveByName : gmap string Assignment) (liveByID : gmap N Assignment)
    (saved : list Assignment) : option err :=
  match saved with
  | [] => None
  | a :: rest =>
      match liveByName !! Name a with
      | Some live =>
          if negb (ID live =? ID a)
          then Some (Errorf "saved ledger changes %q from id %d to %d" [ArgS (Name a); ArgN (ID live); ArgN (ID a)])
          else if negb (Retired live) && Retired a
          then Some (Errorf "saved ledger retires currently active identity %q" [ArgS (Name a)])
          else merge_check liveByName liveByID rest
      | None =>
          match liveByID !! ID a with
          | Some live => Some (Errorf "saved ledger reuses id %d from %q for %q" [ArgN (ID a); ArgS (Name live); ArgS (Name a)])
          | None => merge_check liveByName liveByID rest
          end
      end
  end.

(** No live identity may be missing from the saved ledger. *)
Fixpoint merge_regress (savedNames : gset string) (live : list Assignment) : option err :=
  match live with
  | [] => None
  | a :: rest =>
      if negb (bool_decide (Name a ∈ savedNames)) && negb (Retired a)
      then Some (Errorf "saved ledger regresses active live identity %q" [ArgS (Name a)])
      else merge_regress savedNames rest
  end.

Fixpoint merge_insert (liveByName : gmap string Assignment) (now : time)
    (saved : list Assignment) (t : Table) : err + Table :=
  match saved with
  | [] => inr t
  | a :: rest =>
      match liveByName !! Name a with
      | Some _ => merge_insert liveByName now rest t
      | None =>
          let created := if is_zero_time (CreatedAt a) then now else CreatedAt a in
          match insert_alloc t (Name a) (mkAlloc (ID a) (Retired a) created (RetiredAt a)) with
          | inl e => inl (Wrapf "merge saved provenance identity %s: %w" [ArgS (Name a)] e)
          | inr t' => merge_insert liveByName now rest t'
          end
      end
  end.

Definition merge_tx (now : time) (saved : list Assignment) (t : Table) : err + Table :=
  let live := assignmentsFrom t in
  match merge_check (by_name live) (by_id live) saved with
  | Some e => inl e
  | None =>
      match merge_regress (names_of saved) live with
      | Some e => inl e
      | None => merge_insert (by_name live) now saved t
      end
  end.

(** [MergeFrom]: [saved] is the table of the ledger opened read-only. *)
Definition MergeFrom (now : time) (saved : Table) : M LedgerDB unit :=
  ro <- gets readOnly ;;
  require (negb ro) (Errorf "writable provenance ledger is required" []) ;;
  savedAssignments <- io_read (λ _, Ret (assignmentsFrom saved)) ;;
  commit_tx (merge_tx now savedAssignments) ;;
  syncLedger.

(** ** Digest *)

Definition nul : string := String (ascii_of_N 0) EmptyString.
Definition newline : string := String (ascii_of_N 10) EmptyString.

Definition digest_line (a : Assignment) : string :=
  Name a +:+ nul +:+ pretty (ID a) +:+ nul +:+ (if Retired a then "true" else "false") +:+ newline.

Definition Digest (t : Table) : string :=
  sha256_hex (String.concat "" (map digest_line (assignmentsFrom t))).

(** ** Well-formedness and history order *)

(** What the table constraints guarantee: identities in range, one name each. *)
Definition table_wf (t : Table) : Prop :=
  (∀ n r, t !! n = Some r → MinID ≤ provenance_id r ≤ MaxID) ∧
  (∀ n n' r r', t !! n = Some r → t !! n' = Some r' → provenance_id r = provenance_id r' → n = n').

(** [t ⊑ t']: every allocation of [t] is still there with the same identity and
    birth date, and what was retired stays retired. *)
Definition ledger_le (t t' : Table) : Prop :=
  ∀ n r, t !! n = Some r → ∃ r', t' !! n = Some r' ∧
    provenance_id r' = provenance_id r ∧ created_at r' = created_at r ∧
    (retired r = true → r' = r).

#[export] Instance ledger_le_preorder : PreOrder ledger_le.
Proof.
  split.
  - intros t n r H. eauto 10.
  - intros t1 t2 t3 H12 H23 n r H.
    destruct (H12 n r H) as (r2 & H2 & Hid & Hc & Hr).
    destruct (H23 n r2 H2) as (r3 & H3 & Hid' & Hc' & Hr').
    exists r3. repeat split; [done|congruence..|].
    intros Hret. specialize (Hr Hret). subst r2. auto.
Qed.

Create HintDb ledger.
#[export] Hint Extern 1 (ledger_le ?t ?t) => reflexivity : ledger.

Lemma insert_alloc_inr t n row t' :
  insert_alloc t n row = inr t' ↔
  t !! n = None ∧ (∀ m r, t !! m = Some r → provenance_id r ≠ provenance_id row) ∧
  MinID ≤ provenance_id row ≤ MaxID ∧ t' = <[n := row]> t.
Proof.
  unfold insert_alloc, MinID, MaxID. destruct (t !! n) eqn:E; [naive_solver|].
  destruct (decide (map_Exists _ t)) as [Hex|Hex].
  - split; [done|]. intros (_ & Hne & _). destruct Hex as (m & r & Hm & Hr). by destruct (Hne m r Hm).
  - destruct ((provenance_id row <? 1) || (254 <? provenance_id row)) eqn:Er.
    + split; [done|]. intros (_ & _ & Hrange & _).
      rewrite orb_true_iff, !N.ltb_lt in Er. lia.
    + rewrite orb_false_iff, !N.ltb_ge in Er.
      split; [|by intros (_ & _ & _ & ->)].
      intros [= <-]. repeat split; try lia.
      intros m r Hm Hr. apply Hex. by exists m, r.
Qed.

Lemma insert_alloc_wf t n row t' : table_wf t → insert_alloc t n row = inr t' → table_wf t'.
Proof.
  intros [Hr Hi] (Hn & Hfresh & Hrange & ->)%insert_alloc_inr. split.
  - intros m r [[<- <-]|[_ Hm]]%lookup_insert_Some; eauto.
  - intros m m' r r' [[<- <-]|[Hne Hm]]%lookup_insert_Some
      [[<- <-]|[Hne' Hm']]%lookup_insert_Some Hid; eauto; exfalso; by eapply Hfresh.
Qed.

Lemma insert_alloc_le t n row t' : insert_alloc t n row = inr t' → ledger_le t t'.
Proof.
  intros (Hn & _ & _ & ->)%insert_alloc_inr m r Hm.
  exists r. rewrite lookup_insert_ne by congruence. done.
Qed.

Lemma retire_alloc_lookup t n now m :
  retire_alloc t n now !! m =
  (if decide (n = m) then
     (λ r, if retired r then r else mkAlloc (provenance_id r) true (created_at r) (Some now)) <$> t !! m
   else t !! m).
Proof. unfold retire_alloc. by rewrite lookup_alter; case_decide; subst. Qed.

Lemma retire_alloc_le t n now : ledger_le t (retire_alloc t n now).
Proof.
  intros m r Hm. rewrite retire_alloc_lookup, Hm. case_decide; [|by eauto].
  simpl. destruct (retired r) eqn:E; eauto 10. eexists. split; [done|]. naive_solver.
Qed.

(** [alter]-like updates keep the identities, hence well-formedness. *)
Lemma table_wf_same_ids t t' :
  (∀ n, provenance_id <$> t' !! n = provenance_id <$> t !! n) → table_wf t → table_wf t'.
Proof.
  intros Heq [Hr Hi].
  assert (∀ n r', t' !! n = Some r' → ∃ r, t !! n = Some r ∧ provenance_id r = provenance_id r') as Hback.
  { intros n r' H. specialize (Heq n). rewrite H in Heq. symmetry in Heq.
    apply fmap_Some in Heq as (r & ? & ?). eauto. }
  split.
  - intros n r' (r & H & <-)%Hback. eauto.
  - intros n n' r r' (r1 & H1 & E1)%Hback (r2 & H2 & E2)%Hback Hid.
    apply (Hi n n' r1 r2); congruence.
Qed.

Lemma retire_alloc_ids t n now m : provenance_id <$> retire_alloc t n now !! m = provenance_id <$> t !! m.
Proof.
  rewrite retire_alloc_lookup. case_decide; [|done]. destruct (t !! m) as [r|]; [|done].
  simpl. by destruct (retired r).
Qed.

Lemma retire_loop_le names now l t : ledger_le t (retire_loop names now l t).
Proof.
  unfold retire_loop. revert t. induction l as [|a l IH]; intros t; [reflexivity|]. simpl.
  case_match; [apply IH|]. etrans; [apply retire_alloc_le | apply IH].
Qed.

Lemma retire_loop_wf names now l t : table_wf t → table_wf (retire_loop names now l t).
Proof.
  unfold retire_loop. revert t. induction l as [|a l IH]; intros t Hwf; [done|]. simpl.
  apply IH. case_match; [done|]. eapply table_wf_same_ids; [|done]. intros. apply retire_alloc_ids.
Qed.

Lemma reserve_loop_le byName byID now active t t' :
  reserve_loop byName byID now active t = inr t' → ledger_le t t'.
Proof.
  revert t. induction active as [|a l IH]; intros t; simpl; [by intros [= <-]; reflexivity|].
  repeat case_match; try done; intros H'; auto.
  etrans; [by eapply insert_alloc_le | by apply IH].
Qed.

Lemma reserve_loop_wf byName byID now active t t' :
  table_wf t → reserve_loop byName byID now active t = inr t' → table_wf t'.
Proof.
  revert t. induction active as [|a l IH]; intros t Hwf; simpl; [by intros [= <-]|].
  repeat case_match; try done; intros H'; eauto using insert_alloc_wf.
Qed.

Lemma reserve_tx_le now active t t' : reserve_tx now active t = inr t' → ledger_le t t'.
Proof.
  unfold reserve_tx. destruct (reserve_loop _ _ _ _ _) as [e|t1] eqn:E; [done|]. intros [= <-].
  etrans; [by eapply reserve_loop_le | apply retire_loop_le].
Qed.

Lemma reserve_tx_wf now active t t' : table_wf t → reserve_tx now active t = inr t' → table_wf t'.
Proof.
  unfold reserve_tx. destruct (reserve_loop _ _ _ _ _) as [e|t1] eqn:E; [done|]. intros Hwf [= <-].
  apply retire_loop_wf. by eapply reserve_loop_wf.
Qed.

Lemma merge_insert_le byName now saved t t' : merge_insert byName now saved t = inr t' → ledger_le t t'.
Proof.
  revert t. induction saved as [|a l IH]; intros t; cbn [merge_insert]; [by intros [= <-]; reflexivity|].
  destruct (byName !! Name a); [apply IH|].
  destruct (insert_alloc _ _ _) as [e|t1] eqn:E; [done|]. intros H.
  etrans; [by eapply insert_alloc_le | by apply IH].
Qed.

Lemma merge_insert_wf byName now saved t t' :
  table_wf t → merge_insert byName now saved t = inr t' → table_wf t'.
Proof.
  revert t. induction saved as [|a l IH]; intros t Hwf; cbn [merge_insert]; [by intros [= <-]|].
  destruct (byName !! Name a); [by apply IH|].
  destruct (insert_alloc _ _ _) as [e|t1] eqn:E; [done|]. eauto using insert_alloc_wf.
Qed.

Lemma merge_tx_inv now saved t t' :
  merge_tx now saved t = inr t' →
  merge_check (by_name (assignmentsFrom t)) (by_id (assignmentsFrom t)) saved = None ∧
  merge_regress (names_of saved) (assignmentsFrom t) = None ∧
  merge_insert (by_name (assignmentsFrom t)) now saved t = inr t'.
Proof. unfold merge_tx. by repeat case_match. Qed.

(** ** The registry as the code reads it *)

Lemma elem_of_assignmentsFrom a t :
  a ∈ assignmentsFrom t ↔
  t !! Name a = Some (mkAlloc (ID a) (Retired a) (CreatedAt a) (RetiredAt a)).
Proof.
  unfold assignmentsFrom. rewrite merge_sort_Permutation, list_elem_of_fmap. split.
  - intros ([n r] & -> & Hin). apply elem_of_map_to_list in Hin. by destruct r.
  - intros H. exists (Name a, mkAlloc (ID a) (Retired a) (CreatedAt a) (RetiredAt a)).
    rewrite elem_of_map_to_list. by destruct a.
Qed.

Lemma assignmentsFrom_name_inj t a b :
  a ∈ assignmentsFrom t → b ∈ assignmentsFrom t → Name a = Name b → a = b.
Proof. rewrite !elem_of_assignmentsFrom. destruct a, b; simpl. naive_solver. Qed.

Lemma by_name_lookup t n :
  by_name (assignmentsFrom t) !! n = (λ r, row_assignment (n, r)) <$> t !! n.
Proof.
  apply option_eq. intros a. unfold by_name.
  rewrite foldl_insert_lookup, elem_of_assignmentsFrom by eauto using assignmentsFrom_name_inj.
  rewrite lookup_empty, fmap_Some. split.
  - intros [[H <-]|[? _]]; [|done]. eexists. split; [done|]. by destruct a.
  - intros (r & H & ->). left. by destruct r.
Qed.

Lemma by_id_lookup t i a : table_wf t →
  by_id (assignmentsFrom t) !! i = Some a ↔ a ∈ assignmentsFrom t ∧ ID a = i.
Proof.
  intros [_ Hi]. unfold by_id. rewrite foldl_insert_lookup.
  - rewrite lookup_empty. naive_solver.
  - intros x y Hx Hy Heq. eapply assignmentsFrom_name_inj; [done..|].
    apply elem_of_assignmentsFrom in Hx, Hy. by eapply (Hi _ _ _ _ Hx Hy).
Qed.

Lemma elem_of_names_of n l : n ∈ names_of l ↔ ∃ a, a ∈ l ∧ Name a = n.
Proof. unfold names_of. rewrite elem_of_list_to_set, list_elem_of_fmap. naive_solver. Qed.

(** What [ValidateActive] accepts. *)
Definition active_ok (l : list Assignment) : Prop :=
  Forall (λ a, Retired a = false ∧ identityPattern (Name a) = true ∧ MinID ≤ ID a ≤ MaxID) l ∧
  NoDup (map Name l) ∧ NoDup (map ID l).

Lemma validate_active_loop_None names ids l :
  validate_active_loop names ids l = None ↔
  active_ok l ∧ (∀ a, a ∈ l → Name a ∉ names ∧ ids !! ID a = None).
Proof.
  unfold active_ok. revert names ids. induction l as [|a l IH]; intros names ids; simpl.
  { split; [|done]. intros _. split; [split; [constructor|split; constructor]|set_solver]. }
  rewrite Forall_cons, !NoDup_cons.
  destruct (Retired a) eqn:E1; [naive_solver|].
  destruct (identityPattern (Name a)) eqn:E2; simpl; [|naive_solver].
  destruct ((ID a <? MinID) || (MaxID <? ID a)) eqn:E3.
  { rewrite orb_true_iff, !N.ltb_lt in E3. split; [done|]. intros ((((? & ? & ?) & _) & _) & _). lia. }
  rewrite orb_false_iff, !N.ltb_ge in E3.
  destruct (decide (Name a ∈ names)) as [E4|E4]; [set_solver|].
  destruct (ids !! ID a) eqn:E5; [set_solver|].
  rewrite IH, !list_elem_of_fmap. split.
  - intros ((Hf & Hn & Hi) & Hd). split.
    + split; [split; [done|done]|]. split; (split; [|done]); intros (b & Hb & Hin);
        destruct (Hd b Hin) as [H1 H2].
      * rewrite Hb in H1. set_solver.
      * rewrite <-Hb in H2. by rewrite lookup_insert_eq in H2.
    + intros b [->|Hin]%elem_of_cons; [done|]. destruct (Hd b Hin) as [H1 H2].
      split; [set_solver|]. by apply lookup_insert_None in H2 as [? _].
  - intros (((_ & Hf) & (Hna & Hn) & (Hia & Hi)) & Hd). split; [done|].
    intros b Hin. destruct (Hd b) as [H1 H2]; [set_solver|]. split.
    + apply not_elem_of_union. split; [|done]. rewrite elem_of_singleton. naive_solver.
    + apply lookup_insert_None. naive_solver.
Qed.

Lemma ValidateActive_None l :
  ValidateActive l = None ↔ l ≠ [] ∧ (List.length l ≤ MaxActive)%nat ∧ active_ok l.
Proof.
  unfold ValidateActive. destruct l as [|a l]; [naive_solver|].
  destruct (MaxActive <? _)%nat eqn:E.
  - apply Nat.ltb_lt in E. split; [done|]. intros (_ & ? & _). lia.
  - apply Nat.ltb_ge in E. rewrite validate_active_loop_None. set_solver.
Qed.

(** ** Reserve, exactly *)

(** A row that already carries the requested identity and is live. *)
Definition row_matches (a : Assignment) (r : Alloc) : Prop :=
  provenance_id r = ID a ∧ retired r = false.

(** The requests the ledger can grant: each name is either live under the same
    identity, or unknown with an identity never allocated. *)
Definition reservable (t : Table) (a : Assignment) : Prop :=
  match t !! Name a with
  | Some r => row_matches a r
  | None => ∀ n r, t !! n = Some r → provenance_id r ≠ ID a
  end.

Definition fresh_row (now : time) (a : Assignment) : Alloc := mkAlloc (ID a) false now None.

Lemma by_id_None t i : table_wf t →
  by_id (assignmentsFrom t) !! i = None ↔ ∀ n r, t !! n = Some r → provenance_id r ≠ i.
Proof.
  intros Hwf. rewrite eq_None_not_Some. split.
  - intros Hno n r Hr <-. apply Hno. exists (row_assignment (n, r)).
    rewrite by_id_lookup, elem_of_assignmentsFrom by done. by destruct r.
  - intros Hno [a [Ha <-]%by_id_lookup]; [|done]. apply elem_of_assignmentsFrom in Ha.
    by apply (Hno _ _ Ha).
Qed.

(** One pass of the loop from table [t], which extends the table [t0] the maps
    were built from without touching the names and identities still to come. *)
Lemma reserve_loop_spec t0 now l t :
  table_wf t0 → active_ok l →
  (∀ a, a ∈ l → t !! Name a = t0 !! Name a) →
  (∀ a n r, a ∈ l → t !! n = Some r → provenance_id r = ID a → t0 !! n = Some r) →
  (∃ t', reserve_loop (by_name (assignmentsFrom t0)) (by_id (assignmentsFrom t0)) now l t = inr t' ∧
     Forall (reservable t0) l ∧
     (∀ a, a ∈ l → t !! Name a = None → t' !! Name a = Some (fresh_row now a)) ∧
     (∀ n, n ∉ map Name l ∨ t !! n ≠ None → t' !! n = t !! n)) ∨
  (∃ e, reserve_loop (by_name (assignmentsFrom t0)) (by_id (assignmentsFrom t0)) now l t = inl e ∧
     ¬ Forall (reservable t0) l).
Proof.
  intros Hwf. revert t. induction l as [|a l IH]; intros t (Hf & Hn & Hi) Hsame Hids; simpl.
  { left. exists t. split; [done|]. split; [done|]. split; [set_solver|done]. }
  apply Forall_cons in Hf as [(Hret & Hpat & Hrange) Hf].
  apply NoDup_cons in Hn as [Hna Hn]. apply NoDup_cons in Hi as [Hia Hi].
  assert (active_ok l) as Hok by done.
  rewrite by_name_lookup. destruct (t0 !! Name a) as [r|] eqn:Er; simpl.
  - destruct (provenance_id r =? ID a) eqn:Eid; simpl; [apply N.eqb_eq in Eid|apply N.eqb_neq in Eid].
    2:{ right. eexists. split; [done|]. intros [Hr _]%Forall_cons. unfold reservable in Hr.
        rewrite Er in Hr. by destruct Hr. }
    destruct (retired r) eqn:Eret.
    { right. eexists. split; [done|]. intros [Hr _]%Forall_cons. unfold reservable in Hr.
      rewrite Er in Hr. destruct Hr. congruence. }
    destruct (IH t Hok) as [(t' & -> & Hall & Hnew & Hold)|(e & -> & Hnot)];
      [set_solver|intros b; intros; apply (Hids b); set_solver| |].
    + left. exists t'. split; [done|]. split.
      { constructor; [|done]. unfold reservable. by rewrite Er. }
      split.
      * intros b [->|Hb]%elem_of_cons Hbn; [|by apply Hnew].
        rewrite Hsame, Er in Hbn by set_solver. done.
      * intros n [Hnn|Hnn]; apply Hold; set_solver.
    + right. eexists. split; [done|]. by intros [_ ?]%Forall_cons.
  - destruct (by_id (assignmentsFrom t0) !! ID a) as [prior|] eqn:Eb.
    { right. eexists. split; [done|]. intros [Hr _]%Forall_cons. unfold reservable in Hr.
      rewrite Er in Hr. pose proof (proj2 (by_id_None t0 (ID a) Hwf) Hr). congruence. }
    pose proof (proj1 (by_id_None t0 (ID a) Hwf) Eb) as Hfree; clear Eb; rename Hfree into Eb.
    assert (insert_alloc t (Name a) (fresh_row now a) = inr (<[Name a := fresh_row now a]> t)) as Hins.
    { apply insert_alloc_inr. rewrite Hsame by set_solver. split; [done|]. split; [|done].
      intros m r Hm Heq. simpl in Heq. eapply Eb; [|done]. eapply (Hids a); set_solver. }
    change (mkAlloc (ID a) false now None) with (fresh_row now a). rewrite Hins.
    destruct (IH (<[Name a := fresh_row now a]> t) Hok) as [(t' & -> & Hall & Hnew & Hold)|(e & -> & Hnot)].
    + intros b Hb. rewrite lookup_insert_ne; [set_solver|].
      intros Heq. apply Hna. rewrite Heq. by apply list_elem_of_fmap_2.
    + intros b n r Hb [[<- <-]|[Hne Hm]]%lookup_insert_Some Hid; [|eapply (Hids b); set_solver].
      exfalso. apply Hia. simpl in Hid. rewrite Hid. by apply list_elem_of_fmap_2.
    + left. exists t'. split; [done|]. split.
      { constructor; [|done]. unfold reservable. by rewrite Er. }
      split.
      * intros b [->|Hb]%elem_of_cons Hbn.
        -- rewrite Hold; [by rewrite lookup_insert_eq|]. by left.
        -- apply Hnew; [done|]. rewrite lookup_insert_ne; [done|].
           intros Heq. apply Hna. rewrite Heq. by apply list_elem_of_fmap_2.
      * intros n Hn'. assert (n ≠ Name a) as Hne.
        { destruct Hn' as [?|Hn']; [set_solver|]. intros ->. apply Hn'. rewrite Hsame; set_solver. }
        rewrite Hold; [by rewrite lookup_insert_ne|]. rewrite lookup_insert_ne by done. set_solver.
    + right. eexists. split; [done|]. by intros [_ ?]%Forall_cons.
Qed.

(** The tombstone of a row that left the active set. *)
Definition tombstone (now : time) (r : Alloc) : Alloc :=
  if retired r then r else mkAlloc (provenance_id r) true (created_at r) (Some now).

Lemma retire_loop_lookup names now l t n :
  NoDup (map Name l) →
  (∀ a, a ∈ l → Retired a = true → ∀ r, t !! Name a = Some r → retired r = true) →
  retire_loop names now l t !! n =
  if decide (n ∈ map Name l ∧ n ∉ names) then tombstone now <$> t !! n else t !! n.
Proof.
  unfold retire_loop. revert t. induction l as [|a l IH]; intros t Hnd Hret; simpl.
  { done. }
  simpl in Hnd. apply NoDup_cons in Hnd as [Hna Hnd].
  assert (∀ t' : Table, (∀ m, m ≠ Name a → t' !! m = t !! m) →
    ∀ b, b ∈ l → Retired b = true → ∀ r, t' !! Name b = Some r → retired r = true) as Hkeep.
  { intros t' Heq b Hb Hr r. rewrite Heq; [by apply Hret; [right|]|].
    intros E. apply Hna. rewrite <-E. by apply list_elem_of_fmap_2. }
  destruct (Retired a) eqn:Ea; simpl; [|destruct (bool_decide_reflect (Name a ∈ names)) as [Hin|Hin]; simpl];
    (rewrite IH; [|done|apply Hkeep; intros m Hm; rewrite ?retire_alloc_lookup, ?decide_False by congruence; done]).
  - destruct (decide (n = Name a)) as [->|Hne].
    + rewrite decide_False by tauto.
      destruct (decide (Name a ∈ Name a :: map Name l ∧ _)); [|done].
      destruct (t !! Name a) as [r|] eqn:Er; [|done]. simpl. unfold tombstone.
      by rewrite (Hret a ltac:(by left) Ea r Er).
    + repeat case_decide; set_solver.
  - repeat case_decide; set_solver.
  - rewrite retire_alloc_lookup. destruct (decide (Name a = n)) as [<-|Hne].
    + rewrite decide_False by tauto. rewrite decide_True by set_solver. done.
    + repeat case_decide; set_solver.
Qed.

Lemma assignmentsFrom_names t n : n ∈ map Name (assignmentsFrom t) ↔ is_Some (t !! n).
Proof.
  rewrite list_elem_of_fmap. split.
  - intros (a & -> & Ha%elem_of_assignmentsFrom). by eexists.
  - intros [r Hr]. exists (row_assignment (n, r)). split; [done|].
    apply elem_of_assignmentsFrom. by destruct r.
Qed.

Lemma assignmentsFrom_NoDup t : NoDup (map Name (assignmentsFrom t)).
Proof.
  unfold assignmentsFrom.
  assert (map Name (merge_sort assignment_before (map row_assignment (map_to_list t))) ≡ₚ
          map Name (map row_assignment (map_to_list t))) as ->
    by apply Permutation_map, merge_sort_Permutation.
  rewrite map_map. change (NoDup (fst <$> map_to_list t)). apply NoDup_fst_map_to_list.
Qed.

(** The complete outcome of a reservation: granted requests, tombstones for the
    identities that left, everything else untouched. *)
Definition reserved (now : time) (active : list Assignment) (t : Table) (n : string) : option Alloc :=
  match t !! n with
  | Some r => Some (if decide (n ∈ names_of active) then r else tombstone now r)
  | None => fresh_row now <$> by_name active !! n
  end.

Lemma by_name_active l n : NoDup (map Name l) →
  match by_name l !! n with
  | Some a => a ∈ l ∧ Name a = n
  | None => n ∉ names_of l
  end.
Proof.
  intros Hnd.
  assert (∀ x y, x ∈ l → y ∈ l → Name x = Name y → x = y) as Hinj.
  { intros x y Hx Hy Hxy. apply list_elem_of_lookup in Hx as [i Hi], Hy as [j Hj].
    assert (i = j) as ->; [|congruence].
    eapply (NoDup_lookup _ i j (Name x) Hnd); [by rewrite list_lookup_fmap, Hi | by rewrite list_lookup_fmap, Hj, Hxy]. }
  destruct (by_name l !! n) as [a|] eqn:E.
  - unfold by_name in E. apply foldl_insert_lookup in E; [|done]. rewrite lookup_empty in E. naive_solver.
  - intros (a & Ha & <-)%elem_of_names_of.
    assert (by_name l !! Name a = Some a) as Hs; [|congruence].
    apply foldl_insert_lookup; [done|]. by left.
Qed.

Lemma reserve_tx_spec now active t :
  table_wf t → active_ok active →
  (∃ t', reserve_tx now active t = inr t' ∧ Forall (reservable t) active ∧
         ∀ n, t' !! n = reserved now active t n) ∨
  (∃ e, reserve_tx now active t = inl e ∧ ¬ Forall (reservable t) active).
Proof.
  intros Hwf Hok. unfold reserve_tx.
  destruct (reserve_loop_spec t now active t) as [(t1 & -> & Hall & Hnew & Hold)|(e & -> & Hnot)]; try done.
  2:{ right. eauto. }
  left. eexists. split; [done|]. split; [done|]. intros n.
  destruct Hok as (Hf & Hnd & _).
  rewrite retire_loop_lookup; [|apply assignmentsFrom_NoDup|].
  2:{ intros a Ha%elem_of_assignmentsFrom Hr r Hr1. rewrite Hold, Ha in Hr1 by (right; congruence).
      by injection Hr1 as <-. }
  unfold reserved. pose proof (by_name_active active n Hnd) as Hby.
  pose proof (assignmentsFrom_names t n) as Hnames.
  destruct (t !! n) as [r|] eqn:Er.
  - rewrite Hold, Er by (right; congruence).
    destruct (decide (n ∈ names_of active)); [rewrite decide_False by tauto; done|].
    rewrite decide_True; [done|]. split; [apply Hnames; eauto|done].
  - rewrite decide_False by (intros [[??]%Hnames _]; done).
    destruct (by_name active !! n) as [a|].
    + destruct Hby as [Ha <-]. by rewrite Hnew.
    + rewrite Hold; [done|]. left. intros (a & -> & Ha)%list_elem_of_fmap. apply Hby.
      apply elem_of_names_of. eauto.
Qed.

(** ** Validation of a generation's manifest *)

Definition required_entry (t : Table) (a : Assignment) : Prop :=
  identityPattern (Name a) = true ∧ MinID ≤ ID a ≤ MaxID ∧
  provenance_id <$> t !! Name a = Some (ID a).

Lemma validate_required_loop_None t names ids l :
  validate_required_loop t names ids l = None ↔
  Forall (required_entry t) l ∧ NoDup (map Name l) ∧ NoDup (map ID l) ∧
  (∀ a, a ∈ l → Name a ∉ names ∧ ids !! ID a = None).
Proof.
  revert names ids. induction l as [|a l IH]; intros names ids; simpl.
  { split; [|done]. intros _. repeat split; try constructor; set_solver. }
  rewrite Forall_cons, !NoDup_cons. unfold required_entry at 1.
  destruct (identityPattern (Name a)) eqn:E1; simpl; [|naive_solver].
  destruct ((ID a <? MinID) || (MaxID <? ID a)) eqn:E2.
  { rewrite orb_true_iff, !N.ltb_lt in E2. split; [done|]. intros (((_ & ? & _) & _) & _). lia. }
  rewrite orb_false_iff, !N.ltb_ge in E2.
  destruct (decide (Name a ∈ names)) as [E3|E3]; [set_solver|].
  destruct (ids !! ID a) eqn:E4; [set_solver|].
  destruct (t !! Name a) as [r|] eqn:E5; simpl; [|naive_solver].
  destruct (provenance_id r =? ID a) eqn:E6; simpl; [apply N.eqb_eq in E6|apply N.eqb_neq in E6; naive_solver].
  rewrite IH, !list_elem_of_fmap. split.
  - intros (Hf & Hn & Hi & Hd). repeat split; auto; try lia; try congruence.
    + intros (b & Hb & Hin). destruct (Hd b Hin) as [H1 H2]. rewrite Hb in H1. set_solver.
    + intros (b & Hb & Hin). destruct (Hd b Hin) as [H1 H2]. rewrite <-Hb in H2.
      by rewrite lookup_insert_eq in H2.
    + apply elem_of_cons in H as [->|Hin]; [done|]. destruct (Hd _ Hin). set_solver.
    + apply elem_of_cons in H as [->|Hin]; [done|]. destruct (Hd _ Hin) as [_ H2].
      by apply lookup_insert_None in H2 as [? _].
  - intros ((_ & Hf) & (Hna & Hn) & (Hia & Hi) & Hd). split; [done|]. split; [done|]. split; [done|].
    intros b Hin. destruct (Hd b) as [H1 H2]; [set_solver|]. split.
    + apply not_elem_of_union. split; [|done]. rewrite elem_of_singleton. naive_solver.
    + apply lookup_insert_None. naive_solver.
Qed.

Lemma ValidateRequired_None t l :
  ValidateRequired t l = None ↔
  Forall (required_entry t) l ∧ NoDup (map Name l) ∧ NoDup (map ID l).
Proof.
  unfold ValidateRequired. rewrite validate_required_loop_None. set_solver.
Qed.

Lemma ValidateRequired_le t t' l :
  ledger_le t t' → ValidateRequired t l = None → ValidateRequired t' l = None.
Proof.
  intros Hle. rewrite !ValidateRequired_None. intros (Hf & ? & ?). split; [|done].
  eapply Forall_impl; [done|]. intros a (? & ? & (r & Hr & Hid)%fmap_Some).
  destruct (Hle _ _ Hr) as (r' & Hr' & Hid' & _). unfold required_entry. rewrite Hr'. simpl.
  split; [done|]. split; [done|]. congruence.
Qed.

(** ** The ledger over time *)

(** One mutating call on a writable ledger, under any fault schedule. *)
Inductive ledger_step (l : LedgerDB) : LedgerDB → Prop :=
  | step_reserve now active o : ledger_step l (final (Reserve now active o l))
  | step_merge now saved o : ledger_step l (final (MergeFrom now saved o l)).

(** A transaction leaves the ledger as it was or installs the body's result. *)
Definition commit_inv (body : Table → err + Table) (l l' : LedgerDB) : Prop :=
  l' = l ∨ ∃ t', body (allocations l) = inr t' ∧ l' = set_allocations t' l.

Lemma safe_commit_tx body l : safe (commit_inv body l) (commit_tx body) (λ _ _, True) l.
Proof.
  unfold commit_tx. safe_step; [by left| |done].
  destruct (body (allocations l)) eqn:E; [by left|right; eauto].
Qed.

Lemma safe_syncLedger I l : I l → safe I syncLedger (λ _ _, True) l.
Proof. intros. unfold syncLedger. by safe_step. Qed.

Lemma safe_commit_sync body l :
  safe (commit_inv body l) (commit_tx body ;; syncLedger) (λ _ _, True) l.
Proof.
  safe_step. eapply safe_mono; [apply safe_commit_tx|]. intros. by apply safe_syncLedger.
Qed.

Lemma Reserve_final now active o l :
  commit_inv (reserve_tx now active) l (final (Reserve now active o l)).
Proof.
  apply (safe_final _ _ (λ _ _, True)). unfold Reserve.
  do 2 (safe_step; safe_step; [by left|]). safe_step; [apply safe_throw; by left|apply safe_commit_sync].
Qed.

Lemma MergeFrom_final now saved o l :
  commit_inv (merge_tx now (assignmentsFrom saved)) l (final (MergeFrom now saved o l)).
Proof.
  apply (safe_final _ _ (λ _ _, True)). unfold MergeFrom.
  do 3 (safe_step; safe_step; [by left|]). simplify_eq/=. apply safe_commit_sync.
Qed.

Lemma ledger_step_le l l' : ledger_step l l' → ledger_le (allocations l) (allocations l').
Proof.
  intros [now active o|now saved o].
  - destruct (Reserve_final now active o l) as [->|(t' & Ht & ->)]; [reflexivity|].
    by eapply reserve_tx_le.
  - destruct (MergeFrom_final now saved o l) as [->|(t' & Ht & ->)]; [reflexivity|].
    apply merge_tx_inv in Ht as (_ & _ & Ht). by eapply merge_insert_le.
Qed.

Lemma ledger_step_wf l l' : ledger_step l l' → table_wf (allocations l) → table_wf (allocations l').
Proof.
  intros [now active o|now saved o] Hwf.
  - destruct (Reserve_final now active o l) as [->|(t' & Ht & ->)]; [done|].
    by eapply reserve_tx_wf.
  - destruct (MergeFrom_final now saved o l) as [->|(t' & Ht & ->)]; [done|].
    apply merge_tx_inv in Ht as (_ & _ & Ht). by eapply merge_insert_wf.
Qed.

Lemma ledger_steps_le l l' : rtc ledger_step l l' → ledger_le (allocations l) (allocations l').
Proof. induction 1; [reflexivity|]. etrans; [by eapply ledger_step_le|done]. Qed.

(** At most one name per identity in 1..254. *)
Lemma table_size t : table_wf t → (size t ≤ 254)%nat.
Proof.
  intros [Hr Hi].
  set (ids := provenance_id <$> (map_to_list t).*2).
  assert (NoDup ids) as Hnd.
  { unfold ids. rewrite <-list_fmap_compose. apply NoDup_fmap_2_strong; [|apply NoDup_map_to_list].
    intros [n r] [n' r'] H1%elem_of_map_to_list H2%elem_of_map_to_list Heq. simpl in Heq.
    pose proof (Hi _ _ _ _ H1 H2 Heq) as <-. congruence. }
  assert (ids ⊆ (N.of_nat <$> seq 1 254)) as Hsub.
  { intros i (r & -> & ([n r'] & -> & Hin%elem_of_map_to_list)%list_elem_of_fmap)%list_elem_of_fmap.
    apply Hr in Hin. unfold MinID, MaxID in Hin.
    apply list_elem_of_fmap. exists (N.to_nat (provenance_id r')). split; [symmetry; apply N2Nat.id|]. apply elem_of_seq. lia. }
  pose proof (submseteq_length _ _ (NoDup_submseteq _ _ Hnd (λ x, Hsub x))) as Hlen.
  rewrite length_fmap, length_seq in Hlen. unfold ids in Hlen.
  rewrite !length_fmap, length_map_to_list in Hlen. done.
Qed.

(** ** Merging back an older copy *)

Lemma merge_check_older t saved :
  (∀ a, a ∈ saved → ∃ r, t !! Name a = Some r ∧ provenance_id r = ID a ∧ (Retired a = true → retired r = true)) →
  merge_check (by_name (assignmentsFrom t)) (by_id (assignmentsFrom t)) saved = None.
Proof.
  induction saved as [|a l IH]; intros H; [done|]. simpl.
  destruct (H a) as (r & Hr & Hid & Hret); [by left|].
  rewrite by_name_lookup, Hr. simpl. rewrite Hid, N.eqb_refl. simpl.
  destruct (retired r) eqn:E; simpl.
  - apply IH. intros b Hb. apply H. by right.
  - destruct (Retired a); [by specialize (Hret eq_refl); congruence|]. apply IH. intros b Hb. apply H. by right.
Qed.

Lemma merge_insert_known byName now saved t :
  (∀ a, a ∈ saved → is_Some (byName !! Name a)) → merge_insert byName now saved t = inr t.
Proof.
  induction saved as [|a l IH]; intros H; [done|]. cbn [merge_insert].
  destruct (H a) as [b Hb]; [by left|]. rewrite Hb. apply IH. intros c Hc. apply H. by right.
Qed.

Lemma merge_regress_None names live :
  merge_regress names live = None ↔ ∀ a, a ∈ live → Retired a = false → Name a ∈ names.
Proof.
  induction live as [|a l IH]; simpl; [set_solver|].
  destruct (bool_decide_reflect (Name a ∈ names)) as [Hin|Hin], (Retired a) eqn:E; simpl.
  4: { split; [done|]. intros H. destruct Hin. by apply H; [left|]. }
  all: rewrite IH; split; intros H b;
    [ intros [->|Hb]%elem_of_cons Hr; [congruence || done|by apply H]
    | intros Hb; apply H; by right ].
Qed.

Lemma ledger_le_saved saved t a :
  ledger_le saved t → a ∈ assignmentsFrom saved →
  ∃ r, t !! Name a = Some r ∧ provenance_id r = ID a ∧ (Retired a = true → retired r = true).
Proof.
  intros Hle Ha%elem_of_assignmentsFrom. destruct (Hle _ _ Ha) as (r & Hr & Hid & _ & Hret).
  exists r. split; [done|]. split; [done|]. intros E. simpl in Hret. by rewrite (Hret E).
Qed.

Lemma merge_tx_older now saved t :
  ledger_le saved t →
  merge_tx now (assignmentsFrom saved) t = inr t ∨ ∃ e, merge_tx now (assignmentsFrom saved) t = inl e.
Proof.
  intros Hle. unfold merge_tx. rewrite merge_check_older by (intros; by eapply ledger_le_saved).
  destruct (merge_regress _ _); [by eauto|]. left. apply merge_insert_known.
  intros a Ha. destruct (ledger_le_saved _ _ _ Hle Ha) as (r & Hr & _).
  rewrite by_name_lookup, Hr. by eexists.
Qed.

(** ** Marks *)

Lemma Encoded_bits a : ID a < 256 → N.land (Encoded a) KeepMask = 0 ∧ N.land (Encoded a) Mask = Encoded a.
Proof.
  intros H. unfold Encoded, KeepMask, Mask. split; apply N.bits_inj; intros i;
    rewrite ?N.land_spec, ?N.bits_0;
    destruct (N.lt_ge_cases i 24) as [Hi|Hi].
  - by rewrite N.shiftl_spec_low.
  - change 0x00ffffff with (N.ones 24). rewrite N.ones_spec_high by done. apply andb_false_r.
  - by rewrite N.shiftl_spec_low.
  - change 0xff000000 with (N.shiftl (N.ones 8) 24). rewrite !N.shiftl_spec_high' by done.
    destruct (N.lt_ge_cases (i - 24) 8) as [Hj|Hj].
    + rewrite N.ones_spec_low by done. apply andb_true_r.
    + rewrite N.bits_above_log2; [done|]. destruct (ID a) as [|p] eqn:E; [simpl; lia|].
      apply N.log2_lt_pow2; [lia|]. eapply N.lt_le_trans; [exact H|].
      change 256 with (2 ^ 8). apply N.pow_le_mono_r; lia.
Qed.

(** ** Properties *)

(** C13: On a writable, well-formed ledger, [Reserve] of a valid active set either
    grants every request and installs exactly the described table (requests granted,
    absent identities tombstoned, everything else untouched), or refuses without any
    effect; it refuses exactly when some request conflicts with a permanent
    allocation or names a retired identity. *)
Theorem Reserve_outcome now active l :
  readOnly l = false → ValidateActive active = None → table_wf (allocations l) →
  (Forall (reservable (allocations l)) active ∧
   ∃ t', Reserve now active [] l = (Ret tt, [], set_allocations t' l) ∧
         ∀ n, t' !! n = reserved now active (allocations l) n) ∨
  (¬ Forall (reservable (allocations l)) active ∧
   ∃ e, Reserve now active [] l = (Error e, [], l)).
Proof.
  intros Hro Hva Hwf. pose proof (proj1 (ValidateActive_None active) Hva) as (_ & _ & Hok).
  assert (Reserve now active [] l =
          match reserve_tx now active (allocations l) with
          | inl e => (Error e, [], l)
          | inr t => (Ret tt, [], set_allocations t l)
          end) as ->.
  { unfold Reserve, bind, gets, require, ret. rewrite Hro, Hva. cbn.
    unfold commit_tx, io_write. simpl. by destruct (reserve_tx _ _ _). }
  destruct (reserve_tx_spec now active (allocations l)) as [(t' & -> & Hall & Ht)|(e & -> & Hnot)];
    [done..|left; eauto|right; eauto].
Qed.

(** After a successful [Reserve] the live identities of the ledger are exactly
    the requested ones, under the requested bytes. *)
Theorem Reserve_live_set now active l l' :
  table_wf (allocations l) → Reserve now active [] l = (Ret tt, [], l') →
  ∀ n i, (∃ r, allocations l' !! n = Some r ∧ retired r = false ∧ provenance_id r = i) ↔
         (∃ a, a ∈ active ∧ Name a = n ∧ ID a = i).
Proof.
  intros Hwf Hres n i. unfold Reserve, bind, gets, require, ret, throw in Hres.
  destruct (readOnly l); [done|]. cbn in Hres.
  destruct (ValidateActive active) eqn:Hva; [done|].
  apply ValidateActive_None in Hva as (_ & _ & Hok).
  unfold commit_tx, io_write in Hres. simpl in Hres.
  destruct (reserve_tx_spec now active (allocations l)) as [(t' & Heq & Hall & Ht)|(e & Heq & _)];
    [done..| |by rewrite Heq in Hres].
  rewrite Heq in Hres. simpl in Hres. injection Hres as <-. simpl. rewrite Ht. unfold reserved.
  destruct Hok as (Hf & Hnd & Hni). pose proof (by_name_active active n Hnd) as Hby.
  rewrite Forall_forall in Hall. destruct (allocations l !! n) as [r|] eqn:Er.
  - split.
    + intros (r' & [= <-] & Hret & Hid). case_decide as Hin.
      * apply elem_of_names_of in Hin as (a & Ha & <-). pose proof (Hall a Ha) as Hr.
        unfold reservable in Hr. rewrite Er in Hr. destruct Hr. exists a. split; [done|]. split; congruence.
      * unfold tombstone in Hret. by destruct (retired r) eqn:E; simpl in Hret; congruence.
    + intros (a & Ha & <- & <-). pose proof (Hall a Ha) as Hr. unfold reservable in Hr.
      rewrite Er in Hr. destruct Hr. rewrite decide_True by (apply elem_of_names_of; eauto). eauto.
  - destruct (by_name active !! n) as [a|]; simpl.
    + destruct Hby as [Ha <-]. split.
      * intros (r & [= <-] & _ & <-). eauto.
      * intros (b & Hb & Hn & <-). exists (fresh_row now a). split; [done|]. split; [done|].
        assert (a = b) as ->; [|done].
        apply list_elem_of_lookup in Ha as [x Hx], Hb as [y Hy].
        assert (x = y) as ->; [|congruence].
        eapply (NoDup_lookup _ x y (Name a) Hnd);
          [by rewrite list_lookup_fmap, Hx | by rewrite list_lookup_fmap, Hy; simpl; rewrite Hn].
    + split; [by intros (? & ? & _)|]. intros (a & Ha & <- & _). destruct Hby. apply elem_of_names_of. eauto.
Qed.

(** C14: Through any sequence of [Reserve] and [MergeFrom] calls, each under any
    schedule of failures and crashes, the ledger stays well formed, no allocation is
    ever lost or given another byte, and a tombstone is never changed. *)
Theorem ledger_history_monotone l l' :
  table_wf (allocations l) → rtc ledger_step l l' →
  table_wf (allocations l') ∧ ledger_le (allocations l) (allocations l').
Proof.
  intros Hwf H. split; [|by apply ledger_steps_le].
  induction H as [|l1 l2 l3 H12 _ IH]; [done|]. apply IH. by eapply ledger_step_wf.
Qed.

(** A generation manifest the ledger validated once is validated for ever:
    no later reservation, retirement or merge can make an old generation's
    provenance invalid, so rolling back to it never fails on provenance. *)
Theorem validated_manifest_stays_valid l l' required :
  rtc ledger_step l l' → ValidateRequired (allocations l) required = None →
  ValidateRequired (allocations l') required = None.
Proof. intros H. by apply ValidateRequired_le, ledger_steps_le. Qed.

(** Merging back an older copy of the ledger (one the live ledger has grown
    from) never changes the live ledger, whatever fails on the way: nothing is
    resurrected, and a copy that misses a live identity is refused. *)
Theorem MergeFrom_older_copy now saved o l :
  ledger_le saved (allocations l) → final (MergeFrom now saved o l) = l.
Proof.
  intros Hle. destruct (MergeFrom_final now saved o l) as [->|(t' & Ht & ->)]; [done|].
  destruct (merge_tx_older now saved (allocations l) Hle) as [Heq|[e Heq]]; rewrite Heq in Ht; [|done].
  injection Ht as <-. by destruct l.
Qed.

(** The one-byte namespace is never over-committed: a ledger that any history
    of calls can produce holds at most 254 names, and two names never share the
    conntrack-mark byte, whose encoding keeps to the reserved bits. *)
Theorem ledger_capacity l l' :
  table_wf (allocations l) → rtc ledger_step l l' →
  (size (allocations l') ≤ 254)%nat ∧
  ∀ a b, a ∈ assignmentsFrom (allocations l') → b ∈ assignmentsFrom (allocations l') →
    N.land (Encoded a) KeepMask = 0 ∧ N.land (Encoded a) Mask = Encoded a ∧
    (Encoded a = Encoded b → Name a = Name b).
Proof.
  intros Hwf Hsteps.
  assert (table_wf (allocations l')) as Hwf'.
  { clear -Hwf Hsteps. induction Hsteps; [done|]. eauto using ledger_step_wf. }
  split; [by apply table_size|]. intros a b Ha%elem_of_assignmentsFrom Hb%elem_of_assignmentsFrom.
  destruct Hwf' as [Hr Hi]. pose proof (Hr _ _ Ha) as Hra. unfold MinID, MaxID in Hra. simpl in Hra.
  destruct (Encoded_bits a) as [? ?]; [lia|]. split; [done|]. split; [done|].
  intros Heq. apply (Hi _ _ _ _ Ha Hb). simpl. unfold Encoded in Heq.
  apply (f_equal (λ x, N.shiftr x 24)) in Heq. by rewrite !N.shiftr_shiftl_l, !N.sub_diag, !N.shiftl_0_r in Heq by lia.
Qed.

(** ** Witnesses *)

Definition wan : Assignment := mkAssignment "wan0" 1 false 0%Z None.
Definition lan : Assignment := mkAssignment "lan0" 2 false 0%Z None.
Definition dmz : Assignment := mkAssignment "dmz0" 2 false 0%Z None.
Definition empty_ledger : LedgerDB := mkLedgerDB ∅ false.
Definition ledger_wan_lan : LedgerDB := final (Reserve 5%Z [wan; lan] [] empty_ledger).
Definition ledger_wan : LedgerDB := final (Reserve 9%Z [wan] [] ledger_wan_lan).

Lemma table_wf_empty : table_wf ∅.
Proof. split; intros *; by rewrite lookup_empty. Qed.

Lemma ledger_wan_lan_step : rtc ledger_step empty_ledger ledger_wan_lan.
Proof. apply rtc_once, step_reserve. Qed.
Lemma ledger_wan_step : rtc ledger_step empty_ledger ledger_wan.
Proof. eapply rtc_r; [apply ledger_wan_lan_step|apply step_reserve]. Qed.
Lemma ledger_wan_lan_wf : table_wf (allocations ledger_wan_lan).
Proof. eapply ledger_step_wf; [apply step_reserve|apply table_wf_empty]. Qed.

(** Retirement is permanent: the freed byte 2 is refused to another name. *)
Lemma Reserve_outcome_witness :
  (∃ e, Reserve 12%Z [wan; dmz] [] ledger_wan = (Error e, [], ledger_wan)) ∧
  (∃ e, Reserve 12%Z [wan; lan] [] ledger_wan = (Error e, [], ledger_wan)) ∧
  ((Forall (reservable (allocations ledger_wan_lan)) [wan] ∧
    ∃ t', Reserve 9%Z [wan] [] ledger_wan_lan = (Ret tt, [], set_allocations t' ledger_wan_lan) ∧
          ∀ n, t' !! n = reserved 9%Z [wan] (allocations ledger_wan_lan) n) ∨
   (¬ Forall (reservable (allocations ledger_wan_lan)) [wan] ∧
    ∃ e, Reserve 9%Z [wan] [] ledger_wan_lan = (Error e, [], ledger_wan_lan))).
Proof.
  split; [eexists; vm_compute; reflexivity|]. split; [eexists; vm_compute; reflexivity|].
  apply Reserve_outcome; [reflexivity|vm_compute; reflexivity|apply ledger_wan_lan_wf].
Defined.

Lemma Reserve_live_set_witness :
  Reserve 9%Z [wan] [] ledger_wan_lan = (Ret tt, [], ledger_wan) ∧
  ∀ n i, (∃ r, allocations ledger_wan !! n = Some r ∧ retired r = false ∧ provenance_id r = i) ↔
         (∃ a, a ∈ [wan] ∧ Name a = n ∧ ID a = i).
Proof.
  assert (Reserve 9%Z [wan] [] ledger_wan_lan = (Ret tt, [], ledger_wan)) as H by (vm_compute; reflexivity).
  split; [exact H|]. apply (Reserve_live_set 9%Z [wan] ledger_wan_lan); [apply ledger_wan_lan_wf|exact H].
Defined.

Lemma ledger_history_monotone_witness :
  table_wf (allocations ledger_wan) ∧ ledger_le (allocations empty_ledger) (allocations ledger_wan).
Proof. apply ledger_history_monotone; [apply table_wf_empty|apply ledger_wan_step]. Defined.

Lemma validated_manifest_stays_valid_witness :
  ValidateRequired (allocations ledger_wan) [lan; wan] = None.
Proof.
  apply (validated_manifest_stays_valid ledger_wan_lan);
    [apply rtc_once, step_reserve|vm_compute; reflexivity].
Defined.

Lemma MergeFrom_older_copy_witness :
  final (MergeFrom 20%Z (allocations ledger_wan_lan) [FOk; FLost] ledger_wan) = ledger_wan.
Proof.
  apply MergeFrom_older_copy, ledger_steps_le, rtc_once, step_reserve.
Defined.

Lemma ledger_capacity_witness :
  (size (allocations ledger_wan) ≤ 254)%nat ∧
  ∀ a b, a ∈ assignmentsFrom (allocations ledger_wan) → b ∈ assignmentsFrom (allocations ledger_wan) →
    N.land (Encoded a) KeepMask = 0 ∧ N.land (Encoded a) Mask = Encoded a ∧
    (Encoded a = Encoded b → Name a = Name b).
Proof. apply (ledger_capacity empty_ledger); [apply table_wf_empty|apply ledger_wan_step]. Defined.
