(* ===== verification/Config.v ===== *)
(** The configuration contract (internal/config/config.go): the records of the TOML
    document, the defaults, and every rule of Validate in the order the code checks
    them.  The TOML decoder is a parameter; the ownership checks of Load are file I/O. *)

From S2P Require Import Prelude GoStrings Netip GoPath Ledger.
From Stdlib Require Import Ascii String.
Local Open Scope string_scope.
Local Open Scope Z_scope.
Local Open Scope check_scope.
Abbreviation length := List.length.
Abbreviation Assignment := Ledger.Assignment.

(** ** Records

    Go's [int] fields are read from 64-bit TOML integers and only compared. *)

Record SystemConfig := mkSystem { IPv6Mode : string; StrictVPN : bool }.
Record Interface := mkInterface {
  in_Name : string; in_Role : string; in_Zone : string; in_CIDRs : list string;
  in_ProvenanceName : string; in_ProvenanceID : N (* uint8 *)
}.
Record Zone := mkZone { zone_Name : string; zone_Networks : list string; zone_Interfaces : list string }.
Record Service := mkService { svc_Name : string; svc_Protocol : string; svc_Ports : list Z }.
Record Policy := mkPolicy {
  pol_Name : string; pol_From : string; pol_To : string; pol_Service : string; pol_Action : string
}.
Record NATRule := mkNAT {
  nat_Name : string; nat_Source : string; nat_ExternalInterface : string; nat_Protocol : string;
  nat_ExternalPort : Z; nat_Destination : string; nat_DestinationPort : Z
}.
Record WireGuardConfig := mkWireGuard {
  wg_Interface : string; EndpointHost : string; EndpointPort : Z; Fwmark : string;
  BootstrapIPs : list string; BootstrapIPsV6 : list string; BootstrapHosts : list string;
  KeepRecent : Z; TCPMSS : Z; ConfigPath : string; HandshakeSecond : Z
}.
Record RuntimeConfig := mkRuntime {
  MaxBlockClaims : Z; MaxSetMembers : Z; SafeApplySeconds : Z; TrustedServices : list string
}.
Record StateConfig := mkState { Directory : string; Database : string; ProvenanceLedger : string }.
Record IntegrationsConfig := mkIntegrations {
  DockerEnabled : bool; ThreatFeed : bool; GeoIP : bool; Notifications : bool
}.
Record DockerNetwork := mkDocker {
  dn_Name : string; dn_Driver : string; dn_BridgeInterface : string; dn_DynamicBridge : bool;
  dn_Subnets : list string; dn_Gateways : list string
}.
Record ThreatFeedConfig := mkFeed {
  tf_Name : string; tf_URL : string; tf_MaxEntries : Z; tf_MaxBytes : Z; tf_MinEntries : Z; tf_RefreshSeconds : Z
}.
Record GeoSetConfig := mkGeo {
  geo_Name : string; geo_Country : string; geo_CIDRFile : string; geo_MaxEntries : Z; geo_MinEntries : Z;
  geo_RefreshSeconds : Z
}.
Record Config := mkConfig {
  System : SystemConfig; Interfaces : list Interface; Zones : list Zone; Services : list Service;
  Policies : list Policy; NAT : list NATRule; WireGuard : WireGuardConfig; Runtime : RuntimeConfig;
  State : StateConfig; Integrations : IntegrationsConfig; DockerNetworks : list DockerNetwork;
  ThreatFeeds : list ThreatFeedConfig; GeoSets : list GeoSetConfig
}.

Definition Defaults : Config :=
  mkConfig (mkSystem "disabled" true) [] [] [] [] []
    (mkWireGuard "wg0" "" 51820 "0xca6c" [] [] [] 2 1360 "" 180)
    (mkRuntime 100000 65536 90 [])
    (mkState "/var/lib/nftfw" "/var/lib/nftfw/generation-state/state.db" "/var/lib/nftfw/provenance-ledger.db")
    (mkIntegrations false false false false) [] [] [].

(** ** Patterns *)

Definition plain_char (c : ascii) : bool := is_alnum c || one_of "_.-" c.
(** [^[a-zA-Z][a-zA-Z0-9_.-]{0,62}$] *)
Definition namePattern : string → bool := matches_head_tail is_alpha plain_char 0 62.
(** [^[a-zA-Z0-9_.-]{1,15}$] *)
Definition ifacePattern : string → bool := matches_head_tail plain_char plain_char 0 14.
(** [^[A-Za-z0-9][A-Za-z0-9_.-]{0,127}$] *)
Definition dockerNetworkPattern : string → bool := matches_head_tail is_alnum plain_char 0 127.
(** [^[A-Za-z0-9][A-Za-z0-9_.:-]{0,127}$] *)
Definition provenanceIdentityPattern : string → bool := matches_head_tail is_alnum identity_char 0 127.
(** [^(0x[0-9a-fA-F]{1,8}|[0-9]{1,10})$] *)
Definition hex_digits (s : string) : bool := all_chars is_hex s && (1 <=? slen s)%nat && (slen s <=? 8)%nat.
Definition fwmarkPattern (s : string) : bool :=
  has_prefix s "0x" && hex_digits (trim_prefix s "0x") ||
  all_chars is_digit s && (1 <=? slen s)%nat && (slen s <=? 10)%nat.
(** [^[A-Za-z]{2}$] *)
Definition countryPattern : string → bool := matches_head_tail is_alpha is_alpha 1 1.

(** [strconv.ParseUint(mark, base, 32)] of a text that matches the pattern. *)
Definition mark_value (s : string) : N :=
  if has_prefix s "0x"
  then foldl (λ acc c, acc * 16 + unhex c)%N 0%N (chars (trim_prefix s "0x"))
  else digits_value (chars s).

(** ** Addresses and names *)

(** [dtoi]: decimal digits below 0xffffff. *)
Definition dtoi (l : list ascii) : option N :=
  match l with
  | [] => None
  | _ => if forallb is_digit l && (digits_value l <? 0xffffff)%N then Some (digits_value l) else None
  end.
(** [net.ParseCIDR]: the number of mask bits. *)
Definition ParseCIDR (s : string) : option N :=
  match split_at "/"%char (chars s) with
  | None => None
  | Some (text, mask) =>
      match ParseAddr (of_chars text), dtoi mask with
      | Some a, Some n => if negb (has_zone a) && (n <=? BitLen a)%N then Some n else None
      | _, _ => None
      end
  end.

(** [validateCIDR]; every call of the program allows hosts. *)
Definition validateCIDR (raw : string) : err + unit :=
  match ParseCIDR (trim_space raw) with
  | None => inl (Errorf "invalid CIDR %q" [ArgS raw])
  | Some ones => fails (ones =? 0)%N (Errorf "/0 is not permitted" [])
  end.

Definition validEndpointAddress (a : Addr) : bool :=
  negb (IsUnspecified a) && negb (IsMulticast a) && negb (IsLoopback a) && negb (IsLinkLocalUnicast a).

Definition label_char (c : ascii) : bool := is_alnum c || one_of "-_" c.
Definition valid_label (l : string) : bool :=
  negb (String.eqb l "" || (63 <? slen l)%nat || has_prefix l "-" || has_suffix l "-") && all_chars label_char l.
Definition host_break (c : ascii) : bool := bool_decide (code c ∈ [32; 47; 92; 9; 13; 10]%N).
Definition validHostname (s : string) : bool :=
  negb ((slen s =? 0)%nat || (253 <? slen s)%nat || existsb host_break (chars s)) &&
  forallb valid_label (split_string "."%char (trim_suffix s ".")).

Definition InterfaceProvenanceName (i : Interface) : string :=
  if String.eqb (in_ProvenanceName i) "" then in_Name i else in_ProvenanceName i.

Definition canonicalPrefixes (values : list string) : list string :=
  sort_strings (omap (λ raw, prefix_String ∘ Masked <$> ParsePrefix (trim_space raw)) values).

(** ** Validate, section by section *)

Definition is_one_of (s : string) (l : list string) : bool := existsb (String.eqb s) l.
Definition too_many {A} (l : list A) (n : nat) : bool := (n <? length l)%nat.
Definition nonempty {A} (l : list A) : bool := negb (length l =? 0)%nat.

Definition check_limits (c : Config) : err + unit :=
  fails (too_many (Interfaces c) MaxActive || too_many (DockerNetworks c) MaxActive || too_many (Zones c) 256 ||
         too_many (Services c) 1024 || too_many (Policies c) 10000 || too_many (NAT c) 10000 ||
         too_many (ThreatFeeds c) 64 || too_many (GeoSets c) 64)
    (Errorf "configuration collection limit exceeded" []) then?
  fails (negb (is_one_of (IPv6Mode (System c)) ["disabled"; "vpn"; "native"]))
    (Errorf "system.ipv6_mode must be disabled, vpn, or native" []) then?
  fails (negb (StrictVPN (System c)))
    (Errorf "system.strict_vpn=false is not implemented; V2 requires explicit strict VPN egress" []) then?
  fails ((MaxBlockClaims (Runtime c) <=? 0) || (1000000 <? MaxBlockClaims (Runtime c)))
    (Errorf "runtime.max_block_claims must be 1..1000000" []) then?
  fails ((MaxSetMembers (Runtime c) <=? 0) || (1000000 <? MaxSetMembers (Runtime c)))
    (Errorf "runtime.max_set_members must be 1..1000000" []) then?
  fails ((SafeApplySeconds (Runtime c) <? 30) || (600 <? SafeApplySeconds (Runtime c)))
    (Errorf "runtime.safe_apply_timeout_seconds must be 30..600" []) then?
  fails (too_many (TrustedServices (Runtime c)) 32)
    (Errorf "runtime.trusted_services exceeds 32 entries" []).

Definition check_state (s : StateConfig) : err + unit :=
  let root := Clean (Directory s) in
  fails (negb (IsAbs (Directory s)) || negb (String.eqb root (Directory s)) || String.eqb root "/" ||
         contains_any (Directory s) "?#%")
    (Errorf "state.directory must be an absolute canonical non-root directory" []) then?
  fails (negb (String.eqb (Database s) (Join [root; "generation-state"; "state.db"])))
    (Errorf "state.database must be the canonical state.directory/generation-state/state.db" []) then?
  fails (negb (String.eqb (ProvenanceLedger s) (Join [root; "provenance-ledger.db"])))
    (Errorf "state.provenance_ledger must be the separate state.directory/provenance-ledger.db" []).

Definition check_integrations (c : Config) : err + unit :=
  let i := Integrations c in
  fails (Notifications i)
    (Errorf "integrations.notifications is not implemented in the core; use a separate audit adapter" []) then?
  fails (negb (Bool.eqb (DockerEnabled i) (nonempty (DockerNetworks c))))
    (Errorf "integrations.docker_enabled must be true exactly when [[docker_networks]] entries are configured" []) then?
  fails (negb (Bool.eqb (ThreatFeed i) (nonempty (ThreatFeeds c))))
    (Errorf "integrations.threat_feed must be true exactly when [[threat_feeds]] entries are configured" []) then?
  fails (negb (Bool.eqb (GeoIP i) (nonempty (GeoSets c))))
    (Errorf "integrations.geoip must be true exactly when [[geo_sets]] entries are configured" []).

Definition bad_entry_bounds (max min claims : Z) : bool :=
  (max <? 0) || (claims <? max) || (min <? 0) || (0 <? max) && (max <? min).
Definition bad_refresh (seconds : Z) : bool := (seconds <? 0) || (0 <? seconds) && (seconds <? 60).

Definition check_feed (claims : Z) (seen : gset string) (f : ThreatFeedConfig) : err + gset string :=
  fails (negb (namePattern (tf_Name f)) || bool_decide (tf_Name f ∈ seen))
    (Errorf "invalid or duplicate threat feed name %q" [ArgS (tf_Name f)]) then?
  fails (match parse_url (tf_URL f) with
         | None => true
         | Some u => negb (String.eqb (Scheme u) "https") || String.eqb (HostPart u) "" || HasUser u ||
                     negb (String.eqb (RawQuery u) "") || ForceQuery u || contains_any (tf_URL f) "#"
         end)
    (Errorf "threat feed %s must use an HTTPS URL without userinfo, query, or fragment" [ArgS (tf_Name f)]) then?
  fails (bad_entry_bounds (tf_MaxEntries f) (tf_MinEntries f) claims)
    (Errorf "threat feed %s has invalid entry bounds" [ArgS (tf_Name f)]) then?
  fails ((tf_MaxBytes f <? 0) || (Z.shiftl 64 20 <? tf_MaxBytes f) || bad_refresh (tf_RefreshSeconds f))
    (Errorf "threat feed %s has invalid byte/refresh bounds" [ArgS (tf_Name f)]) then?
  inr ({[tf_Name f]} ∪ seen).

Definition check_geo (claims : Z) (seen : gset string) (g : GeoSetConfig) : err + gset string :=
  fails (negb (namePattern (geo_Name g)) || bool_decide (geo_Name g ∈ seen))
    (Errorf "invalid or duplicate GeoIP set name %q" [ArgS (geo_Name g)]) then?
  fails (negb (countryPattern (geo_Country g)))
    (Errorf "GeoIP set %s has invalid country identifier %q" [ArgS (geo_Name g); ArgS (geo_Country g)]) then?
  fails (negb (IsAbs (geo_CIDRFile g)))
    (Errorf "GeoIP set %s cidr_file must be absolute" [ArgS (geo_Name g)]) then?
  fails (bad_entry_bounds (geo_MaxEntries g) (geo_MinEntries g) claims)
    (Errorf "GeoIP set %s has invalid entry bounds" [ArgS (geo_Name g)]) then?
  fails (bad_refresh (geo_RefreshSeconds g))
    (Errorf "GeoIP set %s has invalid refresh interval" [ArgS (geo_Name g)]) then?
  inr ({[geo_Name g]} ∪ seen).

(** *** Interfaces *)

Definition roles : list string := ["uplink"; "vpn"; "lan"; "container"].
Definition check_interface (seen : gmap string Interface) (i : Interface) : err + gmap string Interface :=
  fails (negb (ifacePattern (in_Name i))) (Errorf "interface %q has invalid name" [ArgS (in_Name i)]) then?
  fails (negb (is_one_of (in_Role i) roles))
    (Errorf "interface %q has invalid role %q" [ArgS (in_Name i); ArgS (in_Role i)]) then?
  fails (bool_decide (is_Some (seen !! in_Name i))) (Errorf "duplicate interface %q" [ArgS (in_Name i)]) then?
  fails ((in_ProvenanceID i <? MinID) || (MaxID <? in_ProvenanceID i))%N
    (Errorf "interface %q provenance_id must be %d..%d" [ArgS (in_Name i); ArgN MinID; ArgN MaxID]) then?
  fails (negb (provenanceIdentityPattern (InterfaceProvenanceName i)))
    (Errorf "interface %q has invalid provenance_name %q" [ArgS (in_Name i); ArgS (InterfaceProvenanceName i)]) then?
  each (λ cidr, wrap_err "interface %s cidr: %w" [ArgS (in_Name i)] (validateCIDR cidr)) (in_CIDRs i) then?
  inr (<[in_Name i := i]> seen).

(** [provenance.Assignment{Name, ID}]; the times are zero values. *)
Definition assignment_of (i : Interface) : Assignment :=
  mkAssignment (InterfaceProvenanceName i) (in_ProvenanceID i) false 0 None.

Definition role_is (role : string) (i : Interface) : bool := String.eqb (in_Role i) role.
Definition check_uplinks (l : list Interface) : err + unit :=
  let n := length (List.filter (role_is "uplink") l) in
  fails (negb (n =? 1)%nat) (Errorf "exactly one uplink interface is required, got %d" [ArgZ (Z.of_nat n)]).

(** *** Docker networks *)

Record docker_seen := mkDockerSeen {
  ds_names : gset string; ds_bridges : gmap string string; ds_prefixes : list (string * Prefix)
}.
(** The state of the inner loop: the prefixes of all networks so far, the canonical
    subnets of this one in order, and its gateways. *)
Record pair_seen := mkPairSeen {
  ps_prefixes : list (string * Prefix); ps_subnets : list string; ps_gateways : gset string
}.

Definition check_subnet (network : string) (s : pair_seen) (pair : string * string) : err + pair_seen :=
  let '(rawSubnet, gatewayText) := pair in
  let text := trim_space rawSubnet in
  match ParsePrefix text with
  | None => inl (Errorf "docker network %s has invalid subnet %q" [ArgS network; ArgS rawSubnet])
  | Some p =>
      fails (pfx_bits p =? 0)%N (Errorf "docker network %s has invalid subnet %q" [ArgS network; ArgS rawSubnet]) then?
      let prefix := Masked p in
      let canonical := prefix_String prefix in
      fails (negb (String.eqb text canonical) || bool_decide (canonical ∈ ps_subnets s))
        (Errorf "docker network %s has non-canonical or duplicate subnet %q" [ArgS network; ArgS rawSubnet]) then?
      match List.find (λ prior, Overlaps prefix prior.2) (ps_prefixes s) with
      | Some prior =>
          inl (Errorf "docker network %s subnet %s overlaps docker network %s subnet %s"
                 [ArgS network; ArgS canonical; ArgS prior.1; ArgS (prefix_String prior.2)])
      | None =>
          let rawGateway := trim_space gatewayText in
          match ParseAddr rawGateway with
          | None => inl (Errorf "docker network %s gateway %q is not usable within subnet %s" [ArgS network; ArgS gatewayText; ArgS canonical])
          | Some gateway =>
              fails (IsUnspecified gateway || IsMulticast gateway || negb (Contains prefix gateway) ||
                     negb (Bool.eqb (Is4 gateway) (Is4 (pfx_addr prefix))))
                (Errorf "docker network %s gateway %q is not usable within subnet %s" [ArgS network; ArgS gatewayText; ArgS canonical]) then?
              fails (bool_decide (gateway = pfx_addr prefix) || bool_decide (addr_String gateway ∈ ps_gateways s) ||
                     negb (String.eqb rawGateway (addr_String gateway)))
                (Errorf "docker network %s has non-canonical, duplicate, or network-address gateway %q" [ArgS network; ArgS gatewayText]) then?
              inr (mkPairSeen (ps_prefixes s ++ [(network, prefix)])%list (ps_subnets s ++ [canonical])%list
                     ({[addr_String gateway]} ∪ ps_gateways s))
          end
      end
  end.

Definition canonical_text (raw : string) : string :=
  match ParsePrefix (trim_space raw) with Some p => prefix_String (Masked p) | None => "invalid Prefix" end.

Definition check_docker (interfaces : gmap string Interface) (s : docker_seen) (n : DockerNetwork) : err + docker_seen :=
  let name := dn_Name n in let bridge := dn_BridgeInterface n in
  fails (negb (dockerNetworkPattern name) || bool_decide (name ∈ ds_names s))
    (Errorf "invalid or duplicate Docker network name %q" [ArgS name]) then?
  fails (negb (String.eqb (dn_Driver n) "bridge")) (Errorf "docker network %s driver must be bridge" [ArgS name]) then?
  fails (negb (ifacePattern bridge))
    (Errorf "docker network %s has invalid bridge_interface %q" [ArgS name; ArgS bridge]) then?
  match ds_bridges s !! bridge with
  | Some prior =>
      inl (Errorf "docker bridge interface %q is shared by networks %s and %s" [ArgS bridge; ArgS prior; ArgS name])
  | None =>
      let no_interface := Errorf "docker network %s bridge_interface %q must be a declared container interface" [ArgS name; ArgS bridge] in
      i <-? of_option (interfaces !! bridge) no_interface ;;
      fails (negb (role_is "container" i)) no_interface then?
      let provenanceName := InterfaceProvenanceName i in
      let managed := "docker:" +:+ name in
      fails (dn_DynamicBridge n && negb (String.eqb provenanceName managed))
        (Errorf "docker network %s dynamic bridge requires provenance_name %q" [ArgS name; ArgS managed]) then?
      fails (negb (dn_DynamicBridge n) && negb (String.eqb provenanceName bridge) && negb (String.eqb provenanceName managed))
        (Errorf "docker network %s static bridge has incompatible provenance_name %q" [ArgS name; ArgS provenanceName]) then?
      fails ((length (dn_Subnets n) =? 0)%nat || negb (length (dn_Subnets n) =? length (dn_Gateways n))%nat)
        (Errorf "docker network %s requires one explicit gateway for every subnet" [ArgS name]) then?
      fails (too_many (dn_Subnets n) 16)
        (Errorf "docker network %s exceeds 16 subnet/gateway pairs" [ArgS name]) then?
      pairs <-? fold_err (check_subnet name) (mkPairSeen (ds_prefixes s) [] ∅) (zip (dn_Subnets n) (dn_Gateways n)) ;;
      each (λ raw, fails (negb (String.eqb (trim_space raw) (canonical_text raw)))
              (Errorf "docker bridge interface %s CIDR %q must be a canonical subnet" [ArgS bridge; ArgS raw])) (in_CIDRs i) then?
      fails (negb (bool_decide (canonicalPrefixes (in_CIDRs i) = sort_strings (ps_subnets pairs))))
        (Errorf "docker network %s subnets do not match declared interface %s CIDRs" [ArgS name; ArgS bridge]) then?
      inr (mkDockerSeen ({[name]} ∪ ds_names s) (<[bridge := name]> (ds_bridges s)) (ps_prefixes pairs))
  end.
Definition validateDockerNetworks (networks : list DockerNetwork) (interfaces : gmap string Interface) : err + docker_seen :=
  fold_err (check_docker interfaces) (mkDockerSeen ∅ ∅ []) networks.

(** *** Zones *)

(** [assignInterfaceZone] *)
Definition assignInterfaceZone (m : gmap string string) (interface zone : string) : err + gmap string string :=
  match m !! interface with
  | Some existing =>
      if String.eqb existing zone then inr (<[interface := zone]> m)
      else inl (Errorf "interface %q is assigned to multiple zones %q and %q" [ArgS interface; ArgS existing; ArgS zone])
  | None => inr (<[interface := zone]> m)
  end.

Record zone_seen := mkZoneSeen {
  zs_zones : gmap string Zone; zs_interfaces : gmap string string;
  zs_prefixes : list (string * Prefix) (* of the networks ParsePrefix accepts *)
}.

(** The error of [ParsePrefix] is dropped: the zero prefix overlaps nothing. *)
Definition check_network (zone : string) (seen : list (string * Prefix)) (n : string) : err + list (string * Prefix) :=
  wrap_err "zone %s network: %w" [ArgS zone] (validateCIDR n) then?
  match ParsePrefix n with
  | None => inr seen
  | Some p =>
      let prefix := Masked p in
      match List.find (λ existing, Overlaps prefix existing.2) seen with
      | Some existing =>
          inl (Errorf "zone %s network %s overlaps zone %s network %s"
                 [ArgS zone; ArgS (prefix_String prefix); ArgS existing.1; ArgS (prefix_String existing.2)])
      | None => inr (seen ++ [(zone, prefix)])%list
      end
  end.
Definition check_zone_interface (interfaces : gmap string Interface) (zone : string) (m : gmap string string) (name : string)
    : err + gmap string string :=
  fails (bool_decide (interfaces !! name = None))
    (Errorf "zone %s references unknown interface %q" [ArgS zone; ArgS name]) then?
  assignInterfaceZone m name zone.
Definition check_zone (interfaces : gmap string Interface) (s : zone_seen) (z : Zone) : err + zone_seen :=
  fails (negb (namePattern (zone_Name z))) (Errorf "zone %q has invalid name" [ArgS (zone_Name z)]) then?
  fails (bool_decide (is_Some (zs_zones s !! zone_Name z))) (Errorf "duplicate zone %q" [ArgS (zone_Name z)]) then?
  prefixes <-? fold_err (check_network (zone_Name z)) (zs_prefixes s) (zone_Networks z) ;;
  assigned <-? fold_err (check_zone_interface interfaces (zone_Name z)) (zs_interfaces s) (zone_Interfaces z) ;;
  inr (mkZoneSeen (<[zone_Name z := z]> (zs_zones s)) assigned prefixes).

Definition check_interface_zone (zones : gmap string Zone) (m : gmap string string) (i : Interface) : err + gmap string string :=
  if String.eqb (in_Zone i) "" then inr m
  else
    fails (bool_decide (zones !! in_Zone i = None))
      (Errorf "interface %s references unknown zone %q" [ArgS (in_Name i); ArgS (in_Zone i)]) then?
    assignInterfaceZone m (in_Name i) (in_Zone i).

(** The code ranges over the map of zones; which empty zone it names depends on the
    order of the map, here the declared order. *)
Definition check_zone_used (interfaces : list Interface) (z : Zone) : err + unit :=
  let hasInterface := nonempty (zone_Interfaces z) || existsb (λ i, String.eqb (in_Zone i) (zone_Name z)) interfaces in
  fails ((length (zone_Networks z) =? 0)%nat && negb hasInterface)
    (Errorf "zone %s has no networks or interfaces" [ArgS (zone_Name z)]).

(** *** Services *)

Definition portless (protocol : string) : bool := is_one_of protocol ["icmp"; "any"].
Definition check_port (service : string) (seen : gset Z) (p : Z) : err + gset Z :=
  fails ((p <? 1) || (65535 <? p) || bool_decide (p ∈ seen))
    (Errorf "service %s has invalid or duplicate port %d" [ArgS service; ArgZ p]) then?
  inr ({[p]} ∪ seen).
Definition check_service (services : gmap string Service) (s : Service) : err + gmap string Service :=
  let name := svc_Name s in let protocol := svc_Protocol s in
  fails (negb (namePattern name)) (Errorf "service %q has invalid name" [ArgS name]) then?
  fails (bool_decide (is_Some (services !! name))) (Errorf "duplicate service %q" [ArgS name]) then?
  fails (negb (is_one_of protocol ["tcp"; "udp"; "icmp"; "any"]))
    (Errorf "service %s has invalid protocol %q" [ArgS name; ArgS protocol]) then?
  fails (portless protocol && nonempty (svc_Ports s))
    (Errorf "service %s: %s cannot have ports" [ArgS name; ArgS protocol]) then?
  fold_err (check_port name) ∅ (svc_Ports s) then?
  fails (negb (portless protocol) && negb (nonempty (svc_Ports s)))
    (Errorf "service %s must define at least one port" [ArgS name]) then?
  inr (<[name := s]> services).

Definition check_trusted (services : gmap string Service) (seen : gset string) (name : string) : err + gset string :=
  s <-? of_option (services !! name) (Errorf "runtime.trusted_services references unknown service %q" [ArgS name]) ;;
  fails (bool_decide (name ∈ seen)) (Errorf "runtime.trusted_services contains duplicate service %q" [ArgS name]) then?
  fails (negb (is_one_of (svc_Protocol s) ["tcp"; "udp"]))
    (Errorf "runtime.trusted_services service %q must use tcp or udp" [ArgS name]) then?
  inr ({[name]} ∪ seen).

(** *** Policies *)

Record policy_seen := mkPolicySeen { pys_names : gset string; pys_flows : gmap string string }.
Definition nul : string := String (ascii_of_N 0) EmptyString.
Definition flow (p : Policy) : string := pol_From p +:+ nul +:+ pol_To p +:+ nul +:+ pol_Service p.

Definition uplink_member (interfaces : gmap string Interface) (name : string) : bool :=
  match interfaces !! name with Some i => role_is "uplink" i | None => false end.
Definition check_policy (c : Config) (interfaces : gmap string Interface) (zones : gmap string Zone)
    (services : gmap string Service) (s : policy_seen) (p : Policy) : err + policy_seen :=
  let name := pol_Name p in
  let uplink := Errorf "policy %s cannot use an uplink interface as a host destination zone" [ArgS name] in
  fails (negb (namePattern name) || bool_decide (name ∈ pys_names s))
    (Errorf "invalid or duplicate policy %q" [ArgS name]) then?
  fails (negb (is_one_of (pol_Action p) ["allow"; "deny"]))
    (Errorf "policy %s action must be allow or deny" [ArgS name]) then?
  fails (negb (is_one_of (pol_From p) ["any"; "host"]) && bool_decide (zones !! pol_From p = None))
    (Errorf "policy %s references unknown source zone %q" [ArgS name; ArgS (pol_From p)]) then?
  fails (negb (is_one_of (pol_To p) ["host"; "any"]) && bool_decide (zones !! pol_To p = None))
    (Errorf "policy %s references unknown destination zone %q" [ArgS name; ArgS (pol_To p)]) then?
  fails (bool_decide (services !! pol_Service p = None))
    (Errorf "policy %s references unknown service %q" [ArgS name; ArgS (pol_Service p)]) then?
  (if is_one_of (pol_From p) ["host"; "any"] && negb (is_one_of (pol_To p) ["host"; "any"]) then
     fails (existsb (uplink_member interfaces) (from_option zone_Interfaces [] (zones !! pol_To p))) uplink then?
     fails (existsb (λ i, String.eqb (in_Zone i) (pol_To p) && role_is "uplink" i) (Interfaces c)) uplink
   else inr tt) then?
  match pys_flows s !! flow p with
  | Some previous => inl (Errorf "policy %s duplicates flow tuple from policy %s" [ArgS name; ArgS previous])
  | None => inr (mkPolicySeen ({[name]} ∪ pys_names s) (<[flow p := name]> (pys_flows s)))
  end.

(** *** NAT rules *)

Record nat_seen := mkNatSeen { ns_names : gset string; ns_bindings : gmap string string }.
Definition binding (r : NATRule) : string :=
  nat_ExternalInterface r +:+ nul +:+ nat_Protocol r +:+ nul +:+ pretty (nat_ExternalPort r) +:+ nul +:+ nat_Source r.
Definition is_ipv4_network (raw : string) : bool :=
  match ParsePrefix raw with Some p => Is4 (pfx_addr p) | None => false end.
Definition bad_port (p : Z) : bool := (p <? 1) || (65535 <? p).

Definition check_nat (interfaces : gmap string Interface) (zones : gmap string Zone) (s : nat_seen) (r : NATRule)
    : err + nat_seen :=
  let name := nat_Name r in
  fails (negb (namePattern name) || bool_decide (name ∈ ns_names s))
    (Errorf "invalid or duplicate NAT rule %q" [ArgS name]) then?
  (if String.eqb (nat_Source r) "any" then inr tt
   else
     z <-? of_option (zones !! nat_Source r)
       (Errorf "NAT rule %s references unknown source zone %q" [ArgS name; ArgS (nat_Source r)]) ;;
     fails (negb (existsb is_ipv4_network (zone_Networks z)))
       (Errorf "NAT rule %s source zone must contain an IPv4 network or use source=any" [ArgS name])) then?
  fails (match interfaces !! nat_ExternalInterface r with
         | None => true
         | Some i => negb (is_one_of (in_Role i) ["uplink"; "lan"; "vpn"])
         end)
    (Errorf "NAT rule %s external_interface must be a declared uplink, lan, or vpn interface" [ArgS name]) then?
  fails (negb (is_one_of (nat_Protocol r) ["tcp"; "udp"]))
    (Errorf "NAT rule %s protocol must be tcp or udp" [ArgS name]) then?
  fails (bad_port (nat_ExternalPort r) || bad_port (nat_DestinationPort r))
    (Errorf "NAT rule %s has invalid port" [ArgS name]) then?
  fails (match ParseAddr (nat_Destination r) with
         | None => true
         | Some a => negb (Is4 a) || IsUnspecified a || IsMulticast a
         end)
    (Errorf "NAT rule %s destination must be a unicast IPv4 address" [ArgS name]) then?
  match ns_bindings s !! binding r with
  | Some previous => inl (Errorf "NAT rule %s conflicts with rule %s" [ArgS name; ArgS previous])
  | None => inr (mkNatSeen ({[name]} ∪ ns_names s) (<[binding r := name]> (ns_bindings s)))
  end.

(** *** WireGuard *)

(** The last interface with the role. *)
Definition uplink_name (l : list Interface) : string :=
  foldl (λ acc i, if role_is "uplink" i then in_Name i else acc) "" l.
Definition host_prefix (family : Addr → bool) (raw : string) : bool :=
  match ParsePrefix raw with
  | None => false
  | Some p => family (pfx_addr p) && IsSingleIP p && validEndpointAddress (pfx_addr p)
  end.

Definition check_mark (mark : string) : err + unit :=
  fails (negb (fwmarkPattern mark)) (Errorf "wireguard.fwmark %q is invalid" [ArgS mark]) then?
  fails (2 ^ 32 <=? mark_value mark)%N (Errorf "wireguard.fwmark %q exceeds 32 bits" [ArgS mark]) then?
  fails (mark_value mark =? 0)%N
    (Errorf "wireguard.fwmark must be nonzero so bootstrap traffic cannot match ordinary unmarked UDP" []).

Definition check_endpoint_host (host : string) : err + unit :=
  if String.eqb host "" then inr tt
  else match ParseAddr host with
       | Some a => fails (negb (validEndpointAddress a))
                     (Errorf "wireguard.endpoint_host %q is not a usable unicast endpoint" [ArgS host])
       | None => fails (negb (validHostname host)) (Errorf "wireguard.endpoint_host %q is invalid" [ArgS host])
       end.

Definition check_bootstrap (w : WireGuardConfig) : err + unit :=
  fails ((64 <? length (BootstrapIPs w) + length (BootstrapIPsV6 w))%nat || too_many (BootstrapHosts w) 16)
    (Errorf "WireGuard bootstrap endpoint limits exceeded (64 addresses, 16 hosts)" []) then?
  each (λ raw,
    wrap_err "wireguard.bootstrap_ips: %w" [] (validateCIDR raw) then?
    fails (negb (host_prefix Is4 raw))
      (Errorf "wireguard.bootstrap_ips requires IPv4 host prefixes, got %q" [ArgS raw])) (BootstrapIPs w) then?
  each (λ raw,
    wrap_err "wireguard.bootstrap_ips_v6: %w" [] (validateCIDR raw) then?
    fails (negb (host_prefix Is6 raw))
      (Errorf "wireguard.bootstrap_ips_v6 requires IPv6 host prefixes, got %q" [ArgS raw])) (BootstrapIPsV6 w) then?
  each (λ h, fails (negb (validHostname h)) (Errorf "wireguard.bootstrap_hosts %q is invalid" [ArgS h])) (BootstrapHosts w).

Definition check_wireguard (interfaces : gmap string Interface) (c : Config) : err + unit :=
  let w := WireGuard c in let name := wg_Interface w in
  fails (String.eqb name "") (Errorf "wireguard.interface is required" []) then?
  fails (negb (ifacePattern name)) (Errorf "wireguard.interface %q is invalid" [ArgS name]) then?
  fails (String.eqb name (uplink_name (Interfaces c))) (Errorf "wireguard.interface cannot equal the uplink" []) then?
  fails (match interfaces !! name with Some i => negb (role_is "vpn" i) | None => true end)
    (Errorf "wireguard.interface %q must be declared with role vpn" [ArgS name]) then?
  fails (bad_port (EndpointPort w)) (Errorf "wireguard.endpoint_port must be 1..65535" []) then?
  check_mark (Fwmark w) then?
  fails ((KeepRecent w <? 0) || (16 <? KeepRecent w)) (Errorf "wireguard.keep_recent must be 0..16" []) then?
  fails ((TCPMSS w <? 536) || (8960 <? TCPMSS w)) (Errorf "wireguard.tcp_mss must be 536..8960" []) then?
  check_endpoint_host (EndpointHost w) then?
  check_bootstrap w then?
  fails (negb (String.eqb (ConfigPath w) "") &&
         (negb (IsAbs (ConfigPath w)) || negb (String.eqb (Base (ConfigPath w)) (name +:+ ".conf"))))
    (Errorf "wireguard.config_path must be an absolute <interface>.conf path" []) then?
  fails ((HandshakeSecond w <? 30) || (3600 <? HandshakeSecond w))
    (Errorf "wireguard.handshake_timeout_seconds must be 30..3600" []) then?
  fails (StrictVPN (System c) && String.eqb name "") (Errorf "strict VPN mode requires wireguard.interface" []).

(** *** The whole *)

Definition check_interfaces (c : Config) : err + gmap string Interface :=
  fails (negb (nonempty (Interfaces c))) (Errorf "at least one interface is required" []) then?
  interfaces <-? fold_err check_interface ∅ (Interfaces c) ;;
  refused (ValidateActive (map assignment_of (Interfaces c))) then?
  validateDockerNetworks (DockerNetworks c) interfaces then?
  check_uplinks (Interfaces c) then?
  inr interfaces.
Definition check_zones (interfaces : gmap string Interface) (c : Config) : err + zone_seen :=
  seen <-? fold_err (check_zone interfaces) (mkZoneSeen ∅ ∅ []) (Zones c) ;;
  fold_err (check_interface_zone (zs_zones seen)) (zs_interfaces seen) (Interfaces c) then?
  each (check_zone_used (Interfaces c)) (Zones c) then?
  inr seen.
Definition check_rules (interfaces : gmap string Interface) (zones : gmap string Zone) (c : Config) : err + unit :=
  services <-? fold_err check_service ∅ (Services c) ;;
  fold_err (check_trusted services) ∅ (TrustedServices (Runtime c)) then?
  fold_err (check_policy c interfaces zones services) (mkPolicySeen ∅ ∅) (Policies c) then?
  fold_err (check_nat interfaces zones) (mkNatSeen ∅ ∅) (NAT c) then?
  inr tt.

Definition Validate (c : Config) : err + unit :=
  check_limits c then?
  check_state (State c) then?
  check_integrations c then?
  fold_err (check_feed (MaxBlockClaims (Runtime c))) ∅ (ThreatFeeds c) then?
  fold_err (check_geo (MaxBlockClaims (Runtime c))) ∅ (GeoSets c) then?
  interfaces <-? check_interfaces c ;;
  seen <-? check_zones interfaces c ;;
  check_rules interfaces (zs_zones seen) c then?
  check_wireguard interfaces c.

(** [Decode]: the decoder answers the document over the defaults, and the keys it did
    not recognise. *)
Definition Decode (toml : string → Config → err + Config * list string) (text : string) : err + Config :=
  r <-? wrap_err "decode TOML: %w" [] (toml text Defaults) ;;
  fails (nonempty r.2) (Errorf "unknown configuration key(s): %s" [ArgS (join ", " (sort_strings r.2))]) then?
  Validate r.1 then?
  inr r.1.

(** ** A sample document *)

Definition sample_interfaces : list Interface :=
  [mkInterface "eth0" "uplink" "" [] "" 10; mkInterface "wg0" "vpn" "" [] "" 20;
   mkInterface "lan0" "lan" "lan" ["192.168.10.0/24"] "" 30;
   mkInterface "br-web" "container" "web" ["172.30.0.0/24"] "docker:web" 40].
Definition sample : Config :=
  mkConfig (mkSystem "disabled" true) sample_interfaces
    [mkZone "lan" ["192.168.10.0/24"] ["lan0"]; mkZone "web" ["172.30.0.0/24"] []]
    [mkService "ssh" "tcp" [22]; mkService "https" "tcp" [443; 80]; mkService "all" "any" []]
    [mkPolicy "lan-ssh" "lan" "host" "ssh" "allow"; mkPolicy "web-out" "web" "any" "https" "allow";
     mkPolicy "lan-web" "lan" "web" "https" "allow"; mkPolicy "host-out" "host" "any" "all" "allow"]
    [mkNAT "web" "any" "eth0" "tcp" 8443 "172.30.0.10" 443]
    (mkWireGuard "wg0" "vpn.example.net" 51820 "0xca6c" ["203.0.113.7/32"] [] ["vpn.example.net"] 2 1360
       "/etc/wireguard/wg0.conf" 180)
    (mkRuntime 1000 65536 90 ["ssh"])
    (State Defaults) (mkIntegrations true true true false)
    [mkDocker "web" "bridge" "br-web" true ["172.30.0.0/24"] ["172.30.0.1"]]
    [mkFeed "x" "https://feeds.example.net/list" 100 65536 1 3600]
    [mkGeo "nl" "NL" "/etc/nftfw/geo/nl.txt" 500 0 86400].
Example sample_valid : Validate sample = inr tt. Proof. vm_compute. reflexivity. Qed.
Example defaults_invalid : Validate Defaults = inl (Errorf "at least one interface is required" []).
Proof. vm_compute. reflexivity. Qed.

(** ** What a validated configuration is *)

Definition interface_ok (i : Interface) : Prop :=
  ifacePattern (in_Name i) = true ∧ in_Role i ∈ roles ∧
  (MinID <= in_ProvenanceID i <= MaxID)%N ∧ provenanceIdentityPattern (InterfaceProvenanceName i) = true ∧
  Forall (λ n, validateCIDR n = inr tt) (in_CIDRs i).
Definition port_ok (p : Z) : Prop := 1 <= p <= 65535.
Definition service_ok (s : Service) : Prop :=
  namePattern (svc_Name s) = true ∧ svc_Protocol s ∈ ["tcp"; "udp"; "icmp"; "any"] ∧
  NoDup (svc_Ports s) ∧ Forall port_ok (svc_Ports s) ∧ (svc_Ports s = [] ↔ portless (svc_Protocol s) = true).

Definition zone_names (c : Config) : list string := map zone_Name (Zones c).
Definition endpoint_ok (c : Config) (name : string) : Prop := name ∈ ["any"; "host"] ∨ name ∈ zone_names c.
(** The interface belongs to the zone, by either declaration. *)
Definition member (i : Interface) (z : Zone) : Prop := in_Zone i = zone_Name z ∨ in_Name i ∈ zone_Interfaces z.

Record policy_ok (c : Config) (p : Policy) : Prop := {
  po_name : namePattern (pol_Name p) = true;
  po_action : pol_Action p ∈ ["allow"; "deny"];
  po_from : endpoint_ok c (pol_From p);
  po_to : endpoint_ok c (pol_To p);
  po_service : pol_Service p ∈ map svc_Name (Services c);
  (** No traffic of the host is sent to a zone of the physical uplink. *)
  po_uplink : pol_From p ∈ ["host"; "any"] → pol_To p ∉ ["host"; "any"] →
    ∀ z i, z ∈ Zones c → zone_Name z = pol_To p → i ∈ Interfaces c → member i z → in_Role i ≠ "uplink"
}.
Record nat_ok (c : Config) (r : NATRule) : Prop := {
  no_name : namePattern (nat_Name r) = true;
  no_source : nat_Source r = "any" ∨
    ∃ z n p, z ∈ Zones c ∧ zone_Name z = nat_Source r ∧ n ∈ zone_Networks z ∧ ParsePrefix n = Some p ∧ Is4 (pfx_addr p) = true;
  no_interface : ∃ i, i ∈ Interfaces c ∧ in_Name i = nat_ExternalInterface r ∧ in_Role i ∈ ["uplink"; "lan"; "vpn"];
  no_protocol : nat_Protocol r ∈ ["tcp"; "udp"];
  no_ports : port_ok (nat_ExternalPort r) ∧ port_ok (nat_DestinationPort r);
  no_destination : ∃ n, ParseAddr (nat_Destination r) = Some (V4 n) ∧ IsUnspecified (V4 n) = false ∧ IsMulticast (V4 n) = false
}.

(** The networks of all zones that [ParsePrefix] accepts, in declared order. *)
Definition zone_prefixes (c : Config) : list Prefix :=
  omap (λ n, Masked <$> ParsePrefix n) (Zones c ≫= zone_Networks).

Record valid_config (c : Config) : Prop := {
  vc_interfaces : Forall interface_ok (Interfaces c);
  vc_interface_names : NoDup (map in_Name (Interfaces c));
  vc_assignments : ValidateActive (map assignment_of (Interfaces c)) = None;
  vc_uplink : ∃ u, List.filter (role_is "uplink") (Interfaces c) = [u] ∧ in_Name u ≠ wg_Interface (WireGuard c);
  vc_vpn : ∃ i, i ∈ Interfaces c ∧ in_Name i = wg_Interface (WireGuard c) ∧ in_Role i = "vpn";
  vc_zones : Forall (λ z, namePattern (zone_Name z) = true ∧ Forall (λ n, validateCIDR n = inr tt) (zone_Networks z) ∧
                          ∀ n, n ∈ zone_Interfaces z → n ∈ map in_Name (Interfaces c)) (Zones c);
  vc_zone_names : NoDup (zone_names c);
  vc_interface_zone : ∀ i, i ∈ Interfaces c → in_Zone i = "" ∨ in_Zone i ∈ zone_names c;
  (** An interface lies in one zone at most. *)
  vc_membership : ∀ i y z, i ∈ Interfaces c → y ∈ Zones c → z ∈ Zones c → member i y → member i z → y = z;
  vc_disjoint : ForallOrdPairs (λ p q, Overlaps q p = false) (zone_prefixes c);
  vc_services : Forall service_ok (Services c);
  vc_service_names : NoDup (map svc_Name (Services c));
  vc_trusted : Forall (λ n, ∃ s, s ∈ Services c ∧ svc_Name s = n ∧ svc_Protocol s ∈ ["tcp"; "udp"]) (TrustedServices (Runtime c));
  vc_policies : Forall (policy_ok c) (Policies c);
  vc_policy_names : NoDup (map pol_Name (Policies c));
  vc_flows : NoDup (map flow (Policies c));
  vc_nat : Forall (nat_ok c) (NAT c);
  vc_nat_names : NoDup (map nat_Name (NAT c));
  vc_bindings : NoDup (map binding (NAT c));
  vc_mode : IPv6Mode (System c) ∈ ["disabled"; "vpn"; "native"];
  vc_mark : fwmarkPattern (Fwmark (WireGuard c)) = true ∧ (0 < mark_value (Fwmark (WireGuard c)) < 2 ^ 32)%N;
  vc_endpoint : port_ok (EndpointPort (WireGuard c));
  vc_mss : 536 <= TCPMSS (WireGuard c) <= 8960
}.

(** *** Sections *)

Lemma is_one_of_spec s l : is_one_of s l = true ↔ s ∈ l.
Proof.
  unfold is_one_of. rewrite existsb_exists. setoid_rewrite <-list_elem_of_In.
  split; [intros (x & Hx & ->%String.eqb_eq); done|]. intros H. exists s. split; [done|]. apply String.eqb_refl.
Qed.
Lemma is_one_of_false s l : is_one_of s l = false ↔ s ∉ l.
Proof. rewrite <-not_true_iff_false, is_one_of_spec. done. Qed.
Create HintDb config.
#[local] Hint Rewrite is_one_of_spec is_one_of_false : config.

Ltac clean_checks := invert_checks; autorewrite with config in *.

(** A table that gains a new key, as [fold_err_unique] wants it. *)
Lemma fresh_key {V} (m : gmap string V) k v : m !! k = None →
  ¬ is_Some (m !! k) ∧ (∀ k', is_Some (<[k := v]> m !! k') ↔ k' = k ∨ is_Some (m !! k')) ∧ True.
Proof.
  intros H. rewrite H. split; [by intros []|]. split; [|done]. intros k'. rewrite lookup_insert_is_Some.
  destruct (decide (k' = k)); naive_solver.
Qed.

Lemma check_interface_ok s i s' : check_interface s i = inr s' →
  s !! in_Name i = None ∧ s' = <[in_Name i := i]> s ∧ interface_ok i.
Proof.
  unfold check_interface. intros H. clean_checks. subst s'. rewrite eq_None_not_Some.
  split; [done|]. split; [done|]. split; [done|]. split; [done|].
  match goal with H : (_ <? _)%N = false |- _ => apply N.ltb_ge in H end.
  match goal with H : (_ <? _)%N = false |- _ => apply N.ltb_ge in H end.
  split; [lia|]. split; [done|]. match goal with H : Forall _ _ |- _ => eapply Forall_impl; [exact H|] end.
  cbn beta. intros n Hn. by apply wrap_err_ok in Hn.
Qed.

Lemma interfaces_table l m : fold_err check_interface ∅ l = inr m →
  NoDup (map in_Name l) ∧ Forall interface_ok l ∧ ∀ n i, m !! n = Some i ↔ i ∈ l ∧ in_Name i = n.
Proof.
  intros H.
  destruct (fold_err_unique check_interface (λ m n, is_Some (m !! n)) in_Name interface_ok l ∅ m) as (Hn & _ & _ & Ha); [|exact H|].
  { intros s i s' (H1 & -> & H3)%check_interface_ok. rewrite H1. split; [by intros []|]. split; [|done].
    intros k. rewrite lookup_insert_is_Some. destruct (decide (k = in_Name i)); naive_solver. }
  split; [done|]. split; [done|]. intros n i.
  rewrite (fold_err_table check_interface id in_Name id l ∅ m); [|by intros s j s' (H1 & -> & _)%check_interface_ok|exact H].
  simpl. rewrite lookup_empty. naive_solver.
Qed.

Lemma check_port_ok svc s p s' : check_port svc s p = inr s' → p ∉ s ∧ s' = {[p]} ∪ s ∧ port_ok p.
Proof. unfold check_port, port_ok. intros H. clean_checks. subst. split; [done|]. split; [done|]. lia. Qed.
Lemma check_service_ok s x s' : check_service s x = inr s' →
  s !! svc_Name x = None ∧ s' = <[svc_Name x := x]> s ∧ service_ok x.
Proof.
  unfold check_service, nonempty. intros H. clean_checks. subst s'. rewrite eq_None_not_Some.
  split; [done|]. split; [done|]. split; [done|]. split; [done|].
  match goal with Hl : fold_err _ _ _ = inr ?r |- _ =>
    destruct (fold_err_unique (check_port (svc_Name x)) (λ s p, p ∈ s) id port_ok (svc_Ports x) ∅ r) as (Hn & _ & _ & Ha); [|exact Hl|] end.
  { intros t p t' (H1' & -> & H3')%check_port_ok. split; [done|]. split; [|done]. intros k. set_solver. }
  rewrite map_id in Hn. split; [done|]. split; [done|].
  destruct (portless (svc_Protocol x)), (svc_Ports x); simpl in *; naive_solver.
Qed.

Lemma assign_ok m i z m' : assignInterfaceZone m i z = inr m' → m ⊆ m' ∧ m' !! i = Some z.
Proof.
  unfold assignInterfaceZone. destruct (m !! i) as [e|] eqn:E.
  - destruct (String.eqb_spec e z) as [->|]; [|done]. intros [= <-]. rewrite insert_id by done. done.
  - intros [= <-]. split; [by apply insert_subseteq|by rewrite lookup_insert_eq].
Qed.

Lemma ordpairs_snoc {A} (R : A → A → Prop) l x : ForallOrdPairs R l → Forall (λ p, R p x) l → ForallOrdPairs R (l ++ [x]).
Proof.
  induction 1 as [|a l Ha Hl IH]; intros Hx; simpl; [repeat constructor|]. apply list.Forall_cons in Hx as [Hax Hx].
  constructor; [|by apply IH]. apply Forall_app. split; [done|]. by constructor.
Qed.

Definition masked_network (n : string) : option Prefix := Masked <$> ParsePrefix n.
Definition disjoint_from (p q : Prefix) : Prop := Overlaps q p = false.
Lemma check_network_ok zone seen n seen' : check_network zone seen n = inr seen' →
  validateCIDR n = inr tt ∧ seen'.*2 = (seen.*2 ++ omap masked_network [n])%list ∧
  (ForallOrdPairs disjoint_from seen.*2 → ForallOrdPairs disjoint_from seen'.*2).
Proof.
  unfold check_network, masked_network. intros H. clean_checks. split; [done|]. simpl.
  destruct (ParsePrefix n) as [p|]; simpl; [|injection H as <-; by rewrite app_nil_r].
  destruct (List.find _ seen) as [e|] eqn:E; [done|]. injection H as <-. rewrite fmap_app. split; [done|].
  intros Hd. simpl. apply ordpairs_snoc; [done|]. apply list.Forall_forall. intros q (x & -> & Hx)%list_elem_of_fmap.
  unfold disjoint_from. by eapply find_none in E; [|by apply list_elem_of_In].
Qed.
Lemma check_networks_ok zone seen l seen' : fold_err (check_network zone) seen l = inr seen' →
  Forall (λ n, validateCIDR n = inr tt) l ∧ seen'.*2 = (seen.*2 ++ omap masked_network l)%list ∧
  (ForallOrdPairs disjoint_from seen.*2 → ForallOrdPairs disjoint_from seen'.*2).
Proof.
  apply (fold_err_inv (check_network zone) (λ pre s, Forall (λ n, validateCIDR n = inr tt) pre ∧
    s.*2 = (seen.*2 ++ omap masked_network pre)%list ∧ (ForallOrdPairs disjoint_from seen.*2 → ForallOrdPairs disjoint_from s.*2)));
    [|simpl; by rewrite app_nil_r].
  intros pre n s s' _ (H1 & H2 & H3) (H4 & H5 & H6)%check_network_ok. split; [by apply Forall_app_2; [|constructor]|].
  split; [|by auto]. by rewrite H5, H2, omap_app, <-app_assoc.
Qed.

Lemma check_zone_interfaces_ok interfaces zone m l m' : fold_err (check_zone_interface interfaces zone) m l = inr m' →
  m ⊆ m' ∧ ∀ n, n ∈ l → m' !! n = Some zone ∧ is_Some (interfaces !! n).
Proof.
  apply (fold_err_inv (check_zone_interface interfaces zone) (λ pre s, m ⊆ s ∧ ∀ n, n ∈ pre → s !! n = Some zone ∧ is_Some (interfaces !! n)));
    [|set_solver].
  intros pre n s s' _ [H1 H2] H. unfold check_zone_interface in H. clean_checks. apply assign_ok in H as [H3 H4].
  split; [by etrans|]. intros k [Hk| ->%list_elem_of_singleton]%elem_of_app.
  - destruct (H2 k Hk). split; [by eapply lookup_weaken|done].
  - split; [done|]. by apply not_eq_None_Some.
Qed.

Lemma check_zone_ok interfaces s z s' : check_zone interfaces s z = inr s' →
  zs_zones s !! zone_Name z = None ∧ zs_zones s' = <[zone_Name z := z]> (zs_zones s) ∧ namePattern (zone_Name z) = true ∧
  fold_err (check_network (zone_Name z)) (zs_prefixes s) (zone_Networks z) = inr (zs_prefixes s') ∧
  fold_err (check_zone_interface interfaces (zone_Name z)) (zs_interfaces s) (zone_Interfaces z) = inr (zs_interfaces s').
Proof. unfold check_zone. intros H. clean_checks. subst s'. rewrite eq_None_not_Some. done. Qed.

Definition zone_checked (interfaces : gmap string Interface) (z : Zone) : Prop :=
  namePattern (zone_Name z) = true ∧ Forall (λ n, validateCIDR n = inr tt) (zone_Networks z) ∧
  ∀ n, n ∈ zone_Interfaces z → is_Some (interfaces !! n).
Lemma zones_table interfaces l s : fold_err (check_zone interfaces) (mkZoneSeen ∅ ∅ []) l = inr s →
  NoDup (map zone_Name l) ∧ (∀ n z, zs_zones s !! n = Some z ↔ z ∈ l ∧ zone_Name z = n) ∧ Forall (zone_checked interfaces) l ∧
  (zs_prefixes s).*2 = omap masked_network (l ≫= zone_Networks) ∧ ForallOrdPairs disjoint_from (zs_prefixes s).*2 ∧
  ∀ z n, z ∈ l → n ∈ zone_Interfaces z → zs_interfaces s !! n = Some (zone_Name z).
Proof.
  intros H.
  destruct (fold_err_unique (check_zone interfaces) (λ s n, is_Some (zs_zones s !! n)) zone_Name (λ _, True) l (mkZoneSeen ∅ ∅ []) s)
    as (Hn & _); [|exact H|].
  { intros t z t' (H1 & -> & _)%check_zone_ok. rewrite H1. split; [by intros []|]. split; [|done].
    intros k. rewrite lookup_insert_is_Some. destruct (decide (k = zone_Name z)); naive_solver. }
  split; [done|]. split.
  { intros n z. rewrite (fold_err_table (check_zone interfaces) zs_zones zone_Name id l (mkZoneSeen ∅ ∅ []) s);
      [|by intros t y t' (? & ? & _)%check_zone_ok|exact H]. simpl. rewrite lookup_empty. naive_solver. }
  apply (fold_err_inv (check_zone interfaces) (λ pre s, Forall (zone_checked interfaces) pre ∧
    (zs_prefixes s).*2 = omap masked_network (pre ≫= zone_Networks) ∧ ForallOrdPairs disjoint_from (zs_prefixes s).*2 ∧
    ∀ z n, z ∈ pre → n ∈ zone_Interfaces z → zs_interfaces s !! n = Some (zone_Name z))) in H; [done| |].
  2:{ split; [done|]. split; [done|]. split; [constructor|]. set_solver. }
  intros pre z t t' _ (I1 & I2 & I3 & I4) (_ & _ & Hp & Hnet & Hifs)%check_zone_ok.
  apply check_networks_ok in Hnet as (N1 & N2 & N3). apply check_zone_interfaces_ok in Hifs as [F1 F2].
  split; [apply Forall_app_2; [done|constructor; [|done]]; split; [done|]; split; [done|]; intros n Hn'; by apply F2|].
  split; [by rewrite N2, I2, bind_app, omap_app; simpl; rewrite app_nil_r|]. split; [by auto|].
  intros y n [Hy| ->%list_elem_of_singleton]%elem_of_app Hi; [by eapply lookup_weaken; [apply I4|]|by apply F2].
Qed.

Lemma interface_zones_ok zones m l m' : fold_err (check_interface_zone zones) m l = inr m' →
  m ⊆ m' ∧ ∀ i, i ∈ l → in_Zone i = "" ∨ (m' !! in_Name i = Some (in_Zone i) ∧ is_Some (zones !! in_Zone i)).
Proof.
  apply (fold_err_inv (check_interface_zone zones) (λ pre s, m ⊆ s ∧ ∀ i, i ∈ pre → in_Zone i = "" ∨ (s !! in_Name i = Some (in_Zone i) ∧ is_Some (zones !! in_Zone i))));
    [|set_solver].
  intros pre i s s' _ [H1 H2] H. unfold check_interface_zone in H. destruct (String.eqb_spec (in_Zone i) "") as [E|].
  - injection H as <-. split; [done|]. intros j [Hj| ->%list_elem_of_singleton]%elem_of_app; [by apply H2|by left].
  - clean_checks. apply assign_ok in H as [H3 H4]. split; [by etrans|].
    intros j [Hj| ->%list_elem_of_singleton]%elem_of_app.
    + destruct (H2 j Hj) as [|[]]; [by left|right]. split; [by eapply lookup_weaken|done].
    + right. split; [done|]. by apply not_eq_None_Some.
Qed.

Lemma check_trusted_ok services s n s' : check_trusted services s n = inr s' →
  ∃ x, services !! n = Some x ∧ svc_Protocol x ∈ ["tcp"; "udp"].
Proof. unfold check_trusted. intros H. clean_checks. eauto. Qed.

(** *** Docker networks

    A validated list of Docker networks is an address plan: names and bridges are unique,
    each network has the subnets of its declared container interface with one gateway in
    each, and no two subnets of the whole list overlap. *)
Definition pair_ok (pair : string * string) : Prop :=
  ∃ p a, ParsePrefix (trim_space pair.1) = Some p ∧ Masked p = p ∧ pfx_bits p ≠ 0%N ∧
    ParseAddr (trim_space pair.2) = Some a ∧ Contains p a = true ∧ a ≠ pfx_addr p ∧ Is4 a = Is4 (pfx_addr p).
Definition subnet_prefixes (subnets : list string) : list Prefix := omap (λ s, ParsePrefix (trim_space s)) subnets.
Record docker_ok (l : list Interface) (n : DockerNetwork) : Prop := {
  do_name : dockerNetworkPattern (dn_Name n) = true;
  do_driver : dn_Driver n = "bridge";
  do_pairs : length (dn_Subnets n) = length (dn_Gateways n) ∧ (1 <= length (dn_Subnets n) <= 16)%nat ∧
    Forall pair_ok (zip (dn_Subnets n) (dn_Gateways n));
  do_interface : ∃ i, i ∈ l ∧ in_Name i = dn_BridgeInterface n ∧ in_Role i = "container" ∧
    (InterfaceProvenanceName i = "docker:" +:+ dn_Name n ∨ dn_DynamicBridge n = false ∧ InterfaceProvenanceName i = in_Name i) ∧
    canonicalPrefixes (in_CIDRs i) = sort_strings (map prefix_String (subnet_prefixes (dn_Subnets n)))
}.
Record valid_docker (c : Config) : Prop := {
  vd_enabled : DockerEnabled (Integrations c) = true ↔ DockerNetworks c ≠ [];
  vd_networks : Forall (docker_ok (Interfaces c)) (DockerNetworks c);
  vd_names : NoDup (map dn_Name (DockerNetworks c));
  vd_bridges : NoDup (map dn_BridgeInterface (DockerNetworks c));
  vd_disjoint : ForallOrdPairs disjoint_from (DockerNetworks c ≫= λ n, subnet_prefixes (dn_Subnets n))
}.

Lemma check_subnet_ok network s pair s' : check_subnet network s pair = inr s' → pair_ok pair ∧
  (ps_prefixes s').*2 = ((ps_prefixes s).*2 ++ subnet_prefixes [pair.1])%list ∧
  ps_subnets s' = (ps_subnets s ++ map prefix_String (subnet_prefixes [pair.1]))%list ∧
  (ForallOrdPairs disjoint_from (ps_prefixes s).*2 → ForallOrdPairs disjoint_from (ps_prefixes s').*2).
Proof.
  unfold check_subnet. destruct pair as [raw gw]. cbv zeta. cbn [fst snd]. destruct (ParsePrefix (trim_space raw)) as [p|] eqn:Ep; [|done].
  intros H. apply err_bind_ok in H as (? & H0 & H). apply err_bind_ok in H as (? & H1 & H). apply fails_ok in H0, H1. apply orb_false_iff in H1 as [H1 _].
  apply negb_false_iff, String.eqb_eq in H1. pose proof (ParsePrefix_String (Masked p)) as Hp. rewrite <-H1, Ep in Hp.
  assert (p = Masked p) as Hm by (specialize (Hp (Masked_ok _ (ParsePrefix_ok _ _ Ep))); congruence). rewrite <-Hm in *. clear Hp H1.
  destruct (List.find _ _) as [prior|] eqn:Ef; [done|]. destruct (ParseAddr (trim_space gw)) as [a|] eqn:Ea; [|done].
  apply err_bind_ok in H as (? & H2 & H). apply err_bind_ok in H as (? & H3 & [= <-]). apply fails_ok in H2, H3. rewrite !orb_false_iff, !negb_false_iff in H2.
  rewrite !orb_false_iff in H3. destruct H2 as [[_ H2] H2'%eqb_prop], H3 as [[H3%bool_decide_eq_false _] _]. apply N.eqb_neq in H0. cbn [ps_prefixes ps_subnets].
  unfold subnet_prefixes. cbn [omap list_omap]. rewrite Ep. split; [exists p, a; done|]. rewrite fmap_app. split; [done|]. split; [done|]. intros Hd. apply ordpairs_snoc; [done|].
  apply list.Forall_forall. intros q (e & -> & Hx)%list_elem_of_fmap. unfold disjoint_from. by eapply find_none in Ef; [|by apply list_elem_of_In].
Qed.
Lemma check_subnets_ok network s l s' : fold_err (check_subnet network) s l = inr s' → Forall pair_ok l ∧
  (ps_prefixes s').*2 = ((ps_prefixes s).*2 ++ subnet_prefixes (map fst l))%list ∧
  ps_subnets s' = (ps_subnets s ++ map prefix_String (subnet_prefixes (map fst l)))%list ∧
  (ForallOrdPairs disjoint_from (ps_prefixes s).*2 → ForallOrdPairs disjoint_from (ps_prefixes s').*2).
Proof.
  apply (fold_err_inv (check_subnet network) (λ pre t, Forall pair_ok pre ∧
    (ps_prefixes t).*2 = ((ps_prefixes s).*2 ++ subnet_prefixes (map fst pre))%list ∧
    ps_subnets t = (ps_subnets s ++ map prefix_String (subnet_prefixes (map fst pre)))%list ∧
    (ForallOrdPairs disjoint_from (ps_prefixes s).*2 → ForallOrdPairs disjoint_from (ps_prefixes t).*2)));
    [|simpl; by rewrite !app_nil_r].
  intros pre pair t t' _ (I1 & I2 & I3 & I4) (C1 & C2 & C3 & C4)%check_subnet_ok. split; [by apply Forall_app_2; [|constructor]|].
  unfold subnet_prefixes in *. rewrite map_app, omap_app, map_app, !app_assoc, <-I2, <-I3. by auto.
Qed.
Lemma check_docker_ok interfaces l s n s' : (∀ k i, interfaces !! k = Some i ↔ i ∈ l ∧ in_Name i = k) →
  check_docker interfaces s n = inr s' → docker_ok l n ∧
  dn_Name n ∉ ds_names s ∧ ds_names s' = {[dn_Name n]} ∪ ds_names s ∧
  ds_bridges s !! dn_BridgeInterface n = None ∧ ds_bridges s' = <[dn_BridgeInterface n := dn_Name n]> (ds_bridges s) ∧
  (ds_prefixes s').*2 = ((ds_prefixes s).*2 ++ subnet_prefixes (dn_Subnets n))%list ∧
  (ForallOrdPairs disjoint_from (ds_prefixes s).*2 → ForallOrdPairs disjoint_from (ds_prefixes s').*2).
Proof.
  intros Hi H. unfold check_docker in H. cbv zeta in H. do 3 apply err_bind_ok in H as (? & ? & H). destruct (ds_bridges s !! _) eqn:Eb; [done|].
  apply err_bind_ok in H as (i & Hl & H). do 5 apply err_bind_ok in H as (? & ? & H). apply err_bind_ok in H as (pairs & Hp & H).
  do 2 apply err_bind_ok in H as (? & ? & H). injection H as <-. clean_checks. apply Hi in Hl as [Hin Hname].
  repeat match goal with H : _ || _ = false |- _ => apply orb_false_iff in H as [? H] | H : fails _ _ = inr _ |- _ => apply fails_ok in H end.
  apply check_subnets_ok in Hp as (P1 & P2 & P3 & P4). cbn [ps_prefixes ps_subnets] in *.
  apply Nat.eqb_neq in H. apply Nat.eqb_eq in H6. unfold too_many in H7. apply Nat.ltb_ge in H7.
  assert (map fst (zip (dn_Subnets n) (dn_Gateways n)) = dn_Subnets n) as Hz by (apply (fst_zip (dn_Subnets n) (dn_Gateways n)); lia).
  rewrite Hz in *. split; [|cbn [ds_names ds_bridges ds_prefixes]; done]. split; [done|done| |].
  - split; [done|]. split; [lia|done].
  - exists i. split; [done|]. split; [done|]. split; [by apply String.eqb_eq|]. split; [|by rewrite H9, P3].
    destruct (String.eqb_spec (InterfaceProvenanceName i) ("docker:" +:+ dn_Name n)) as [E|E]; [by left|]. right.
    destruct (dn_DynamicBridge n); [done|]. split; [done|]. cbn [negb andb] in H5. apply andb_false_iff in H5 as [H5|H5]; [|done].
    apply negb_false_iff, String.eqb_eq in H5. by rewrite Hname.
Qed.
Lemma docker_table interfaces l nets s : (∀ k i, interfaces !! k = Some i ↔ i ∈ l ∧ in_Name i = k) →
  validateDockerNetworks nets interfaces = inr s →
  Forall (docker_ok l) nets ∧ NoDup (map dn_Name nets) ∧ NoDup (map dn_BridgeInterface nets) ∧
  ForallOrdPairs disjoint_from (nets ≫= λ n, subnet_prefixes (dn_Subnets n)).
Proof.
  unfold validateDockerNetworks. intros Hi H.
  destruct (fold_err_unique (check_docker interfaces) (λ s n, n ∈ ds_names s) dn_Name (docker_ok l) nets (mkDockerSeen ∅ ∅ []) s) as (Hn & _ & _ & Hok); [|exact H|].
  { intros t n t' (H1 & H2 & -> & _)%(check_docker_ok _ l); [|done]. split; [done|]. split; [|done]. set_solver. }
  destruct (fold_err_unique (check_docker interfaces) (λ s n, is_Some (ds_bridges s !! n)) dn_BridgeInterface (λ _, True) nets (mkDockerSeen ∅ ∅ []) s) as (Hb & _); [|exact H|].
  { intros t n t' (_ & _ & _ & Hb & -> & _)%(check_docker_ok _ l); [|done]. exact (fresh_key _ _ _ Hb). }
  split; [done|]. split; [done|]. split; [done|].
  apply (fold_err_inv (check_docker interfaces) (λ pre t, (ds_prefixes t).*2 = (pre ≫= λ n, subnet_prefixes (dn_Subnets n)) ∧
    ForallOrdPairs disjoint_from (ds_prefixes t).*2)) in H as [<- H]; [done| |split; [done|constructor]].
  intros pre n t t' _ [I1 I2] (_ & _ & _ & _ & _ & C1 & C2)%(check_docker_ok _ l); [|done].
  split; [|by apply C2]. rewrite C1, I1, bind_app. simpl. by rewrite app_nil_r.
Qed.

Section rules.
Context (c : Config) (interfaces : gmap string Interface) (zones : gmap string Zone) (services : gmap string Service).
Hypothesis (Hi : ∀ n i, interfaces !! n = Some i ↔ i ∈ Interfaces c ∧ in_Name i = n).
Hypothesis (Hz : ∀ n z, zones !! n = Some z ↔ z ∈ Zones c ∧ zone_Name z = n).
Hypothesis (Hs : ∀ n s, services !! n = Some s ↔ s ∈ Services c ∧ svc_Name s = n).
Hypothesis (Hnames : NoDup (map in_Name (Interfaces c))).

Lemma endpoint_known n l : negb (is_one_of n l) && bool_decide (zones !! n = None) = false → n ∈ l ∨ n ∈ zone_names c.
Proof.
  intros [H|H]%andb_false_iff; clean_checks; [by left|right]. apply not_eq_None_Some in H as [z [Hz' <-]%Hz].
  by apply list_elem_of_fmap_2.
Qed.

Lemma check_policy_ok s p s' : check_policy c interfaces zones services s p = inr s' →
  pol_Name p ∉ pys_names s ∧ pys_names s' = {[pol_Name p]} ∪ pys_names s ∧
  pys_flows s !! flow p = None ∧ pys_flows s' = <[flow p := pol_Name p]> (pys_flows s) ∧ policy_ok c p.
Proof.
  unfold check_policy. intros H. clean_checks. destruct (pys_flows s !! flow p) eqn:Ef; [done|]. injection H as <-.
  split; [done|]. split; [done|]. split; [done|]. split; [done|]. split; try done.
  - by apply endpoint_known.
  - destruct (endpoint_known (pol_To p) ["host"; "any"]); [done|left|by right]. set_solver.
  - match goal with H : services !! _ ≠ None |- _ => apply not_eq_None_Some in H as [x [Hx <-]%Hs] end. by apply list_elem_of_fmap_2.
  - intros Hf Ht z i Hzin Hname Hiin Hm. apply is_one_of_spec in Hf. apply is_one_of_false in Ht.
    match goal with H : (if _ then _ else _) = inr _ |- _ => rewrite Hf, Ht in H; simpl in H end. clean_checks.
    assert (zones !! pol_To p = Some z) as Hzz by (apply Hz; done).
    match goal with H : existsb (uplink_member _) _ = false |- _ => rewrite Hzz in H; simpl in H end.
    intros Hup. destruct Hm as [Hm|Hm].
    + match goal with H : existsb (λ i, _ && _) _ = false |- _ => apply not_true_iff_false in H; apply H end.
      apply existsb_exists. exists i. split; [by apply list_elem_of_In|]. unfold role_is.
      by rewrite Hm, Hname, Hup, String.eqb_refl.
    + match goal with H : existsb (uplink_member _) _ = false |- _ => apply not_true_iff_false in H; apply H end.
      apply existsb_exists. exists (in_Name i). split; [by apply list_elem_of_In|]. unfold uplink_member, role_is.
      by rewrite (proj2 (Hi _ _) (conj Hiin eq_refl)), Hup.
Qed.

Lemma bad_port_ok p : bad_port p = false ↔ port_ok p.
Proof. unfold bad_port, port_ok. rewrite orb_false_iff, !Z.ltb_ge. lia. Qed.

Lemma check_nat_ok s r s' : check_nat interfaces zones s r = inr s' →
  nat_Name r ∉ ns_names s ∧ ns_names s' = {[nat_Name r]} ∪ ns_names s ∧
  ns_bindings s !! binding r = None ∧ ns_bindings s' = <[binding r := nat_Name r]> (ns_bindings s) ∧ nat_ok c r.
Proof.
  unfold check_nat. intros H. clean_checks. destruct (ns_bindings s !! binding r) eqn:Ef; [done|]. injection H as <-.
  repeat match goal with H : bad_port _ = false |- _ => apply bad_port_ok in H end.
  split; [done|]. split; [done|]. split; [done|]. split; [done|]. split; try done.
  - destruct (String.eqb_spec (nat_Source r) "any") as [|Hne]; [by left|right]. clean_checks.
    match goal with H : zones !! _ = Some ?z |- _ => apply Hz in H as [Hin Hn]; exists z end.
    match goal with H : existsb _ _ = true |- _ => apply existsb_exists in H as (n & Hn1 & Hn2) end.
    unfold is_ipv4_network in Hn2. destruct (ParsePrefix n) as [q|] eqn:E; [|done]. exists n, q.
    apply list_elem_of_In in Hn1. done.
  - destruct (interfaces !! nat_ExternalInterface r) as [i|] eqn:E; [|done]. apply Hi in E as [E1 E2]. clean_checks. by exists i.
  - destruct (ParseAddr (nat_Destination r)) as [[n|n z]|] eqn:E; simpl in *; clean_checks; try done. by exists n.
Qed.

Lemma policies_ok s : fold_err (check_policy c interfaces zones services) (mkPolicySeen ∅ ∅) (Policies c) = inr s →
  Forall (policy_ok c) (Policies c) ∧ NoDup (map pol_Name (Policies c)) ∧ NoDup (map flow (Policies c)).
Proof.
  intros H. split; [|split].
  - eapply (fold_err_unique _ (λ s n, n ∈ pys_names s) pol_Name); [|exact H].
    intros t p t' (H1 & -> & _ & _ & H3)%check_policy_ok. set_solver.
  - eapply (fold_err_unique _ (λ s n, n ∈ pys_names s) pol_Name (λ _, True)); [|exact H].
    intros t p t' (H1 & -> & _ & _ & H3)%check_policy_ok. set_solver.
  - eapply (fold_err_unique _ (λ s n, is_Some (pys_flows s !! n)) flow (λ _, True)); [|exact H].
    intros t p t' (_ & _ & H1 & -> & _)%check_policy_ok. exact (fresh_key _ _ _ H1).
Qed.
Lemma nats_ok s : fold_err (check_nat interfaces zones) (mkNatSeen ∅ ∅) (NAT c) = inr s →
  Forall (nat_ok c) (NAT c) ∧ NoDup (map nat_Name (NAT c)) ∧ NoDup (map binding (NAT c)).
Proof.
  intros H. split; [|split].
  - eapply (fold_err_unique _ (λ s n, n ∈ ns_names s) nat_Name); [|exact H].
    intros t p t' (H1 & -> & _ & _ & H3)%check_nat_ok. set_solver.
  - eapply (fold_err_unique _ (λ s n, n ∈ ns_names s) nat_Name (λ _, True)); [|exact H].
    intros t p t' (H1 & -> & _ & _ & H3)%check_nat_ok. set_solver.
  - eapply (fold_err_unique _ (λ s n, is_Some (ns_bindings s !! n)) binding (λ _, True)); [|exact H].
    intros t p t' (_ & _ & H1 & -> & _)%check_nat_ok. exact (fresh_key _ _ _ H1).
Qed.
Lemma trusted_ok s : fold_err (check_trusted services) ∅ (TrustedServices (Runtime c)) = inr s →
  Forall (λ n, ∃ s, s ∈ Services c ∧ svc_Name s = n ∧ svc_Protocol s ∈ ["tcp"; "udp"]) (TrustedServices (Runtime c)).
Proof.
  apply (fold_err_inv _ (λ pre _, Forall _ pre)); [|constructor].
  intros pre n t t' _ Hp (x & [Hx1 Hx2]%Hs & Hx3)%check_trusted_ok. apply Forall_app_2; [done|]. constructor; [|done]. by exists x.
Qed.
End rules.

Lemma services_table l m : fold_err check_service ∅ l = inr m →
  NoDup (map svc_Name l) ∧ Forall service_ok l ∧ ∀ n s, m !! n = Some s ↔ s ∈ l ∧ svc_Name s = n.
Proof.
  intros H. split; [|split].
  - eapply (fold_err_unique _ (λ m n, is_Some (m !! n)) svc_Name (λ _, True)); [|exact H].
    intros t p t' (H1 & -> & _)%check_service_ok. exact (fresh_key _ _ _ H1).
  - eapply (fold_err_unique _ (λ m n, is_Some (m !! n)) svc_Name); [|exact H].
    intros t p t' (H1 & -> & H3)%check_service_ok. destruct (fresh_key _ _ p H1) as (F1 & F2 & _). done.
  - intros n s. rewrite (fold_err_table check_service id svc_Name id l ∅ m); [|by intros t j t' (H1 & -> & _)%check_service_ok|exact H].
    simpl. rewrite lookup_empty. naive_solver.
Qed.

Definition last_uplink (acc : string) (l : list Interface) : string :=
  foldl (λ acc i, if role_is "uplink" i then in_Name i else acc) acc l.
Lemma last_uplink_cons acc i l : last_uplink acc (i :: l) = last_uplink (if role_is "uplink" i then in_Name i else acc) l.
Proof. reflexivity. Qed.
Lemma last_uplink_none acc l : List.filter (role_is "uplink") l = [] → last_uplink acc l = acc.
Proof.
  induction l as [|i l IH]; [done|]. rewrite last_uplink_cons. simpl. by destruct (role_is "uplink" i).
Qed.
Lemma uplink_name_last l u : List.filter (role_is "uplink") l = [u] → uplink_name l = in_Name u.
Proof.
  unfold uplink_name. fold (last_uplink "" l). enough (∀ acc, List.filter (role_is "uplink") l = [u] → last_uplink acc l = in_Name u) as H by apply H. induction l as [|i l IH]; [done|]; intros acc.
  rewrite last_uplink_cons. simpl. destruct (role_is "uplink" i); [|apply IH]. intros [= <- Hl]. by apply last_uplink_none.
Qed.

Lemma Validate_valid c : Validate c = inr tt → valid_config c.
Proof.
  unfold Validate, check_limits, check_interfaces, check_zones, check_rules, check_wireguard, check_uplinks, check_mark.
  intros H. invert_checks. rename select (fold_err check_interface _ _ = _) into Hif. rename select (fold_err (check_zone _) _ _ = _) into Hzo.
  rename select (fold_err (check_interface_zone _) _ _ = _) into Hiz. rename select (fold_err check_service _ _ = _) into Hse.
  rename select (fold_err (check_trusted _) _ _ = _) into Htr. rename select (fold_err (check_policy _ _ _ _) _ _ = _) into Hpo.
  rename select (fold_err (check_nat _ _) _ _ = _) into Hna.
  subst. rename select zone_seen into seen. rename select (gmap string string) into m.
  apply interfaces_table in Hif as (I1 & I2 & I3). apply zones_table in Hzo as (Z1 & Z2 & Z3 & Z4 & Z5 & Z6).
  apply interface_zones_ok in Hiz as [Y1 Y2]. apply services_table in Hse as (S1 & S2 & S3).
  eapply policies_ok in Hpo as (P1 & P2 & P3); [|done..]. eapply nats_ok in Hna as (N1 & N2 & N3); [|done..]. eapply trusted_ok in Htr; [|done].
  assert (∀ i z, i ∈ Interfaces c → z ∈ Zones c → member i z → m !! in_Name i = Some (zone_Name z)) as Hm.
  { intros i z Hi Hz [Hz'|Hz'].
    - destruct (Y2 i Hi) as [E|[E _]]; [|by rewrite E, Hz'].
      rewrite list.Forall_forall in Z3. destruct (Z3 z Hz) as [Hp _]. by rewrite <-Hz', E in Hp.
    - eapply lookup_weaken; [by apply Z6|done]. }
  split; try done.
  - rename select (_ =? 1 = true)%nat into Hl. apply Nat.eqb_eq in Hl.
    destruct (List.filter (role_is "uplink") (Interfaces c)) as [|u [|]] eqn:E; try done. exists u. split; [done|].
    rewrite <-(uplink_name_last _ _ E). done.
  - rename select (match _ with Some _ => _ | None => true end = false) into Hv.
    destruct (_ !! wg_Interface (WireGuard c)) as [i|] eqn:E; [|done]. apply I3 in E as [E1 E2]. exists i.
    unfold role_is in Hv. by apply negb_false_iff, String.eqb_eq in Hv.
  - eapply Forall_impl; [exact Z3|]. intros z (Hz1 & Hz2 & Hz3). split; [done|]. split; [done|]. intros n Hn.
    destruct (Hz3 n Hn) as [i [Hi <-]%I3]. by apply list_elem_of_fmap_2.
  - intros i Hi. destruct (Y2 i Hi) as [|[_ [z [Hz <-]%Z2]]]; [by left|right]. by apply list_elem_of_fmap_2.
  - intros i y z Hi Hy Hz Hiy Hiz. assert (zone_Name y = zone_Name z) as En.
    { pose proof (Hm i y Hi Hy Hiy). pose proof (Hm i z Hi Hz Hiz). congruence. }
    assert (zs_zones seen !! zone_Name y = Some y) by by apply Z2. assert (zs_zones seen !! zone_Name y = Some z) by by apply Z2. congruence.
  - rewrite Z4 in Z5. exact Z5.
  - by apply is_one_of_spec.
  - split; [done|]. rename select (mark_value _ =? 0 = false)%N into Ha. rename select (_ <=? mark_value _ = false)%N into Hb.
    apply N.eqb_neq in Ha. apply N.leb_gt in Hb. lia.
  - by apply bad_port_ok.
  - lia.
Qed.
Lemma Validate_docker c : Validate c = inr tt → valid_docker c.
Proof.
  unfold Validate, check_interfaces, check_integrations. intros H. invert_checks. rename select (fold_err check_interface _ _ = _) into Hif.
  rename select (validateDockerNetworks _ _ = _) into Hd. apply interfaces_table in Hif as (_ & _ & Hif).
  apply (docker_table _ (Interfaces c)) in Hd as (D1 & D2 & D3 & D4); [|done]. split; [|done..].
  rename select (Bool.eqb (DockerEnabled _) _ = true) into He. apply eqb_prop in He as ->. by destruct (DockerNetworks c).
Qed.

(** C20: A configuration that Validate accepts is well formed: names, identities and
    flows are unique, there is one uplink and the tunnel is another interface, every
    reference resolves, zones share no interface and no network, ports and marks are in
    range, and no policy of the host leads to a zone of the physical uplink.  Its Docker
    networks are an address plan: each is a container interface with the declared
    subnets, one gateway in each, and no two subnets overlap. *)
Theorem Validate_sound c : Validate c = inr tt → valid_config c ∧ valid_docker c.
Proof. intros H. split; [by apply Validate_valid|by apply Validate_docker]. Qed.
Lemma Validate_sound_witness : Validate sample = inr tt ∧ valid_config sample ∧ valid_docker sample.
Proof. split; [exact sample_valid|exact (Validate_sound sample sample_valid)]. Defined.

(** The networks the overlap rule compares are those [ParsePrefix] accepts without
    trimming, while the rule that admits a network trims it and reads mask digits
    leniently: written with a leading zero in the mask, or with a space around it, a
    network escapes the rule and two zones share every address. *)
Theorem overlap_missed :
  let zones networks := mkConfig (System sample) (Interfaces sample)
    [mkZone "lan" ["192.168.10.0/24"] ["lan0"]; mkZone "web" networks []] (Services sample) (Policies sample) []
    (WireGuard sample) (Runtime sample) (State sample) (Integrations sample) (DockerNetworks sample)
    (ThreatFeeds sample) (GeoSets sample) in
  Validate (zones ["192.168.10.0/024"]) = inr tt ∧ Validate (zones [" 192.168.10.0/24"]) = inr tt ∧
  Validate (zones ["192.168.10.0/24"]) =
    inl (Errorf "zone %s network %s overlaps zone %s network %s" [ArgS "web"; ArgS "192.168.10.0/24"; ArgS "lan"; ArgS "192.168.10.0/24"]).
Proof. vm_compute. done. Qed.
