(* ===== verification/PolicyModel.v ===== *)
(** The policy model and its decision procedure (internal/policy/model.go): what the
    explain command answers about a flow. *)

From S2P Require Import Prelude GoStrings Netip Config.
From Stdlib Require Import Ascii String.
Local Open Scope string_scope.
Local Open Scope Z_scope.
Local Open Scope check_scope.

Record Effective := mkEffective { eff_Config : Config; eff_Zones : gmap string Zone; eff_Svcs : gmap string Service }.

Definition zone_map (l : list Zone) : gmap string Zone := foldl (λ m z, <[zone_Name z := z]> m) ∅ l.
Definition service_map (l : list Service) : gmap string Service := foldl (λ m s, <[svc_Name s := s]> m) ∅ l.
Definition effective (c : Config) : Effective := mkEffective c (zone_map (Zones c)) (service_map (Services c)).
(** [policy.Compile] *)
Definition CompilePolicy (c : Config) : err + Effective := Validate c then? inr (effective c).

Record Query := mkQuery { q_From : string; q_To : string; q_Protocol : string; q_Port : Z }.
Record RuntimeContext := mkContext { BlockedPrefixes : list string; TrustedPrefixes : list string }.
Record Decision := mkDecision {
  d_Action : string; d_Matched : option Policy; d_SourceZone : string; d_Destination : string;
  d_Reason : string; d_Rule : string
}.

(** Denies first, then by name. *)
Definition policy_leb (a b : Policy) : bool :=
  if negb (String.eqb (pol_Action a) (pol_Action b)) then String.eqb (pol_Action a) "deny"
  else str_leb (pol_Name a) (pol_Name b).
Definition SortedPolicies (e : Effective) : list Policy := sort_by policy_leb (Policies (eff_Config e)).

Definition containsPort (ports : list Z) (port : Z) : bool := existsb (Z.eqb port) ports.
Definition network_contains (raw : string) (a : Addr) : bool :=
  match ParsePrefix raw with Some p => Contains p a | None => false end.
Definition addressInPrefixes (a : Addr) (prefixes : list string) : bool := existsb (λ raw, network_contains raw a) prefixes.

Definition isTrustedService (e : Effective) (protocol : string) (port : Z) : bool :=
  existsb (λ name, match eff_Svcs e !! name with
                   | Some s => String.eqb (svc_Protocol s) protocol &&
                               (String.eqb protocol "icmp" || containsPort (svc_Ports s) port)
                   | None => false
                   end) (TrustedServices (Runtime (eff_Config e))).

Definition is_host (s : string) : bool := String.eqb s "" || String.eqb s "host".
Definition sourceZone (e : Effective) (raw : string) : string :=
  if is_host raw then "host"
  else if bool_decide (is_Some (eff_Zones e !! raw)) then raw
  else match ParseAddr raw with
       | None => "unknown"
       | Some a =>
           match List.find (λ z, addressInPrefixes a (zone_Networks z)) (Zones (eff_Config e)) with
           | Some z => zone_Name z
           | None =>
               match List.find (λ i, addressInPrefixes a (in_CIDRs i) && negb (String.eqb (in_Zone i) ""))
                       (Interfaces (eff_Config e)) with
               | Some i => in_Zone i
               | None => "unknown"
               end
           end
       end.

Definition zoneMatches (want actual raw : string) : bool :=
  String.eqb want "any" || String.eqb want actual || String.eqb want "host" && is_host raw.
Definition destMatches (want actual : string) (e : Effective) : bool :=
  String.eqb want "any" || String.eqb want actual || String.eqb want "host" && is_host actual ||
  match eff_Zones e !! want, ParseAddr actual with
  | Some z, Some a => addressInPrefixes a (zone_Networks z)
  | _, _ => false
  end.

(** The body of the policy loop: whether the policy decides the flow. *)
Definition service_matches (e : Effective) (p : Policy) (q : Query) : bool :=
  match eff_Svcs e !! pol_Service p with
  | None => false
  | Some s =>
      (String.eqb (svc_Protocol s) "any" || String.eqb (svc_Protocol s) (q_Protocol q)) &&
      (String.eqb (svc_Protocol s) "any" || String.eqb (svc_Protocol s) "icmp" || containsPort (svc_Ports s) (q_Port q))
  end.
Definition policy_matches (e : Effective) (q : Query) (srcZone : string) (p : Policy) : bool :=
  is_one_of (pol_Action p) ["allow"; "deny"] && zoneMatches (pol_From p) srcZone (q_From q) &&
  destMatches (pol_To p) (q_To q) e && service_matches e p q.

Definition when (a : option Addr) (p : Addr → bool) : bool := match a with Some a => p a | None => false end.
Definition ExplainEffective (e : Effective) (q : Query) (rt : RuntimeContext) : Decision :=
  let srcZone := sourceZone e (q_From q) in
  let dest := q_To q in
  let from := ParseAddr (q_From q) in
  let to := ParseAddr (q_To q) in
  let decide_ action reason rule := mkDecision action None srcZone dest reason rule in
  if when from IsLoopback || when to IsLoopback
  then decide_ "allow" "loopback traffic is explicitly allowed" "nftfw:loopback"
  else if String.eqb (IPv6Mode (System (eff_Config e))) "disabled" && (when from Is6 || when to Is6)
  then decide_ "deny" "IPv6 mode is disabled" "nftfw:ipv6-mode-disabled"
  else if when from (λ a, addressInPrefixes a (BlockedPrefixes rt))
  then decide_ "deny" "source address has an active block claim" "nftfw:block-source"
  else if when to (λ a, addressInPrefixes a (BlockedPrefixes rt))
  then decide_ "deny" "destination address has an active block claim" "nftfw:block-destination"
  else if String.eqb (q_To q) "host" && when from (λ a, addressInPrefixes a (TrustedPrefixes rt)) &&
          isTrustedService e (q_Protocol q) (q_Port q)
  then decide_ "allow" "source has an active temporary access lease for this trusted service" "nftfw:trusted-services"
  else match List.find (policy_matches e q srcZone) (SortedPolicies e) with
       | Some p =>
           mkDecision (pol_Action p) (Some p) srcZone dest
             (sprintf "%s -> %s, service %s, action %s" [ArgS (pol_From p); ArgS (pol_To p); ArgS (pol_Service p); ArgS (pol_Action p)])
             ("nftfw-policy:" +:+ pol_Name p)
       | None => decide_ "deny" "no allow policy matched; default deny" "nftfw:default-deny"
       end.
Definition Explain (e : Effective) (q : Query) : Decision := ExplainEffective e q (mkContext [] []).

Example explain_lan : d_Rule (Explain (effective sample) (mkQuery "192.168.10.9" "host" "tcp" 22)) = "nftfw-policy:lan-ssh".
Proof. vm_compute. reflexivity. Qed.
Example explain_wan : d_Rule (Explain (effective sample) (mkQuery "198.51.100.9" "host" "tcp" 22)) = "nftfw:default-deny".
Proof. vm_compute. reflexivity. Qed.

(** ** The tables of a validated configuration *)

Lemma key_unique {A} (key : A → string) l x y : NoDup (map key l) → x ∈ l → y ∈ l → key x = key y → x = y.
Proof.
  intros Hn [i Hi]%list_elem_of_lookup [j Hj]%list_elem_of_lookup E.
  assert (i = j) as ->; [|congruence]. eapply (NoDup_lookup (map key l)); [done|..]; rewrite list_lookup_fmap.
  - by rewrite Hi. - by rewrite Hj, E.
Qed.
Lemma zone_map_lookup l n z : NoDup (map zone_Name l) → zone_map l !! n = Some z ↔ z ∈ l ∧ zone_Name z = n.
Proof.
  intros Hn. unfold zone_map. rewrite foldl_insert_lookup; [|intros x y; by apply key_unique]. rewrite lookup_empty. naive_solver.
Qed.
Lemma service_map_lookup l n s : NoDup (map svc_Name l) → service_map l !! n = Some s ↔ s ∈ l ∧ svc_Name s = n.
Proof.
  intros Hn. unfold service_map. rewrite foldl_insert_lookup; [|intros x y; by apply key_unique]. rewrite lookup_empty. naive_solver.
Qed.

(** ** Sorted policies

    The code's comparison orders the actions allow and deny; this total order agrees
    with it on them. *)
Definition is_deny (p : Policy) : bool := String.eqb (pol_Action p) "deny".
Definition deny_leb (a b : Policy) : bool :=
  if is_deny a then negb (is_deny b) || str_leb (pol_Name a) (pol_Name b)
  else negb (is_deny b) && str_leb (pol_Name a) (pol_Name b).
Lemma deny_leb_total a b : deny_leb a b = false → deny_leb b a = true.
Proof. unfold deny_leb. destruct (is_deny a), (is_deny b); simpl; try done; apply str_leb_total. Qed.
Lemma deny_leb_trans a b c : deny_leb a b = true → deny_leb b c = true → deny_leb a c = true.
Proof. unfold deny_leb. destruct (is_deny a), (is_deny b), (is_deny c); simpl; try done; apply str_leb_trans. Qed.
Lemma policy_leb_deny a b : pol_Action a ∈ ["allow"; "deny"] → pol_Action b ∈ ["allow"; "deny"] → policy_leb a b = deny_leb a b.
Proof.
  unfold policy_leb, deny_leb, is_deny. rewrite !elem_of_cons, !elem_of_nil.
  intros [-> |[-> |[]]] [-> |[-> |[]]]; reflexivity.
Qed.

Lemma SortedPolicies_perm e : SortedPolicies e ≡ₚ Policies (eff_Config e).
Proof. apply sort_by_perm. Qed.
Lemma SortedPolicies_sorted e : valid_config (eff_Config e) → StronglySorted (λ a b, deny_leb a b = true) (SortedPolicies e).
Proof.
  intros Hv. unfold SortedPolicies. rewrite (sort_by_ext _ deny_leb).
  - apply sort_by_sorted; [apply deny_leb_total|apply deny_leb_trans].
  - intros a b Ha Hb. pose proof (vc_policies _ Hv) as Hp. rewrite list.Forall_forall in Hp.
    apply policy_leb_deny; by eapply po_action, Hp.
Qed.

(** ** What a decision means *)

Lemma find_sorted {A} (leb : A → A → bool) (f : A → bool) l :
  (∀ x y, leb x y = false → leb y x = true) → StronglySorted (λ a b, leb a b = true) l →
  match List.find f l with
  | Some p => (p ∈ l ∧ f p = true) ∧ ∀ x, x ∈ l → f x = true → leb p x = true
  | None => ∀ x, x ∈ l → f x = false
  end.
Proof.
  intros Ht. induction 1 as [|p l Hl IH Hp]; simpl; [set_solver|]. destruct (f p) eqn:E.
  - split; [split; [by left|done]|]. intros x [->|Hx]%elem_of_cons _.
    + destruct (leb p p) eqn:Ep; [done|]. by rewrite (Ht _ _ Ep) in Ep.
    + rewrite list.Forall_forall in Hp. by apply Hp.
  - destruct (List.find f l) as [y|].
    + destruct IH as [[Hy1 Hy2] IH]. split; [split; [by right|done]|]. intros x [->|Hx]%elem_of_cons Hm; [congruence|by apply IH].
    + intros x [->|Hx]%elem_of_cons; [done|by apply IH].
Qed.

Section explained.
Context (c : Config) (q : Query) (rt : RuntimeContext) (Hv : valid_config c).
Let e : Effective := effective c.
Let matching (p : Policy) : Prop := p ∈ Policies c ∧ policy_matches e q (sourceZone e (q_From q)) p = true.

Lemma first_match : match List.find (policy_matches e q (sourceZone e (q_From q))) (SortedPolicies e) with
  | Some p => matching p ∧ ∀ x, matching x → deny_leb p x = true
  | None => ∀ x, ¬ matching x
  end.
Proof.
  pose proof (find_sorted _ (policy_matches e q (sourceZone e (q_From q))) _ deny_leb_total (SortedPolicies_sorted e Hv)) as H.
  assert (∀ x, x ∈ SortedPolicies e ↔ x ∈ Policies c) as Hp by (intros x; apply elem_of_sort_by).
  unfold matching. destruct (List.find _ (SortedPolicies e)) as [p|].
  - destruct H as [[H1%Hp H2] H3]. split; [done|]. intros x [Hx1%Hp Hx2]. by apply H3.
  - intros x [Hx1%Hp Hx2]. rewrite H in Hx2; done.
Qed.

Lemma matching_action p : matching p → pol_Action p = "allow" ∨ pol_Action p = "deny".
Proof.
  intros [Hp _]. pose proof (vc_policies _ Hv) as H. rewrite list.Forall_forall in H. pose proof (po_action _ _ (H p Hp)). set_solver.
Qed.

Definition loopback : Prop := when (ParseAddr (q_From q)) IsLoopback = true ∨ when (ParseAddr (q_To q)) IsLoopback = true.
Definition ipv6_off : Prop :=
  IPv6Mode (System c) = "disabled" ∧ (when (ParseAddr (q_From q)) Is6 = true ∨ when (ParseAddr (q_To q)) Is6 = true).
Definition blocked (text : string) : Prop := ∃ a, ParseAddr text = Some a ∧ addressInPrefixes a (BlockedPrefixes rt) = true.
Definition leased : Prop :=
  q_To q = "host" ∧ (∃ a, ParseAddr (q_From q) = Some a ∧ addressInPrefixes a (TrustedPrefixes rt) = true) ∧
  isTrustedService e (q_Protocol q) (q_Port q) = true.

Lemma when_true (a : option Addr) p : when a p = true ↔ ∃ x, a = Some x ∧ p x = true.
Proof. destruct a; simpl; naive_solver. Qed.

Lemma explain_allows : d_Action (ExplainEffective e q rt) = "allow" ↔
  loopback ∨ (¬ ipv6_off ∧ ¬ blocked (q_From q) ∧ ¬ blocked (q_To q) ∧
    (leased ∨ (∃ p, matching p ∧ pol_Action p = "allow") ∧ ¬ ∃ p, matching p ∧ pol_Action p = "deny")).
Proof.
  unfold ExplainEffective, loopback, ipv6_off, leased, blocked. cbv zeta. change (eff_Config e) with c.
  setoid_rewrite <-when_true.
  set (b1 := when _ IsLoopback). set (b2 := when _ IsLoopback). set (b3 := when _ Is6). set (b4 := when _ Is6).
  set (b5 := when _ _). set (b6 := when _ _). set (b7 := when _ _).
  assert (String.eqb (IPv6Mode (System c)) "disabled" = true ↔ IPv6Mode (System c) = "disabled") as E0 by apply String.eqb_eq.
  assert (String.eqb (q_To q) "host" = true ↔ q_To q = "host") as E1 by apply String.eqb_eq.
  destruct b1; simpl; [naive_solver|]. destruct b2; simpl; [naive_solver|].
  destruct (String.eqb (IPv6Mode (System c)) "disabled" && (b3 || b4)) eqn:E2; simpl.
  { apply andb_true_iff in E2 as [?%E0 ?%orb_true_iff]. naive_solver. }
  assert (¬ (IPv6Mode (System c) = "disabled" ∧ (b3 = true ∨ b4 = true))) as E2'.
  { rewrite <-E0, <-orb_true_iff, <-andb_true_iff, E2. done. }
  destruct b5; simpl; [naive_solver|]. destruct b6; simpl; [naive_solver|].
  destruct (String.eqb (q_To q) "host" && b7 && isTrustedService e (q_Protocol q) (q_Port q)) eqn:E3; simpl.
  { apply andb_true_iff in E3 as [[?%E1 ?]%andb_true_iff ?]. naive_solver. }
  assert (¬ (q_To q = "host" ∧ b7 = true ∧ isTrustedService e (q_Protocol q) (q_Port q) = true)) as E3'.
  { rewrite <-E1. intros (H1 & H2 & H3). by rewrite H1, H2, H3 in E3. }
  pose proof first_match as Hf. destruct (List.find _ _) as [p|]; simpl; [|naive_solver].
  destruct Hf as [Hm Hle]. pose proof (matching_action p Hm) as Ha. unfold deny_leb, is_deny in Hle.
  split; [|destruct Ha as [Ha|Ha]; [done|naive_solver]]. intros Ha'. right. split; [done|]. split; [done|]. split; [done|]. right. split; [by eauto|].
  intros (x & Hx & Hd). specialize (Hle x Hx). rewrite Ha', Hd in Hle. discriminate.
Qed.

End explained.
