(* ===== verification/Snapshot.v ===== *)
(** The durable values of the commit protocol (internal/state/active.go): the
    enforcement pointer, the immutable generation snapshot, their canonical JSON
    encoding and their validation. *)

From S2P Require Import Prelude GoStrings GoTime Sha256 Ledger.
From Stdlib Require Import Ascii String.
Local Open Scope string_scope.
Local Open Scope N_scope.
Local Open Scope host_scope.

Definition activeMarkerName : string := "enforcement-enabled".
Definition maxActiveSnapshot : N := 33554432.
Definition pointerSchema : string := "nftfw.enforcement-pointer.v1".
Definition snapshotSchema : string := "nftfw.generation-snapshot.v1".

(** ** Data *)

Record EnforcementPointer := mkPointer {
  ptr_Schema : string;
  ptr_Generation : N;
  ptr_SnapshotChecksum : string;
  ptr_PolicyChecksum : string
}.
#[export] Instance EnforcementPointer_eq_dec : EqDecision EnforcementPointer.
Proof. solve_decision. Defined.

Record GenerationSnapshot := mkSnapshot {
  snap_Schema : string;
  snap_Generation : N;
  snap_Checksum : string;
  snap_Script : string;
  snap_Provenance : list Assignment;
  snap_Previous : option EnforcementPointer;
  snap_BootID : string
}.

#[export] Instance GenerationSnapshot_eq_dec : EqDecision GenerationSnapshot.
Proof. solve_decision. Defined.

(** ** Checksums *)

(** [validChecksum]: the hexadecimal form of 32 bytes. *)
Definition validChecksum (checksum : string) : bool :=
  match hex_decode checksum with
  | Some l => (List.length l =? 32)%nat
  | None => false
  end.

(** [equalBytes]: the constant-time comparison, folding the differences. *)
Definition equalBytes (a b : list N) : bool :=
  if negb (List.length a =? List.length b)%nat then false
  else foldl (λ diff '(x, y), N.lor diff (N.lxor x y)) 0 (zip a b) =? 0.

Definition validScriptChecksum (script checksum : string) : bool :=
  if negb (validChecksum checksum) then false
  else match hex_decode checksum with
       | Some want => equalBytes (sha256 script) want
       | None => false
       end.

(** ** Pointers *)

(** [EnforcementPointer.valid] *)
Definition ptr_valid (p : EnforcementPointer) : bool :=
  String.eqb (ptr_Schema p) pointerSchema && (0 <? ptr_Generation p) &&
  validChecksum (ptr_SnapshotChecksum p) && validChecksum (ptr_PolicyChecksum p).

(** [EnforcementPointer.Equal]; [None] is the nil pointer. *)
Definition ptr_Equal (p : EnforcementPointer) (other : option EnforcementPointer) : bool :=
  match other with
  | Some q =>
      String.eqb (ptr_Schema p) (ptr_Schema q) && (ptr_Generation p =? ptr_Generation q) &&
      String.eqb (ptr_SnapshotChecksum p) (ptr_SnapshotChecksum q) &&
      String.eqb (ptr_PolicyChecksum p) (ptr_PolicyChecksum q)
  | None => false
  end.

(** ** Canonical JSON, as [encoding/json] marshals these structures *)

Definition hex2 (n : N) : string := hex_encode [n].
Definition bslash : ascii := ascii_of_N 92.
Definition dquote : ascii := ascii_of_N 34.

Definition escape_ascii (c : ascii) : list ascii :=
  let n := code c in
  if n =? 34 then [bslash; dquote]
  else if n =? 92 then [bslash; bslash]
  else if n =? 8 then [bslash; "b"%char]
  else if n =? 9 then [bslash; "t"%char]
  else if n =? 10 then [bslash; "n"%char]
  else if n =? 12 then [bslash; "f"%char]
  else if n =? 13 then [bslash; "r"%char]
  else if (n <? 32) || (n =? 60) || (n =? 62) || (n =? 38)
  then bslash :: chars ("u00" +:+ hex2 n)
  else [c].

Definition replacement_char : list ascii := bslash :: chars "ufffd".

Definition cont : ascii → bool := in_range 0x80 0xbf.
Definition utf8_two (a b : ascii) : bool := in_range 0xc2 0xdf a && cont b.
Definition utf8_three (a b c : ascii) : bool :=
  ((code a =? 0xe0) && in_range 0xa0 0xbf b || (in_range 0xe1 0xec a || in_range 0xee 0xef a) && cont b
   || (code a =? 0xed) && in_range 0x80 0x9f b) && cont c.
Definition utf8_four (a b c d : ascii) : bool :=
  ((code a =? 0xf0) && in_range 0x90 0xbf b || in_range 0xf1 0xf3 a && cont b
   || (code a =? 0xf4) && in_range 0x80 0x8f b) && cont c && cont d.

(** U+2028 and U+2029 are escaped; other well-formed sequences are copied. *)
Definition escape_three (a b c : ascii) : list ascii :=
  if (code a =? 0xe2) && (code b =? 0x80) && ((code c =? 0xa8) || (code c =? 0xa9))
  then bslash :: chars (if code c =? 0xa8 then "u2028" else "u2029")
  else [a; b; c].

Fixpoint escape (l : list ascii) : list ascii :=
  match l with
  | [] => []
  | a :: l1 =>
      if code a <? 0x80 then (escape_ascii a ++ escape l1)%list
      else match l1 with
           | [] => replacement_char
           | b :: l2 =>
               if utf8_two a b then a :: b :: escape l2
               else match l2 with
                    | [] => (replacement_char ++ escape l1)%list
                    | c :: l3 =>
                        if utf8_three a b c then (escape_three a b c ++ escape l3)%list
                        else match l3 with
                             | [] => (replacement_char ++ escape l1)%list
                             | d :: l4 =>
                                 if utf8_four a b c d then a :: b :: c :: d :: escape l4
                                 else (replacement_char ++ escape l1)%list
                             end
                    end
           end
  end.

Definition quote_with (body : string) : string := String dquote (body +:+ String dquote EmptyString).
Definition json_string (s : string) : string := quote_with (of_chars (escape (chars s))).
Definition json_bool (b : bool) : string := if b then "true" else "false".
Definition json_time (t : time) : string := quote_with (format_rfc3339nano t).
Definition json_field (name value : string) : string := quote_with name +:+ ":" +:+ value.
Definition json_object (fs : list string) : string := "{" +:+ String.concat "," fs +:+ "}".
Definition json_array (xs : list string) : string := "[" +:+ String.concat "," xs +:+ "]".

Definition json_assignment (a : Assignment) : string :=
  json_object ([json_field "name" (json_string (Name a)); json_field "id" (pretty (ID a));
                json_field "retired" (json_bool (Retired a));
                json_field "created_at" (json_time (CreatedAt a))] ++
               match RetiredAt a with Some t => [json_field "retired_at" (json_time t)] | None => [] end)%list.

Definition json_pointer (p : EnforcementPointer) : string :=
  json_object [json_field "schema" (json_string (ptr_Schema p));
               json_field "generation" (pretty (ptr_Generation p));
               json_field "snapshot_checksum" (json_string (ptr_SnapshotChecksum p));
               json_field "policy_checksum" (json_string (ptr_PolicyChecksum p))].

(** [encodeGenerationSnapshot]: the marshalled structure and a newline. *)
Definition encodeGenerationSnapshot (s : GenerationSnapshot) : string :=
  json_object ([json_field "schema" (json_string (snap_Schema s));
                json_field "generation" (pretty (snap_Generation s));
                json_field "checksum" (json_string (snap_Checksum s));
                json_field "script" (json_string (snap_Script s));
                json_field "provenance" (json_array (map json_assignment (snap_Provenance s)))] ++
               match snap_Previous s with Some p => [json_field "previous" (json_pointer p)] | None => [] end ++
               [json_field "boot_id" (json_string (snap_BootID s))])%list +:+ newline.

(** [GenerationSnapshot.Pointer] *)
Definition snap_Pointer (s : GenerationSnapshot) : EnforcementPointer :=
  mkPointer pointerSchema (snap_Generation s) (sha256_hex (encodeGenerationSnapshot s)) (snap_Checksum s).

(** ** [validateSnapshot] *)

Fixpoint validate_manifest (names : gset string) (ids : gset N) (l : list Assignment) : bool :=
  match l with
  | [] => true
  | a :: l' =>
      if String.eqb (Name a) "" || (ID a <? MinID) || (MaxID <? ID a) ||
         bool_decide (Name a ∈ names) || bool_decide (ID a ∈ ids)
      then false
      else validate_manifest ({[Name a]} ∪ names) ({[ID a]} ∪ ids) l'
  end.

Definition validateSnapshot (s : GenerationSnapshot) : option err :=
  if negb (String.eqb (snap_Schema s) snapshotSchema) || (snap_Generation s =? 0)
  then Some (Errorf "generation snapshot schema or id is invalid" [])
  else if negb (validScriptChecksum (snap_Script s) (snap_Checksum s))
  then Some (Errorf "generation snapshot script checksum is invalid" [])
  else if match snap_Previous s with
          | Some p => negb (ptr_valid p) || (ptr_Generation p =? snap_Generation s)
          | None => false
          end
  then Some (Errorf "generation snapshot prior pointer is invalid" [])
  else if String.eqb (snap_BootID s) ""
  then Some (Errorf "generation snapshot boot id is empty" [])
  else match snap_Provenance s with
       | [] => Some (Errorf "generation snapshot provenance manifest is empty" [])
       | l => if validate_manifest ∅ ∅ l then None
              else Some (Errorf "generation snapshot provenance manifest is invalid" [])
       end.

(** ** Lemmas *)

Lemma ptr_Equal_Some p q : ptr_Equal p (Some q) = true ↔ p = q.
Proof.
  unfold ptr_Equal. rewrite !andb_true_iff, !String.eqb_eq, N.eqb_eq.
  destruct p, q; simpl. naive_solver.
Qed.

Lemma ptr_Equal_true p o : ptr_Equal p o = true ↔ o = Some p.
Proof. destruct o as [q|]; [rewrite ptr_Equal_Some; naive_solver|done]. Qed.

Lemma validChecksum_sha256 s : validChecksum (sha256_hex s) = true.
Proof. unfold validChecksum. by rewrite hex_decode_sha256_hex, length_sha256. Qed.

Lemma lor_lxor_fold d l : foldl (λ diff '(x, y), N.lor diff (N.lxor x y)) d l = 0 ↔
  d = 0 ∧ Forall (λ (p : N * N), p.1 = p.2) l.
Proof.
  revert d. induction l as [|[x y] l IH]; intros d; simpl; [naive_solver|].
  rewrite IH, Forall_cons, N.lor_eq_0_iff, N.lxor_eq_0_iff. tauto.
Qed.

Lemma zip_diag (a b : list N) : List.length a = List.length b → Forall (λ (p : N * N), p.1 = p.2) (zip a b) → a = b.
Proof.
  revert b. induction a as [|x a IH]; intros [|y b]; simpl; try done.
  intros [= Hl] [Hxy Hf]%Forall_cons. simpl in Hxy. subst y. f_equal. by apply IH.
Qed.

Lemma equalBytes_spec a b : equalBytes a b = true ↔ a = b.
Proof.
  unfold equalBytes. destruct (Nat.eqb_spec (List.length a) (List.length b)) as [Hl|Hl]; simpl.
  - rewrite N.eqb_eq, lor_lxor_fold. split; [intros [_ ?]; by apply zip_diag|].
    intros ->. split; [done|]. clear Hl. induction b; simpl; by constructor.
  - split; [done|]. by intros ->.
Qed.

(** The checksum the compiler attaches to a script is accepted. *)
Lemma validScriptChecksum_sha256 s : validScriptChecksum s (sha256_hex s) = true.
Proof.
  unfold validScriptChecksum. rewrite validChecksum_sha256. simpl.
  rewrite hex_decode_sha256_hex. by apply equalBytes_spec.
Qed.

Lemma ptr_valid_snap_Pointer s : validateSnapshot s = None → ptr_valid (snap_Pointer s) = true.
Proof.
  unfold validateSnapshot, ptr_valid, snap_Pointer. simpl.
  destruct (negb _ || (snap_Generation s =? 0)) eqn:E1; [done|].
  apply orb_false_iff in E1 as [_ E1%N.eqb_neq].
  destruct (validScriptChecksum _ _) eqn:E2; [|done].
  intros _. rewrite validChecksum_sha256. unfold validScriptChecksum in E2.
  destruct (validChecksum (snap_Checksum s)); [|done].
  rewrite !andb_true_r. simpl. apply N.ltb_lt. lia.
Qed.

Lemma validateSnapshot_generation s : validateSnapshot s = None → snap_Generation s ≠ 0.
Proof.
  unfold validateSnapshot. destruct (negb _ || (snap_Generation s =? 0)) eqn:E1; [done|].
  by apply orb_false_iff in E1 as [_ E1%N.eqb_neq].
Qed.
