(* ===== verification/Host.v ===== *)
(** The host the firewall daemon runs on: the state its components share.  The
    generation database, the immutable generation files, the enforcement pointer
    (as processes see it and as stable storage holds it), the provenance ledger,
    the kernel ruleset, the clock and the boot identity.  Every system call goes
    through [sys_read] or [sys_write], which log it and may fail or be the point
    where the process dies. *)

From S2P Require Import Prelude GoStrings GoTime Sha256 Claims Ledger Snapshot.
From Stdlib Require Import Ascii String.
Local Open Scope string_scope.
Local Open Scope N_scope.
Local Open Scope host_scope.

(** ** Generations (internal/state/store.go) *)

(** The values the CHECK constraint of the [status] column admits. *)
Inductive status := Pending | Applied | CommitPrepared | Committed | RolledBack.
#[export] Instance status_eq_dec : EqDecision status.
Proof. solve_decision. Defined.

Definition status_name (s : status) : string :=
  match s with
  | Pending => "pending" | Applied => "applied" | CommitPrepared => "commit_prepared"
  | Committed => "committed" | RolledBack => "rolled_back"
  end.

(** A candidate that is neither committed nor rolled back. *)
Definition in_flight (s : status) : bool :=
  match s with Pending | Applied | CommitPrepared => true | _ => false end.

Record Generation := mkGeneration {
  gen_ID : N;
  gen_Checksum : string;
  gen_SnapshotChecksum : string;
  gen_ObservedHash : string;
  gen_ScriptPath : string;
  gen_SnapshotPath : string;
  gen_Status : status;
  gen_CreatedAt : time;
  gen_RollbackDeadline : option time;
  gen_PreviousID : option N;
  gen_BootID : string;
  gen_PreparedAt : option time;
  gen_PreparedPriorID : option N;
  gen_PreparedPriorSum : string;
  gen_PreparedPriorSnapshotSum : string
}.

(** ** The system-call log *)

Inductive event :=
  | EvLock | EvUnlock
  | EvDBRead (q : string) | EvDBWrite (q : string) (id : N)
  | EvSyncDB
  | EvFSRead (what : string) | EvFSWrite (what : string) | EvFSSync (what : string)
  | EvPointerRead | EvPointerTemp (p : EnforcementPointer) | EvPointerRename (p : EnforcementPointer)
  | EvPointerSync | EvPointerClear
  | EvDeadlineRead (id : N)
  | EvGuard (what : string)
  | EvNftRead (what : string) | EvNftFile (script : string)
  | EvBootID.

(** ** The host

    The shared state proper, and what only one process sees of it: the clock's
    future answers and the log of the system calls made so far. *)

Record World (K : Type) := mkWorld {
  w_dir : string;                               (* Store.Dir *)
  w_gens : gmap N Generation;                   (* table generations *)
  w_audit : list AuditRow;                      (* table audit, newest first *)
  w_scripts : gmap N string;                    (* generations/<id>.nft *)
  w_snapshots : gmap N GenerationSnapshot;      (* generations/<id>.snapshot.json *)
  w_pointer : option EnforcementPointer;        (* enforcement-enabled *)
  w_durable : option EnforcementPointer;        (* its last fsynced directory entry *)
  w_tmp : option EnforcementPointer;            (* .enforcement-pointer-*.tmp *)
  w_prepared : bool;                            (* PreparedPointer.TempPath is set *)
  w_ledger : Ledger.Table;                      (* provenance-ledger.db *)
  w_kernel : K;                                 (* nftables *)
  w_first_use : bool;                           (* Backend.protectFirstUse *)
  w_boot_id : string;                           (* /proc/sys/kernel/random/boot_id *)
  w_claims : ClaimTables                        (* tables claims, integration_state, runtime_claim_publication *)
}.
Arguments mkWorld {K} _ _ _ _ _ _ _ _ _ _ _ _ _ _.
Arguments w_dir {K} _.
Arguments w_gens {K} _.
Arguments w_audit {K} _.
Arguments w_scripts {K} _.
Arguments w_snapshots {K} _.
Arguments w_pointer {K} _.
Arguments w_durable {K} _.
Arguments w_tmp {K} _.
Arguments w_prepared {K} _.
Arguments w_ledger {K} _.
Arguments w_kernel {K} _.
Arguments w_first_use {K} _.
Arguments w_boot_id {K} _.
Arguments w_claims {K} _.

Record Host (K : Type) := mkHost {
  h_world : World K;
  h_clock : list time;
  h_trace : list event                          (* newest first *)
}.
Arguments mkHost {K} _ _ _.
Arguments h_world {K} _.
Arguments h_clock {K} _.
Arguments h_trace {K} _.

Section host.
Context {K : Type}.
Implicit Types (w : World K) (h : Host K).

Definition set_gens (m : gmap N Generation) w : World K :=
  mkWorld (w_dir w) m (w_audit w) (w_scripts w) (w_snapshots w) (w_pointer w) (w_durable w)
    (w_tmp w) (w_prepared w) (w_ledger w) (w_kernel w) (w_first_use w) (w_boot_id w) (w_claims w).
Definition set_audit (a : list AuditRow) w : World K :=
  mkWorld (w_dir w) (w_gens w) a (w_scripts w) (w_snapshots w) (w_pointer w) (w_durable w)
    (w_tmp w) (w_prepared w) (w_ledger w) (w_kernel w) (w_first_use w) (w_boot_id w) (w_claims w).
Definition set_scripts (m : gmap N string) w : World K :=
  mkWorld (w_dir w) (w_gens w) (w_audit w) m (w_snapshots w) (w_pointer w) (w_durable w)
    (w_tmp w) (w_prepared w) (w_ledger w) (w_kernel w) (w_first_use w) (w_boot_id w) (w_claims w).
Definition set_snapshots (m : gmap N GenerationSnapshot) w : World K :=
  mkWorld (w_dir w) (w_gens w) (w_audit w) (w_scripts w) m (w_pointer w) (w_durable w)
    (w_tmp w) (w_prepared w) (w_ledger w) (w_kernel w) (w_first_use w) (w_boot_id w) (w_claims w).
Definition set_pointers (live durable tmp : option EnforcementPointer) w : World K :=
  mkWorld (w_dir w) (w_gens w) (w_audit w) (w_scripts w) (w_snapshots w) live durable
    tmp (w_prepared w) (w_ledger w) (w_kernel w) (w_first_use w) (w_boot_id w) (w_claims w).
Definition set_prepared (b : bool) w : World K :=
  mkWorld (w_dir w) (w_gens w) (w_audit w) (w_scripts w) (w_snapshots w) (w_pointer w) (w_durable w)
    (w_tmp w) b (w_ledger w) (w_kernel w) (w_first_use w) (w_boot_id w) (w_claims w).
Definition set_kernel (k : K) (guard : bool) w : World K :=
  mkWorld (w_dir w) (w_gens w) (w_audit w) (w_scripts w) (w_snapshots w) (w_pointer w) (w_durable w)
    (w_tmp w) (w_prepared w) (w_ledger w) k guard (w_boot_id w) (w_claims w).

Definition set_tables (t : Tables) w : World K :=
  mkWorld (w_dir w) (w_gens w) t.2 (w_scripts w) (w_snapshots w) (w_pointer w) (w_durable w)
    (w_tmp w) (w_prepared w) (w_ledger w) (w_kernel w) (w_first_use w) (w_boot_id w) t.1.
Definition tables w : Tables := (w_claims w, w_audit w).

Definition on_world (f : World K → World K) h : Host K := mkHost (f (h_world h)) (h_clock h) (h_trace h).
Definition log (e : event) h : Host K := mkHost (h_world h) (h_clock h) (e :: h_trace h).

(** A logged system call without effect on the host's data. *)
Definition sys_read {A} (e : event) (f : World K → outcome A) : M (Host K) A :=
  io_write (λ h, (f (h_world h), log e h)).

(** A logged system call with an atomic effect.  When [f] refuses nothing changes. *)
Definition sys_write {A} (e : event) (f : World K → err + (A * World K)) : M (Host K) A :=
  io_write (λ h, match f (h_world h) with
                 | inl x => (Error x, log e h)
                 | inr (a, w) => (Ret a, log e (on_world (λ _, w) h))
                 end).

(** [time.Now]: any answer is possible; no system call is logged. *)
Definition read_clock : M (Host K) time := λ o h,
  match h_clock h with
  | [] => (Ret zero_time, o, h)
  | t :: c => (Ret t, o, mkHost (h_world h) c (h_trace h))
  end.

(** A process-local read of the world. *)
Definition peek {A} (f : World K → A) : M (Host K) A := gets (λ h, f (h_world h)).

(** ** Reasoning about worlds

    [wsafe I m P w]: [m] keeps [I] from a host in world [w] whatever the clock
    and the faults, and returns only values and worlds in [P]. *)

Definition wsafe {A} (I : World K → Prop) (m : M (Host K) A) (P : A → World K → Prop) (w : World K) : Prop :=
  ∀ c tr, safe (λ h, I (h_world h)) m (λ a h, P a (h_world h)) (mkHost w c tr).

Lemma wsafe_elim {A} I (m : M (Host K) A) P h : wsafe I m P (h_world h) →
  safe (λ h, I (h_world h)) m (λ a h, P a (h_world h)) h.
Proof. destruct h. intros H. apply H. Qed.

Lemma wsafe_final {A} I (m : M (Host K) A) P h o :
  wsafe I m P (h_world h) → I (h_world (final (m o h))).
Proof. intros H%wsafe_elim. apply (H o). Qed.

Lemma wsafe_ret_elim {A} I (m : M (Host K) A) P h o a :
  wsafe I m P (h_world h) → result (m o h) = Ret a → P a (h_world (final (m o h))).
Proof. intros H%wsafe_elim Hr. specialize (H o). simpl in H. rewrite Hr in H. apply H. Qed.

Lemma wsafe_mono {A} I (m : M (Host K) A) (P Q : A → World K → Prop) w :
  wsafe I m P w → (∀ a w', I w' → P a w' → Q a w') → wsafe I m Q w.
Proof. intros H HPQ c tr. eapply safe_mono; [apply H|]. simpl. eauto. Qed.

Lemma wsafe_inv_mono {A} I J (m : M (Host K) A) P w :
  (∀ w', I w' → J w') → wsafe I m P w → wsafe J m P w.
Proof. intros HIJ H c tr. eapply safe_inv_mono; [|apply H]. simpl. eauto. Qed.

Lemma wsafe_ret {A} I (a : A) P w : I w → P a w → wsafe I (ret a) P w.
Proof. intros ?? c tr. by apply safe_ret. Qed.
Lemma wsafe_throw {A} I e (P : A → World K → Prop) w : I w → wsafe I (throw e) P w.
Proof. intros ? c tr. by apply safe_throw. Qed.
Lemma wsafe_bind {A B} I (m : M (Host K) A) (f : A → M (Host K) B) P w :
  wsafe I m (λ a w', wsafe I (f a) P w') w → wsafe I (bind m f) P w.
Proof.
  intros H c tr. apply safe_bind. eapply safe_mono; [apply H|].
  intros a h _ H'. by apply wsafe_elim.
Qed.
(** What the failing part keeps may be stronger than what the whole keeps. *)
Lemma wsafe_catch {A} (I J : World K → Prop) (m : M (Host K) A) k P w :
  (∀ w', J w' → I w') → wsafe J m P w → (∀ e w', J w' → wsafe I (k e) P w') → wsafe I (catch m k) P w.
Proof.
  intros HJI H Hk c tr. apply safe_catch. intros o. specialize (H c tr o). simpl in *.
  destruct H as [HJ H]. split; [auto|].
  destruct (result (m o (mkHost w c tr))); [done| |done]. by apply wsafe_elim, Hk.
Qed.
Lemma wsafe_try {A} (I J : World K → Prop) (m : M (Host K) A) P Q w :
  (∀ w', J w' → I w') → wsafe J m Q w →
  (∀ a w', J w' → Q a w' → P (inr a) w') → (∀ e w', J w' → P (inl e) w') → wsafe I (try_ m) P w.
Proof.
  intros HJI H Hr He c tr. apply safe_try. intros o. specialize (H c tr o). simpl in *.
  destruct H as [HJ H]. split; [auto|].
  destruct (result (m o (mkHost w c tr))); auto.
Qed.
Lemma wsafe_sys_read {A} I e (f : World K → outcome A) P w :
  I w → (∀ a, f w = Ret a → P a w) → wsafe I (sys_read e f) P w.
Proof.
  intros H1 H2 c tr. apply safe_io_write; [done|done|]. simpl. intros a s' [= Hf <-]. auto.
Qed.
Lemma wsafe_sys_write {A} I e (f : World K → err + (A * World K)) P w :
  I w → (∀ a w', f w = inr (a, w') → I w' ∧ P a w') → wsafe I (sys_write e f) P w.
Proof.
  intros H1 H2 c tr. apply safe_io_write; simpl; [done| |].
  - destruct (f w) as [x|[a w']] eqn:E; [done|]. by apply (H2 a w').
  - intros a s'. destruct (f w) as [x|[a' w']] eqn:E; [done|]. intros [= -> <-]. by apply (H2 a w').
Qed.
Lemma wsafe_read_clock I P w : I w → (∀ t, P t w) → wsafe I read_clock P w.
Proof. intros H1 H2 c tr o. unfold read_clock. destruct c; simpl; auto. Qed.
Lemma wsafe_peek {A} I (f : World K → A) P w : I w → P (f w) w → wsafe I (peek f) P w.
Proof. intros ?? c tr. by apply safe_gets. Qed.
Lemma wsafe_modify I f P w : I (f w) → P tt (f w) → wsafe I (modify (on_world f)) P w.
Proof. intros ?? c tr. by apply safe_modify. Qed.
Lemma wsafe_require I b e P w : I w → (b = true → P tt w) → wsafe I (require b e) P w.
Proof. intros ?? c tr. by apply safe_require. Qed.
Lemma wsafe_lift_option {A} I (x : option A) e P w :
  I w → (∀ a, x = Some a → P a w) → wsafe I (lift_option x e) P w.
Proof. intros ?? c tr. by apply safe_lift_option. Qed.

(** A cleanup that keeps the invariant and every postcondition in use. *)
Lemma wsafe_finally {A} I (m : M (Host K) A) c P w :
  wsafe I m P w →
  (∀ (Q : World K → Prop) w', (∃ a, Q = P a) ∨ Q = (λ _, True) → I w' → Q w' →
     wsafe (λ w, I w ∧ Q w) c (λ _ _, True) w') →
  wsafe I (finally m c) P w.
Proof.
  intros H Hc cl tr. apply safe_finally_frame; [apply H|].
  intros Q s' HQ HI HQs o. destruct HQ as [[a ->]| ->].
  - pose proof (wsafe_final _ _ _ s' o (Hc (P a) (h_world s') (or_introl (ex_intro _ a eq_refl)) HI HQs)) as [? ?].
    done.
  - split; [|done].
    by pose proof (wsafe_final _ _ _ s' o (Hc (λ _, True) (h_world s') (or_intror eq_refl) HI Logic.I)) as [? _].
Qed.
End host.

(** One step of a [wsafe] goal, following the shape of the program. *)
Ltac wstep :=
  lazymatch goal with
  | |- wsafe _ (bind _ _) _ _ => apply wsafe_bind
  | |- wsafe _ (ret _) _ _ => apply wsafe_ret
  | |- wsafe _ (throw _) _ _ => apply wsafe_throw
  | |- wsafe _ (sys_read _ _) _ _ => apply wsafe_sys_read; [|let a := fresh "a" in intros a ?]
  | |- wsafe _ (sys_write _ _) _ _ =>
      apply wsafe_sys_write; [|let a := fresh "a" in let w := fresh "w" in intros a w ?]
  | |- wsafe _ read_clock _ _ => apply wsafe_read_clock; [|let t := fresh "t" in intros t]
  | |- wsafe _ (peek _) _ _ => apply wsafe_peek
  | |- wsafe _ (modify _) _ _ => apply wsafe_modify
  | |- wsafe _ (require _ _) _ _ => apply wsafe_require; [|intros ?]
  | |- wsafe _ (lift_option _ _) _ _ => apply wsafe_lift_option; [|let a := fresh "a" in intros a ?]
  | |- wsafe _ (match ?x with _ => _ end) _ _ => destruct x eqn:?
  end.
