(* ===== verification/Store.v ===== *)
(** The generation store (internal/state/store.go, active.go, boot.go): the
    transitions of the [generations] table, the immutable generation files, and
    the enforcement pointer with its prepare / rename / sync protocol. *)

From S2P Require Import Prelude GoStrings GoTime Sha256 Ledger Snapshot Claims Host.
From Stdlib Require Import Ascii String.
Local Open Scope string_scope.
Local Open Scope N_scope.
Local Open Scope host_scope.

Section store.
Context {K : Type}.
Abbreviation HM := (M (Host K)).
Implicit Types (w : World K).

(** ** Queries over the table *)

Abbreviation Gens := (gmap N Generation).

(** [SELECT ... WHERE p ORDER BY id DESC LIMIT 1] *)
Definition pick_latest (p : Generation → bool) (row : N * Generation) (best : option Generation) : option Generation :=
  if p row.2 then
    match best with
    | Some b => if gen_ID b <? gen_ID row.2 then Some row.2 else Some b
    | None => Some row.2
    end
  else best.
Definition select_latest (p : Generation → bool) (m : Gens) : option Generation :=
  foldr (pick_latest p) None (map_to_list m).

(** [scanGeneration]: the references of a row must be positive. *)
Definition scanGeneration (g : Generation) : outcome Generation :=
  if bool_decide (gen_PreviousID g = Some 0)
  then Error (Errorf "generation has an invalid previous generation reference" [])
  else if bool_decide (gen_PreparedPriorID g = Some 0)
  then Error (Errorf "generation has an invalid prepared prior generation reference" [])
  else Ret g.

Definition scan_row (r : option Generation) : outcome Generation :=
  match r with Some g => scanGeneration g | None => Error ErrNoRows end.

Definition Pending_ : HM Generation :=
  sys_read (EvDBRead "pending") (λ w, scan_row (select_latest (λ g, in_flight (gen_Status g)) (w_gens w))).

Definition LastKnownGood : HM Generation :=
  sys_read (EvDBRead "last-known-good")
    (λ w, scan_row (select_latest (λ g, bool_decide (gen_Status g = Committed)) (w_gens w))).

(** [Store.Generation] *)
Definition GenerationByID (id : N) : HM Generation :=
  sys_read (EvDBRead "generation") (λ w, scan_row (w_gens w !! id)).

(** [SELECT COALESCE(MAX(id),0)] plus one, in uint64. *)
Definition NextGeneration : HM N :=
  max <- sys_read (EvDBRead "max")
    (λ w, Ret (map_fold (λ id _ m, N.max id m) 0 (w_gens w))) ;;
  ret ((max + 1) mod 2 ^ 64).

(** ** Durability and the file system *)

Definition syncDatabase : HM unit := sys_read EvSyncDB (λ _, Ret tt).
Definition secureActiveDirectory : HM unit := sys_read (EvFSRead "state directory") (λ _, Ret tt).
Definition secureGenerationsDirectory : HM unit := sys_read (EvFSRead "generations directory") (λ _, Ret tt).

(** [fmt.Sprintf("%020d...", id)] under the generations directory. *)
Definition generation_path (suffix : string) (dir : string) (id : N) : string :=
  dir +:+ "/generations/" +:+ sprintf_0d 20 id +:+ suffix.
Definition script_path : string → N → string := generation_path ".nft".
Definition generationSnapshotPath : string → N → string := generation_path ".snapshot.json".

(** [writeImmutable]: the temporary file, its fsync, the exclusive link and the
    directory fsync; the link is the effect and fails when the name exists. *)
Definition write_script (id : N) (script : string) : HM unit :=
  sys_write (EvFSWrite "script")
    (λ w, match w_scripts w !! id with
          | Some _ => inl ErrIO
          | None => inr (tt, set_scripts (<[id := script]> (w_scripts w)) w)
          end) ;;
  sys_read (EvFSSync "generations") (λ _, Ret tt).
Definition write_snapshot (id : N) (s : GenerationSnapshot) : HM unit :=
  sys_write (EvFSWrite "snapshot")
    (λ w, match w_snapshots w !! id with
          | Some _ => inl ErrIO
          | None => inr (tt, set_snapshots (<[id := s]> (w_snapshots w)) w)
          end) ;;
  sys_read (EvFSSync "generations") (λ _, Ret tt).

(** [secureActiveFile] on a generation file: absent, or its contents. *)
Definition read_script_file (id : N) : HM string :=
  sys_read (EvFSRead "script")
    (λ w, match w_scripts w !! id with Some s => Ret s | None => Error ErrNotExist end).
Definition read_snapshot_file (id : N) : HM GenerationSnapshot :=
  sys_read (EvFSRead "snapshot")
    (λ w, match w_snapshots w !! id with Some s => Ret s | None => Error ErrNotExist end).

Definition throw_if (e : option err) : HM unit :=
  match e with Some e => throw e | None => ret tt end.

(** A snapshot file is the value it decodes to, so comparing the bytes of two
    files is comparing their values. *)
Definition WriteGenerationSnapshot (s : GenerationSnapshot) : HM string :=
  secureActiveDirectory ;;
  throw_if (validateSnapshot s) ;;
  require (N.of_nat (slen (encodeGenerationSnapshot s)) <=? maxActiveSnapshot)
    (Errorf "generation snapshot exceeds 32 MiB" []) ;;
  secureGenerationsDirectory ;;
  dir <- peek w_dir ;;
  existing <- try_ (read_snapshot_file (snap_Generation s)) ;;
  match existing with
  | inr old =>
      if bool_decide (old = s)
      then ret (generationSnapshotPath dir (snap_Generation s))
      else throw (Errorf "immutable generation snapshot %d already exists with different content" [ArgN (snap_Generation s)])
  | inl e =>
      if is_not_exist e
      then catch (write_snapshot (snap_Generation s) s)
             (λ e, throw (Wrapf "publish immutable generation snapshot: %w" [] e)) ;;
           ret (generationSnapshotPath dir (snap_Generation s))
      else throw e
  end.

Definition LoadGenerationSnapshot (id : N) : HM GenerationSnapshot :=
  secureActiveDirectory ;;
  require (negb (id =? 0)) (Errorf "generation snapshot id must be positive" []) ;;
  secureGenerationsDirectory ;;
  s <- read_snapshot_file id ;;
  throw_if (validateSnapshot s) ;;
  require (snap_Generation s =? id) (Errorf "generation snapshot filename/id mismatch" []) ;;
  ret s.

Definition validateSnapshotProvenance (s : GenerationSnapshot) : HM unit :=
  r <- sys_read (EvDBRead "provenance ledger")
         (λ w, Ret (ValidateRequired (w_ledger w) (snap_Provenance s))) ;;
  match r with
  | Some e => throw (Wrapf "validate generation provenance: %w" [] e)
  | None => ret tt
  end.

Definition LoadVerifiedGenerationSnapshot (id : N) : HM GenerationSnapshot :=
  s <- LoadGenerationSnapshot id ;;
  validateSnapshotProvenance s ;;
  ret s.

(** ** The enforcement pointer *)

(** [ReadEnforcementPointer]: [None] when the file is absent. *)
Definition ReadEnforcementPointer : HM (option EnforcementPointer) :=
  secureActiveDirectory ;;
  p <- sys_read EvPointerRead (λ w, Ret (w_pointer w)) ;;
  match p with
  | None => ret None
  | Some p => require (ptr_valid p) (Errorf "enforcement pointer is invalid" []) ;; ret (Some p)
  end.

(** [syncDirectory(root)]: every directory entry of the root reaches stable storage. *)
Definition syncRoot : HM unit :=
  sys_write EvPointerSync (λ w, inr (tt, set_pointers (w_pointer w) (w_pointer w) (w_tmp w) w)).

Definition remove_tmp : HM unit :=
  sys_write (EvFSWrite "remove temporary pointer")
    (λ w, match w_tmp w with
          | None => inl ErrNotExist
          | Some _ => inr (tt, set_pointers (w_pointer w) (w_durable w) None w)
          end).

(** The [PreparedPointer] value [PrepareEnforcementPointer] returns is the pointer;
    its temporary file is [w_tmp] and its [TempPath] is set when [w_prepared] is.
    The removal after a failed directory sync ignores its own error. *)
Definition PrepareEnforcementPointer (p : EnforcementPointer) : HM EnforcementPointer :=
  secureActiveDirectory ;;
  require (ptr_valid p) (Errorf "enforcement pointer is invalid" []) ;;
  sys_write (EvPointerTemp p)
    (λ w, inr (tt, set_pointers (w_pointer w) (w_durable w) (Some p) w)) ;;
  catch syncRoot (λ e, try_ remove_tmp ;; throw e) ;;
  modify (on_world (set_prepared true)) ;;
  ret p.

(** [CancelPreparedPointer]: nothing to do without a temporary path; an absent
    temporary file is not an error. *)
Definition CancelPreparedPointer : HM unit :=
  set <- peek w_prepared ;;
  if set : bool then
    removed <- try_ remove_tmp ;;
    match removed with
    | inl e => if is_not_exist e then ret tt else throw e
    | inr _ => syncRoot
    end
  else ret tt.

(** [PublishPreparedPointer]: the atomic rename is the first operation. *)
Definition PublishPreparedPointer (p : EnforcementPointer) : HM unit :=
  set <- peek w_prepared ;;
  require (set && ptr_valid p) (Errorf "prepared enforcement pointer is invalid" []) ;;
  sys_write (EvPointerRename p)
    (λ w, match w_tmp w with
          | Some q => inr (tt, set_pointers (Some q) (w_durable w) None w)
          | None => inl ErrNotExist
          end) ;;
  modify (on_world (set_prepared false)) ;;
  sys_read (EvFSSync "enforcement pointer") (λ _, Ret tt) ;;
  syncRoot.

(** [EnsurePublishedGenerationDurable] *)
Definition EnsurePublishedGenerationDurable (expected : EnforcementPointer) : HM GenerationSnapshot :=
  pointer <- ReadEnforcementPointer ;;
  require (ptr_Equal expected pointer) (Errorf "published enforcement pointer changed during recovery" []) ;;
  s <- LoadVerifiedGenerationSnapshot (ptr_Generation expected) ;;
  require (ptr_Equal (snap_Pointer s) pointer)
    (Errorf "published enforcement pointer does not match immutable snapshot" []) ;;
  sys_read (EvFSSync "snapshot") (λ _, Ret tt) ;;
  sys_read (EvFSSync "generations") (λ _, Ret tt) ;;
  sys_read (EvFSSync "enforcement pointer") (λ _, Ret tt) ;;
  syncRoot ;;
  ret s.

(** [LoadActiveSnapshot]: the script the pointer selects, when enforcement is enabled. *)
Definition LoadActiveSnapshot : HM (option string) :=
  pointer <- ReadEnforcementPointer ;;
  match pointer with
  | None => ret None
  | Some p =>
      s <- catch (LoadVerifiedGenerationSnapshot (ptr_Generation p))
             (λ e, throw (Wrapf "active generation snapshot: %w" [] e)) ;;
      require (ptr_Equal (snap_Pointer s) pointer)
        (Errorf "enforcement pointer does not match generation snapshot" []) ;;
      ret (Some (snap_Script s))
  end.

(** [ClearActive]: the marker and the legacy snapshot, absent files tolerated. *)
Definition ClearActive : HM unit :=
  secureActiveDirectory ;;
  sys_write EvPointerClear (λ w, inr (tt, set_pointers None (w_durable w) (w_tmp w) w)) ;;
  sys_read (EvFSWrite "remove legacy snapshot") (λ _, Ret tt) ;;
  syncRoot.

(** ** Boot identity *)

Definition bootIDPattern (s : string) : bool :=
  let g := fields_func (Ascii.eqb "-"%char) s in
  bool_decide (map slen g = [8; 4; 4; 4; 12]%nat) && forallb (all_chars lower_hex) g &&
  (slen s =? 36)%nat.

Definition CurrentBootID : HM string :=
  sys_read EvBootID (λ w, let value := trim_space (substring 0 128 (w_boot_id w)) in
    if bootIDPattern value then Ret value else Error (Errorf "kernel boot id is malformed" [])).

(** ** Audit (store.go) *)

Definition validateAuditRecord (actor event detail : string) : err + string :=
  if String.eqb actor "" || String.eqb event "" || (128 <? slen actor)%nat || (128 <? slen event)%nat
  then inl (Errorf "audit actor or event is invalid" [])
  else inr (if (4096 <? slen detail)%nat then substring 0 4096 detail else detail).

Definition write_audit (actor event detail : string) : HM unit :=
  sys_write (EvDBWrite event 0)
    (λ w, inr (tt, set_audit (insert_audit actor event detail (w_audit w)) w)).

Definition Audit (actor event detail : string) : HM unit :=
  match validateAuditRecord actor event detail with
  | inl e => throw e
  | inr detail => write_audit actor event detail
  end.

Definition AuditDurable (actor event detail : string) : HM unit :=
  match validateAuditRecord actor event detail with
  | inl e => throw e
  | inr detail => write_audit actor event detail ;; syncDatabase
  end.

(** ** Row transitions (store.go) *)

(** [UPDATE generations SET ... WHERE id=? AND p], in a transaction with the audit
    row [log]; [requireOneRow] turns an empty match into [sql.ErrNoRows]. *)
Definition update_row (p : Generation → bool) (f : Generation → Generation)
    (audit : list AuditRow → list AuditRow) (id : N) (w : World K) : err + (unit * World K) :=
  match w_gens w !! id with
  | Some g =>
      if p g then inr (tt, set_audit (audit (w_audit w)) (set_gens (<[id := f g]> (w_gens w)) w))
      else inl ErrNoRows
  | None => inl ErrNoRows
  end.

(** [requireOneRow]'s error is wrapped; the statement's own error is not. *)
Definition wrap_no_rows {A} (fmt : string) (m : HM A) : HM A :=
  catch m (λ e, throw (if is_no_rows e then Wrapf fmt [] e else e)).

(** [deadline != nil && !now.Before( *deadline)] *)
Definition expired (deadline : option time) : HM bool :=
  match deadline with
  | None => ret false
  | Some d => now <- read_clock ;; ret (negb (now <? d)%Z)
  end.

Definition has_status (l : list status) (g : Generation) : bool := bool_decide (gen_Status g ∈ l).

Definition with_status (st : status) (g : Generation) : Generation :=
  mkGeneration (gen_ID g) (gen_Checksum g) (gen_SnapshotChecksum g) (gen_ObservedHash g)
    (gen_ScriptPath g) (gen_SnapshotPath g) st (gen_CreatedAt g) (gen_RollbackDeadline g)
    (gen_PreviousID g) (gen_BootID g) (gen_PreparedAt g) (gen_PreparedPriorID g)
    (gen_PreparedPriorSum g) (gen_PreparedPriorSnapshotSum g).

Definition with_hash (hash : string) (g : Generation) : Generation :=
  mkGeneration (gen_ID g) (gen_Checksum g) (gen_SnapshotChecksum g) hash
    (gen_ScriptPath g) (gen_SnapshotPath g) (gen_Status g) (gen_CreatedAt g) (gen_RollbackDeadline g)
    (gen_PreviousID g) (gen_BootID g) (gen_PreparedAt g) (gen_PreparedPriorID g)
    (gen_PreparedPriorSum g) (gen_PreparedPriorSnapshotSum g).

(** [SET status=?,commit_prepared_at=NULL] *)
Definition unprepared (st : status) (g : Generation) : Generation :=
  mkGeneration (gen_ID g) (gen_Checksum g) (gen_SnapshotChecksum g) (gen_ObservedHash g)
    (gen_ScriptPath g) (gen_SnapshotPath g) st (gen_CreatedAt g) (gen_RollbackDeadline g)
    (gen_PreviousID g) (gen_BootID g) None (gen_PreparedPriorID g)
    (gen_PreparedPriorSum g) (gen_PreparedPriorSnapshotSum g).

(** [SET status='committed',rollback_deadline=NULL,commit_prepared_at=NULL] *)
Definition finalized (g : Generation) : Generation :=
  mkGeneration (gen_ID g) (gen_Checksum g) (gen_SnapshotChecksum g) (gen_ObservedHash g)
    (gen_ScriptPath g) (gen_SnapshotPath g) Committed (gen_CreatedAt g) None
    (gen_PreviousID g) (gen_BootID g) None (gen_PreparedPriorID g)
    (gen_PreparedPriorSum g) (gen_PreparedPriorSnapshotSum g).

(** [SET status='commit_prepared'] with the prior pointer's tuple. *)
Definition prepared (now : time) (prior : option EnforcementPointer) (g : Generation) : Generation :=
  mkGeneration (gen_ID g) (gen_Checksum g) (gen_SnapshotChecksum g) (gen_ObservedHash g)
    (gen_ScriptPath g) (gen_SnapshotPath g) CommitPrepared (gen_CreatedAt g) (gen_RollbackDeadline g)
    (gen_PreviousID g) (gen_BootID g) (Some now) (ptr_Generation <$> prior)
    (match prior with Some p => ptr_PolicyChecksum p | None => "" end)
    (match prior with Some p => ptr_SnapshotChecksum p | None => "" end).

Definition MarkApplied (id : N) : HM unit :=
  wrap_no_rows "mark generation applied: %w" (sys_write (EvDBWrite "mark applied" id)
           (update_row (has_status [Pending]) (with_status Applied) (λ a, a) id)) ;;
  syncDatabase.

Definition SetObservedHash (id : N) (hash : string) : HM unit :=
  require (validChecksum hash) (Errorf "observed nftables hash is malformed" []) ;;
  sys_write (EvDBWrite "observed hash" id)
    (update_row (λ _, true) (with_hash hash) (λ a, a) id) ;;
  syncDatabase.

Definition PrepareCommit (id : N) : HM Generation :=
  g <- GenerationByID id ;;
  require (has_status [Applied] g)
    (Errorf "generation %d status %s cannot enter commit_prepared" [ArgN id; ArgS (status_name (gen_Status g))]) ;;
  s <- catch (LoadGenerationSnapshot id)
         (λ e, throw (Wrapf "read immutable generation snapshot: %w" [] e)) ;;
  require (String.eqb (gen_Checksum g) (ptr_PolicyChecksum (snap_Pointer s)) &&
           String.eqb (gen_SnapshotChecksum g) (ptr_SnapshotChecksum (snap_Pointer s)))
    (Errorf "generation database checksums disagree with immutable snapshot" []) ;;
  now <- read_clock ;;
  wrap_no_rows "prepare generation commit: %w" (sys_write (EvDBWrite "prepare commit" id)
           (update_row (has_status [Applied]) (prepared now (snap_Previous s)) (λ a, a) id)) ;;
  syncDatabase ;;
  GenerationByID id.

(** [PreparedDeadline]: one narrow query. *)
Definition PreparedDeadline (id : N) : HM (option time) :=
  sys_read (EvDeadlineRead id)
    (λ w, match w_gens w !! id with
          | Some g => if has_status [CommitPrepared] g then Ret (gen_RollbackDeadline g) else Error ErrNoRows
          | None => Error ErrNoRows
          end).

(** The first statement of [FinalizeCommit]'s transaction. *)
Definition supersede (id : N) (m : Gens) : Gens :=
  map_imap (λ k g, Some (if has_status [Pending; Applied] g && negb (k =? id)
                         then with_status RolledBack g else g)) m.

Definition finalize_tx (id : N) (w : World K) : err + (unit * World K) :=
  update_row (has_status [CommitPrepared]) finalized
    (insert_audit "system" "generation_committed" (sprintf "generation=%d" [ArgN id])) id
    (set_gens (supersede id (w_gens w)) w).

Definition FinalizeCommit (id : N) : HM unit :=
  wrap_no_rows "finalize generation commit: %w" (sys_write (EvDBWrite "finalize commit" id) (finalize_tx id)) ;;
  syncDatabase.

Definition MarkRolledBack (id : N) : HM unit :=
  sys_write (EvDBWrite "mark rolled back" id)
    (update_row (has_status [Pending; Applied; CommitPrepared; Committed]) (unprepared RolledBack) (λ a, a) id) ;;
  syncDatabase.

Definition FinalizeRecoveryRollback (id : N) (detail : string) : HM unit :=
  wrap_no_rows "finalize recovered generation rollback: %w" (sys_write (EvDBWrite "finalize recovery rollback" id)
           (update_row (has_status [Pending; Applied; CommitPrepared]) (unprepared RolledBack)
              (insert_audit "system" "generation_recovery_rolled_back" detail) id)) ;;
  syncDatabase.

(** The pointer a row stands for. *)
Definition row_pointer (g : Generation) : EnforcementPointer :=
  mkPointer pointerSchema (gen_ID g) (gen_SnapshotChecksum g) (gen_Checksum g).

Definition ExpectedGeneration : HM Generation :=
  pending <- try_ Pending_ ;;
  match pending with
  | inl e => if is_no_rows e then LastKnownGood else throw e
  | inr g =>
      if has_status [Applied] g then ret g
      else if has_status [CommitPrepared] g then
        pointer <- ReadEnforcementPointer ;;
        if ptr_Equal (row_pointer g) pointer then ret g else LastKnownGood
      else LastKnownGood
  end.

(** [Store.Commit], kept for store-level callers. *)
Definition Commit (id : N) : HM unit :=
  s <- LoadGenerationSnapshot id ;;
  current <- ReadEnforcementPointer ;;
  require (match snap_Previous s with
           | None => negb (bool_decide (is_Some current))
           | Some p => ptr_Equal p current
           end) (Errorf "cannot commit from an unexpected enforcement pointer" []) ;;
  PrepareCommit id ;;
  p <- PrepareEnforcementPointer (snap_Pointer s) ;;
  finally
    (deadline <- PreparedDeadline id ;;
     late <- expired deadline ;;
     if late : bool
     then MarkRolledBack id ;;
          throw (Errorf "generation %d expired before pointer publication" [ArgN id])
     else PublishPreparedPointer p ;; FinalizeCommit id)
    CancelPreparedPointer.

(** [ReadScript] *)
Definition ReadScript (g : Generation) : HM string :=
  secureGenerationsDirectory ;;
  dir <- peek w_dir ;;
  require (String.eqb (gen_ScriptPath g) (script_path dir (gen_ID g)))
    (Errorf "generation script path escapes the state directory" []) ;;
  script <- read_script_file (gen_ID g) ;;
  require (N.of_nat (slen script) <=? maxActiveSnapshot)
    (Errorf "generation script has unsafe type or permissions" []) ;;
  match hex_decode (gen_Checksum g) with
  | Some want =>
      require (List.length want =? 32)%nat (Errorf "generation checksum is malformed" []) ;;
      require (equalBytes (sha256 script) want) (Errorf "generation script checksum mismatch" []) ;;
      ret script
  | None => throw (Errorf "generation checksum is malformed" [])
  end.

(** ** Saving a candidate (store.go) *)

Record GenerationMetadata := mkMetadata { meta_BootID : string; meta_Provenance : list Assignment }.

(** A uint64 with its high bit set is not a value of the SQL driver. *)
Definition insert_generation (g : Generation) (w : World K) : err + (unit * World K) :=
  if 2 ^ 63 <=? gen_ID g then inl ErrIO
  else match w_gens w !! gen_ID g with
       | Some _ => inl ErrIO
       | None => inr (tt, set_gens (<[gen_ID g := g]> (w_gens w)) w)
       end.

Definition save_script (id : N) (script : string) : HM unit :=
  existing <- try_ (read_script_file id) ;;
  match existing with
  | inr old =>
      require (String.eqb old script)
        (Errorf "immutable generation script %d already exists with different content" [ArgN id])
  | inl e => if is_not_exist e then write_script id script else throw e
  end.

(** [SELECT checksum,snapshot_checksum ... WHERE id=? AND status='committed'] *)
Definition read_prior (previous : N) : HM EnforcementPointer :=
  catch (sys_read (EvDBRead "prior committed generation")
           (λ w, match w_gens w !! previous with
                 | Some g => if has_status [Committed] g
                             then Ret (mkPointer pointerSchema previous (gen_SnapshotChecksum g) (gen_Checksum g))
                             else Error ErrNoRows
                 | None => Error ErrNoRows
                 end))
    (λ e, throw (Wrapf "read prior committed generation: %w" [] e)).

Definition new_row (dir : string) (s : GenerationSnapshot) (path : string) (now : time)
    (deadline : option time) (previous : option N) : Generation :=
  mkGeneration (snap_Generation s) (snap_Checksum s) (ptr_SnapshotChecksum (snap_Pointer s)) ""
    (script_path dir (snap_Generation s)) path Pending now deadline previous (snap_BootID s) None None "" "".

Definition SaveGenerationWithMetadata (id : N) (checksum script : string) (previous : option N)
    (deadline : option time) (metadata : GenerationMetadata) : HM unit :=
  require (negb (id =? 0)) (Errorf "generation id must be positive" []) ;;
  require (N.of_nat (slen script) <=? maxActiveSnapshot) (Errorf "generation script exceeds 32 MiB" []) ;;
  require (validScriptChecksum script checksum) (Errorf "generation script checksum is invalid" []) ;;
  require (negb (String.eqb (meta_BootID metadata) "")) (Errorf "generation boot id is required" []) ;;
  require (negb (bool_decide (meta_Provenance metadata = [])))
    (Errorf "generation provenance manifest is required" []) ;;
  match ValidateActive (meta_Provenance metadata) with
  | Some e => throw (Wrapf "generation provenance manifest: %w" [] e)
  | None =>
      secureGenerationsDirectory ;;
      dir <- peek w_dir ;;
      save_script id script ;;
      prior <- match previous with
               | None => ret None
               | Some p => prior <- read_prior p ;; ret (Some prior)
               end ;;
      let s := mkSnapshot snapshotSchema id checksum script (meta_Provenance metadata) prior (meta_BootID metadata) in
      path <- WriteGenerationSnapshot s ;;
      now <- read_clock ;;
      sys_write (EvDBWrite "insert generation" id)
        (insert_generation (new_row dir s path now deadline previous)) ;;
      syncDatabase
  end.
End store.
