(* ===== verification/ClaimStore.v ===== *)
(** Claim operations of the generation store (internal/state/store.go) and the
    operator's claim service (internal/blocks/claims.go): the transactions of
    Claims.v, run against the host. *)

From S2P Require Import Prelude GoStrings GoTime Netip Sha256 Claims Ledger Snapshot Host Store.
From Stdlib Require Import Ascii String.
Local Open Scope string_scope.
Local Open Scope Z_scope.
Abbreviation length := List.length.
Local Open Scope host_scope.

Section claim_store.
Context {K : Type}.
Abbreviation HM := (M (Host K)).
Implicit Types (w : World K).

(** [BeginTx ... Commit]: the body's changes are committed together or not at all. *)
Definition transaction {A} (name : string) (body : Tx A) : HM A :=
  sys_write (EvDBWrite name 0)
    (λ w, match body [] (tables w) with
          | (Ret a, _, t) => inr (a, set_tables t w)
          | (Error e, _, _) => inl e
          | (Crash, _, _) => inl ErrIO
          end).
Definition query {A} (name : string) (f : Tables → err + A) : HM A :=
  sys_read (EvDBRead name) (λ w, match f (tables w) with inl e => Error e | inr a => Ret a end).

(** ** Claims *)

Definition AddClaimBounded (c : Claim) (max : Z) : HM Z :=
  throw_if (ValidateClaim (cl_Address c) (cl_Family c)) ;;
  throw_if (validateClaimMetadata c) ;;
  now <- read_clock ;;
  let reason := if String.eqb (cl_Reason c) "" then "unspecified" else cl_Reason c in
  let created := if is_zero_time (cl_CreatedAt c) then now else cl_CreatedAt c in
  transaction "claim_added"
    (AddClaim_tx (mkClaim (cl_ID c) (cl_Address c) (cl_Family c) (cl_Source c) reason (cl_Actor c) created (cl_ExpiresAt c))
       max now).
Definition AddClaim (c : Claim) : HM Z := AddClaimBounded c 0.

(** The clock is read inside the transaction, after the deletion. *)
Definition RemoveClaim (id : Z) (actor : string) : HM unit :=
  require (0 <? id) (Errorf "claim id must be positive" []) ;;
  now <- read_clock ;;
  transaction "claim_removed" (RemoveClaim_tx id actor now).

Definition RemoveOperatorClaim (id : Z) (actor kind : string) : HM unit :=
  require (0 <? id) (Errorf "claim id must be positive" []) ;;
  now <- read_clock ;;
  transaction "claim_removed" (RemoveOperatorClaim_tx id actor kind now).

Definition ReplaceSourceClaimsBounded (source reason actor : string) (addresses : list string) (max : Z) : HM Z :=
  require (negb (String.eqb source "") && negb (String.eqb actor "")) (Errorf "claim source and actor are required" []) ;;
  require ((slen source <=? 129)%nat && (slen actor <=? 128)%nat && (slen reason <=? 1024)%nat)
    (Errorf "claim source, actor, or reason exceeds its size limit" []) ;;
  require (claimSourcePattern source && negb (isAllowSource source))
    (Errorf "integration claim source is invalid or reserved for temporary access" []) ;;
  let reason := if String.eqb reason "" then "integration" else reason in
  match canonical_addresses addresses ∅ with
  | inl e => throw e
  | inr canonical =>
      let canonical := sort_strings canonical in
      counted <- (if 0 <? max then read_clock else ret zero_time) ;;
      now <- read_clock ;;
      transaction "claim_source_replaced" (ReplaceSource_tx source reason actor canonical max counted now)
  end.
Definition ReplaceSourceClaims (source reason actor : string) (addresses : list string) : HM Z :=
  ReplaceSourceClaimsBounded source reason actor addresses 0.

Definition Claims (now : time) : HM (list Claim) :=
  query "claims" (λ t, scanClaims (select_active now t)).

Definition ClaimsWithPublication (now : time) : HM (list Claim * ClaimPublication) :=
  query "claims with publication"
    (λ t, match ClaimsWithPublication_tx now [] t with
          | (Ret a, _, _) => inr a
          | (Error e, _, _) => inl e
          | (Crash, _, _) => inl ErrIO
          end).

Definition ClaimPublicationState : HM ClaimPublication :=
  query "claim publication"
    (λ t, match read_publication [] t with
          | (Ret a, _, _) => inr a
          | (Error e, _, _) => inl e
          | (Crash, _, _) => inl ErrIO
          end).

Definition PrepareClaimPublication : HM N :=
  now <- read_clock ;;
  transaction "claim publication prepared" (PrepareClaimPublication_tx now).

Definition MarkClaimsPublished (revision : N) (count : Z) : HM unit :=
  require (0 <=? count) (Errorf "runtime claim count is invalid" []) ;;
  now <- read_clock ;;
  transaction "claims published" (MarkClaimsPublished_tx revision count now).

Definition RestoreClaim (c : Claim) (actor : string) : HM unit :=
  require ((0 <? cl_ID c) && negb (String.eqb actor "")) (Errorf "restored claim id and actor are required" []) ;;
  throw_if (ValidateClaim (cl_Address c) (cl_Family c)) ;;
  throw_if (validateClaimMetadata c) ;;
  now <- read_clock ;;
  transaction "claim_restored" (RestoreClaim_tx c actor now).

Definition ClaimsPage (now : time) (limit offset : Z) : HM (list Claim) :=
  require ((1 <=? limit) && (limit <=? 1000) && (0 <=? offset) && (offset <=? 1000000))
    (Errorf "invalid claim page bounds" []) ;;
  query "claims page" (λ t, scanClaims (take (Z.to_nat limit) (drop (Z.to_nat offset) (select_active now t)))).

Definition ActiveClaimCount (now : time) : HM Z := query "active claims" (λ t, inr (count_where (active now) t)).
Definition ClaimCountExcludingSource (source : string) : HM Z :=
  query "claims of other sources" (λ t, inr (count_where (λ c, negb (String.eqb (cl_Source c) source)) t)).
Definition SourceClaimCount (source : string) : HM Z :=
  query "claims of a source" (λ t, inr (count_where (λ c, String.eqb (cl_Source c) source) t)).

Definition PurgeExpiredClaims (now : time) : HM Z := transaction "expired_claims_purged" (PurgeExpired_tx now).

(** ** Integration states *)

Record IntegrationState := mkState {
  st_Name : string;
  st_Status : string;
  st_EntryCount : Z;
  st_LastSuccess : option time;
  st_UpdatedAt : time
}.
Definition stored_time (t : time) : option time := if storable t then Some t else None.
Definition scan_integration (name : string) (r : IntegrationRow) : IntegrationState :=
  mkState name (it_Status r) (it_EntryCount r) (it_LastSuccess r ≫= stored_time)
    (default zero_time (it_UpdatedAt r ≫= stored_time)).

(** The error of the query for the previous success is dropped. *)
Definition SetIntegrationState (name status : string) (count : Z) (success : bool) : HM unit :=
  require (negb (String.eqb name "") && (String.eqb status "healthy" || String.eqb status "degraded") && (0 <=? count))
    (Errorf "invalid integration state" []) ;;
  now <- read_clock ;;
  last <- (if success then ret (Some now)
           else r <- try_ (query "last success" (λ t, inr (ct_integrations t.1 !! name ≫= it_LastSuccess))) ;;
                ret (match r with inl _ => None | inr last => last end)) ;;
  transaction "integration state"
    (modify (set_integrations (<[name := mkIntegration status count last (Some now)]>))).

Definition IntegrationStates : HM (list IntegrationState) :=
  query "integration states"
    (λ t, inr (omap (λ n, scan_integration n <$> (ct_integrations t.1 !! n))
                 (sort_strings (map_to_list (ct_integrations t.1)).*1))).

Definition IntegrationState_ (name : string) : HM IntegrationState :=
  query "integration state"
    (λ t, match ct_integrations t.1 !! name with
          | Some r => inr (scan_integration name r)
          | None => inl ErrNoRows
          end).

Definition RetireInactiveIntegrations (is_active : string → bool) : HM Z :=
  now <- read_clock ;;
  transaction "inactive_integrations_retired" (RetireInactive_tx is_active now).

(** ** The operator's service (internal/blocks/claims.go) *)

Definition service_pattern : string → bool := claimSourcePattern.
Definition claim_of (p : Prefix) (source reason actor : string) (expires : option time) : Claim :=
  mkClaim 0 (prefix_String (Masked p)) (if Is4 (pfx_addr p) then "ipv4" else "ipv6") source reason actor zero_time expires.

(** [Service.Add] *)
Definition Add (max : Z) (address source reason actor : string) (expires : option time) : HM Z :=
  require (service_pattern source && negb (has_prefix source "allow")) (Errorf "invalid block claim source %q" [ArgS source]) ;;
  match parse_prefix_or_addr address with
  | None => throw (Errorf "invalid block address: %w" [])
  | Some p => AddClaimBounded (claim_of p source reason actor expires) max
  end.

Definition AddAllow (max : Z) (address reason actor : string) (expires : option time) : HM Z :=
  require (bool_decide (is_Some expires)) (Errorf "temporary access requires an expiry" []) ;;
  match parse_prefix_or_addr address with
  | None => throw (Errorf "invalid allow address: %w" [])
  | Some p =>
      require (negb (pfx_bits p =? 0)%N) (Errorf "allow /0 is forbidden" []) ;;
      AddClaimBounded (claim_of p "allow" reason actor expires) max
  end.

Definition RemoveBlock (id : Z) (actor : string) : HM unit := RemoveOperatorClaim id actor "block".
Definition RemoveAllow (id : Z) (actor : string) : HM unit := RemoveOperatorClaim id actor "allow".

Definition Effective : HM (list string * list string) :=
  now <- read_clock ;;
  claims <- Claims now ;;
  ret (EffectiveAddresses claims "ipv4", EffectiveAddresses claims "ipv6").
End claim_store.

(** ** Runs of the operations

    The calls that touch the tables, as data; a step is one call, under any faults
    and from any clock that shows years of four digits. *)

Inductive claim_call :=
  | CallAdd (c : Claim) (max : Z)
  | CallRemove (id : Z) (actor : string)
  | CallRemoveOperator (id : Z) (actor kind : string)
  | CallReplace (source reason actor : string) (addresses : list string) (max : Z)
  | CallRead (now : time)
  | CallPrepare
  | CallMark (revision : N) (count : Z)
  | CallRestore (c : Claim) (actor : string)
  | CallPurge (now : time)
  | CallSetState (name status : string) (count : Z) (success : bool)
  | CallRetire (is_active : string → bool)
  | CallBlock (max : Z) (address source reason actor : string) (expires : option time)
  | CallAllow (max : Z) (address reason actor : string) (expires : option time).

(** The times a caller passes have texts of four-digit years. *)
Definition call_ok (k : claim_call) : Prop :=
  match k with
  | CallAdd c _ | CallRestore c _ =>
      storable (cl_CreatedAt c) = true ∧ from_option storable true (cl_ExpiresAt c) = true
  | CallBlock _ _ _ _ _ e | CallAllow _ _ _ _ e => from_option storable true e = true
  | _ => True
  end.

Section runs.
Context {K : Type}.
Implicit Types (w : World K) (h : Host K).

Definition ignore {A} (m : M (Host K) A) : M (Host K) unit := m ;; ret tt.
Definition perform (k : claim_call) : M (Host K) unit :=
  match k with
  | CallAdd c max => ignore (AddClaimBounded c max)
  | CallRemove id actor => RemoveClaim id actor
  | CallRemoveOperator id actor kind => RemoveOperatorClaim id actor kind
  | CallReplace s r a l max => ignore (ReplaceSourceClaimsBounded s r a l max)
  | CallRead now => ignore (ClaimsWithPublication now)
  | CallPrepare => ignore PrepareClaimPublication
  | CallMark r n => MarkClaimsPublished r n
  | CallRestore c a => RestoreClaim c a
  | CallPurge now => ignore (PurgeExpiredClaims now)
  | CallSetState n s c b => SetIntegrationState n s c b
  | CallRetire f => ignore (RetireInactiveIntegrations f)
  | CallBlock max a s r x e => ignore (Add max a s r x e)
  | CallAllow max a r x e => ignore (AddAllow max a r x e)
  end.

Definition timely (l : list time) : Prop := Forall (λ t, storable t = true) l.
Inductive claim_step : World K → World K → Prop :=
  | claim_step_call k o h : call_ok k → timely (h_clock h) →
      claim_step (h_world h) (h_world (final (perform k o h))).

(** ** Reasoning about the calls *)

(** What every call keeps, from tables [t0] on. *)
Definition since (t0 : Tables) (h : Host K) : Prop :=
  tables_ok (tables (h_world h)) ∧ advances t0 (tables (h_world h)) ∧ timely (h_clock h).
Abbreviation keeps t0 m h := (safe (since t0) m (λ _ _, True) h).

Lemma storable_zero : storable zero_time = true.
Proof. reflexivity. Qed.

Lemma safe_clock t0 P h : since t0 h →
  (∀ t h', since t0 h' → storable t = true → h_world h' = h_world h → P t h') →
  safe (since t0) read_clock P h.
Proof.
  intros Hh HP o. unfold read_clock. destruct Hh as (H1 & H2 & H3). destruct (h_clock h) as [|t c] eqn:E; cbn.
  - assert (since t0 h) by (split; [done|split; [done|by rewrite E]]). split; [done|]. by apply HP.
  - apply Forall_cons in H3 as [Ht Hc]. set (h' := mkHost (h_world h) c (h_trace h)).
    assert (since t0 h') by done. split; [done|]. by apply HP.
Qed.
Lemma safe_throw_if t0 e (P : unit → Host K → Prop) h : since t0 h → (e = None → P tt h) → safe (since t0) (throw_if e) P h.
Proof. intros Hh HP. destruct e; [by apply safe_throw|]. apply safe_ret; auto. Qed.

Lemma since_log t0 e h : since t0 h → since t0 (log e h).
Proof. done. Qed.
Lemma since_commit t0 t' e h : since t0 h → tables_ok t' → advances (tables (h_world h)) t' →
  since t0 (log e (on_world (set_tables t') h)).
Proof.
  intros (H1 & H2 & H3) Ht Ha. split; [by destruct t'|]. split; [|done].
  etrans; [exact H2|]. by destruct t'.
Qed.
Lemma keeps_transaction {A} t0 name (body : Tx A) h : since t0 h → tx_good body (tables (h_world h)) →
  keeps t0 (transaction name body) h.
Proof.
  intros Hh Hg. specialize (Hg (proj1 Hh) []). unfold transaction, sys_write. apply safe_io_write; [done| |done].
  simpl in *. destruct (body [] (tables (h_world h))) as [[[a|e|] o'] t']; simpl in *; try done.
  destruct Hg as (_ & Ht & Ha). by apply since_commit.
Qed.
Lemma keeps_query {A} t0 name (f : Tables → err + A) h : since t0 h → keeps t0 (query name f) h.
Proof. intros Hh. unfold query, sys_read. by apply safe_io_write. Qed.
Lemma keeps_bind {A B} t0 (m : M (Host K) A) (f : A → M (Host K) B) h :
  keeps t0 m h → (∀ a h', since t0 h' → keeps t0 (f a) h') → keeps t0 (bind m f) h.
Proof. intros Hm Hf. apply safe_bind. eapply safe_mono; [exact Hm|]. auto. Qed.
Lemma keeps_ignore {A} t0 (m : M (Host K) A) h : keeps t0 m h → keeps t0 (ignore m) h.
Proof. intros H. apply keeps_bind; [done|]. intros a h' Hh. by apply safe_ret. Qed.
End runs.

Ltac call_step :=
  lazymatch goal with
  | |- safe _ (ignore _) _ _ => apply keeps_ignore
  | |- safe _ (bind read_clock _) _ _ =>
      apply safe_bind, safe_clock; [done|]; let t := fresh "now" in let h := fresh "h" in intros t h ? ? ?
  | |- safe _ (bind (throw_if _) _) _ _ => apply safe_bind, safe_throw_if; [done|]; intros ?
  | |- safe _ (bind (require _ _) _) _ _ => apply safe_bind, safe_require; [done|]; intros ?
  | |- safe _ (transaction _ _) _ _ => apply keeps_transaction; [done|]
  | |- safe _ (query _ _) _ _ => by apply keeps_query
  | |- safe _ (throw _) _ _ => by apply safe_throw
  | |- safe _ (match ?x with _ => _ end) _ _ => destruct x eqn:?
  end.

Section keeps.
Context {K : Type}.
Implicit Types (h : Host K).

Lemma AddClaimBounded_keeps t0 c max h : since t0 h →
  storable (cl_CreatedAt c) = true → from_option storable true (cl_ExpiresAt c) = true →
  safe (since t0) (AddClaimBounded c max) (λ _ _, True) h.
Proof.
  intros Hh Hc He. unfold AddClaimBounded. repeat call_step. apply AddClaim_good. apply scan_claim_id. simpl.
  repeat split; [by destruct (is_zero_time _)|done|done|].
  revert H0. unfold validateClaimMetadata. simpl. destruct (String.eqb_spec (cl_Reason c) "") as [->|]; done.
Qed.
Lemma claim_of_times p s r a e : from_option storable true e = true →
  storable (cl_CreatedAt (claim_of p s r a e)) = true ∧ from_option storable true (cl_ExpiresAt (claim_of p s r a e)) = true.
Proof. done. Qed.

Lemma ReplaceSource_keeps t0 s r a l max h : since t0 h →
  safe (since t0) (ReplaceSourceClaimsBounded s r a l max) (λ _ _, True) h.
Proof.
  intros Hh. unfold ReplaceSourceClaimsBounded. do 3 call_step. destruct (canonical_addresses l ∅) as [e|r'] eqn:E; [by apply safe_throw|].
  apply canonical_addresses_ok in E as (Hc & _).
  assert (∀ counted h', since t0 h' → safe (since t0) (now <- read_clock ;;
    transaction "claim_source_replaced" (ReplaceSource_tx s (if String.eqb r "" then "integration" else r) a (sort_strings r') max counted now))
    (λ _ _, True) h') as Htail.
  { intros counted h' Hh'. repeat call_step. apply ReplaceSource_good; [by rewrite sort_strings_perm| |done].
    unfold validateClaimMetadata. simpl. repeat match goal with H : _ && _ = true |- _ => apply andb_true_iff in H as [? ?] end.
    repeat match goal with H : negb _ = true |- _ => apply negb_true_iff in H end.
    repeat match goal with H : (_ <=? _)%nat = true |- _ => apply Nat.leb_le in H end.
    repeat match goal with H : ?b = _ |- context [?b] => rewrite H end. simpl.
    repeat match goal with |- context [(?x <? ?y)%nat] => destruct (Nat.ltb_spec x y); simpl end; try done; try lia.
    destruct (String.eqb r ""); simpl in *; lia. }
  destruct (0 <? max).
  - apply safe_bind, safe_clock; [done|]. intros counted h' Hh' _ _. by apply Htail.
  - apply safe_bind, safe_ret; [done|]. by apply Htail.
Qed.

(** Every call keeps the tables valid and moves the publication forward. *)
Lemma perform_keeps t0 k h : since t0 h → call_ok k → safe (since t0) (perform k) (λ _ _, True) h.
Proof.
  intros Hh Hk. destruct k; simpl in Hk |- *; try call_step.
  - destruct Hk. by apply AddClaimBounded_keeps.
  - unfold RemoveClaim. repeat call_step. apply RemoveClaim_good.
  - unfold RemoveOperatorClaim. repeat call_step. apply RemoveOperatorClaim_good.
  - by apply ReplaceSource_keeps.
  - by apply keeps_query.
  - unfold PrepareClaimPublication. repeat call_step. apply Prepare_good.
  - unfold MarkClaimsPublished. repeat call_step. apply Mark_good.
  - destruct Hk. unfold RestoreClaim. repeat call_step.
    match goal with H : _ && _ = true |- _ => apply andb_true_iff in H as [Hid%Z.ltb_lt _] end.
    apply RestoreClaim_good; [done|]. by apply scan_claim_id.
  - unfold PurgeExpiredClaims. call_step. apply PurgeExpired_good.
  - unfold SetIntegrationState. do 2 call_step. apply keeps_bind.
    + destruct success; [by apply safe_ret|]. apply keeps_bind; [|intros; by apply safe_ret].
      eapply safe_try_inv; [by apply keeps_query|done|done].
    + intros last h' Hh'. call_step. intros Ht. apply safe_modify; [done|]. split; [by apply integrations_ok|].
      intros p Hp. exists p. repeat split; [done|lia].
  - unfold RetireInactiveIntegrations. repeat call_step. apply RetireInactive_good.
  - unfold Add. repeat call_step. by apply AddClaimBounded_keeps.
  - unfold AddAllow. repeat call_step. by apply AddClaimBounded_keeps.
Qed.

Lemma claim_steps_since w w' : rtc claim_step w w' → tables_ok (tables w) →
  tables_ok (tables w') ∧ advances (tables w) (tables (K := K) w').
Proof.
  intros Hs. induction Hs as [w|w w1 w' Hstep _ IH]; intros Hw; [done|].
  destruct Hstep as [k o h Hk Hc].
  assert (since (tables (h_world h)) h) as Hh by done.
  pose proof (safe_final _ _ _ _ o (perform_keeps _ k h Hh Hk)) as (H1 & H2 & _).
  destruct (IH H1) as [H3 H4]. split; [done|]. by etrans.
Qed.
End keeps.

(** ** Every stored claim can be read back *)

Lemma scanClaims_all l : (∀ c, In c l → scan_claim c = inr c) → scanClaims l = inr l.
Proof.
  induction l as [|c l IH]; intros H; [done|]. simpl. rewrite (H c) by by left.
  rewrite IH; [done|]. intros d Hd. apply H. by right.
Qed.
Lemma select_scans now t : tables_ok t → scanClaims (select_active now t) = inr (select_active now t).
Proof.
  intros [_ H _]. apply scanClaims_all. intros c Hc. apply list_elem_of_In in Hc.
  unfold select_active in Hc. apply elem_of_sort_by, list_elem_of_In, filter_In in Hc as [Hc _].
  apply elem_of_rows in Hc as [id Hc]. apply H in Hc as [(_ & _ & Hs) _]. exact Hs.
Qed.

(** C17: After any history of claim operations with any faults in between, reading the
    claims fails only when the system call does: what is stored parses, validates,
    keeps its family, is never a /0 and, for temporary access, expires. *)
Theorem stored_claims_readable {K} (w w' : World K) now :
  tables_ok (tables w) → rtc claim_step w w' →
  ∀ o h, h_world h = w' →
    match result (Claims now o h) with
    | Ret l => l = select_active now (tables w') ∧ Forall (λ c, scan_claim c = inr c) l
    | Error e => e = ErrIO
    | Crash => True
    end.
Proof.
  intros Hw Hs o h <-. destruct (claim_steps_since _ _ Hs Hw) as [Hok _].
  unfold Claims, query, sys_read, io_write, result. rewrite select_scans by done.
  assert (Forall (λ c, scan_claim c = inr c) (select_active now (tables (h_world h)))) as Hall.
  { apply Forall_forall. intros c Hc. apply elem_of_sort_by, list_elem_of_In, filter_In in Hc as [Hc _].
    apply elem_of_rows in Hc as [id Hc]. by apply (ok_claims _ Hok) in Hc as [(_ & _ & ?) _]. }
  destruct (draw o) as [[] o']; simpl; done.
Qed.

(** ** Publication *)

Lemma transaction_ret {K} {A} name (body : Tx A) o (h : Host K) a :
  result (transaction name body o h) = Ret a →
  ∃ t' o', body [] (tables (h_world h)) = (Ret a, o', t') ∧
    h_world (final (transaction name body o h)) = set_tables t' (h_world h).
Proof.
  unfold transaction, sys_write, io_write, result, final. destruct (draw o) as [[] o']; simpl; try done;
    destruct (body [] (tables (h_world h))) as [[[x|e|] o''] t'] eqn:E; simpl; try done.
  intros [= ->]. by exists t', o''.
Qed.

Lemma clocked_ret {K} {A} (f : time → M (Host K) A) o (h : Host K) a :
  result (bind read_clock f o h) = Ret a →
  ∃ now h', h_world h' = h_world h ∧ (timely (h_clock h) → storable now = true ∧ timely (h_clock h')) ∧
    result (f now o h') = Ret a ∧ final (bind read_clock f o h) = final (f now o h').
Proof.
  unfold bind, read_clock. intros H. destruct (h_clock h) as [|t c] eqn:E; simpl in *.
  - exists zero_time, h. by rewrite E.
  - exists t, (mkHost (h_world h) c (h_trace h)). repeat split; try done; by apply Forall_cons in H0 as [? ?].
Qed.

Lemma require_bind_ret {S A} b e (m : M S A) o s a :
  result (bind (require b e) (λ _, m) o s) = Ret a → b = true ∧ bind (require b e) (λ _, m) o s = m o s.
Proof. destruct b; done. Qed.

Definition published {K} (w : World K) : option ClaimPublication := ct_publication (w_claims w).
Definition stored {K} (w : World K) : gmap Z Claim := ct_claims (w_claims w).

Lemma Prepare_result {K} o (h : Host K) rev : timely (h_clock h) → tables_ok (tables (h_world h)) →
  result (PrepareClaimPublication o h) = Ret rev →
  let w' := h_world (final (PrepareClaimPublication o h)) in
  stored w' = stored (h_world h) ∧ tables_ok (tables w') ∧
  ∃ p, published w' = Some p ∧ DesiredRevision p = rev ∧ (AppliedRevision p < rev)%N.
Proof.
  intros Hc Hok Hr. unfold PrepareClaimPublication in *.
  apply clocked_ret in Hr as (now & h' & Hw & Ht & Hr & Hf). simpl. rewrite Hf.
  apply transaction_ret in Hr as (t' & o' & Hbody & ->). rewrite Hw in *.
  pose proof (Prepare_good now (tables (h_world h)) Hok []) as Hg. rewrite Hbody in Hg. simpl in Hg.
  destruct Hg as (_ & Hok' & _). revert Hbody. clear Hf Ht Hw.
  unfold PrepareClaimPublication_tx, read_publication, markClaimPublicationDirtyTx, markRuntimeClaimsDegradedTx, bind, gets, modify, require, ret.
  simpl. unfold stored, published in *. destruct (ct_publication (w_claims (h_world h))) as [p|] eqn:Ep; [|done].
  destruct (AppliedRevision p <=? DesiredRevision p)%N eqn:Ele; [|done]. apply N.leb_le in Ele.
  destruct (N.eqb_spec (DesiredRevision p) (AppliedRevision p)) as [E|E]; unfold tables; simpl; rewrite ?Ep; simpl.
  - intros [= <- _ <-]. split; [done|split; [exact Hok'|]]. eexists. split; [done|]. simpl. lia.
  - intros [= <- _ <-]. split; [done|split; [exact Hok'|]]. exists p. split; [done|lia].
Qed.

Lemma Mark_result {K} rev n o (h : Host K) :
  result (MarkClaimsPublished rev n o h) = Ret tt →
  let w' := h_world (final (MarkClaimsPublished rev n o h)) in
  stored w' = stored (h_world h) ∧ published w' = Some (mkPublication rev rev) ∧
  ∃ p, published (h_world h) = Some p ∧ DesiredRevision p = rev.
Proof.
  unfold MarkClaimsPublished. intros Hr. apply require_bind_ret in Hr as Hq. destruct Hq as [_ Hq]. rewrite Hq in *. clear Hq.
  apply clocked_ret in Hr as (now & h' & Hw & Ht & Hr & Hf). simpl. rewrite Hf.
  apply transaction_ret in Hr as (t' & o' & Hbody & ->). rewrite Hw in *. revert Hbody.
  unfold MarkClaimsPublished_tx, bind, gets, modify. simpl. unfold stored, published.
  destruct (ct_publication (w_claims (h_world h))) as [p|] eqn:Ep; [|done].
  destruct (N.eqb_spec (DesiredRevision p) rev) as [<-|]; [|done]. intros [= _ <-]. simpl. eauto 8.
Qed.

(** C16: No claim change is lost by a publication.  Between the preparation that
    returned revision [rev] and the marking that accepts [rev], however many other
    calls ran and failed, the claims are the ones the preparation saw; a change in
    between makes the marking fail. *)
Theorem published_claims_are_current {K} (h0 h2 : Host K) o0 o2 rev n :
  tables_ok (tables (h_world h0)) → timely (h_clock h0) →
  result (PrepareClaimPublication o0 h0) = Ret rev →
  rtc claim_step (h_world (final (PrepareClaimPublication o0 h0))) (h_world h2) →
  result (MarkClaimsPublished rev n o2 h2) = Ret tt →
  let w' := h_world (final (MarkClaimsPublished rev n o2 h2)) in
  stored w' = stored (h_world h0) ∧ stored (h_world h2) = stored (h_world h0) ∧
  published w' = Some (mkPublication rev rev).
Proof.
  intros Hok Hc Hp Hs Hm. destruct (Prepare_result _ _ _ Hc Hok Hp) as (Hst & Hok1 & p & Hp1 & Hd & _).
  destruct (claim_steps_since _ _ Hs Hok1) as [_ Ha]. destruct (Ha p Hp1) as (p2 & Hp2 & _ & Hsame).
  destruct (Mark_result _ _ _ _ Hm) as (Hst2 & Hpub & p3 & Hp3 & Hd3). simpl.
  assert (p3 = p2) as -> by (unfold published, tables in *; simpl in *; congruence).
  assert (stored (h_world h2) = stored (h_world (final (PrepareClaimPublication o0 h0)))) as E.
  { unfold stored. apply Hsame. by rewrite Hd, Hd3. }
  rewrite Hst2, E, Hst. done.
Qed.

(** ** One integration's claims *)

(** The tables after [insert_source]. *)
Fixpoint put_source (source reason actor : string) (now : time) (l : list string) (t : Tables) : Tables :=
  match l with
  | [] => t
  | a :: l' =>
      put_source source reason actor now l'
        (put_claim (ct_seq t.1 + 1) (mkClaim 0 a (address_family a) source reason actor now None) t)
  end.
Lemma commits_put_source source reason actor now l (P : unit → Tables → Prop) t :
  P tt (put_source source reason actor now l t) → commits (insert_source source reason actor now l) P t.
Proof.
  revert t. induction l as [|a l IH]; intros t HP; simpl in *; [by apply safe_ret|].
  unfold commits, insert_claim. apply safe_bind, safe_bind, safe_gets; [done|].
  apply safe_bind, safe_require; [done|]. intros _. apply safe_bind, safe_modify; [done|]. apply safe_ret; [done|]. by apply IH.
Qed.

Definition fresh_from (t : Tables) : Prop := ∀ id c, ct_claims t.1 !! id = Some c → id <= ct_seq t.1.
Lemma put_source_keeps source reason actor now l t id : id <= ct_seq t.1 →
  ct_claims (put_source source reason actor now l t).1 !! id = ct_claims t.1 !! id.
Proof.
  revert t. induction l as [|a l IH]; intros t Hid; simpl; [done|].
  rewrite IH by (simpl; lia). simpl. rewrite lookup_insert_ne by lia. done.
Qed.
Lemma put_source_new source reason actor now l t id c : fresh_from t →
  ct_claims (put_source source reason actor now l t).1 !! id = Some c →
  ct_claims t.1 !! id = Some c ∨ (cl_Source c = source ∧ cl_Address c ∈ l).
Proof.
  revert t. induction l as [|a l IH]; intros t Hf; simpl; [by left|]. intros H.
  apply IH in H as [H|[? ?]].
  - simpl in H. apply lookup_insert_Some in H as [[<- <-]|[_ H]]; [|by left]. right. simpl. split; [done|set_solver].
  - right. split; [done|set_solver].
  - intros i d. simpl. intros [[<- _]|[_ Hi%Hf]]%lookup_insert_Some; simpl; lia.
Qed.
Lemma rows_insert m id c : m !! id = None → rows (<[id := c]> m) ≡ₚ c :: rows m.
Proof. intros H. unfold rows. by rewrite map_to_list_insert. Qed.
Lemma put_source_rows source reason actor now l t : fresh_from t → 0 <= ct_seq t.1 →
  map cl_Address (List.filter (λ c, String.eqb (cl_Source c) source) (rows (ct_claims (put_source source reason actor now l t).1)))
  ≡ₚ l ++ map cl_Address (List.filter (λ c, String.eqb (cl_Source c) source) (rows (ct_claims t.1))).
Proof.
  revert t. induction l as [|a l IH]; intros t Hf Hs; simpl; [done|]. rewrite IH; [| |simpl; lia].
  - simpl.
    assert (ct_claims t.1 !! (ct_seq t.1 + 1) = None) as Hn.
    { destruct (_ !! _) as [d|] eqn:E; [|done]. apply Hf in E. lia. }
    assert (∀ x y, x ≡ₚ y → List.filter (λ c : Claim, String.eqb (cl_Source c) source) x ≡ₚ List.filter (λ c, String.eqb (cl_Source c) source) y) as Hfp.
    { intros x y. induction 1 as [| z x y Hxy IHp | z z' x | x y z ? ? ? ?]; simpl; [done| | |by etrans].
      - destruct (String.eqb _ _); by rewrite IHp.
      - destruct (String.eqb (cl_Source z) source), (String.eqb (cl_Source z') source); done || apply Permutation_swap. }
    rewrite (Hfp _ _ (rows_insert _ _ _ Hn)). simpl. rewrite String.eqb_refl. simpl. by rewrite <-Permutation_middle.
  - intros i d. simpl. intros [[<- _]|[_ Hi%Hf]]%lookup_insert_Some; simpl; lia.
Qed.

Lemma list_filter_nil {A} (p : A → bool) l : (∀ x, In x l → p x = false) → List.filter p l = [].
Proof.
  induction l as [|x l IH]; intros H; [done|]. simpl. rewrite (H x) by by left. apply IH. intros y Hy. apply H. by right.
Qed.

(** The claims left by a replacement that was committed. *)
Lemma ReplaceSource_effect source reason actor l max counted now t :
  tables_ok t →
  commits (ReplaceSource_tx source reason actor l max counted now)
    (λ n t', n = Z.of_nat (length l) ∧
       (∀ id c, cl_Source c ≠ source → ct_claims t'.1 !! id = Some c ↔ ct_claims t.1 !! id = Some c) ∧
       map cl_Address (List.filter (λ c, String.eqb (cl_Source c) source) (rows (ct_claims t'.1))) ≡ₚ l) t.
Proof.
  intros Ht. unfold commits, ReplaceSource_tx, delete_claims. apply safe_bind, safe_bind, safe_gets; [done|].
  apply safe_bind, safe_modify; [done|]. apply safe_ret; [done|]. apply safe_bind.
  set (t1 := set_claims _ t).
  assert (safe (λ _, True) (if 0 <? max then remaining <- gets (count_where (active counted)) ;;
     require (remaining + Z.of_nat (length l) <=? max) (Errorf "claim limit would be exceeded (%d)" [ArgZ max])
   else ret tt) (λ _ t', t' = t1) t1) as Hmax by (destruct (0 <? max); [by apply safe_bind, safe_gets; [|apply safe_require]|by apply safe_ret]).
  apply (safe_check _ _ _ Hmax). intros _. apply safe_bind, commits_put_source.
  apply safe_bind, safe_modify; [done|]. apply safe_bind, safe_require; [done|]. intros _. apply safe_bind.
  set (t2 := put_source _ _ _ _ _ t1).
  assert (fresh_from t1) as Hf.
  { intros id c [H _]%map_lookup_filter_Some. by apply (ok_claims _ Ht) in H as [_ ?]. }
  assert (∀ t' : Tables, ct_claims t'.1 = ct_claims t2.1 → Z.of_nat (length l) = Z.of_nat (length l) ∧
       (∀ id c, cl_Source c ≠ source → ct_claims t'.1 !! id = Some c ↔ ct_claims t.1 !! id = Some c) ∧
       map cl_Address (List.filter (λ c, String.eqb (cl_Source c) source) (rows (ct_claims t'.1))) ≡ₚ l) as Hend.
  { intros t' ->. split; [done|]. split.
    - intros id c Hne. split.
      + intros H. destruct (put_source_new _ _ _ _ _ _ _ _ Hf H) as [H'|[? _]]; [|done].
        by apply map_lookup_filter_Some in H' as [? _].
      + intros H. unfold t2. rewrite put_source_keeps; [|by apply (ok_claims _ Ht) in H as [_ ?]].
        apply map_lookup_filter_Some. split; [done|]. by apply String.eqb_neq.
    - unfold t2. rewrite put_source_rows; [|done|apply (ok_seq _ Ht)].
      assert (List.filter (λ c, String.eqb (cl_Source c) source) (rows (ct_claims t1.1)) = []) as ->; [|by rewrite app_nil_r].
      apply list_filter_nil. intros c Hc. apply elem_of_rows in Hc as (id & [_ H]%map_lookup_filter_Some). exact H. }
  clearbody t2. clear Hmax Hf. unfold markClaimPublicationDirtyTx, markRuntimeClaimsDegradedTx.
  apply safe_bind, safe_gets; [done|]. destruct (ct_publication _); [|by apply safe_throw].
  apply safe_bind, safe_modify; [done|]. apply safe_bind, safe_gets; [done|]. apply safe_modify; [done|].
  apply safe_ret; [done|]. by apply Hend.
Qed.

(** Replacing an integration's claims touches no other source.  When the call
    succeeds the source's claims are exactly the canonical forms of the given
    addresses, each once, and the call answers their number. *)
Theorem ReplaceSource_exact {K} (h : Host K) o source reason actor addresses max n :
  tables_ok (tables (h_world h)) →
  result (ReplaceSourceClaimsBounded source reason actor addresses max o h) = Ret n →
  let w' := h_world (final (ReplaceSourceClaimsBounded source reason actor addresses max o h)) in
  let held := map cl_Address (List.filter (λ c, String.eqb (cl_Source c) source) (rows (stored w'))) in
  (∀ id c, cl_Source c ≠ source → stored w' !! id = Some c ↔ stored (h_world h) !! id = Some c) ∧
  NoDup held ∧ n = Z.of_nat (length held) ∧
  (∀ a, a ∈ held ↔ ∃ raw p, raw ∈ addresses ∧ parse_prefix_or_addr raw = Some p ∧ a = prefix_String (Masked p)).
Proof.
  intros Hok Hr. unfold ReplaceSourceClaimsBounded in *.
  apply require_bind_ret in Hr as Hq. destruct Hq as [_ Hq]. rewrite Hq in *. clear Hq.
  apply require_bind_ret in Hr as Hq. destruct Hq as [_ Hq]. rewrite Hq in *. clear Hq.
  apply require_bind_ret in Hr as Hq. destruct Hq as [_ Hq]. rewrite Hq in *. clear Hq.
  destruct (canonical_addresses addresses ∅) as [|l] eqn:El; [done|].
  apply canonical_addresses_ok in El as (_ & Hnd & _ & Hin). cbn zeta in *.
  assert (∀ counted (h1 : Host K), h_world h1 = h_world h →
    result ((now <- read_clock ;; transaction "claim_source_replaced"
      (ReplaceSource_tx source (if String.eqb reason "" then "integration" else reason) actor (sort_strings l) max counted now)) o h1) = Ret n →
    let w' := h_world (final ((now <- read_clock ;; transaction "claim_source_replaced"
      (ReplaceSource_tx source (if String.eqb reason "" then "integration" else reason) actor (sort_strings l) max counted now)) o h1)) in
    let held := map cl_Address (List.filter (λ c, String.eqb (cl_Source c) source) (rows (stored w'))) in
    (∀ id c, cl_Source c ≠ source → stored w' !! id = Some c ↔ stored (h_world h) !! id = Some c) ∧
    held ≡ₚ l ∧ n = Z.of_nat (length l)) as Htail.
  { intros counted h1 Hw1 Hr1. apply clocked_ret in Hr1 as (now & h2 & Hw2 & _ & Hr1 & Hf). simpl. rewrite Hf.
    apply transaction_ret in Hr1 as (t' & o' & Hbody & ->). rewrite Hw2, Hw1 in *.
    pose proof (ReplaceSource_effect source (if String.eqb reason "" then "integration" else reason) actor (sort_strings l) max counted now
      (tables (h_world h)) Hok []) as He. rewrite Hbody in He. simpl in He. destruct He as (_ & -> & Hother & Hheld).
    rewrite sort_strings_perm in Hheld. split; [exact Hother|]. split; [exact Hheld|]. f_equal. apply length_sort_by. }
  assert (∃ counted h1, h_world h1 = h_world h ∧
    (counted <- (if 0 <? max then read_clock else ret zero_time) ;; now <- read_clock ;; transaction "claim_source_replaced"
      (ReplaceSource_tx source (if String.eqb reason "" then "integration" else reason) actor (sort_strings l) max counted now)) o h =
    (now <- read_clock ;; transaction "claim_source_replaced"
      (ReplaceSource_tx source (if String.eqb reason "" then "integration" else reason) actor (sort_strings l) max counted now)) o h1) as (counted & h1 & Hw & E).
  { destruct (0 <? max); [|by exists zero_time, h]. unfold bind at 1. unfold read_clock at 1.
    destruct (h_clock h) as [|t c]; [by exists zero_time, h|by exists t, (mkHost (h_world h) c (h_trace h))]. }
  rewrite E in Hr |- *. destruct (Htail _ _ Hw Hr) as (H1 & H2 & H3). split; [exact H1|]. rewrite H2. split; [done|]. split; [by rewrite H3|].
  intros a. rewrite H2. specialize (Hin a). rewrite elem_of_empty in Hin. clear -Hin. naive_solver.
Qed.

(** An operator's removal cannot touch what the operator does not own: whatever
    the faults, a block removal leaves every claim that is not a manual block, an
    allow removal every claim that is no temporary access, and both leave every claim
    under another id. *)
Theorem operator_removal_confined {K} (h : Host K) o id actor kind i c :
  tables_ok (tables (h_world h)) →
  stored (h_world h) !! i = Some c → i ≠ id ∨ removable kind (cl_Source c) = false →
  stored (h_world (final (RemoveOperatorClaim id actor kind o h))) !! i = Some c.
Proof.
  intros Hok Hi Hkeep.
  assert (safe (λ h', stored (h_world h') !! i = Some c) (RemoveOperatorClaim id actor kind) (λ _ _, True) h) as Hs;
    [|apply (safe_final _ _ _ _ o Hs)].
  unfold RemoveOperatorClaim. apply safe_bind, safe_require; [done|]. intros _. apply safe_bind. intros o1.
  assert (∀ now (h1 : Host K), h_world h1 = h_world h →
    safe (λ h', stored (h_world h') !! i = Some c) (transaction "claim_removed" (RemoveOperatorClaim_tx id actor kind now)) (λ _ _, True) h1) as Htx.
  { intros now h1 Hw. unfold transaction, sys_write. apply safe_io_write; [by rewrite Hw| |done]. simpl. rewrite Hw.
    assert (commits (RemoveOperatorClaim_tx id actor kind now) (λ _ t', ct_claims t'.1 !! i = Some c) (tables (h_world h))) as Hc.
    { unfold commits, RemoveOperatorClaim_tx. apply safe_bind, safe_gets; [done|].
      destruct (ct_claims (tables (h_world h)).1 !! id) as [d|] eqn:Ed; [|by apply safe_throw].
      apply safe_bind, safe_require; [done|]. intros Hrem.
      assert (cl_ID c =? id = false) as Hne.
      { apply Z.eqb_neq. destruct (ok_claims _ Hok i c Hi) as [(Hid & _) _]. rewrite Hid. intros ->.
        destruct Hkeep as [|Hk]; [done|]. unfold stored, tables in *. simpl in *. congruence. }
      unfold delete_claims. apply safe_bind, safe_bind, safe_gets; [done|]. apply safe_bind, safe_modify; [done|]. apply safe_ret; [done|].
      apply safe_bind, safe_modify; [done|].
      set (t1 := (_, _)). assert (ct_claims t1.1 !! i = Some c) as H1 by (simpl; by apply map_lookup_filter_Some).
      clearbody t1. unfold markClaimPublicationDirtyTx, markRuntimeClaimsDegradedTx. apply safe_bind, safe_gets; [done|].
      destruct (ct_publication _); [|by apply safe_throw]. apply safe_bind, safe_modify; [done|]. apply safe_bind, safe_gets; [done|].
      by apply safe_modify. }
    specialize (Hc []). destruct (RemoveOperatorClaim_tx id actor kind now [] (tables (h_world h))) as [[[a|e|] o'] t'];
      simpl in *; [|by rewrite Hw..]. destruct Hc as [_ Hc]. exact Hc. }
  unfold read_clock, result, final. destruct (h_clock h) as [|t cl]; simpl; (split; [exact Hi|]).
  - by apply Htx.
  - by apply (Htx t (mkHost (h_world h) cl (h_trace h))).
Qed.

Lemma Permutation_length_filter {A} (p : A → bool) (l k : list A) : l ≡ₚ k → length (List.filter p l) = length (List.filter p k).
Proof.
  induction 1 as [|z x y Hxy IHp|z z' x|x y z ? ? ? ?]; simpl; [done| | |lia].
  - destruct (p z); simpl; lia.
  - destruct (p z), (p z'); done.
Qed.

(** With a limit, an accepted claim leaves at most [max] claims that the limit
    counts, whatever was there before. *)
Theorem claim_limit_holds {K} (h : Host K) o c max id now clock :
  tables_ok (tables (h_world h)) → 0 < max → h_clock h = now :: clock →
  result (AddClaimBounded c max o h) = Ret id →
  count_where (active now) (tables (h_world (final (AddClaimBounded c max o h)))) <= max.
Proof.
  intros Hok Hmax Hclock. unfold AddClaimBounded, throw_if.
  destruct (ValidateClaim _ _); [done|]. destruct (validateClaimMetadata c); [done|].
  intros Hr.
  assert (∀ A (f : time → M (Host K) A), bind read_clock f o h = f now o (mkHost (h_world h) clock (h_trace h))) as Hrc
    by (intros; unfold bind, read_clock; by rewrite Hclock).
  assert (∀ B (f : unit → M (Host K) B), bind (ret tt) f = f tt) as Hret by done.
  rewrite !Hret, Hrc in Hr |- *. apply transaction_ret in Hr as (t' & o' & Hbody & ->). simpl h_world in *.
  set (c' := mkClaim _ _ _ _ _ _ _ _) in Hbody.
  assert (commits (AddClaim_tx c' max now) (λ _ t', count_where (active now) t' <= max) (tables (h_world h))) as Hc.
  { unfold commits, AddClaim_tx. apply Z.ltb_lt in Hmax. rewrite Hmax. apply safe_bind, safe_bind, safe_gets; [done|].
    apply safe_require; [done|]. intros Hlt%Z.ltb_lt. apply safe_bind. unfold insert_claim.
    apply safe_bind, safe_gets; [done|]. apply safe_bind, safe_require; [done|]. intros _.
    apply safe_bind, safe_modify; [done|]. apply safe_ret; [done|]. apply safe_bind, safe_modify; [done|].
    assert (count_where (active now) (put_claim (ct_seq (tables (h_world h)).1 + 1) c' (tables (h_world h))) <= max) as Hput.
    { unfold count_where, put_claim. simpl.
      assert (ct_claims (tables (h_world h)).1 !! (ct_seq (tables (h_world h)).1 + 1) = None) as Hn.
      { destruct (_ !! _) as [d|] eqn:E; [|done]. apply (ok_claims _ Hok) in E as [_ ?]. lia. }
      pose proof (rows_insert _ _ (with_id (ct_seq (tables (h_world h)).1 + 1) c') Hn) as Hp.
      apply (Permutation_length_filter (active now)) in Hp. simpl in Hp. unfold tables in *. simpl in *. rewrite Hp.
      unfold count_where in Hlt. simpl in Hlt. destruct (active now _); simpl; lia. }
    set (t1 := (_, _)). assert (count_where (active now) t1 <= max) as H1 by exact Hput. clearbody t1.
    apply safe_bind. unfold markClaimPublicationDirtyTx, markRuntimeClaimsDegradedTx. apply safe_bind, safe_gets; [done|].
    destruct (ct_publication _); [|by apply safe_throw]. apply safe_bind, safe_modify; [done|]. apply safe_bind, safe_gets; [done|].
    apply safe_modify; [done|]. by apply safe_ret. }
  specialize (Hc []). rewrite Hbody in Hc. simpl in Hc. destruct Hc as [_ Hc]. by destruct t'.
Qed.


(** ** A sample history *)

Definition noon : time := 63844761600 * second.
Definition empty_world : World unit :=
  mkWorld "/var/lib/nftfw" ∅ [] ∅ ∅ None None None false ∅ tt false "" no_claims.
Definition at_noon (w : World unit) : Host unit := mkHost w (replicate 8 noon) [].

Definition feed_call : claim_call :=
  CallReplace "threatfeed/x" "" "integration" ["198.51.100.7"; "2001:DB8::/32"; "198.51.100.7/32"] 10.
Definition block_call : claim_call := CallBlock 10 "203.0.113.9" "manual" "operator block" "uid:0" None.
Definition after (k : claim_call) (w : World unit) : World unit := h_world (final (perform k [] (at_noon w))).
Definition after_block : World unit := after block_call (after feed_call empty_world).

Lemma no_claims_ok : tables_ok (tables empty_world).
Proof. split; simpl; [done|apply map_Forall_empty|]. intros p [= <-]. unfold publication_ok. simpl. lia. Qed.
Lemma timely_noon w : timely (h_clock (at_noon w)).
Proof. apply Forall_replicate. vm_compute. done. Qed.
Lemma at_noon_world w : h_world (at_noon w) = w.
Proof. reflexivity. Qed.
Lemma after_step k w : call_ok k → claim_step w (after k w).
Proof. intros Hk. unfold after. rewrite <-(at_noon_world w) at 1. apply claim_step_call; [done|apply timely_noon]. Qed.
Lemma sample_steps : rtc claim_step empty_world after_block.
Proof. eapply rtc_l; [|eapply rtc_l; [|apply rtc_refl]]; by apply after_step. Qed.

Lemma stored_claims_readable_witness :
  rtc claim_step empty_world after_block ∧
  match result (Claims noon [] (at_noon after_block)) with
  | Ret l => l = select_active noon (tables after_block) ∧ Forall (λ c, scan_claim c = inr c) l
  | Error e => e = ErrIO
  | Crash => True
  end.
Proof. split; [exact sample_steps|]. exact (stored_claims_readable empty_world after_block noon no_claims_ok sample_steps [] (at_noon after_block) (at_noon_world after_block)). Defined.

Definition prepared_block : Host unit := at_noon (h_world (final (PrepareClaimPublication [] (at_noon after_block)))).
Lemma after_block_ok : tables_ok (tables after_block).
Proof. exact (proj1 (claim_steps_since _ _ sample_steps no_claims_ok)). Qed.
Lemma prepared_steps : rtc claim_step (h_world (final (PrepareClaimPublication [] (at_noon after_block)))) (h_world prepared_block).
Proof. unfold prepared_block. rewrite at_noon_world. apply rtc_refl. Qed.
Lemma prepared_rev : result (PrepareClaimPublication [] (at_noon after_block)) = Ret 3%N.
Proof. vm_compute. reflexivity. Qed.
Lemma marked_rev : result (MarkClaimsPublished 3%N 3 [] prepared_block) = Ret tt.
Proof. vm_compute. reflexivity. Qed.
Lemma published_claims_are_current_witness :
  result (PrepareClaimPublication [] (at_noon after_block)) = Ret 3%N ∧
  stored (h_world (final (MarkClaimsPublished 3%N 3 [] prepared_block))) = stored (h_world (at_noon after_block)).
Proof.
  split; [exact prepared_rev|].
  exact (proj1 (published_claims_are_current (at_noon after_block) prepared_block [] [] 3%N 3
    after_block_ok (timely_noon after_block) prepared_rev prepared_steps marked_rev)).
Defined.

Lemma ReplaceSource_exact_witness :
  let call := ReplaceSourceClaimsBounded "threatfeed/x" "" "integration" ["198.51.100.7"; "2001:DB8::/32"; "198.51.100.7/32"] 10
    [] (at_noon empty_world) in
  result call = Ret 2 ∧
  NoDup (map cl_Address (List.filter (λ c, String.eqb (cl_Source c) "threatfeed/x") (rows (stored (h_world (final call)))))).
Proof.
  assert (result (ReplaceSourceClaimsBounded "threatfeed/x" "" "integration" ["198.51.100.7"; "2001:DB8::/32"; "198.51.100.7/32"] 10
    [] (at_noon empty_world)) = Ret 2) as H by (vm_compute; reflexivity).
  split; [exact H|].
  exact (proj1 (proj2 (ReplaceSource_exact (at_noon empty_world) [] "threatfeed/x" "" "integration"
    ["198.51.100.7"; "2001:DB8::/32"; "198.51.100.7/32"] 10 2 no_claims_ok H))).
Defined.

Definition feed_claim : Claim :=
  mkClaim 1 "198.51.100.7/32" "ipv4" "threatfeed/x" "integration" "integration" noon None.
Lemma operator_removal_confined_witness :
  stored after_block !! 1 = Some feed_claim ∧
  stored (h_world (final (RemoveOperatorClaim 1 "uid:0" "block" [] (at_noon after_block)))) !! 1 = Some feed_claim.
Proof.
  split; [vm_compute; reflexivity|].
  assert (stored (h_world (at_noon after_block)) !! 1 = Some feed_claim) as H by (vm_compute; reflexivity).
  exact (operator_removal_confined (at_noon after_block) [] 1 "uid:0" "block" 1 feed_claim after_block_ok H (or_intror eq_refl)).
Defined.

Lemma claim_limit_holds_witness :
  result (AddClaimBounded (mkClaim 0 "203.0.113.9" "ipv4" "manual" "" "uid:0" zero_time None) 1 [] (at_noon empty_world)) = Ret 1 ∧
  count_where (active noon) (tables (h_world (final (AddClaimBounded
    (mkClaim 0 "203.0.113.9" "ipv4" "manual" "" "uid:0" zero_time None) 1 [] (at_noon empty_world))))) <= 1.
Proof.
  assert (result (AddClaimBounded (mkClaim 0 "203.0.113.9" "ipv4" "manual" "" "uid:0" zero_time None) 1 [] (at_noon empty_world)) = Ret 1) as H
    by (vm_compute; reflexivity).
  split; [exact H|].
  exact (claim_limit_holds (at_noon empty_world) [] _ 1 1 noon (replicate 7 noon) no_claims_ok eq_refl eq_refl H).
Defined.
