(* ===== verification/NftScript.v ===== *)
(** The nft script guard (internal/nft/backend.go): the only ruleset text the
    backend hands to nft addresses the product's own tables. *)

From S2P Require Import Prelude GoStrings.
From Stdlib Require Import Ascii String.
Local Open Scope string_scope.
Local Open Scope nat_scope.

(** ** Tables *)

Record NftTable := mkTable { Family : string; TableName : string }.
#[export] Instance NftTable_eq_dec : EqDecision NftTable.
Proof. solve_decision. Defined.

Definition FilterTable : string := "nftfw_filter".
Definition NATTable : string := "nftfw_nat".
Definition Filter6 : string := "nftfw_filter6".
Definition OwnedTables : list NftTable :=
  [mkTable "inet" FilterTable; mkTable "ip" NATTable; mkTable "ip6" Filter6].

(** The key of the program's maps over tables. *)
Definition table_key (t : NftTable) : string := Family t +:+ "/" +:+ TableName t.

Definition isOwnedFamilyName (family name : string) : bool :=
  existsb (λ t, String.eqb (Family t) family && String.eqb (TableName t) name) OwnedTables.

(** ** Vocabulary *)

Definition among (l : list string) (s : string) : bool := existsb (String.eqb s) l.

Definition nftManagementCommands : string → bool := among
  ["add"; "create"; "delete"; "destroy"; "flush"; "get"; "insert"; "list"; "rename"; "replace";
   "reset"; "import"; "export"; "monitor"; "describe"].
Definition nftDirectives : string → bool := among ["include"; "define"; "redefine"].
Definition nftMutationCommands : string → bool := among
  ["add"; "create"; "delete"; "destroy"; "flush"; "insert"; "rename"; "replace"; "reset"].
Definition nftManagedObjects : string → bool := among
  ["table"; "chain"; "rule"; "set"; "map"; "element"; "counter"; "quota"; "limit"; "flowtable"; "synproxy"].
Definition nftPluralObjects : list (string * string) :=
  [("tables", "table"); ("chains", "chain"); ("rules", "rule"); ("sets", "set"); ("maps", "map");
   ("elements", "element"); ("counters", "counter"); ("quotas", "quota"); ("limits", "limit");
   ("flowtables", "flowtable"); ("synproxies", "synproxy")].

(** [strings.ToLower]: besides ASCII, U+0130 and U+212A are the characters whose
    lower case is an ASCII letter; other characters keep bytes above ASCII, which
    no keyword has. *)
Fixpoint lower_keyword (l : list ascii) : list ascii :=
  match l with
  | [] => []
  | a :: l1 =>
      match l1 with
      | b :: l2 =>
          if (code a =? 0xc4)%N && (code b =? 0xb0)%N then "i"%char :: lower_keyword l2
          else match l2 with
               | c :: l3 =>
                   if (code a =? 0xe2)%N && (code b =? 0x84)%N && (code c =? 0xaa)%N
                   then "k"%char :: lower_keyword l3
                   else to_lower_char a :: lower_keyword l1
               | [] => to_lower_char a :: lower_keyword l1
               end
      | [] => [to_lower_char a]
      end
  end.

Definition nftIdentifier (token : string) : string := trim token "{};,".
Definition nftKeyword (token : string) : string := of_chars (lower_keyword (chars (nftIdentifier token))).

Definition nftObject (token : string) : string :=
  let object := nftKeyword token in
  match find (λ p, String.eqb p.1 object) nftPluralObjects with
  | Some (_, singular) => singular
  | None => object
  end.

Definition isObjectCommand (command object : string) : bool :=
  nftMutationCommands command && nftManagedObjects object.

(** ** Lexing *)

Inductive lexing := InCode | InQuote | InComment.

Definition dquote : ascii := ascii_of_N 34.
Definition backslash : ascii := ascii_of_N 92.
Definition lf : ascii := ascii_of_N 10.
Definition cr : ascii := ascii_of_N 13.

Definition continues_line (l : list ascii) : bool :=
  match l with
  | a :: l' => Ascii.eqb a lf || Ascii.eqb a cr && match l' with b :: _ => Ascii.eqb b lf | [] => false end
  | [] => false
  end.

Definition emit (c : list ascii) (r : err + list ascii) : err + list ascii :=
  match r with inl e => inl e | inr l => inr (c ++ l)%list end.

(** The loop of [stripNftComments]: a quoted string becomes a quote, an underscore
    and a quote; a comment disappears up to its newline. *)
Fixpoint strip (st : lexing) (l : list ascii) : err + list ascii :=
  match l with
  | [] => match st with
          | InQuote => inl (Errorf "unterminated quoted nft string" [])
          | _ => inr []
          end
  | c :: l' =>
      match st with
      | InQuote =>
          if Ascii.eqb c lf then inl (Errorf "newline in quoted nft string is forbidden" [])
          else if Ascii.eqb c dquote then emit [c] (strip InCode l')
          else strip InQuote l'
      | InComment => if Ascii.eqb c lf then emit [c] (strip InCode l') else strip InComment l'
      | InCode =>
          if Ascii.eqb c backslash && continues_line l'
          then inl (Errorf "nft line continuations are forbidden" [])
          else if Ascii.eqb c dquote then emit [c; "_"%char] (strip InQuote l')
          else if Ascii.eqb c "#"%char then strip InComment l'
          else emit [c] (strip InCode l')
      end
  end.

Definition stripNftComments (script : string) : err + string :=
  match strip InCode (chars script) with inl e => inl e | inr l => inr (of_chars l) end.

(** ** [validateScript] *)

Fixpoint flushes_ruleset (l : list string) : bool :=
  match l with
  | a :: l' =>
      match l' with
      | b :: _ => String.eqb (nftKeyword a) "flush" && String.eqb (nftKeyword b) "ruleset" || flushes_ruleset l'
      | [] => false
      end
  | [] => false
  end.

(** The token loop: directives, and every [table] keyword names an owned table. *)
Fixpoint check_tokens (parts : list string) : option err :=
  match parts with
  | [] => None
  | token :: rest =>
      let keyword := nftKeyword token in
      if nftDirectives keyword then Some (Errorf "nft directive %q is forbidden" [ArgS keyword])
      else if String.eqb keyword "table" &&
              negb (match rest with
                    | family :: name :: _ => isOwnedFamilyName (nftKeyword family) (nftIdentifier name)
                    | _ => false
                    end)
      then Some (Errorf "script addresses malformed or unowned table" [])
      else check_tokens rest
  end.

Definition check_management (parts : list string) (command object : string) : option err :=
  if negb (nftManagementCommands command) then None
  else if negb (nftMutationCommands command)
  then Some (Errorf "nft management command %q is forbidden" [ArgS command])
  else if (List.length parts <? 4) || negb (nftManagedObjects object)
  then Some (Errorf "nft mutation command %q has an unsupported or malformed object" [ArgS command])
  else None.

Definition check_object (parts : list string) (command object : string) : option err :=
  match parts with
  | _ :: _ :: p2 :: p3 :: _ =>
      if isObjectCommand command object then
        let family := nftKeyword p2 in
        let table := nftIdentifier p3 in
        if negb (isOwnedFamilyName family table)
        then Some (Errorf "script command addresses unowned table %s/%s" [ArgS family; ArgS table])
        else if String.eqb command "rename" && String.eqb object "table"
        then Some (Errorf "renaming an owned table is forbidden" [])
        else None
      else None
  | _ => None
  end.

Definition or_else (a b : option err) : option err := match a with Some e => Some e | None => b end.

Definition check_statement (statement : string) : option err :=
  match fields statement with
  | [] => None
  | (p0 :: rest) as parts =>
      let command := nftKeyword p0 in
      let object := match rest with p1 :: _ => nftObject p1 | [] => "" end in
      or_else (check_management parts command object)
        (or_else (check_tokens parts) (check_object parts command object))
  end.

Fixpoint check_statements (l : list string) : option err :=
  match l with
  | [] => None
  | s :: l' => or_else (check_statement s) (check_statements l')
  end.

Definition statements (clean : string) : list string :=
  fields_func (λ c, Ascii.eqb c lf || Ascii.eqb c ";"%char) clean.

Definition validateScript (script : string) : option err :=
  match fields script with
  | [] => Some (Errorf "empty nft script" [])
  | _ =>
      match stripNftComments script with
      | inl e => Some e
      | inr clean =>
          if flushes_ruleset (fields (replace_char ";"%char " "%char clean))
          then Some (Errorf "flush ruleset is forbidden" [])
          else check_statements (statements clean)
      end
  end.

(** ** Transactions *)

Definition destroy_line (t : NftTable) : string :=
  "destroy table " +:+ Family t +:+ " " +:+ TableName t +:+ String lf EmptyString.

(** The statements [prependDestroy] and [DestroyOwned] write for the tables present. *)
Definition destroy_lines (existing : gset string) (owned : list NftTable) : string :=
  String.concat "" (map destroy_line (List.filter (λ t, bool_decide (table_key t ∈ existing)) owned)).

Definition prependDestroy (script : string) (existing : gset string) (owned : list NftTable) : string :=
  destroy_lines existing owned +:+ script.

Definition firstUseCollision (existing : gset string) (owned : list NftTable) : option err :=
  let collisions := List.filter (λ k, bool_decide (k ∈ existing)) (map table_key owned) in
  match collisions with
  | [] => None
  | _ => Some (Errorf "first-use nft table collision: refusing to adopt or destroy %s"
                 [ArgS (join ", " (sort_strings collisions))])
  end.

(** ** Scripts that install a complete ruleset

    Syntactic: some statement opens each of the product's tables and no statement
    removes a table.  Every compiled generation and the emergency ruleset have this
    form. *)

Definition opens_table (t : NftTable) (statement : string) : bool :=
  match fields statement with
  | kw :: family :: name :: _ =>
      String.eqb (nftKeyword kw) "table" && String.eqb (nftKeyword family) (Family t) &&
      String.eqb (nftIdentifier name) (TableName t)
  | _ => false
  end.
Definition removes_table (statement : string) : bool :=
  match fields statement with
  | kw :: object :: _ => among ["delete"; "destroy"] (nftKeyword kw) && String.eqb (nftObject object) "table"
  | _ => false
  end.
Definition installs (script : string) : bool :=
  match stripNftComments script with
  | inl _ => false
  | inr clean =>
      forallb (λ t, existsb (opens_table t) (statements clean)) OwnedTables &&
      forallb (λ s, negb (removes_table s)) (statements clean)
  end.

(** ** Examples *)

Example valid_rule : validateScript ("table inet nftfw_filter { chain input { } }" +:+ String lf "add rule inet nftfw_filter input drop") = None.
Proof. vm_compute. reflexivity. Qed.
Example hidden_flush : validateScript ("table inet nftfw_filter { comment " +:+ String dquote (String backslash (String dquote (" ; flush ruleset #" +:+ String dquote ""))))
  ≠ None.
Proof. vm_compute. discriminate. Qed.
Example foreign_table : validateScript "delete table inet docker" ≠ None.
Proof. vm_compute. discriminate. Qed.

(** ** Lemmas *)

Lemma fields_go_app sep acc x c y : sep c = true →
  fields_go sep acc (x ++ c :: y) = (fields_go sep acc x ++ fields_go sep [] y)%list.
Proof.
  intros Hc. revert acc. induction x as [|a x IH]; intros acc; simpl.
  - rewrite Hc. by destruct acc.
  - destruct (sep a); [|apply IH]. destruct acc; [apply IH|]. simpl. by rewrite IH.
Qed.

Lemma space2_lf_r a : space2 a lf = false.
Proof. unfold space2. by rewrite andb_false_r. Qed.
Lemma space2_lf_l b : space2 lf b = false.
Proof. done. Qed.
Lemma space3_lf a b c : (b = lf ∨ c = lf) → space3 a b c = false.
Proof.
  intros [-> | ->]; unfold space3; simpl; rewrite ?andb_false_r; [done|].
  by rewrite ?orb_false_r, ?andb_false_r.
Qed.

Lemma ascii_spaces_3 a b c l : ascii_spaces (a :: b :: c :: l) =
  if space2 a b then " "%char :: ascii_spaces (c :: l)
  else if space3 a b c then " "%char :: ascii_spaces l else a :: ascii_spaces (b :: c :: l).
Proof. done. Qed.

Lemma ascii_spaces_lf y : ascii_spaces (lf :: y) = lf :: ascii_spaces y.
Proof. by destruct y as [|b [|c y]]. Qed.

Lemma ascii_spaces_before a y : ascii_spaces (a :: lf :: y) = a :: lf :: ascii_spaces y.
Proof.
  destruct y as [|d y].
  - cbn [ascii_spaces]. by rewrite space2_lf_r.
  - by rewrite ascii_spaces_3, space2_lf_r, space3_lf, ascii_spaces_lf by auto.
Qed.

Lemma ascii_spaces_app x y : ascii_spaces (x ++ lf :: y) = (ascii_spaces x ++ lf :: ascii_spaces y)%list.
Proof.
  revert x. enough (H : ∀ n x, List.length x ≤ n →
    ascii_spaces (x ++ lf :: y) = (ascii_spaces x ++ lf :: ascii_spaces y)%list) by (intros x; by apply (H (List.length x))).
  induction n as [|n IH]; intros x Hn.
  { destruct x; [apply ascii_spaces_lf|simpl in Hn; lia]. }
  destruct x as [|a [|b [|c x]]]; simpl in Hn.
  - apply ascii_spaces_lf.
  - apply ascii_spaces_before.
  - simpl app. rewrite ascii_spaces_3, (space3_lf a b lf) by auto. rewrite ascii_spaces_lf, ascii_spaces_before.
    cbn [ascii_spaces]. by destruct (space2 a b).
  - change (((a :: b :: c :: x) ++ lf :: y)%list) with (a :: b :: c :: (x ++ lf :: y)%list).
    pose proof (IH (b :: c :: x) ltac:(simpl; lia)) as IH1.
    pose proof (IH (c :: x) ltac:(simpl; lia)) as IH2.
    pose proof (IH x ltac:(lia)) as IH3. simpl app in IH1, IH2.
    rewrite !ascii_spaces_3. rewrite IH1, IH2, IH3.
    destruct (space2 a b); [done|]. by destruct (space3 a b c).
Qed.

Lemma fields_line a b : fields (a +:+ String lf b) = (fields a ++ fields b)%list.
Proof.
  unfold fields. rewrite chars_app. change (chars (String lf b)) with (lf :: chars b).
  rewrite ascii_spaces_app. by apply fields_go_app.
Qed.

Lemma statements_line a b : statements (a +:+ String lf b) = (statements a ++ statements b)%list.
Proof. unfold statements, fields_func. rewrite chars_app. by apply fields_go_app. Qed.

(** Text that lexes as itself. *)
Definition plain (s : string) : bool :=
  forallb (λ c, negb (Ascii.eqb c backslash) && negb (Ascii.eqb c dquote) && negb (Ascii.eqb c "#"%char)) (chars s).

Lemma strip_plain a b : plain a = true → stripNftComments (a +:+ b) =
  match stripNftComments b with inl e => inl e | inr l => inr (a +:+ l) end.
Proof.
  unfold plain, stripNftComments. rewrite chars_app. intros Hp.
  assert (strip InCode (chars a ++ chars b) = emit (chars a) (strip InCode (chars b))) as ->.
  { induction (chars a) as [|c l IH]; [simpl; by destruct (strip InCode (chars b))|].
    simpl in Hp. apply andb_true_iff in Hp as [[[H1 H2]%andb_true_iff H3]%andb_true_iff Hp].
    simpl. rewrite negb_true_iff in H1, H2, H3. rewrite H1, H2, H3. simpl. rewrite (IH Hp).
    by destruct (strip InCode (chars b)). }
  destruct (strip InCode (chars b)); [done|]. simpl. rewrite of_chars_app.
  f_equal. f_equal. apply string_of_list_ascii_of_string.
Qed.

Lemma flushes_ruleset_app l r :
  forallb (λ x, negb (String.eqb (nftKeyword x) "flush")) l = true →
  flushes_ruleset (l ++ r) = flushes_ruleset r.
Proof.
  induction l as [|x l IH]; [done|]. simpl. intros [Hx Hl]%andb_true_iff.
  rewrite negb_true_iff in Hx. rewrite Hx. specialize (IH Hl).
  destruct (l ++ r)%list eqn:E; [by apply app_eq_nil in E as [_ ->]|]. by rewrite IH.
Qed.

Lemma check_statements_app a b : check_statements (a ++ b) = or_else (check_statements a) (check_statements b).
Proof. induction a as [|x a IH]; [done|]. simpl. rewrite IH. by destruct (check_statement x). Qed.

(** A line that may stand before any valid script. *)
Definition neutral_line (s : string) : bool :=
  plain s && negb (bool_decide (fields s = [])) &&
  forallb (λ x, negb (String.eqb (nftKeyword x) "flush")) (fields (replace_char ";"%char " "%char s)) &&
  match check_statements (statements s) with None => true | Some _ => false end.

Lemma replace_char_app x y a b : replace_char x y (a +:+ b) = replace_char x y a +:+ replace_char x y b.
Proof. unfold replace_char. by rewrite chars_app, map_app, of_chars_app. Qed.

Lemma validateScript_line a b : neutral_line a = true → validateScript b = None →
  validateScript (a +:+ String lf b) = None.
Proof.
  unfold neutral_line. rewrite !andb_true_iff. intros [[[Hp Hf] Hfl] Hs] Hb. revert Hb.
  unfold validateScript. rewrite fields_line.
  destruct (fields b) as [|x l]; [done|].
  destruct (fields a) as [|xa la]; [done|]. simpl app.
  change (String lf b) with (String lf EmptyString +:+ b).
  rewrite strip_plain by done. rewrite strip_plain by done.
  destruct (stripNftComments b) as [e|clean]; [done|].
  rewrite replace_char_app. change (replace_char ";"%char " "%char (String lf EmptyString +:+ clean))
    with (String lf (replace_char ";"%char " "%char clean)).
  rewrite fields_line, flushes_ruleset_app by done.
  destruct (flushes_ruleset _); [done|]. change (String lf EmptyString +:+ clean) with (String lf clean).
  rewrite statements_line, check_statements_app. by destruct (check_statements (statements a)).
Qed.

Lemma string_app_assoc (a b c : string) : a +:+ (b +:+ c) = (a +:+ b) +:+ c.
Proof. induction a as [|x a IH]; [done|]. change (String x (a +:+ (b +:+ c)) = String x ((a +:+ b) +:+ c)). by rewrite IH. Qed.

Lemma destroy_line_split t : t ∈ OwnedTables →
  ∃ a, (∀ b, destroy_line t +:+ b = a +:+ String lf b) ∧ neutral_line a = true.
Proof.
  intros Ht. exists ("destroy table " +:+ Family t +:+ " " +:+ TableName t). split.
  - intros b. unfold destroy_line. by rewrite <-!string_app_assoc.
  - unfold OwnedTables in Ht. repeat (apply elem_of_cons in Ht as [->|Ht]; [by vm_compute|]).
    by apply not_elem_of_nil in Ht.
Qed.

Lemma destroy_line_valid t b : t ∈ OwnedTables → validateScript b = None →
  validateScript (destroy_line t +:+ b) = None.
Proof. intros (a & E & Ha)%destroy_line_split Hb. rewrite E. by apply validateScript_line. Qed.

Lemma strip_line a b clean : plain a = true → stripNftComments b = inr clean →
  stripNftComments (a +:+ String lf b) = inr (a +:+ String lf clean).
Proof.
  intros Ha Hb. change (String lf b) with (String lf EmptyString +:+ b).
  rewrite strip_plain, (strip_plain (String lf EmptyString)) by done. by rewrite Hb.
Qed.

Lemma concat_cons s l : String.concat "" (s :: l) = s +:+ String.concat "" l.
Proof.
  destruct l as [|x l]; [|done]. simpl.
  induction s as [|c s IH]; [done|]. change (String c s = String c (s +:+ "")). by rewrite <-IH.
Qed.

Lemma prependDestroy_filter script existing owned : prependDestroy script existing owned =
  foldr (λ t acc, destroy_line t +:+ acc) script (List.filter (λ t, bool_decide (table_key t ∈ existing)) owned).
Proof.
  unfold prependDestroy, destroy_lines. induction (List.filter _ owned) as [|t l IH]; [done|].
  cbn [map foldr]. by rewrite concat_cons, <-string_app_assoc, IH.
Qed.

(** ** Properties *)

(** The transaction [Apply] executes, which first destroys the product's tables
    that are present, is always accepted when the script itself is: the second
    validation in [Apply] never refuses a validated candidate. *)
Theorem prependDestroy_valid script existing :
  validateScript script = None → validateScript (prependDestroy script existing OwnedTables) = None.
Proof.
  intros H. rewrite prependDestroy_filter.
  assert (Hsub : ∀ t, In t (List.filter (λ t, bool_decide (table_key t ∈ existing)) OwnedTables) → t ∈ OwnedTables).
  { intros t Ht. rewrite filter_In in Ht. apply list_elem_of_In, Ht. }
  induction (List.filter _ OwnedTables) as [|t l IH]; [done|]. simpl.
  apply destroy_line_valid; [apply Hsub; by left|]. apply IH. intros t' Ht'. apply Hsub. by right.
Qed.

Definition owned_pair (family name : string) : Prop := isOwnedFamilyName (nftKeyword family) (nftIdentifier name) = true.

(** What a statement of an accepted script may be. *)
Definition statement_confined (parts : list string) : Prop :=
  (∀ p0 rest, parts = p0 :: rest → nftManagementCommands (nftKeyword p0) = true →
     nftMutationCommands (nftKeyword p0) = true ∧
     ∃ p1 family name rest', rest = p1 :: family :: name :: rest' ∧
       nftManagedObjects (nftObject p1) = true ∧ owned_pair family name ∧
       ¬ (nftKeyword p0 = "rename" ∧ nftObject p1 = "table")) ∧
  (∀ before token after, parts = (before ++ token :: after)%list →
     nftDirectives (nftKeyword token) = false ∧
     (nftKeyword token = "table" →
        ∃ family name rest, after = family :: name :: rest ∧ owned_pair family name)).

Lemma or_else_None a b : or_else a b = None ↔ a = None ∧ b = None.
Proof. destruct a; naive_solver. Qed.

Lemma check_tokens_None parts : check_tokens parts = None →
  ∀ before token after, parts = (before ++ token :: after)%list →
     nftDirectives (nftKeyword token) = false ∧
     (nftKeyword token = "table" →
        ∃ family name rest, after = family :: name :: rest ∧ owned_pair family name).
Proof.
  induction parts as [|x parts IH]; intros H before token after E; [by destruct before|].
  simpl in H. destruct (nftDirectives (nftKeyword x)) eqn:Hd; [done|].
  destruct (String.eqb (nftKeyword x) "table" && _) eqn:Ht; [done|].
  destruct before as [|y before]; injection E as -> ->; [|by apply (IH H before token after)].
  split; [done|]. intros Hk. rewrite Hk in Ht. simpl in Ht. apply negb_false_iff in Ht.
  destruct after as [|family [|name rest]]; [done|done|]. by exists family, name, rest.
Qed.

Lemma check_statement_confined s : check_statement s = None → statement_confined (fields s).
Proof.
  unfold check_statement. destruct (fields s) as [|p0 rest] eqn:E.
  { intros _. split; [done|]. by intros []. }
  rewrite !or_else_None. intros (Hm & Ht & Ho). split; [|by apply check_tokens_None].
  intros p0' rest' [= <- <-] Hc. unfold check_management in Hm. rewrite Hc in Hm. simpl in Hm.
  destruct (nftMutationCommands (nftKeyword p0)) eqn:Hmut; [|done]. simpl in Hm. split; [done|].
  destruct rest as [|p1 [|family [|name rest]]]; [done|done|done|]. simpl in Hm, Ho.
  destruct (nftManagedObjects (nftObject p1)) eqn:Hobj; [|done].
  exists p1, family, name, rest. split; [done|]. split; [done|].
  unfold check_object, isObjectCommand in Ho. rewrite Hmut, Hobj in Ho. simpl in Ho.
  destruct (isOwnedFamilyName _ _) eqn:Hown; [|done]. simpl in Ho. split; [done|].
  intros [Hr Hto]. by rewrite Hr, Hto in Ho.
Qed.

Lemma check_statements_None l : check_statements l = None ↔ Forall (λ s, check_statement s = None) l.
Proof.
  induction l as [|s l IH]; simpl; [by split; [constructor|]|].
  by rewrite or_else_None, IH, Forall_cons.
Qed.

(** C10: an accepted script is confined to the product's tables.  After comments
    and quoted text are removed, no statement carries a directive; a statement that
    starts with a management command mutates a known kind of object in an owned
    table and does not rename a table; every [table] keyword is followed by an
    owned table's family and name; and the ruleset is never flushed. *)
Theorem validateScript_confined script :
  validateScript script = None →
  ∃ clean, stripNftComments script = inr clean ∧
    flushes_ruleset (fields (replace_char ";"%char " "%char clean)) = false ∧
    ∀ s, s ∈ statements clean → statement_confined (fields s).
Proof.
  unfold validateScript. destruct (fields script); [done|].
  destruct (stripNftComments script) as [e|clean]; [done|].
  destruct (flushes_ruleset _) eqn:Hf; [done|]. rewrite check_statements_None. intros H.
  exists clean. split; [done|]. split; [done|]. intros s' Hs. apply check_statement_confined.
  by apply (proj1 (Forall_forall _ _) H).
Qed.

(** ** Witnesses *)

Definition sample_script : string :=
  "table inet nftfw_filter { chain input { type filter hook input priority 0; policy drop; } }" +:+
  String lf "add rule inet nftfw_filter input drop".

Lemma prependDestroy_valid_witness :
  validateScript sample_script = None ∧
  validateScript (prependDestroy sample_script {["inet/nftfw_filter"; "ip/nftfw_nat"]} OwnedTables) = None.
Proof. split; [by vm_compute|]. apply prependDestroy_valid. by vm_compute. Defined.

Lemma validateScript_confined_witness :
  validateScript sample_script = None ∧
  ∃ clean, stripNftComments sample_script = inr clean ∧
    flushes_ruleset (fields (replace_char ";"%char " "%char clean)) = false ∧
    ∀ s, s ∈ statements clean → statement_confined (fields s).
Proof. split; [by vm_compute|]. apply validateScript_confined. by vm_compute. Defined.
