(* ===== verification/ScriptText.v ===== *)
(** Script text that validates piece by piece: how lexing, splitting into statements and
    splitting into tokens act on a text put together from literals, quoted names and
    words, and that the whole validates when every piece is harmless. *)

From S2P Require Import Prelude GoStrings Netip NftScript.
From Stdlib Require Import Ascii String.
Local Open Scope string_scope.
Local Open Scope nat_scope.
Abbreviation length := List.length.

(** ** Tokens *)

Definition ascii7 (c : ascii) : bool := (code c <? 128)%N.
Definition brk (c : ascii) : bool := is_space c || Ascii.eqb c ";"%char.
(** The tokens of a cleaned text, statements put together. *)
Definition words (l : list ascii) : list string := fields_go brk [] l.

Lemma ascii_spaces_id l : forallb ascii7 l = true → ascii_spaces l = l.
Proof.
  assert (∀ a b, ascii7 a = true → space2 a b = false) as H2.
  { unfold ascii7, space2. intros a b H%N.ltb_lt. destruct (N.eqb_spec (code a) 0xc2); [lia|done]. }
  assert (∀ a b c, ascii7 a = true → space3 a b c = false) as H3.
  { unfold ascii7, space3. intros a b c H%N.ltb_lt. destruct (N.eqb_spec (code a) 0xe1), (N.eqb_spec (code a) 0xe2), (N.eqb_spec (code a) 0xe3); lia || done. }
  induction l as [|a [|b [|c l]] IH]; [done|done|..]; intros [Ha Hl]%andb_true_iff.
  - cbn [ascii_spaces]. by rewrite H2.
  - rewrite ascii_spaces_3, H2, H3 by done. by rewrite IH.
Qed.

Lemma fields_words s : forallb ascii7 (chars s) = true → fields (replace_char ";"%char " "%char s) = words (chars s).
Proof.
  intros H. unfold fields, replace_char. rewrite chars_of_chars, ascii_spaces_id.
  - clear H. unfold words. generalize (@nil ascii) as acc. induction (chars s) as [|c l IH]; intros acc; [done|].
    cbn [map fields_go]. assert (is_space (if Ascii.eqb c ";"%char then " "%char else c) = brk c) as ->.
    { unfold brk. destruct (Ascii.eqb c ";"%char); [by rewrite orb_true_r|by rewrite orb_false_r]. }
    rewrite !IH. destruct (brk c) eqn:E; [done|]. by destruct (Ascii.eqb_spec c ";"%char) as [->|Hc].
  - induction (chars s) as [|c l IH]; [done|]. simpl in *. apply andb_true_iff in H as [Hc Hl].
    rewrite (IH Hl). destruct (Ascii.eqb c ";"%char); [done|]. by rewrite Hc.
Qed.

Lemma fields_go_ext p q l : (∀ c, c ∈ l → p c = q c) → ∀ acc, fields_go p acc l = fields_go q acc l.
Proof.
  induction l as [|c l IH]; intros H acc; [done|]. simpl. rewrite (H c) by set_solver.
  rewrite !IH by set_solver. done.
Qed.
Lemma fields_go_none p l acc : (∀ c, c ∈ l → p c = false) →
  fields_go p acc l = match (rev l ++ acc)%list with [] => [] | _ => [of_chars (rev acc ++ l)%list] end.
Proof.
  revert acc. induction l as [|c l IH]; intros acc H; simpl.
  - by rewrite app_nil_r.
  - rewrite H by set_solver. rewrite IH by set_solver. rewrite <-app_assoc. simpl.
    by rewrite <-(app_assoc (rev acc)).
Qed.

(** A statement's fields are among the tokens of the text. *)
Definition stop (c : ascii) : bool := Ascii.eqb c lf || Ascii.eqb c ";"%char.
Lemma statement_words l s t : forallb ascii7 l = true → s ∈ fields_go stop [] l → t ∈ fields s → t ∈ words l.
Proof.
  remember (length l) as n eqn:Hn. revert l Hn. induction (lt_wf n) as [n _ IH]. intros l -> Ha Hs Ht.
  assert (∀ c, brk c = false → stop c = false) as Hbs.
  { intros c [H1 H2]%orb_false_iff. unfold stop. rewrite H2, orb_false_r. destruct (Ascii.eqb_spec c lf) as [->|]; [|done].
    by vm_compute in H1. }
  destruct (existsb stop l) eqn:E.
  - apply existsb_exists in E as (c0 & Hc0 & Hst0).
    assert (∃ p c q, l = (p ++ c :: q)%list ∧ stop c = true ∧ ∀ x, x ∈ p → stop x = false) as (p & c & q & -> & Hst & Hp).
    { clear -Hc0 Hst0. induction l as [|x l IH]; [done|]. destruct (stop x) eqn:Ex.
      - exists [], x, l. split; [done|]. split; [done|]. set_solver.
      - destruct Hc0 as [->|Hc0]; [congruence|]. destruct (IH Hc0) as (p & c & q & -> & Hst & Hp).
        exists (x :: p), c, q. split; [done|]. split; [done|]. intros y [->|Hy]%elem_of_cons; [done|by apply Hp]. }
    rewrite fields_go_app in Hs by done. unfold words. rewrite fields_go_app.
    2:{ destruct (brk c) eqn:Eb; [done|]. by rewrite Hbs in Hst. }
    rewrite forallb_app in Ha. apply andb_true_iff in Ha as [Hap [_ Haq]%andb_true_iff].
    apply elem_of_app. apply elem_of_app in Hs as [Hs|Hs].
    + left. rewrite fields_go_none in Hs by done. destruct (rev p ++ [])%list eqn:Er; [set_solver|].
      apply list_elem_of_singleton in Hs as ->. simpl in Ht. unfold fields in Ht. rewrite chars_of_chars, ascii_spaces_id in Ht by done.
      rewrite (fields_go_ext brk is_space); [done|]. intros x Hx. unfold brk. specialize (Hp x Hx).
      apply orb_false_iff in Hp as [_ ->]. by rewrite orb_false_r.
    + right. eapply IH; [|reflexivity|done..]. rewrite length_app. simpl. lia.
  - assert (∀ x, x ∈ l → stop x = false) as Hp.
    { intros x Hx. apply not_true_iff_false. intros H. apply not_true_iff_false in E. apply E, existsb_exists. exists x. by rewrite <-list_elem_of_In. }
    rewrite fields_go_none in Hs by done. destruct (rev l ++ [])%list eqn:Er; [set_solver|].
    apply list_elem_of_singleton in Hs as ->. simpl in Ht. unfold fields in Ht. rewrite chars_of_chars, ascii_spaces_id in Ht by done.
    unfold words. rewrite (fields_go_ext brk is_space); [done|]. intros x Hx. unfold brk. specialize (Hp x Hx).
    apply orb_false_iff in Hp as [_ ->]. by rewrite orb_false_r.
Qed.

(** ** Harmless tokens *)

Definition harmless (t : string) : bool :=
  negb (nftManagementCommands (nftKeyword t)) && negb (nftDirectives (nftKeyword t)) && negb (String.eqb (nftKeyword t) "table").

Lemma mutation_managed k : nftMutationCommands k = true → nftManagementCommands k = true.
Proof.
  unfold nftMutationCommands, nftManagementCommands, among. rewrite !existsb_exists. intros (x & Hx & E). exists x. split; [|done].
  simpl in *. tauto.
Qed.
Lemma flush_harmful t : harmless t = true → String.eqb (nftKeyword t) "flush" = false.
Proof.
  unfold harmless. destruct (String.eqb_spec (nftKeyword t) "flush") as [->|]; [|done]. by vm_compute.
Qed.

Lemma check_tokens_harmless l : Forall (λ t, harmless t = true) l → check_tokens l = None.
Proof.
  induction 1 as [|t l [[_ H1]%andb_true_iff H2]%andb_true_iff _ IH]; [done|]. simpl. rewrite negb_true_iff in H1, H2. by rewrite H1, H2.
Qed.
Lemma harmless_statement s : Forall (λ t, harmless t = true) (fields s) → check_statement s = None ∧ removes_table s = false.
Proof.
  unfold check_statement, removes_table. destruct (fields s) as [|t l]; [done|]. intros H. pose proof (check_tokens_harmless _ H) as Ht.
  apply list.Forall_cons in H as [H _]. unfold harmless in H. rewrite !andb_true_iff, !negb_true_iff in H. destruct H as [[H1 _] _].
  assert (nftMutationCommands (nftKeyword t) = false) as Hm.
  { apply not_true_iff_false. intros E%mutation_managed. congruence. }
  split.
  - unfold check_management. rewrite H1, Ht. simpl. unfold check_object, isObjectCommand. rewrite Hm. by destruct l as [|? [|? [|? ?]]].
  - destruct l; [done|]. apply andb_false_intro1. apply not_true_iff_false. unfold among. intros (x & Hx & E%String.eqb_eq)%existsb_exists.
    rewrite E in H1. destruct Hx as [<-|[<-|[]]]; vm_compute in H1; done.
Qed.

(** A character that no keyword has and that the keyword reader does not strip. *)
Definition odd (c : ascii) : bool := ascii7 c && negb (is_alpha c) && negb (one_of "{};," c).

Lemma drop_while_keeps {A} (p : A → bool) l c : c ∈ l → p c = false → c ∈ drop_while p l.
Proof.
  induction l as [|x l IH]; [done|]. simpl. intros [->|H]%elem_of_cons Hp; [rewrite Hp; by left|].
  destruct (p x); [by apply IH|by right].
Qed.
Lemma lower_keyword_ascii l : forallb ascii7 l = true → lower_keyword l = map to_lower_char l.
Proof.
  assert (∀ a k, ascii7 a = true → (128 <= k)%N → (code a =? k)%N = false) as H.
  { unfold ascii7. intros a k Ha%N.ltb_lt Hk. apply N.eqb_neq. lia. }
  induction l as [|a [|b [|c l]] IH]; [done|done|..]; intros [Ha Hl]%andb_true_iff; cbn [lower_keyword].
  - by rewrite H by (done || lia).
  - rewrite !(H a) by (done || lia). simpl andb. cbn iota. change (lower_keyword (b :: c :: l)) with (lower_keyword (b :: c :: l)).
    specialize (IH Hl). cbn [map] in *. f_equal. exact IH.
Qed.
Lemma drop_while_sub {A} (p q : A → bool) l : forallb q l = true → forallb q (drop_while p l) = true.
Proof. induction l as [|x l IH]; [done|]. simpl. intros [Hx Hl]%andb_true_iff. destruct (p x); [by apply IH|]. simpl. by rewrite Hx, Hl. Qed.
Lemma forallb_rev {A} (q : A → bool) l : forallb q (rev l) = forallb q l.
Proof. induction l as [|x l IH]; [done|]. simpl. rewrite forallb_app, IH. simpl. rewrite andb_true_r. apply andb_comm. Qed.

Lemma odd_keyword t c : forallb ascii7 (chars t) = true → c ∈ chars t → odd c = true → c ∈ chars (nftKeyword t).
Proof.
  intros Ha Hc Ho. unfold odd in Ho. rewrite !andb_true_iff, !negb_true_iff in Ho. destruct Ho as [[_ Ho1] Ho2].
  unfold nftKeyword, nftIdentifier, trim. rewrite !chars_of_chars. unfold trim_list.
  rewrite lower_keyword_ascii by (rewrite forallb_rev; apply drop_while_sub; rewrite forallb_rev; by apply drop_while_sub).
  apply list_elem_of_In, in_map_iff. exists c. split.
  - unfold to_lower_char. unfold is_alpha in Ho1. apply orb_false_iff in Ho1 as [-> _]. done.
  - rewrite <-in_rev. apply list_elem_of_In, drop_while_keeps; [|done]. apply list_elem_of_In. rewrite <-in_rev.
    apply list_elem_of_In, drop_while_keeps; done.
Qed.
Definition keywords : list string :=
  ["add"; "create"; "delete"; "destroy"; "flush"; "get"; "insert"; "list"; "rename"; "replace"; "reset"; "import"; "export";
   "monitor"; "describe"; "include"; "define"; "redefine"; "table"].
Lemma odd_harmless t : forallb ascii7 (chars t) = true → existsb odd (chars t) = true → harmless t = true.
Proof.
  intros Ha (c & Hc & Ho)%existsb_exists. apply list_elem_of_In in Hc. pose proof (odd_keyword _ _ Ha Hc Ho) as Hk.
  assert (nftKeyword t ∉ keywords) as Hn.
  { assert (forallb (λ k, forallb is_alpha (chars k)) keywords = true) as Hkw by (vm_compute; reflexivity).
    rewrite forallb_forall in Hkw. intros Hin. apply list_elem_of_In, Hkw in Hin. rewrite forallb_forall in Hin.
    apply list_elem_of_In, Hin in Hk. unfold odd in Ho. by rewrite Hk, andb_false_r in Ho. }
  unfold keywords in Hn. unfold harmless, nftManagementCommands, nftDirectives, among. simpl. revert Hn. generalize (nftKeyword t) as k.
  intros k. rewrite !not_elem_of_cons. intros Hn. destruct_and!.
  repeat match goal with H : k ≠ _ |- _ => apply String.eqb_neq in H; rewrite H; clear H end. done.
Qed.

(** ** Text that lexes on its own *)

(** Whatever follows, the text contributes [c] to the cleaned script. *)
Definition closed (a c : list ascii) : Prop := ∀ b, strip InCode (a ++ b) = emit c (strip InCode b).
Lemma emit_emit x y r : emit x (emit y r) = emit (x ++ y) r.
Proof. destruct r; [done|]. simpl. by rewrite app_assoc. Qed.
Lemma emit_nil r : emit [] r = r.
Proof. by destruct r. Qed.
Lemma closed_nil : closed [] [].
Proof. intros b. by rewrite emit_nil. Qed.
Lemma closed_app a b c d : closed a c → closed b d → closed (a ++ b) (c ++ d).
Proof. intros Ha Hb e. by rewrite <-app_assoc, Ha, Hb, emit_emit. Qed.
Lemma closed_unique a c d : closed a c → closed a d → c = d.
Proof. intros Hc Hd. specialize (Hc []). specialize (Hd []). rewrite Hc in Hd. simpl in Hd. rewrite !app_nil_r in Hd. congruence. Qed.

Definition bare_char (c : ascii) : bool := negb (Ascii.eqb c backslash) && negb (Ascii.eqb c dquote) && negb (Ascii.eqb c "#"%char).
Lemma closed_plain l : forallb bare_char l = true → closed l l.
Proof.
  induction l as [|c l IH]; [intros; apply closed_nil|]. simpl. intros [Hc Hl]%andb_true_iff b. unfold bare_char in Hc.
  rewrite !andb_true_iff, !negb_true_iff in Hc. destruct Hc as [[H1 H2] H3]. simpl. rewrite H1, H2, H3. simpl.
  rewrite (IH Hl). by rewrite emit_emit.
Qed.

(** A character that stands for itself between quotes. *)
Definition quotable (c : ascii) : bool := (32 <=? code c)%N && (code c <? 127)%N && negb (Ascii.eqb c dquote) && negb (Ascii.eqb c backslash).
Lemma quotable_quote s : forallb quotable (chars s) = true → quote s = String dquote s +:+ String dquote EmptyString.
Proof.
  intros H. unfold quote. change (ascii_of_N 34) with dquote. rewrite string_app_cons. f_equal. f_equal. apply chars_inj. rewrite chars_of_chars.
  induction (chars s) as [|c l IH]; [done|]. simpl in *. apply andb_true_iff in H as [Hc Hl]. rewrite (IH Hl).
  enough (quote_char c = [c]) as -> by done. unfold quotable in Hc. rewrite !andb_true_iff, !negb_true_iff in Hc.
  destruct Hc as [[[H1%N.leb_le H2%N.ltb_lt] H3%Ascii.eqb_neq] H4%Ascii.eqb_neq]. unfold quote_char.
  assert (code c ≠ 34%N) by (intros E; apply H3, code_inj; exact E). assert (code c ≠ 92%N) by (intros E; apply H4, code_inj; exact E).
  repeat match goal with |- context [(code c =? ?k)%N] => destruct (N.eqb_spec (code c) k); [lia|] end.
  destruct (N.ltb_spec (code c) 32); [lia|]. done.
Qed.
Lemma closed_quoted s : forallb quotable (chars s) = true → closed (chars (quote s)) [dquote; "_"%char; dquote].
Proof.
  intros H b. rewrite quotable_quote by done. rewrite chars_app. change (chars (String dquote s)) with (dquote :: chars s).
  rewrite <-app_assoc. simpl.
  assert (strip InQuote (chars s ++ chars (String dquote EmptyString) ++ b) = emit [dquote] (strip InCode b)) as E.
  { induction (chars s) as [|c l IH]; [done|]. simpl in H. apply andb_true_iff in H as [Hc Hl]. simpl. unfold quotable in Hc.
    rewrite !andb_true_iff, !negb_true_iff in Hc. destruct Hc as [[[H1%N.leb_le _] H3] _].
    destruct (Ascii.eqb_spec c lf) as [->|_]; [by vm_compute in H1|]. rewrite H3. by apply IH. }
  simpl in E. rewrite E. by rewrite emit_emit.
Qed.

(** ** Harmless text *)

Definition good (s : string) : Prop :=
  ∃ c, closed (chars s) c ∧ forallb ascii7 c = true ∧ Forall (λ t, harmless t = true) (words c).

Definition word_char (c : ascii) : bool := bare_char c && ascii7 c && negb (brk c).
(** A literal whose tokens are harmless; decided by computation. *)
Definition literal (s : string) : bool := forallb bare_char (chars s) && forallb ascii7 (chars s) && forallb harmless (words (chars s)).
(** A single token with a character that no keyword has. *)
Definition odd_word (s : string) : bool := forallb word_char (chars s) && existsb odd (chars s).

Lemma good_literal s : literal s = true → good s.
Proof.
  intros [[H1 H2]%andb_true_iff H3]%andb_true_iff. exists (chars s). split; [by apply closed_plain|]. split; [done|].
  apply list.Forall_forall. intros t Ht. rewrite forallb_forall in H3. by apply H3, list_elem_of_In.
Qed.
Lemma forallb_and {A} (p q : A → bool) l : forallb (λ x, p x && q x) l = forallb p l && forallb q l.
Proof. induction l as [|x l IH]; [done|]. simpl. rewrite IH. by destruct (p x), (q x); rewrite ?andb_false_r. Qed.
Lemma words_one l : (∀ c, c ∈ l → brk c = false) → words l = match l with [] => [] | _ => [of_chars l] end.
Proof.
  intros H. unfold words. rewrite fields_go_none by done. rewrite app_nil_r. simpl. destruct l as [|c l]; [done|].
  destruct (rev (c :: l)) eqn:E; [|done]. apply (f_equal length) in E. rewrite length_rev in E. done.
Qed.
Lemma good_odd s : odd_word s = true → good s.
Proof.
  unfold odd_word, word_char. rewrite !forallb_and, !andb_true_iff. intros [[[H1 H2] H3] H4].
  exists (chars s). split; [by apply closed_plain|]. split; [done|]. rewrite words_one.
  - destruct (chars s) as [|c l] eqn:E; [done|]. constructor; [|done]. rewrite <-E, of_chars_chars. by apply odd_harmless; rewrite E.
  - intros c Hc. rewrite forallb_forall in H3. by apply negb_true_iff, H3, list_elem_of_In.
Qed.
Lemma good_quote s : forallb quotable (chars s) = true → good (quote s).
Proof. intros H. exists [dquote; "_"%char; dquote]. split; [by apply closed_quoted|]. split; [done|]. by repeat constructor. Qed.
Lemma good_empty : good "".
Proof. by apply good_literal. Qed.

Lemma words_app_r l c r : brk c = true → words (l ++ c :: r) = (words l ++ words (c :: r))%list.
Proof. intros Hc. unfold words. rewrite fields_go_app by done. simpl. by rewrite Hc. Qed.

(** The first and the last character of a plain text separate tokens. *)
Definition break_first (s : string) : bool := match chars s with c :: _ => brk c && bare_char c | [] => false end.
Definition break_last (s : string) : bool := match rev (chars s) with c :: _ => brk c | [] => false end.

Lemma good_app_r a b : good a → break_first b = true → good b → good (a +:+ b).
Proof.
  intros (x & Hx & Ax & Wx) Hb (y & Hy & Ay & Wy). exists (x ++ y)%list. rewrite chars_app. split; [by apply closed_app|].
  rewrite forallb_app, Ax, Ay. split; [done|]. unfold break_first in Hb. destruct (chars b) as [|c l]; [done|].
  apply andb_true_iff in Hb as [Hc Hp].
  assert (∃ y', y = c :: y') as [y' ->].
  { assert (strip InCode (c :: l) = inr y) as E.
    { pose proof (Hy []) as E. rewrite app_nil_r in E. rewrite E. simpl. by rewrite app_nil_r. }
    assert (closed [c] [c]) as H1 by (apply closed_plain; simpl; by rewrite Hp).
    specialize (H1 l). change ([c] ++ l)%list with (c :: l) in H1. rewrite E in H1. destruct (strip InCode l) as [|z]; [done|].
    injection H1 as ->. simpl. eauto. }
  rewrite words_app_r by done. by apply Forall_app.
Qed.
Lemma good_app_l a b : literal a = true → break_last a = true → good b → good (a +:+ b).
Proof.
  intros Ha Hl (y & Hy & Ay & Wy). pose proof Ha as Ha'. apply andb_true_iff in Ha as [[H1 H2]%andb_true_iff H3].
  exists (chars a ++ y)%list. rewrite chars_app. split; [apply closed_app; [by apply closed_plain|done]|].
  rewrite forallb_app, H2, Ay. split; [done|]. unfold break_last in Hl.
  destruct (rev (chars a)) as [|c l] eqn:E; [done|]. apply (f_equal (@rev ascii)) in E. rewrite rev_involutive in E. simpl in E.
  rewrite E in *. rewrite <-app_assoc. simpl. unfold words. rewrite fields_go_app by done. unfold words in H3. rewrite fields_go_app in H3 by done.
  apply Forall_app. split; [|done]. rewrite forallb_app in H3. apply andb_true_iff in H3 as [H3 _].
  apply list.Forall_forall. intros t Ht. rewrite forallb_forall in H3. by apply H3, list_elem_of_In.
Qed.

Lemma odd_word_app a b : odd_word a = true → forallb word_char (chars b) = true → odd_word (a +:+ b) = true.
Proof. unfold odd_word. rewrite chars_app, forallb_app, existsb_app. intros [-> ->]%andb_true_iff ->. done. Qed.
Lemma good_join l : Forall (λ w, odd_word w = true) l → good (join ", " l).
Proof.
  induction 1 as [|w l Hw Hl IH]; [apply good_empty|]. destruct l as [|v l]; [by apply good_odd|].
  change (join ", " (w :: v :: l)) with (w +:+ ("," +:+ " ") +:+ join ", " (v :: l)).
  replace (w +:+ ("," +:+ " ") +:+ join ", " (v :: l)) with ((w +:+ ",") +:+ (" " +:+ join ", " (v :: l))).
  - apply good_app_r; [|done|].
    + apply good_odd. by apply odd_word_app.
    + by apply good_app_l.
  - by rewrite <-string_app_assoc.
Qed.

(** ** Lines and scripts *)

Definition statement_ok (s : string) : Prop := check_statement s = None ∧ removes_table s = false.
Definition line_ok (l : string) : Prop :=
  ∃ c, (∀ b, strip InCode (chars l ++ lf :: b) = emit (c ++ [lf]) (strip InCode b)) ∧ forallb ascii7 c = true ∧
    Forall statement_ok (statements (of_chars c)) ∧ Forall (λ t, String.eqb (nftKeyword t) "flush" = false) (words c) ∧
    (forallb bare_char (chars l) = true → c = chars l).

Lemma closed_line a c b : closed a c → strip InCode (a ++ lf :: b) = emit (c ++ [lf]) (strip InCode b).
Proof. intros H. rewrite H. simpl. by rewrite emit_emit. Qed.

Lemma good_line l : good l → line_ok l.
Proof.
  intros (c & Hc & Ha & Hw). exists c. split; [intros; by apply closed_line|]. split; [done|]. split; [|split].
  - apply list.Forall_forall. intros s Hs. apply harmless_statement. apply list.Forall_forall. intros t Ht.
    rewrite list.Forall_forall in Hw. apply Hw. eapply statement_words; [done| |done].
    unfold statements, fields_func in Hs. by rewrite chars_of_chars in Hs.
  - eapply Forall_impl; [exact Hw|]. intros t. apply flush_harmful.
  - intros Hp. eapply closed_unique; [done|by apply closed_plain].
Qed.

(** A line of comment contributes its line end. *)
Definition comment_text (l : string) : bool := match l with String c r => Ascii.eqb c "#"%char && forallb (λ x, negb (Ascii.eqb x lf)) (chars r) | EmptyString => false end.
Lemma comment_line l : comment_text l = true → line_ok l.
Proof.
  destruct l as [|x l]; [done|]. simpl. intros [->%Ascii.eqb_eq H]%andb_true_iff. exists []. split; [|split; [|split; [|split]]]; try done.
  - intros b. change (chars (String "#" l)) with ("#"%char :: chars l). simpl.
    induction (chars l) as [|c k IH]; [done|]. simpl in *. apply andb_true_iff in H as [Hc Hk]. apply negb_true_iff in Hc.
    rewrite Hc. by apply IH.
Qed.
(** A plain literal line, decided by computation. *)
Definition plain_line (l : string) : bool :=
  forallb bare_char (chars l) && forallb ascii7 (chars l) &&
  forallb (λ s, match check_statement s with None => negb (removes_table s) | Some _ => false end) (statements l) &&
  forallb (λ t, negb (String.eqb (nftKeyword t) "flush")) (words (chars l)).
Lemma plain_line_ok l : plain_line l = true → line_ok l.
Proof.
  intros [[[H1 H2]%andb_true_iff H3]%andb_true_iff H4]%andb_true_iff. exists (chars l).
  split; [intros; by apply closed_line, closed_plain|]. split; [done|]. rewrite of_chars_chars. split; [|split; [|done]].
  - apply list.Forall_forall. intros s Hs. rewrite forallb_forall in H3. specialize (H3 s). rewrite <-list_elem_of_In in H3. specialize (H3 Hs).
    unfold statement_ok. destruct (check_statement s); [done|]. by apply negb_true_iff in H3.
  - apply list.Forall_forall. intros t Ht. rewrite forallb_forall in H4. apply negb_true_iff, H4. by apply list_elem_of_In.
Qed.

(** The text of the lines, each with its line end. *)
Fixpoint unlines (l : list string) : string := match l with [] => "" | x :: l' => x +:+ String lf (unlines l') end.

Lemma script_clean ls : Forall line_ok ls → ∃ clean,
  stripNftComments (unlines ls) = inr clean ∧ forallb ascii7 (chars clean) = true ∧ Forall statement_ok (statements clean) ∧
  Forall (λ t, String.eqb (nftKeyword t) "flush" = false) (words (chars clean)) ∧
  ∀ l s, l ∈ ls → forallb bare_char (chars l) = true → s ∈ statements l → s ∈ statements clean.
Proof.
  induction 1 as [|l ls (c & Hc & Ha & Hs & Hw & Hp) _ (clean & E & A & S & W & P)].
  { exists "". split; [done|]. split; [done|]. split; [constructor|]. split; [constructor|]. set_solver. }
  exists (of_chars c +:+ String lf clean). unfold stripNftComments in *. simpl unlines. rewrite chars_app.
  change (chars (String lf (unlines ls))) with (lf :: chars (unlines ls)). rewrite Hc.
  destruct (strip InCode (chars (unlines ls))) as [|k]; [done|]. injection E as <-.
  rewrite chars_app, chars_of_chars. change (chars (String lf (of_chars k))) with (lf :: chars (of_chars k)). rewrite statements_line.
  split; [|split; [|split; [|split]]].
  - simpl. f_equal. apply chars_inj. rewrite chars_app, !chars_of_chars. change (chars (String lf (of_chars k))) with (lf :: chars (of_chars k)).
    rewrite chars_of_chars, <-app_assoc. done.
  - rewrite forallb_app, Ha. exact A.
  - by apply Forall_app.
  - unfold words. rewrite fields_go_app by done. by apply Forall_app.
  - intros x s [->|Hx]%elem_of_cons Hpx Hsx; apply elem_of_app.
    + left. by rewrite (Hp Hpx), of_chars_chars.
    + right. by eapply P.
Qed.

Lemma flush_free l : Forall (λ t, String.eqb (nftKeyword t) "flush" = false) l → flushes_ruleset l = false.
Proof. induction 1 as [|t l Ht Hl IH]; [done|]. simpl. rewrite Ht. by destruct l. Qed.
Lemma check_statements_ok l : Forall statement_ok l → check_statements l = None.
Proof. induction 1 as [|s l [Hs _] _ IH]; [done|]. simpl. by rewrite Hs. Qed.

(** A script of such lines validates; it installs a ruleset when each table is opened. *)
Lemma script_valid ls : Forall line_ok ls → fields (unlines ls) ≠ [] → validateScript (unlines ls) = None.
Proof.
  intros H Hf. destruct (script_clean ls H) as (clean & E & A & S & W & _). unfold validateScript.
  destruct (fields (unlines ls)); [done|]. rewrite E, fields_words, flush_free by done. by apply check_statements_ok.
Qed.
Lemma script_installs ls : Forall line_ok ls →
  (∀ t, t ∈ OwnedTables → ∃ l s, l ∈ ls ∧ forallb bare_char (chars l) = true ∧ s ∈ statements l ∧ opens_table t s = true) →
  installs (unlines ls) = true.
Proof.
  intros H Ht. destruct (script_clean ls H) as (clean & E & _ & S & _ & P). unfold installs. rewrite E. apply andb_true_iff. split.
  - apply forallb_forall. intros t Hin%list_elem_of_In. destruct (Ht t Hin) as (l & s & Hl & Hpl & Hs & Ho).
    apply existsb_exists. exists s. split; [|done]. apply list_elem_of_In. by eapply P.
  - apply forallb_forall. intros s Hs%list_elem_of_In. rewrite list.Forall_forall in S. by destruct (S s Hs) as [_ ->].
Qed.

(** Literals with quoted strings, decided by computation: without comments and
    backslashes, a text that lexes alone lexes the same whatever follows. *)
Lemma strip_alone l : forall st c, st ≠ InComment → existsb (λ x, Ascii.eqb x "#"%char || Ascii.eqb x backslash) l = false →
  strip st l = inr c → ∀ b, strip st (l ++ b) = emit c (strip InCode b).
Proof.
  induction l as [|x l IH]; intros st c Hst.
  - intros _ H b. destruct st; simpl in H; [|done|done]. injection H as <-. by rewrite emit_nil.
  - simpl. intros [[H1 H2]%orb_false_iff H3]%orb_false_iff. destruct st; [|clear H1 H2|done].
    + rewrite H1, H2. simpl. intros H b. destruct (Ascii.eqb x dquote).
      * destruct (strip InQuote l) as [|k] eqn:E; [done|]. injection H as <-. rewrite (IH InQuote k) by done. by rewrite emit_emit.
      * destruct (strip InCode l) as [|k] eqn:E; [done|]. injection H as <-. rewrite (IH InCode k) by done. by rewrite emit_emit.
    + destruct (Ascii.eqb x lf); [done|]. intros H b. destruct (Ascii.eqb x dquote).
      * destruct (strip InCode l) as [|k] eqn:E; [done|]. injection H as <-. rewrite (IH InCode k) by done. by rewrite emit_emit.
      * by apply IH.
Qed.
Definition quoted_literal (s : string) : bool :=
  negb (existsb (λ x, Ascii.eqb x "#"%char || Ascii.eqb x backslash) (chars s)) &&
  match strip InCode (chars s) with inl _ => false | inr c => forallb ascii7 c && forallb harmless (words c) end.
Lemma good_quoted_literal s : quoted_literal s = true → good s.
Proof.
  intros [H1%negb_true_iff H2]%andb_true_iff. destruct (strip InCode (chars s)) as [|c] eqn:E; [done|].
  apply andb_true_iff in H2 as [H2 H3]. exists c. split; [intros b; by apply strip_alone|]. split; [done|].
  apply list.Forall_forall. intros t Ht. rewrite forallb_forall in H3. by apply H3, list_elem_of_In.
Qed.

Definition cat : list string → string := fold_right (λ a b, a +:+ b) "".
Lemma string_app_nil_r (s : string) : s +:+ "" = s.
Proof. apply chars_inj. by rewrite chars_app, app_nil_r. Qed.
Lemma cat_app l r : cat l +:+ r = fold_right (λ a b, a +:+ b) r l.
Proof. unfold cat. induction l as [|x l IH]; [done|]. simpl. by rewrite <-string_app_assoc, IH. Qed.

(** Cuts a text at its pieces, leaving those that are not literals. *)
Ltac good_text :=
  repeat match goal with
  | |- good (cat ?l) => unfold cat; cbn [fold_right]
  | |- good (cat ?l +:+ ?r) => rewrite cat_app; cbn [fold_right]
  | |- good ((?a +:+ ?b) +:+ ?c) => rewrite <-(string_app_assoc a b c)
  | |- good (EmptyString +:+ ?b) => change (EmptyString +:+ b) with b
  | |- good (?a +:+ (EmptyString +:+ ?b)) => change (EmptyString +:+ b) with b
  | |- good (?a +:+ EmptyString) => rewrite (string_app_nil_r a)
  | |- good EmptyString => apply good_empty
  | |- good (String _ _) => apply good_quoted_literal; vm_compute; reflexivity
  | |- good (String ?x ?y +:+ ?b) => apply (good_app_l (String x y) b); [vm_compute; reflexivity|vm_compute; reflexivity|]
  | |- good (?a +:+ ?b) => apply (good_app_r a b); [|reflexivity|]
  end.

(** ** Words of addresses and numbers *)

Lemma class_impl (p q : ascii → bool) : forallb (λ n, implb (p (ascii_of_nat n)) (q (ascii_of_nat n))) (seq 0 256) = true →
  ∀ c, p c = true → q c = true.
Proof.
  intros H c Hp. rewrite forallb_forall in H. specialize (H (nat_of_ascii c)). rewrite ascii_nat_embedding, Hp in H.
  apply H, in_seq. pose proof (nat_ascii_bounded c). lia.
Qed.
Lemma prefix_word : ∀ c, prefix_char c = true → word_char c = true.
Proof. apply class_impl. vm_compute. reflexivity. Qed.
Lemma digit_word : ∀ c, is_digit c = true → word_char c = true.
Proof. apply class_impl. vm_compute. reflexivity. Qed.
Lemma digit_odd : ∀ c, is_digit c = true → odd c = true.
Proof. apply class_impl. vm_compute. reflexivity. Qed.
Lemma existsb_in {A} (p : A → bool) l x : x ∈ l → p x = true → existsb p l = true.
Proof. intros H Hp. apply existsb_exists. exists x. by rewrite <-list_elem_of_In. Qed.
Lemma prefix_text_odd s p : ParsePrefix s = Some p → odd_word s = true.
Proof.
  intros [H1 H2]%ParsePrefix_chars. unfold odd_word. rewrite (forallb_impl _ _ _ prefix_word H1). by eapply existsb_in.
Qed.
Lemma digits_odd l : forallb is_digit l = true → l ≠ [] → forallb word_char l = true ∧ existsb odd l = true.
Proof.
  intros H Hn. split; [by apply (forallb_impl _ _ _ digit_word)|]. destruct l as [|c l]; [done|]. simpl in *.
  apply andb_true_iff in H as [H _]. by rewrite (digit_odd _ H).
Qed.
Lemma pretty_odd (z : Z) : (0 <= z)%Z → odd_word (pretty z) = true.
Proof. intros [H1 H2]%pretty_Z_digits. unfold odd_word. destruct (digits_odd _ H1 H2) as [-> ->]. done. Qed.
