(* ===== verification/GoText.v ===== *)
(** Text routines of Go's standard library that the readers of configuration files use:
    [strconv], [net.SplitHostPort], [encoding/base64] and [bufio.Scanner] over lines. *)

From S2P Require Import Prelude GoStrings Netip GoPath ScriptText.
From Stdlib Require Import Ascii String.
Local Open Scope string_scope.
Local Open Scope Z_scope.
Abbreviation length := List.length.

Definition lf : ascii := ascii_of_nat 10.
Definition cr : ascii := ascii_of_nat 13.

(** ** [strconv] *)

Definition digits (l : list ascii) : option N :=
  match l with [] => None | _ => if forallb is_digit l then Some (digits_value l) else None end.
(** [strconv.Atoi], with its range. *)
Definition Atoi (s : string) : option Z :=
  match chars s with
  | [] => None
  | c :: l =>
      if Ascii.eqb c "-"%char then n ← digits l; if (n <=? 2 ^ 63)%N then Some (- Z.of_N n) else None
      else n ← digits (if Ascii.eqb c "+"%char then l else c :: l); if (n <? 2 ^ 63)%N then Some (Z.of_N n) else None
  end.
(** [strconv.ParseUint(s, 10, bits)] *)
Definition ParseUint10 (bits : N) (s : string) : option N :=
  n ← digits (chars s); if (n <? 2 ^ bits)%N then Some n else None.

(** ** [net] *)

Definition has_char (c : ascii) (l : list ascii) : bool := existsb (Ascii.eqb c) l.
(** [net.SplitHostPort]: the port follows the last colon; a host with colons stands in
    brackets, and no other bracket is allowed. *)
Definition SplitHostPort (s : string) : option (string * string) :=
  match split_last ":"%char (chars s) with
  | None => None
  | Some (before, port) =>
      let answer host := if has_char "["%char host || has_char "]"%char host || has_char "["%char port || has_char "]"%char port
                         then None else Some (of_chars host, of_chars port) in
      match before with
      | "["%char :: l =>
          match split_at "]"%char l with
          | Some (host, []) => answer host
          | _ => None
          end
      | _ => if has_char ":"%char before then None else answer before
      end
  end.
Definition JoinHostPort (host port : string) : string :=
  if has_char ":"%char (chars host) then "[" +:+ host +:+ "]:" +:+ port else host +:+ ":" +:+ port.

Example split_host : SplitHostPort "vpn.example.net:51820" = Some ("vpn.example.net", "51820"). Proof. reflexivity. Qed.
Example split_six : SplitHostPort "[2001:db8::1]:51820" = Some ("2001:db8::1", "51820"). Proof. reflexivity. Qed.
Example split_bare_six : SplitHostPort "2001:db8::1:51820" = None. Proof. reflexivity. Qed.
Example split_late_bracket : SplitHostPort "[a]b:1" = None. Proof. reflexivity. Qed.

(** ** [base64.StdEncoding] *)

Definition b64_char (n : N) : ascii :=
  (if n <? 26 then ascii_of_N (65 + n) else if n <? 52 then ascii_of_N (71 + n) else if n <? 62 then ascii_of_N (n - 4)
   else if n =? 62 then "+"%char else "/"%char)%N.
Definition b64_value (c : ascii) : option N :=
  (if is_upper c then Some (code c - 65) else if is_lower c then Some (code c - 71) else if is_digit c then Some (code c + 4)
   else if Ascii.eqb c "+"%char then Some 62 else if Ascii.eqb c "/"%char then Some 63 else None)%N.
Definition pad : ascii := "="%char.
Fixpoint b64_encode (l : list N) : list ascii :=
  (match l with
   | [] => []
   | [a] => [b64_char (N.shiftr a 2); b64_char (N.shiftl (N.land a 3) 4); pad; pad]
   | [a; b] => [b64_char (N.shiftr a 2); b64_char (N.lor (N.shiftl (N.land a 3) 4) (N.shiftr b 4)); b64_char (N.shiftl (N.land b 15) 2); pad]
   | a :: b :: c :: l' =>
       b64_char (N.shiftr a 2) :: b64_char (N.lor (N.shiftl (N.land a 3) 4) (N.shiftr b 4)) ::
       b64_char (N.lor (N.shiftl (N.land b 15) 2) (N.shiftr c 6)) :: b64_char (N.land c 63) :: b64_encode l'
   end)%N.
(** Padding ends the text; bits that it leaves over are not looked at. *)
Fixpoint b64_quanta (l : list ascii) : option (list N) :=
  match l with
  | [] => Some []
  | a :: b :: c :: d :: l' =>
      x ← b64_value a; y ← b64_value b;
      let first := N.land (N.lor (N.shiftl x 2) (N.shiftr y 4)) 255 in
      if Ascii.eqb c pad then if Ascii.eqb d pad && bool_decide (l' = []) then Some [first] else None
      else
        z ← b64_value c;
        let second := N.land (N.lor (N.shiftl y 4) (N.shiftr z 2)) 255 in
        if Ascii.eqb d pad then if bool_decide (l' = []) then Some [first; second] else None
        else
          w ← b64_value d; rest ← b64_quanta l';
          Some (first :: second :: N.land (N.lor (N.shiftl z 6) w) 255 :: rest)
  | _ => None
  end.
(** Line breaks are skipped. *)
Definition b64_decode (s : string) : option (list N) :=
  b64_quanta (List.filter (λ c, negb (Ascii.eqb c lf || Ascii.eqb c cr)) (chars s)).

Example b64_pad : b64_decode "TWE=" = Some [77; 97]%N ∧ of_chars (b64_encode [77; 97]%N) = "TWE=". Proof. split; reflexivity. Qed.
Example b64_loose : b64_decode "TWF=" = Some [77; 97]%N. Proof. reflexivity. Qed.
Example b64_bad : b64_decode "TW=a" = None. Proof. reflexivity. Qed.

(** ** [bufio.Scanner] over lines *)

Definition drop_cr (l : list ascii) : list ascii :=
  match rev l with c :: r => if Ascii.eqb c cr then rev r else l | [] => l end.
Fixpoint drop_last_empty (l : list (list ascii)) : list (list ascii) :=
  match l with [] => [] | [[]] => [] | x :: l' => x :: drop_last_empty l' end.
Definition scan_lines (s : string) : list string := map (λ l, of_chars (drop_cr l)) (drop_last_empty (split_on lf [] (chars s))).
(** With a buffer of [max] bytes that takes the whole text, only a text of that very
    size without a line break is too long. *)
Definition too_long (max : N) (s : string) : bool := (N.of_nat (slen s) =? max)%N && negb (has_char lf (chars s)).

(** ** Numbers read back *)

Lemma digits_value_go n acc : foldl (λ acc c, acc * 10 + (code c - 48))%N 0%N (chars (pretty_N_go n acc)) =
  foldl (λ acc c, acc * 10 + (code c - 48))%N n (chars acc).
Proof.
  revert acc. induction (N.lt_wf_0 n) as [n _ IH]. intros acc. destruct (decide (0 < n)%N) as [H|H].
  - rewrite pretty_N_go_step by done. rewrite IH by (by apply N.div_lt). cbn [chars list_ascii_of_string foldl]. f_equal.
    assert (∀ d, (d < 10)%N → (code (pretty_N_char d) - 48 = d)%N) as Hd.
    { intros d Hd. assert (d = 0 ∨ d = 1 ∨ d = 2 ∨ d = 3 ∨ d = 4 ∨ d = 5 ∨ d = 6 ∨ d = 7 ∨ d = 8 ∨ d = 9)%N as Hc by lia. by destruct_or! Hc; subst. }
    rewrite Hd by (by apply N.mod_lt). rewrite (N.div_mod n 10) at 3 by done. lia.
  - by assert (n = 0%N) as -> by lia.
Qed.
Lemma digits_value_pretty (n : N) : digits_value (chars (pretty n)) = n.
Proof. unfold pretty, pretty_N. destruct (decide (n = 0)%N) as [->|]; [done|]. apply (digits_value_go n ""). Qed.
Lemma digits_pretty (n : N) : digits (chars (pretty n)) = Some n.
Proof.
  unfold digits. pose proof (pretty_N_nonempty n). destruct (chars (pretty n)) eqn:E; [done|].
  rewrite <-E, pretty_N_digits. by rewrite digits_value_pretty.
Qed.
Lemma ParseUint10_pretty bits n : (n < 2 ^ bits)%N → ParseUint10 bits (pretty n) = Some n.
Proof. intros H. unfold ParseUint10. rewrite digits_pretty. simpl. by rewrite (proj2 (N.ltb_lt _ _) H). Qed.
Lemma Atoi_pretty z : 0 <= z < 2 ^ 63 → Atoi (pretty z) = Some z.
Proof.
  intros [H0 H1]. assert (pretty z = pretty (Z.to_N z)) as -> by (destruct z as [|p|p]; [done..|lia]).
  unfold Atoi. pose proof (digits_pretty (Z.to_N z)) as Hd. pose proof (pretty_N_digits (Z.to_N z)) as Hc.
  destruct (chars (pretty (Z.to_N z))) as [|c l]; [done|]. simpl in Hc. apply andb_true_iff in Hc as [Hc _].
  destruct (Ascii.eqb_spec c "-"%char) as [->|_]; [done|]. destruct (Ascii.eqb_spec c "+"%char) as [->|_]; [done|].
  rewrite Hd. simpl. rewrite (proj2 (N.ltb_lt _ _)) by lia. by rewrite Z2N.id.
Qed.

(** ** Hosts and ports *)

Lemma has_char_free c l : has_char c l = false ↔ Forall (λ x, x ≠ c) l.
Proof.
  unfold has_char. induction l as [|x l IH]; simpl; [by split|]. rewrite orb_false_iff, IH, Forall_cons, Ascii.eqb_neq. naive_solver.
Qed.
Lemma split_last_app c a b : Forall (λ x, x ≠ c) b → split_last c (a ++ c :: b)%list = Some (a, b).
Proof.
  intros H. unfold split_last. rewrite rev_app_distr. simpl. rewrite <-app_assoc, split_at_skip by by apply Forall_rev.
  simpl. rewrite Ascii.eqb_refl. simpl. by rewrite app_nil_r, !rev_involutive.
Qed.
Definition host_char (c : ascii) : bool := negb (one_of ":[]" c).
Lemma host_char_free c l : one_of ":[]" c = true → forallb host_char l = true → has_char c l = false.
Proof.
  intros Hc H. apply has_char_free, list.Forall_forall. intros x Hx ->. rewrite forallb_forall in H.
  specialize (H c). unfold host_char in H. rewrite Hc in H. by rewrite list_elem_of_In in Hx; apply H in Hx.
Qed.
Lemma SplitHostPort_Join host (port : N) : forallb host_char (chars host) = true →
  SplitHostPort (JoinHostPort host (pretty port)) = Some (host, pretty port).
Proof.
  intros H. pose proof (pretty_N_digits port) as Hd.
  assert (forallb host_char (chars (pretty port)) = true) as Hp.
  { eapply forallb_impl, Hd. apply class_impl. vm_compute. reflexivity. }
  unfold JoinHostPort. rewrite (host_char_free ":") by done. unfold SplitHostPort. rewrite !chars_app. change (chars ":") with [":"%char].
  cbn [app]. rewrite split_last_app by (by apply has_char_free, host_char_free).
  assert (has_char "["%char (chars host) || has_char "]"%char (chars host) || has_char "["%char (chars (pretty port)) || has_char "]"%char (chars (pretty port)) = false) as Hb
    by by rewrite !host_char_free.
  rewrite Hb, !of_chars_chars. destruct (chars host) as [|c l] eqn:E; [done|].
  assert (c ≠ "["%char) as Hc by (intros ->; by rewrite orb_true_l in Hb).
  rewrite <-E in *. rewrite (host_char_free ":") by done. clear -Hc. by destruct c as [[] [] [] [] [] [] [] []].
Qed.

(** ** Lines and lists *)

Lemma split_on_free c acc l : Forall (λ x, x ≠ c) l → split_on c acc l = [(rev acc ++ l)%list].
Proof.
  revert acc. induction l as [|x l IH]; intros acc H; simpl; [by rewrite app_nil_r|]. apply Forall_cons in H as [Hx H].
  apply Ascii.eqb_neq in Hx as ->. rewrite IH by done. simpl. by rewrite <-app_assoc.
Qed.
Lemma split_on_app c acc a b : Forall (λ x, x ≠ c) a → split_on c acc (a ++ c :: b)%list = (rev acc ++ a)%list :: split_on c [] b.
Proof.
  revert acc. induction a as [|x a IH]; intros acc H; simpl; [by rewrite Ascii.eqb_refl, app_nil_r|]. apply Forall_cons in H as [Hx H].
  apply Ascii.eqb_neq in Hx as ->. rewrite IH by done. simpl. by rewrite <-app_assoc.
Qed.

(** Printable ASCII text. *)
Definition printable : ascii → bool := in_range 32 126.
Definition solid_char (c : ascii) : bool := in_range 33 126 c.
(** Text that begins and ends with a character that is not white space. *)
Definition solid (s : string) : bool :=
  forallb printable (chars s) && match chars s, rev (chars s) with c :: _, d :: _ => solid_char c && solid_char d | _, _ => false end.

Lemma printable_free c l : printable c = false → forallb printable l = true → Forall (λ x, x ≠ c) l.
Proof.
  intros Hc H. apply list.Forall_forall. intros x Hx ->. rewrite forallb_forall in H. rewrite list_elem_of_In in Hx. apply H in Hx. congruence.
Qed.
Lemma solid_char_plain : ∀ c, solid_char c = true → negb (is_space c) && (code c <? 128)%N = true.
Proof. apply class_impl. vm_compute. reflexivity. Qed.
Lemma drop_spaces_solid c l : solid_char c = true → drop_spaces (c :: l) = c :: l.
Proof.
  intros [H1%negb_true_iff H2%N.ltb_lt]%solid_char_plain%andb_true_iff. simpl. rewrite H1. destruct l as [|b l]; [done|].
  unfold space2. rewrite (proj2 (N.eqb_neq _ _)) by lia. simpl. destruct l as [|d l]; [done|].
  unfold space3. rewrite !(proj2 (N.eqb_neq (code c) _)) by lia. done.
Qed.
Lemma drop_spaces_rev_solid c l : solid_char c = true → drop_spaces_rev (c :: l) = c :: l.
Proof.
  intros [H1%negb_true_iff H2%N.ltb_lt]%solid_char_plain%andb_true_iff. simpl. rewrite H1. destruct l as [|b l]; [done|].
  unfold space2. rewrite !(proj2 (N.eqb_neq (code c) _)) by lia. rewrite andb_false_r. destruct l as [|a l]; [done|].
  unfold space3, in_range. rewrite !(proj2 (N.eqb_neq (code c) _)) by lia. rewrite (proj2 (N.leb_gt 128 (code c))) by lia. simpl. by rewrite !andb_false_r.
Qed.
(** White space around a solid text goes. *)
Lemma trim_space_solid s pre post : solid s = true → forallb is_space (chars pre) = true → forallb is_space (chars post) = true →
  trim_space (pre +:+ s +:+ post) = s.
Proof.
  intros Hs Hpre Hpost. unfold solid in Hs. apply andb_true_iff in Hs as [_ Hs]. unfold trim_space. rewrite !chars_app.
  assert (∀ l r, forallb is_space l = true → drop_spaces (l ++ r)%list = drop_spaces r) as H1.
  { induction l as [|c l IH]; [done|]. intros r. simpl. intros [Hc Hl]%andb_true_iff. rewrite Hc. by apply IH. }
  assert (∀ l r, forallb is_space l = true → drop_spaces_rev (l ++ r)%list = drop_spaces_rev r) as H2.
  { induction l as [|c l IH]; [done|]. intros r. simpl. intros [Hc Hl]%andb_true_iff. rewrite Hc. by apply IH. }
  rewrite H1 by done. destruct (chars s) as [|c l] eqn:E; [done|]. destruct (rev (c :: l)) as [|d r] eqn:Er; [done|].
  apply andb_true_iff in Hs as [Hc Hd]. rewrite <-app_comm_cons, drop_spaces_solid by done. rewrite app_comm_cons, rev_app_distr.
  rewrite H2 by by rewrite forallb_rev. rewrite Er, drop_spaces_rev_solid by done. rewrite <-Er, rev_involutive, <-E. apply of_chars_chars.
Qed.
Lemma trim_space_id s : solid s = true → trim_space s = s.
Proof. intros H. pose proof (trim_space_solid s "" "" H eq_refl eq_refl) as Ht. by rewrite string_app_nil_r in Ht. Qed.

Lemma solid_all s : forallb solid_char (chars s) = true → s ≠ "" → solid s = true.
Proof.
  intros H Hn. unfold solid. rewrite (forallb_impl solid_char printable) by (done || (apply class_impl; vm_compute; reflexivity)). simpl.
  destruct (chars s) as [|c l] eqn:E; [by apply (f_equal of_chars) in E; rewrite of_chars_chars in E|].
  destruct (rev (c :: l)) as [|d r] eqn:Er; [by apply (f_equal (@rev ascii)) in Er; rewrite rev_involutive in Er|].
  rewrite forallb_forall in H. rewrite !H; [done| |by left]. apply in_rev. rewrite Er. by left.
Qed.

(** Lines read back. *)
Definition text_lines (l : list string) : string := foldr (λ s t, s +:+ of_chars [lf] +:+ t) "" l.
Lemma scan_text_lines l : Forall (λ s, forallb printable (chars s) = true) l → scan_lines (text_lines l) = l.
Proof.
  intros H. unfold scan_lines. assert (∀ s, forallb printable (chars s) = true → of_chars (drop_cr (chars s)) = s) as Hcr.
  { intros s Hs. rewrite <-(of_chars_chars s) at 2. f_equal. unfold drop_cr. destruct (rev (chars s)) as [|c r] eqn:E; [done|].
    rewrite <-forallb_rev, E in Hs. simpl in Hs. apply andb_true_iff in Hs as [Hc _]. destruct (Ascii.eqb_spec c cr) as [->|]; done. }
  assert (∀ a l', drop_last_empty (a :: l') = match a, l' with [], [] => [] | _, _ => a :: drop_last_empty l' end) as Hdrop.
  { intros [|c a] l'; [by destruct l'|done]. }
  induction H as [|s l Hs _ IH]; [done|]. cbn [text_lines foldr]. rewrite !chars_app, chars_of_chars. cbn [app].
  rewrite split_on_app by by apply printable_free. cbn [rev app]. rewrite Hdrop.
  fold (text_lines l) in *. assert (split_on lf [] (chars (text_lines l)) ≠ []) as Hn.
  { generalize (chars (text_lines l)). generalize (@nil ascii). intros acc k. revert acc. induction k as [|c k IHk]; [done|]. intros acc. simpl. by destruct (Ascii.eqb c lf). }
  destruct (split_on lf [] (chars (text_lines l))) as [|b k] eqn:E; [done|]. rewrite <-E in *. clear E.
  assert (map (λ l0 : list ascii, of_chars (drop_cr l0)) (chars s :: drop_last_empty (split_on lf [] (chars (text_lines l)))) = s :: l) as Hm
    by (cbn [map]; by rewrite Hcr, IH).
  destruct (chars s) as [|c a] eqn:Es; [|exact Hm]. destruct (split_on lf [] (chars (text_lines l))); [done|exact Hm].
Qed.

(** Lists of solid items without commas, as [strings.Join(l, ", ")] writes them. *)
Lemma join_two sep a b l : join sep (a :: b :: l) = a +:+ sep +:+ join sep (b :: l).
Proof. done. Qed.
Definition item (s : string) : bool := forallb (λ c, solid_char c && negb (Ascii.eqb c ","%char)) (chars s) && negb (String.eqb s "").
Lemma item_solid s : item s = true → solid s = true ∧ Forall (λ x, x ≠ ","%char) (chars s).
Proof.
  unfold item. rewrite andb_true_iff, negb_true_iff, String.eqb_neq, forallb_and, andb_true_iff. intros [[H1 H2] H3]. split; [by apply solid_all|].
  apply list.Forall_forall. intros x Hx. rewrite forallb_forall in H2. rewrite list_elem_of_In in Hx. by apply H2, negb_true_iff, Ascii.eqb_neq in Hx.
Qed.
Lemma split_join_items l pre : l ≠ [] → Forall (λ s, item s = true) l → forallb is_space (chars pre) = true → Forall (λ x, x ≠ ","%char) (chars pre) →
  map trim_space (split_string ","%char (pre +:+ join ", " l)) = l.
Proof.
  intros Hn Hl. revert pre. induction Hl as [|s l Hs Hl IH]; [done|]. intros pre Hsp Hpre. apply item_solid in Hs as [Hs Hc]. unfold split_string.
  destruct l as [|s' l].
  - change (join ", " [s]) with s. rewrite chars_app, split_on_free by by apply Forall_app_2. cbn [map rev app]. f_equal.
    rewrite <-chars_app, of_chars_chars. pose proof (trim_space_solid s pre "" Hs Hsp eq_refl) as Ht. by rewrite string_app_nil_r in Ht.
  - rewrite join_two, !chars_app. change (chars ", ") with [","; " "]%char. cbn [app]. rewrite app_assoc. rewrite split_on_app by by apply Forall_app_2.
    cbn [map rev app]. f_equal.
    + rewrite <-chars_app, of_chars_chars. pose proof (trim_space_solid s pre "" Hs Hsp eq_refl) as Ht. by rewrite string_app_nil_r in Ht.
    + change (" "%char :: chars (join ", " (s' :: l))) with (chars (" " +:+ join ", " (s' :: l))). by apply IH; [|repeat constructor..].
Qed.
Lemma solid_join l : l ≠ [] → Forall (λ s, item s = true) l → solid (join ", " l) = true.
Proof.
  intros Hn Hl. induction Hl as [|s l Hs Hl IH]; [done|]. destruct l as [|s' l]; [by apply item_solid|].
  rewrite join_two. specialize (IH ltac:(done)). apply item_solid in Hs as [Hs _]. unfold solid in *. rewrite !chars_app, !forallb_app, !rev_app_distr.
  apply andb_true_iff in Hs as [-> Hs], IH as [-> IH]. change (forallb printable (chars ", ")) with true. cbn [andb].
  destruct (chars s) as [|c a]; [done|]. destruct (rev (c :: a)) as [|d r]; [done|]. cbn [app]. apply andb_true_iff in Hs as [-> _].
  destruct (chars (join ", " (s' :: l))) as [|c2 a2]; [done|]. destruct (rev (c2 :: a2)) as [|d2 r2]; [done|]. cbn [app].
  by apply andb_true_iff in IH as [_ ->].
Qed.

(** Base64 text. *)
Definition b64_text (c : ascii) : bool := is_alnum c || one_of "+/=" c.
Lemma b64_char_text n : b64_text (b64_char n) = true.
Proof.
  unfold b64_char. destruct (N.ltb_spec n 26); [|destruct (N.ltb_spec n 52); [|destruct (N.ltb_spec n 62); [|by destruct (n =? 62)%N]]].
  all: rewrite <-(N2Nat.id n); set (k := N.to_nat n).
  - assert (Forall (λ k, b64_text (ascii_of_N (65 + N.of_nat k)) = true) (seq 0 26)) as H' by by repeat constructor.
    rewrite list.Forall_forall in H'. apply H', elem_of_seq. lia.
  - assert (Forall (λ k, b64_text (ascii_of_N (71 + N.of_nat k)) = true) (seq 26 26)) as H' by by repeat constructor.
    rewrite list.Forall_forall in H'. apply H', elem_of_seq. lia.
  - assert (Forall (λ k, b64_text (ascii_of_N (N.of_nat k - 4)) = true) (seq 52 10)) as H' by by repeat constructor.
    rewrite list.Forall_forall in H'. apply H', elem_of_seq. lia.
Qed.
Lemma b64_encode_text l : forallb b64_text (b64_encode l) = true.
Proof.
  enough (∀ n, (length l <= n)%nat → forallb b64_text (b64_encode l) = true) as H by by eapply H.
  intros n. revert l. induction n as [|n IH]; intros [|a [|b [|c l]]]; simpl; try done; try lia; intros; rewrite !b64_char_text; try done.
  apply IH. lia.
Qed.

(** Addresses and pieces of a split. *)
Definition v4_char (c : ascii) : bool := is_digit c || Ascii.eqb c "."%char.
Lemma ipv4_fields_v4 l before val n r : ipv4_fields l before val n = Some r → forallb v4_char l = true.
Proof.
  revert before val n. induction l as [|c l IH]; intros before val n; cbn [ipv4_fields forallb]; [done|]. unfold v4_char at 1.
  destruct (is_digit c); [destruct (_ && _); [done|]; destruct (_ <? _)%N; [done|apply IH]|].
  destruct (Ascii.eqb c "."%char); [|done]. destruct (_ || _); [done|apply IH].
Qed.
Lemma ParseAddr_v4_text s a : ParseAddr s = Some a → Is4 a = true → forallb v4_char (chars s) = true.
Proof.
  intros [E|E]%ParseAddr_family Ha.
  - unfold parseIPv4 in E. apply fmap_Some in E as (x & E & _). by eapply ipv4_fields_v4.
  - unfold parseIPv6 in E. destruct (split_at _ _) as [[t [|c z]]|]; [done|..]; by apply fmap_Some in E as (n & _ & ->).
Qed.
Lemma split_on_chars (p : ascii → bool) c acc l : Forall (λ x, forallb p x = true) (split_on c acc l) →
  forallb (λ x, p x || Ascii.eqb x c) l = true.
Proof.
  revert acc. induction l as [|x l IH]; intros acc; [done|]. cbn [split_on forallb]. destruct (Ascii.eqb_spec x c) as [->|_].
  - intros [_ H]%Forall_cons. rewrite orb_true_r. by eapply IH.
  - intros H. rewrite (IH _ H), andb_true_r, orb_false_r.
    assert (∀ k acc, Forall (λ x, forallb p x = true) (split_on c acc k) → forallb p acc = true) as Hacc.
    { clear. induction k as [|y k IHk]; intros acc; cbn [split_on].
      - intros [H _]%Forall_cons. by rewrite forallb_rev in H.
      - destruct (Ascii.eqb y c); [intros [H _]%Forall_cons; by rewrite forallb_rev in H|]. intros [_ H]%IHk%andb_true_iff. done. }
    apply Hacc in H. by apply andb_true_iff in H as [H _].
Qed.
Lemma substring_front a b : substring 0 (slen a) (a +:+ b) = a.
Proof. induction a as [|c a IH]; [by destruct b|]. rewrite string_app_cons. simpl. by rewrite IH. Qed.
Lemma slen_one a c : slen (a +:+ String c "") = S (slen a).
Proof. induction a as [|x a IH]; [done|]. rewrite string_app_cons. simpl. by rewrite IH. Qed.
Lemma trim_suffix_one s c : s = trim_suffix s (String c "") ∨ s = trim_suffix s (String c "") +:+ String c "".
Proof.
  unfold trim_suffix, has_suffix, has_prefix. destruct (rev (chars s)) as [|d r] eqn:E; [by left|]. cbn.
  destruct (ascii_dec c d) as [->|]; [|by left]. right. apply (f_equal (@rev ascii)) in E. rewrite rev_involutive in E. cbn [rev] in E.
  apply (f_equal of_chars) in E. rewrite of_chars_chars, of_chars_app in E. change (of_chars [d]) with (String d "") in E. revert E. generalize (of_chars (rev r)).
  intros t ->. rewrite slen_one, Nat.sub_succ, Nat.sub_0_r. destruct r; by rewrite substring_front.
Qed.
