(* ===== verification/WgConfig.v ===== *)
(** WireGuard provider profiles (internal/wgconfig/profile.go): a small wg-quick dialect,
    its parser and checks, and the normalized texts written for wg-quick and wg setconf.
    The file checks of [read] are not modelled; a text is the file's bytes. *)

From S2P Require Import Prelude GoStrings Netip GoPath ScriptText GoText.
From Stdlib Require Import Ascii String.
Local Open Scope string_scope.
Local Open Scope Z_scope.
Local Open Scope check_scope.
Abbreviation length := List.length.

Definition MaxProfileBytes : N := 65536.

Record Peer := mkPeer {
  peer_PublicKey : string; peer_PresharedKey : string; peer_AllowedIPs : list Prefix; peer_EndpointHost : string; peer_EndpointPort : N;
  peer_PersistentKeepalive : Z
}.
Record Profile := mkProfile { prof_PrivateKey : string; prof_Addresses : list Prefix; prof_DNS : list Addr; prof_MTU : Z; prof_Peer : Peer }.
Record Summary := mkSummary {
  AddressCount : nat; DNSCount : nat; HasMTU : bool; HasPresharedKey : bool; HasKeepalive : bool; IPv4DefaultRoute : bool; SourceWorldReadable : bool
}.
Definition no_peer : Peer := mkPeer "" "" [] "" 0 0.
Definition no_profile : Profile := mkProfile "" [] [] 0 no_peer.

Definition set_private (v : string) (p : Profile) : Profile := mkProfile v (prof_Addresses p) (prof_DNS p) (prof_MTU p) (prof_Peer p).
Definition set_addresses (v : list Prefix) (p : Profile) : Profile := mkProfile (prof_PrivateKey p) v (prof_DNS p) (prof_MTU p) (prof_Peer p).
Definition set_dns (v : list Addr) (p : Profile) : Profile := mkProfile (prof_PrivateKey p) (prof_Addresses p) v (prof_MTU p) (prof_Peer p).
Definition set_mtu (v : Z) (p : Profile) : Profile := mkProfile (prof_PrivateKey p) (prof_Addresses p) (prof_DNS p) v (prof_Peer p).
Definition on_peer (f : Peer → Peer) (p : Profile) : Profile := mkProfile (prof_PrivateKey p) (prof_Addresses p) (prof_DNS p) (prof_MTU p) (f (prof_Peer p)).
Definition set_public (v : string) (q : Peer) : Peer :=
  mkPeer v (peer_PresharedKey q) (peer_AllowedIPs q) (peer_EndpointHost q) (peer_EndpointPort q) (peer_PersistentKeepalive q).
Definition set_preshared (v : string) (q : Peer) : Peer :=
  mkPeer (peer_PublicKey q) v (peer_AllowedIPs q) (peer_EndpointHost q) (peer_EndpointPort q) (peer_PersistentKeepalive q).
Definition set_allowed (v : list Prefix) (q : Peer) : Peer :=
  mkPeer (peer_PublicKey q) (peer_PresharedKey q) v (peer_EndpointHost q) (peer_EndpointPort q) (peer_PersistentKeepalive q).
Definition set_endpoint (host : string) (port : N) (q : Peer) : Peer :=
  mkPeer (peer_PublicKey q) (peer_PresharedKey q) (peer_AllowedIPs q) host port (peer_PersistentKeepalive q).
Definition set_keepalive (v : Z) (q : Peer) : Peer :=
  mkPeer (peer_PublicKey q) (peer_PresharedKey q) (peer_AllowedIPs q) (peer_EndpointHost q) (peer_EndpointPort q) v.

Definition vpn_error (c : string) : err := Errorf c [].

(** ** Fields *)

Definition usableAddress (a : Addr) : bool := negb (IsUnspecified a) && negb (IsLoopback a) && negb (IsMulticast a) && negb (IsLinkLocalUnicast a).
Definition validKey (v : string) : bool :=
  match b64_decode v with Some d => (length d =? 32)%nat && String.eqb (of_chars (b64_encode d)) v | None => false end.
Definition label_char (c : ascii) : bool := is_alnum c || Ascii.eqb c "-"%char.
Definition valid_label (l : string) : bool :=
  negb (String.eqb l "") && (slen l <=? 63)%nat && negb (has_prefix l "-") && negb (has_suffix l "-") && all_chars label_char l.
Definition host_break : string := " /\" +:+ of_chars [ascii_of_nat 9; cr; lf].
Definition validEndpointHost (host : string) : bool :=
  match ParseAddr host with
  | Some a => Is4 a && usableAddress a
  | None =>
      negb (slen host =? 0)%nat && (slen host <=? 253)%nat && negb (contains_any host host_break) &&
      forallb valid_label (split_string "."%char (trim_suffix host "."))
  end.
Definition validInterfaceName (v : string) : bool :=
  (1 <=? slen v)%nat && (slen v <=? 15)%nat && all_chars (λ c, is_alnum c || one_of "-_." c) v.

Definition splitList (value : string) : option (list string) :=
  let parts := map trim_space (split_string ","%char value) in
  if existsb (String.eqb "") parts then None else Some parts.
Fixpoint parse_each (mask : bool) (seen : gset string) (l : list string) : option (list Prefix) :=
  match l with
  | [] => Some []
  | raw :: l' =>
      p ← ParsePrefix raw;
      let p := if mask then Masked p else p in
      if bool_decide (prefix_String p ∈ seen) then None
      else rest ← parse_each mask ({[prefix_String p]} ∪ seen) l'; Some (p :: rest)
  end.
Definition by_text (p q : Prefix) : bool := str_leb (prefix_String p) (prefix_String q).
Definition parsePrefixes (value : string) (mask : bool) : option (list Prefix) :=
  values ← splitList value; l ← parse_each mask ∅ values; Some (sort_by by_text l).

Definition dns_address (raw : string) : option Addr :=
  a ← ParseAddr raw; if Is4 a && usableAddress a then Some a else None.
Definition endpoint_of (value : string) : option (string * N) :=
  '(host, portText) ← SplitHostPort value;
  if String.eqb host "" then None
  else port ← ParseUint10 16 portText;
       if (port =? 0)%N || negb (validEndpointHost host) then None else Some (host, port).
Definition bounded (lo hi : Z) (value : string) : option Z :=
  n ← Atoi value; if (n <? lo) || (hi <? n) then None else Some n.

Definition route_error : err := vpn_error "VPN_PROFILE_COMMAND_OR_ROUTE_UNSUPPORTED".
Definition assign (managed : bool) (p : Profile) (section key value : string) : err + Profile :=
  let identity := section +:+ "." +:+ key in
  let named := String.eqb identity in
  if String.eqb value "" then inl (vpn_error "VPN_PROFILE_VALUE_EMPTY")
  else if named "Interface.PrivateKey" then inr (set_private value p)
  else if named "Interface.Address" then
    l <-? of_option (parsePrefixes value false) (vpn_error "VPN_PROFILE_ADDRESS_INVALID") ;; inr (set_addresses l p)
  else if named "Interface.DNS" then
    l <-? of_option (values ← splitList value; mapM dns_address values) (vpn_error "VPN_PROFILE_DNS_UNSUPPORTED") ;;
    inr (set_dns (prof_DNS p ++ l)%list p)
  else if named "Interface.MTU" then
    n <-? of_option (bounded 576 9000 value) (vpn_error "VPN_PROFILE_MTU_INVALID") ;; inr (set_mtu n p)
  else if named "Peer.PublicKey" then inr (on_peer (set_public value) p)
  else if named "Peer.PresharedKey" then inr (on_peer (set_preshared value) p)
  else if named "Peer.AllowedIPs" then
    l <-? of_option (parsePrefixes value true) (vpn_error "VPN_PROFILE_ALLOWED_IPS_INVALID") ;; inr (on_peer (set_allowed l) p)
  else if named "Peer.Endpoint" then
    e <-? of_option (endpoint_of value) (vpn_error "VPN_PROFILE_ENDPOINT_INVALID") ;; inr (on_peer (set_endpoint e.1 e.2) p)
  else if named "Peer.PersistentKeepalive" then
    n <-? of_option (bounded 0 65535 value) (vpn_error "VPN_PROFILE_KEEPALIVE_INVALID") ;; inr (on_peer (set_keepalive n) p)
  else if named "Interface.Table" then if managed && String.eqb value "off" then inr p else inl route_error
  else if existsb named ["Interface.PreUp"; "Interface.PostUp"; "Interface.PreDown"; "Interface.PostDown"; "Interface.SaveConfig"] then inl route_error
  else inl (vpn_error "VPN_PROFILE_FIELD_UNSUPPORTED").

Definition validate (p : Profile) : err + unit :=
  let q := prof_Peer p in
  fails (negb (validKey (prof_PrivateKey p)) || negb (validKey (peer_PublicKey q)) ||
         negb (String.eqb (peer_PresharedKey q) "") && negb (validKey (peer_PresharedKey q))) (vpn_error "VPN_PROFILE_KEY_INVALID") then?
  fails ((length (prof_Addresses p) =? 0)%nat || (length (peer_AllowedIPs q) =? 0)%nat || String.eqb (peer_EndpointHost q) "" ||
         (peer_EndpointPort q =? 0)%N) (vpn_error "VPN_PROFILE_REQUIRED_FIELD_MISSING") then?
  each (λ x, fails (negb (Is4 (pfx_addr x)) || (pfx_bits x =? 0)%N || negb (usableAddress (pfx_addr x)))
               (vpn_error "VPN_PROFILE_ADDRESS_UNSUPPORTED")) (prof_Addresses p) then?
  match peer_AllowedIPs q with
  | [allowed] =>
      fails (negb (Is4 (pfx_addr allowed))) (vpn_error "VPN_PROFILE_IPV6_UNSUPPORTED") then?
      fails (negb (pfx_bits allowed =? 0)%N) (vpn_error "VPN_PROFILE_SPLIT_TUNNEL_UNSUPPORTED")
  | _ => inl (vpn_error "VPN_PROFILE_DEFAULT_ROUTE_REQUIRED")
  end.

(** ** The parser *)

Record parsing := mkParsing { ps_profile : Profile; ps_section : string; ps_sections : gset string; ps_keys : gset string }.
Definition header_name (line : string) : string := trim_space (trim_suffix (trim_prefix line "[") "]").
Definition parse_line (managed : bool) (st : parsing) (text : string) : err + parsing :=
  let line := trim_space text in
  if String.eqb line "" || has_prefix line "#" || has_prefix line ";" then inr st
  else if has_prefix line "[" && has_suffix line "]" then
    let name := header_name line in
    if negb (String.eqb name "Interface" || String.eqb name "Peer") then inl (vpn_error "VPN_PROFILE_SECTION_UNSUPPORTED")
    else if bool_decide (name ∈ ps_sections st) then inl (vpn_error "VPN_PROFILE_SECTION_DUPLICATE")
    else inr (mkParsing (ps_profile st) name ({[name]} ∪ ps_sections st) (ps_keys st))
  else if String.eqb (ps_section st) "" then inl (vpn_error "VPN_PROFILE_SECTION_MISSING")
  else match split_at "="%char (chars line) with
       | None => inl (vpn_error "VPN_PROFILE_LINE_INVALID")
       | Some (k, v) =>
           let key := trim_space (of_chars k) in
           let value := trim_space (of_chars v) in
           let identity := ps_section st +:+ "." +:+ key in
           if bool_decide (identity ∈ ps_keys st) then inl (vpn_error "VPN_PROFILE_FIELD_DUPLICATE")
           else p <-? assign managed (ps_profile st) (ps_section st) key value ;;
                inr (mkParsing p (ps_section st) (ps_sections st) ({[identity]} ∪ ps_keys st))
       end.
Definition summary_of (p : Profile) : Summary :=
  mkSummary (length (prof_Addresses p)) (length (prof_DNS p)) (negb (prof_MTU p =? 0)) (negb (String.eqb (peer_PresharedKey (prof_Peer p)) ""))
    (negb (peer_PersistentKeepalive (prof_Peer p) =? 0)) true false.
Definition nul : ascii := ascii_of_nat 0.
Definition parse (managed : bool) (data : string) : err + (Profile * Summary) :=
  fails ((slen data =? 0)%nat || (MaxProfileBytes <? N.of_nat (slen data))%N || has_char nul (chars data)) (vpn_error "VPN_PROFILE_SIZE_INVALID") then?
  fails (too_long MaxProfileBytes data) (vpn_error "VPN_PROFILE_READ_FAILED") then?
  st <-? fold_err (parse_line managed) (mkParsing no_profile "" ∅ ∅) (scan_lines data) ;;
  fails (negb (bool_decide ("Interface" ∈ ps_sections st)) || negb (bool_decide ("Peer" ∈ ps_sections st))) (vpn_error "VPN_PROFILE_SECTION_MISSING") then?
  validate (ps_profile st) then?
  inr (ps_profile st, summary_of (ps_profile st)).
Definition Parse : string → err + (Profile * Summary) := parse false.
Definition ParseManaged : string → err + (Profile * Summary) := parse true.

(** ** The texts written *)

Definition line_end : string := of_chars [lf].
Definition joinPrefixes (l : list Prefix) : string := join ", " (map prefix_String l).
Definition field_line (key value : string) : string := key +:+ " = " +:+ value +:+ line_end.
Definition optional (b : bool) (text : string) : string := if b then text else "".
Definition peer_lines (q : Peer) (endpoint : string) : string :=
  "[Peer]" +:+ line_end +:+ field_line "PublicKey" (peer_PublicKey q) +:+
  optional (negb (String.eqb (peer_PresharedKey q) "")) (field_line "PresharedKey" (peer_PresharedKey q)) +:+
  field_line "AllowedIPs" "0.0.0.0/0" +:+ field_line "Endpoint" (JoinHostPort endpoint (pretty (peer_EndpointPort q))) +:+
  optional (negb (peer_PersistentKeepalive q =? 0)) (field_line "PersistentKeepalive" (pretty (peer_PersistentKeepalive q))).
Definition NormalizedWGQuick (p : Profile) (interfaceName : string) : err + string :=
  fails (negb (validInterfaceName interfaceName)) (vpn_error "VPN_INTERFACE_INVALID") then?
  validate p then?
  inr ("[Interface]" +:+ line_end +:+ field_line "PrivateKey" (prof_PrivateKey p) +:+
       field_line "Address" (joinPrefixes (prof_Addresses p)) +:+
       optional (negb (length (prof_DNS p) =? 0)%nat) (field_line "DNS" (join ", " (map addr_String (prof_DNS p)))) +:+
       optional (negb (prof_MTU p =? 0)) (field_line "MTU" (pretty (prof_MTU p))) +:+
       field_line "Table" "off" +:+ line_end +:+ peer_lines (prof_Peer p) (peer_EndpointHost (prof_Peer p))).
Definition WGSetConfig (p : Profile) (endpointAddress : Addr) : err + string :=
  fails (negb (Is4 endpointAddress) || negb (usableAddress endpointAddress)) (vpn_error "VPN_ENDPOINT_ADDRESS_INVALID") then?
  validate p then?
  inr ("[Interface]" +:+ line_end +:+ field_line "PrivateKey" (prof_PrivateKey p) +:+ line_end +:+
       peer_lines (prof_Peer p) (addr_String endpointAddress)).

Definition RedactedError (e : err) : string := if has_prefix (err_text e) "VPN_" then err_text e else "VPN_PROFILE_ERROR".

(** ** What the parser leaves in a profile *)

Record profile_wf (p : Profile) : Prop := {
  wf_addresses : Forall prefix_ok (prof_Addresses p) ∧ NoDup (map prefix_String (prof_Addresses p)) ∧
    StronglySorted (λ x y, by_text x y = true) (prof_Addresses p);
  wf_dns : Forall (λ a, addr_ok a ∧ Is4 a = true ∧ usableAddress a = true) (prof_DNS p);
  wf_mtu : prof_MTU p = 0 ∨ 576 <= prof_MTU p <= 9000;
  wf_allowed : Forall (λ x, prefix_ok x ∧ Masked x = x) (peer_AllowedIPs (prof_Peer p));
  wf_endpoint : peer_EndpointHost (prof_Peer p) = "" ∨
    (validEndpointHost (peer_EndpointHost (prof_Peer p)) = true ∧ (peer_EndpointPort (prof_Peer p) < 2 ^ 16)%N);
  wf_keepalive : 0 <= peer_PersistentKeepalive (prof_Peer p) <= 65535
}.
Lemma no_profile_wf : profile_wf no_profile.
Proof. split; simpl; [repeat constructor|constructor|by left|constructor|by left|lia]. Qed.

Lemma parse_each_ok mask seen l r : parse_each mask seen l = Some r →
  Forall (λ x, prefix_ok x ∧ (mask = true → Masked x = x)) r ∧ NoDup (map prefix_String r) ∧ Forall (λ x, prefix_String x ∉ seen) r.
Proof.
  revert seen r. induction l as [|raw l IH]; intros seen r; cbn [parse_each]; [intros [= <-]; repeat constructor|].
  intros (p & Hp & H)%bind_Some. cbn zeta in H. set (q := if mask then Masked p else p) in *.
  case_bool_decide as Hs; [done|]. apply bind_Some in H as (r' & (Hok & Hnd & Hseen)%IH & [= <-]).
  assert (prefix_ok q ∧ (mask = true → Masked q = q)) as Hq.
  { apply ParsePrefix_ok in Hp. subst q. destruct mask; [|done]. by split; [apply Masked_ok|rewrite Masked_idem]. }
  split; [by constructor|]. simpl. rewrite list.Forall_forall in Hseen. split; constructor; [|done..|].
  - intros (x & Hx & Hin)%list_elem_of_fmap. apply Hseen in Hin. set_solver.
  - apply list.Forall_forall. intros x Hx%Hseen. set_solver.
Qed.
Lemma by_text_total p q : by_text p q = false → by_text q p = true.
Proof. apply str_leb_total. Qed.
Lemma by_text_trans p q r : by_text p q = true → by_text q r = true → by_text p r = true.
Proof. apply str_leb_trans. Qed.
Lemma parsePrefixes_ok v mask l : parsePrefixes v mask = Some l →
  Forall (λ x, prefix_ok x ∧ (mask = true → Masked x = x)) l ∧ NoDup (map prefix_String l) ∧ StronglySorted (λ x y, by_text x y = true) l.
Proof.
  unfold parsePrefixes. intros (vs & _ & (r & (Hok & Hnd & _)%parse_each_ok & [= <-])%bind_Some)%bind_Some.
  split; [by rewrite sort_by_perm|]. split; [by rewrite sort_by_perm|]. apply sort_by_sorted; [apply by_text_total|apply by_text_trans].
Qed.
Lemma dns_address_ok raw a : dns_address raw = Some a → addr_ok a ∧ Is4 a = true ∧ usableAddress a = true.
Proof.
  unfold dns_address. intros (b & Hb & H)%bind_Some. destruct (_ && _) eqn:E; [|done]. injection H as <-. apply andb_true_iff in E.
  split; [by eapply ParseAddr_ok|done].
Qed.
Lemma mapM_dns_ok vs l : mapM dns_address vs = Some l → Forall (λ a, addr_ok a ∧ Is4 a = true ∧ usableAddress a = true) l.
Proof.
  intros H%mapM_Some. induction H as [|v a vs l Ha _ IH]; constructor; [|done]. by eapply dns_address_ok.
Qed.
Lemma endpoint_of_ok v e : endpoint_of v = Some e → validEndpointHost e.1 = true ∧ (e.2 < 2 ^ 16)%N.
Proof.
  unfold endpoint_of. intros ([host port] & _ & H)%bind_Some. destruct (String.eqb host ""); [done|].
  apply bind_Some in H as (n & Hn & H). destruct (_ || _) eqn:E; [done|]. injection H as <-. apply orb_false_iff in E as [_ E%negb_false_iff].
  split; [done|]. unfold ParseUint10 in Hn. apply bind_Some in Hn as (m & _ & Hm). destruct (N.ltb_spec m (2 ^ 16)%N); [|done]. by injection Hm as <-.
Qed.
Lemma bounded_ok lo hi v n : bounded lo hi v = Some n → lo <= n <= hi.
Proof.
  unfold bounded. intros (m & _ & H)%bind_Some. destruct (_ || _) eqn:E; [done|]. injection H as <-. apply orb_false_iff in E. lia.
Qed.

Lemma assign_wf managed p section key value p' : profile_wf p → assign managed p section key value = inr p' → profile_wf p'.
Proof.
  intros [? ? ? ? ? ?]. unfold assign. cbn zeta. destruct (String.eqb value ""); [done|].
  repeat match goal with |- (if ?b then _ else _) = _ → _ => destruct b; [|] end; try done.
  all: intros H; invert_checks; try done; subst; split; simpl; try done.
  all: repeat match goal with
       | H : parsePrefixes _ _ = Some _ |- _ => apply parsePrefixes_ok in H as (? & ? & ?)
       | H : mapM _ _ = Some _ |- _ => apply mapM_dns_ok in H
       | H : (_ ≫= _) = Some _ |- _ => apply bind_Some in H as (? & _ & H)
       | H : endpoint_of _ = Some _ |- _ => apply endpoint_of_ok in H
       | H : bounded _ _ _ = Some _ |- _ => apply bounded_ok in H
       end.
  all: auto using Forall_app_2.
  - split; [|done]. eapply Forall_impl; [eassumption|naive_solver].
  - eapply Forall_impl; [eassumption|naive_solver].
Qed.
Lemma parse_line_wf managed st text st' : profile_wf (ps_profile st) → parse_line managed st text = inr st' → profile_wf (ps_profile st').
Proof.
  intros Hwf. unfold parse_line. cbn zeta. destruct (_ || _); [by intros [= <-]|]. destruct (_ && _).
  - destruct (negb _); [done|]. case_bool_decide; [done|]. by intros [= <-].
  - destruct (String.eqb _ _); [done|]. destruct (split_at _ _) as [[k v]|]; [|done]. case_bool_decide; [done|].
    intros (p & Hp & [= <-])%err_bind_ok. by eapply assign_wf.
Qed.
Lemma parse_ok managed data p s : parse managed data = inr (p, s) → profile_wf p ∧ validate p = inr tt ∧ s = summary_of p.
Proof.
  unfold parse. intros H. do 2 apply err_bind_ok in H as (? & _ & H). apply err_bind_ok in H as (st & Hst & H). apply err_bind_ok in H as (? & _ & H).
  apply err_bind_ok in H as ([] & Hv & H). injection H as <- <-. split; [|done].
  apply (fold_err_inv _ (λ _ st, profile_wf (ps_profile st))) in Hst; [done| |apply no_profile_wf]. intros. by eapply parse_line_wf.
Qed.

(** What [validate] adds. *)
Lemma validate_ok p : validate p = inr tt →
  validKey (prof_PrivateKey p) = true ∧ validKey (peer_PublicKey (prof_Peer p)) = true ∧
  (peer_PresharedKey (prof_Peer p) = "" ∨ validKey (peer_PresharedKey (prof_Peer p)) = true) ∧
  prof_Addresses p ≠ [] ∧ Forall (λ x, Is4 (pfx_addr x) = true) (prof_Addresses p) ∧
  peer_EndpointHost (prof_Peer p) ≠ "" ∧ peer_EndpointPort (prof_Peer p) ≠ 0%N ∧
  ∃ a, peer_AllowedIPs (prof_Peer p) = [mkPrefix a 0] ∧ Is4 a = true.
Proof.
  unfold validate. cbn zeta. intros H. apply err_bind_ok in H as (? & H1 & H). apply err_bind_ok in H as (? & H2 & H). apply err_bind_ok in H as (? & H3 & H).
  apply fails_ok in H1, H2. apply each_ok in H3. rewrite !orb_false_iff in H1. rewrite !orb_false_iff in H2. destruct H1 as [[H1 H1'] H1''], H2 as [[[H2 _] H2'] H2''].
  apply negb_false_iff in H1, H1'. split; [done|]. split; [done|]. split.
  { destruct (String.eqb_spec (peer_PresharedKey (prof_Peer p)) ""); [by left|right]. by apply negb_false_iff. }
  split; [by intros E; rewrite E in H2|]. split.
  { eapply Forall_impl; [exact H3|]. intros q Hq%fails_ok. rewrite !orb_false_iff in Hq. by apply negb_false_iff, Hq. }
  split; [by apply String.eqb_neq|]. split; [by apply N.eqb_neq|].
  destruct (peer_AllowedIPs (prof_Peer p)) as [|[a b] [|]]; [done| |done]. apply err_bind_ok in H as (? & H4 & H5). apply fails_ok in H4, H5.
  exists a. apply negb_false_iff in H4, H5. apply N.eqb_eq in H5. simpl in *. by subst.
Qed.
Lemma validKey_solid v : validKey v = true → item v = true ∧ v ≠ "".
Proof.
  unfold validKey. destruct (b64_decode v) as [d|]; [|done]. intros [Hl%Nat.eqb_eq Hv%String.eqb_eq]%andb_true_iff.
  assert (v ≠ "") as Hn. { intros ->. destruct d as [|? [|? [|]]]; done. }
  split; [|done]. unfold item. rewrite (proj2 (String.eqb_neq _ _) Hn), andb_true_r, <-Hv, chars_of_chars.
  eapply forallb_impl, b64_encode_text. apply class_impl. vm_compute. reflexivity.
Qed.
Lemma allowed_all a : prefix_ok (mkPrefix a 0) → Masked (mkPrefix a 0) = mkPrefix a 0 → Is4 a = true → a = V4 0.
Proof.
  intros [Ha _] Hm Hf. destruct a as [n|]; [|done]. f_equal. unfold Masked in Hm. simpl in Hm. injection Hm as Hm. rewrite <-Hm.
  unfold low_bits, clear_low. simpl. unfold addr_ok in Ha. simpl in Ha. by rewrite shiftr_div, N.div_small.
Qed.

(** ** Reading the normalized text *)

Definition field_text (f : string * string) : string := f.1 +:+ " = " +:+ f.2.
Definition field_ok (f : string * string) : Prop := forallb is_alpha (chars f.1) = true ∧ f.1 ≠ "" ∧ solid f.2 = true.

Lemma alpha_solid k : forallb is_alpha (chars k) = true → k ≠ "" → solid k = true.
Proof. intros H. apply solid_all. eapply forallb_impl, H. apply class_impl. vm_compute. reflexivity. Qed.
Lemma solid_printable s : solid s = true → forallb printable (chars s) = true.
Proof. unfold solid. by intros [H _]%andb_true_iff. Qed.
Lemma solid_app a b c : solid a = true → solid c = true → forallb printable (chars b) = true → solid (a +:+ b +:+ c) = true.
Proof.
  unfold solid. intros [Ha1 Ha2]%andb_true_iff [Hc1 Hc2]%andb_true_iff Hb. rewrite !chars_app, !forallb_app, Ha1, Hb, Hc1, !rev_app_distr. cbn [andb].
  destruct (chars a) as [|x l]; [done|]. destruct (rev (x :: l)); [done|]. destruct (chars c) as [|y k]; [done|].
  destruct (rev (y :: k)) as [|z r]; [done|]. cbn [app]. apply andb_true_iff in Ha2 as [-> _], Hc2 as [_ ->]. done.
Qed.
Lemma field_solid f : field_ok f → solid (field_text f) = true.
Proof. intros (Hk & Hn & Hv). by apply solid_app; [apply alpha_solid| |]. Qed.
Lemma alpha_head k (pre : ascii) t : forallb is_alpha (chars k) = true → k ≠ "" → is_alpha pre = false → has_prefix (k +:+ t) (String pre "") = false.
Proof.
  intros Hk Hn Hp. unfold has_prefix. destruct k as [|c k]; [done|]. simpl in Hk. apply andb_true_iff in Hk as [Hk _]. rewrite string_app_cons. simpl.
  destruct (ascii_dec pre c) as [->|]; [congruence|done].
Qed.
Lemma alpha_free c k : is_alpha c = false → forallb is_alpha (chars k) = true → Forall (λ x, x ≠ c) (chars k).
Proof. intros Hc Hk. apply list.Forall_forall. intros x Hx ->. rewrite forallb_forall in Hk. rewrite list_elem_of_In in Hx. apply Hk in Hx. congruence. Qed.

Lemma parse_line_field managed st f : field_ok f → ps_section st ≠ "" → (ps_section st +:+ "." +:+ f.1) ∉ ps_keys st →
  parse_line managed st (field_text f) =
  err_bind (assign managed (ps_profile st) (ps_section st) f.1 f.2)
    (λ p, inr (mkParsing p (ps_section st) (ps_sections st) ({[ps_section st +:+ "." +:+ f.1]} ∪ ps_keys st))).
Proof.
  intros Hf Hs Hk. unfold parse_line. cbn zeta. rewrite trim_space_id by by apply field_solid. destruct f as [k v]. destruct Hf as (Ha & Hn & Hv).
  unfold field_text. simpl fst in *. simpl snd in *.
  assert (String.eqb (k +:+ " = " +:+ v) "" = false) as -> by by destruct k.
  rewrite !alpha_head by done. cbn [orb andb]. apply String.eqb_neq in Hs as ->.
  rewrite !chars_app, split_at_skip by by apply alpha_free. change (chars " = ") with [" "; "="; " "]%char. cbn [app split_at Ascii.eqb Bool.eqb fmap option_fmap option_map].
  assert (trim_space (of_chars (chars k ++ [" "%char])%list) = k) as ->.
  { rewrite of_chars_app, of_chars_chars. exact (trim_space_solid k "" " " (alpha_solid _ Ha Hn) eq_refl eq_refl). }
  assert (trim_space (of_chars (" "%char :: chars v)) = v) as ->.
  { change (" "%char :: chars v) with (chars (" " +:+ v)). rewrite of_chars_chars.
    pose proof (trim_space_solid v " " "" Hv eq_refl eq_refl) as Ht. by rewrite string_app_nil_r in Ht. }
  by rewrite bool_decide_eq_false_2.
Qed.

Definition assign_all (managed : bool) (section : string) (p : Profile) (l : list (string * string)) : err + Profile :=
  fold_err (λ p f, assign managed p section f.1 f.2) p l.
Definition identities (section : string) (l : list (string * string)) : gset string := list_to_set (map (λ f, section +:+ "." +:+ f.1) l).
Lemma parse_fields managed sec secs keys p l p' : sec ≠ "" → Forall field_ok l → NoDup (map (λ f, sec +:+ "." +:+ f.1) l) →
  Forall (λ f, (sec +:+ "." +:+ f.1) ∉ keys) l → assign_all managed sec p l = inr p' →
  fold_err (parse_line managed) (mkParsing p sec secs keys) (map field_text l) = inr (mkParsing p' sec secs (identities sec l ∪ keys)).
Proof.
  intros Hs Hl. revert p keys. induction Hl as [|f l Hf _ IH]; intros p keys Hnd Hk.
  - intros [= <-]. simpl. do 2 f_equal. unfold identities. simpl. set_solver.
  - simpl in Hnd. apply NoDup_cons in Hnd as [Hin Hnd]. apply Forall_cons in Hk as [Hkf Hk]. unfold assign_all. cbn [fold_err map].
    rewrite parse_line_field by done. cbn [ps_profile ps_section ps_sections ps_keys].
    destruct (assign managed p sec f.1 f.2) as [|p1]; [done|]. cbn [err_bind]. intros Ha. rewrite IH; [|done| |exact Ha].
    + do 2 f_equal. unfold identities. simpl. set_solver.
    + rewrite list.Forall_forall in *. intros g Hg. specialize (Hk g Hg). rewrite not_elem_of_union, not_elem_of_singleton. split; [|done].
      intros E. apply Hin. rewrite <-E. by apply (list_elem_of_fmap_2 (λ f, sec +:+ "." +:+ f.1)).
Qed.

(** The lines of the text. *)
Definition interface_fields (p : Profile) : list (string * string) :=
  [("PrivateKey", prof_PrivateKey p); ("Address", joinPrefixes (prof_Addresses p))] ++
  (if negb (length (prof_DNS p) =? 0)%nat then [("DNS", join ", " (map addr_String (prof_DNS p)))] else []) ++
  (if negb (prof_MTU p =? 0) then [("MTU", pretty (prof_MTU p))] else []) ++ [("Table", "off")].
Definition peer_fields (q : Peer) : list (string * string) :=
  [("PublicKey", peer_PublicKey q)] ++
  (if negb (String.eqb (peer_PresharedKey q) "") then [("PresharedKey", peer_PresharedKey q)] else []) ++
  [("AllowedIPs", "0.0.0.0/0"); ("Endpoint", JoinHostPort (peer_EndpointHost q) (pretty (peer_EndpointPort q)))] ++
  (if negb (peer_PersistentKeepalive q =? 0) then [("PersistentKeepalive", pretty (peer_PersistentKeepalive q))] else []).
Definition profile_lines (p : Profile) : list string :=
  ["[Interface]"] ++ map field_text (interface_fields p) ++ [""; "[Peer]"] ++ map field_text (peer_fields (prof_Peer p)).

Lemma field_line_chars k v : chars (field_line k v) = (chars (field_text (k, v)) ++ [lf])%list.
Proof. unfold field_line, field_text. cbn [fst snd]. rewrite !chars_app. by rewrite <-!app_assoc. Qed.
Lemma text_lines_chars l : chars (text_lines l) = List.concat (map (λ s, chars s ++ [lf]) l)%list.
Proof. induction l as [|s l IH]; [done|]. cbn [text_lines foldr]. rewrite !chars_app. fold (text_lines l). rewrite IH. cbn [map List.concat]. by rewrite <-app_assoc. Qed.
Lemma NormalizedWGQuick_lines p name text : NormalizedWGQuick p name = inr text → text = text_lines (profile_lines p).
Proof.
  unfold NormalizedWGQuick. intros H. do 2 apply err_bind_ok in H as (? & _ & H). injection H as <-. apply chars_inj. rewrite text_lines_chars.
  unfold profile_lines, interface_fields, peer_fields, peer_lines, optional.
  repeat match goal with |- context [if ?b then _ else _] => destruct b end; rewrite ?chars_app; rewrite ?field_line_chars;
    rewrite ?map_app, ?concat_app; cbn [map List.concat app]; rewrite <-!app_assoc; reflexivity.
Qed.

(** Values read back. *)
Lemma items_read {A} (f : A → string) l : l ≠ [] → Forall (λ x, item (f x) = true) l → splitList (join ", " (map f l)) = Some (map f l).
Proof.
  intros Hn Hl. unfold splitList. cbn zeta.
  assert (map f l ≠ []) as Hn' by by destruct l. assert (Forall (λ s, item s = true) (map f l)) as Hl' by by apply Forall_map.
  pose proof (split_join_items _ "" Hn' Hl' eq_refl (Forall_nil_2 _)) as Hs. rewrite string_app_nil in Hs. rewrite Hs.
  replace (existsb (String.eqb "") (map f l)) with false; [done|]. symmetry. clear Hs Hn Hn' Hl. induction Hl' as [|s k Hs _ IH]; [done|]. cbn [existsb].
  rewrite IH, orb_false_r. unfold item in Hs. apply andb_true_iff in Hs as [_ Hs]. by destruct s.
Qed.
Lemma items_solid {A} (f : A → string) l : l ≠ [] → Forall (λ x, item (f x) = true) l → solid (join ", " (map f l)) = true.
Proof. intros Hn Hl. apply solid_join; [by destruct l|by apply Forall_map]. Qed.
Lemma chars_item (p : ascii → bool) s : forallb (λ n, implb (p (ascii_of_nat n)) (solid_char (ascii_of_nat n) && negb (Ascii.eqb (ascii_of_nat n) ","%char))) (seq 0 256) = true →
  forallb p (chars s) = true → chars s ≠ [] → item s = true.
Proof.
  intros Hp Hs Hn. unfold item. rewrite (forallb_impl p _ _ (class_impl p (λ c, solid_char c && negb (Ascii.eqb c ","%char)) Hp) Hs). by destruct s.
Qed.
Lemma addr_v4_item a : addr_ok a → Is4 a = true → item (addr_String a) = true.
Proof.
  intros Ha Hf. destruct a as [n|]; [|done]. pose proof (ParseAddr_String (V4 n) Ha eq_refl) as Hp. apply ParseAddr_v4_text in Hp as Hc; [|done].
  eapply (chars_item v4_char); [vm_compute; reflexivity|done|]. intros E. apply (f_equal of_chars) in E. rewrite of_chars_chars in E. by rewrite E in Hp.
Qed.
Lemma prefix_item p : prefix_ok p → item (prefix_String p) = true.
Proof.
  intros Hp. apply ParsePrefix_String, ParsePrefix_chars in Hp as [Hc Hin].
  eapply (chars_item prefix_char); [vm_compute; reflexivity|done|]. intros E. rewrite E in Hin. by apply elem_of_nil in Hin.
Qed.
Lemma parse_each_String l seen : Forall prefix_ok l → NoDup (map prefix_String l) → Forall (λ x, prefix_String x ∉ seen) l →
  parse_each false seen (map prefix_String l) = Some l.
Proof.
  intros Hl. revert seen. induction Hl as [|p l Hp _ IH]; intros seen; [done|]. cbn [map parse_each]. intros [Hin Hnd]%NoDup_cons [Hs Hseen]%Forall_cons.
  rewrite ParsePrefix_String by done. cbn [mbind option_bind]. rewrite bool_decide_eq_false_2 by done. rewrite IH; [done|done|].
  rewrite list.Forall_forall in *. intros x Hx. apply not_elem_of_union. split; [|by apply Hseen].
  intros E%elem_of_singleton. apply Hin. rewrite <-E. by apply (list_elem_of_fmap_2 prefix_String).
Qed.
Lemma prefixes_read l : l ≠ [] → Forall prefix_ok l → NoDup (map prefix_String l) → StronglySorted (λ x y, by_text x y = true) l →
  parsePrefixes (joinPrefixes l) false = Some l.
Proof.
  intros Hn Hl Hnd Hs. unfold parsePrefixes, joinPrefixes. rewrite items_read by (done || (eapply Forall_impl; [exact Hl|]; apply prefix_item)).
  cbn [mbind option_bind]. rewrite parse_each_String; [|done..|by apply Forall_true; set_solver]. cbn [mbind option_bind]. by rewrite sort_by_id.
Qed.
Lemma dns_read l : l ≠ [] → Forall (λ a, addr_ok a ∧ Is4 a = true ∧ usableAddress a = true) l →
  (values ← splitList (join ", " (map addr_String l)); mapM dns_address values) = Some l.
Proof.
  intros Hn Hl. rewrite items_read; [|done|]. 2:{ eapply Forall_impl; [exact Hl|]. intros a (H1 & H2 & _). by apply addr_v4_item. }
  cbn [mbind option_bind]. clear Hn. induction Hl as [|a l (Ha & Hf & Hu) _ IH]; [done|]. simpl.
  assert (dns_address (addr_String a) = Some a) as ->; [|by rewrite IH].
  unfold dns_address. rewrite ParseAddr_String; [|done|by destruct a]. simpl. by rewrite Hf, Hu.
Qed.
Lemma bounded_pretty lo hi n : 0 <= lo → hi < 2 ^ 63 → lo <= n <= hi → bounded lo hi (pretty n) = Some n.
Proof.
  intros H0 H1 H2. unfold bounded. rewrite Atoi_pretty by lia. cbn [mbind option_bind].
  by rewrite (proj2 (Z.ltb_ge n lo)), (proj2 (Z.ltb_ge hi n)) by lia.
Qed.
Definition name_char (c : ascii) : bool := label_char c || Ascii.eqb c "."%char.
Lemma endpoint_host_chars h : validEndpointHost h = true → forallb name_char (chars h) = true.
Proof.
  unfold validEndpointHost. destruct (ParseAddr h) as [a|] eqn:E.
  - intros [Ha _]%andb_true_iff. eapply forallb_impl, ParseAddr_v4_text; [|exact E|done]. apply class_impl. vm_compute. reflexivity.
  - intros H. apply andb_true_iff in H as [_ H].
    assert (forallb name_char (chars (trim_suffix h ".")) = true) as Ht.
    { apply (split_on_chars _ "."%char []). unfold split_string in H. apply list.Forall_forall. intros l Hl. rewrite forallb_forall in H.
      specialize (H (of_chars l)). rewrite <-list_elem_of_In in H. specialize (H (list_elem_of_fmap_2 of_chars _ _ Hl)). unfold valid_label in H.
      apply andb_true_iff in H as [_ H]. unfold all_chars in H. by rewrite chars_of_chars in H. }
    destruct (trim_suffix_one h ".") as [->| ->]; [done|]. by rewrite chars_app, forallb_app, Ht.
Qed.
Lemma endpoint_read h (port : N) : validEndpointHost h = true → h ≠ "" → port ≠ 0%N → (port < 2 ^ 16)%N →
  endpoint_of (JoinHostPort h (pretty port)) = Some (h, port).
Proof.
  intros Hv Hn Hp Hb. unfold endpoint_of. rewrite SplitHostPort_Join.
  2:{ eapply forallb_impl, endpoint_host_chars, Hv. apply class_impl. vm_compute. reflexivity. }
  cbn [mbind option_bind]. apply String.eqb_neq in Hn as ->. rewrite ParseUint10_pretty by done. cbn [mbind option_bind].
  apply N.eqb_neq in Hp as ->. by rewrite Hv.
Qed.
Lemma endpoint_solid h (port : N) : validEndpointHost h = true → solid (JoinHostPort h (pretty port)) = true.
Proof.
  intros Hv%endpoint_host_chars.
  assert (forallb solid_char (chars h) = true) as Hh by (eapply forallb_impl, Hv; apply class_impl; vm_compute; reflexivity).
  assert (forallb solid_char (chars (pretty port)) = true) as Hp by (eapply forallb_impl, pretty_N_digits; apply class_impl; vm_compute; reflexivity).
  apply solid_all; unfold JoinHostPort; destruct (has_char _ _); rewrite ?chars_app, ?forallb_app, ?Hh, ?Hp; [done..|by destruct h].
Qed.
Lemma pretty_solid z : 0 <= z → solid (pretty z) = true.
Proof.
  intros [Hd Hn]%pretty_Z_digits. apply solid_all; [eapply forallb_impl, Hd; apply class_impl; vm_compute; reflexivity|]. by intros E; rewrite E in Hn.
Qed.

(** The fields of each section, assigned one after the other. *)
Lemma assign_all_app managed sec p l k : assign_all managed sec p (l ++ k) = err_bind (assign_all managed sec p l) (λ p, assign_all managed sec p k).
Proof. apply fold_err_app. Qed.
Lemma assign_one managed sec p k v p' : assign managed p sec k v = inr p' → assign_all managed sec p [(k, v)] = inr p'.
Proof. unfold assign_all. cbn [fold_err fst snd]. by intros ->. Qed.
Lemma solid_nonempty v : solid v = true → String.eqb v "" = false.
Proof. by destruct v. Qed.

Ltac one_field := apply Forall_cons_2; [split; [reflexivity|split; [discriminate|cbn [snd]]]|try apply Forall_nil_2].

Section fields.
Context (p : Profile) (Hwf : profile_wf p) (Hv : validate p = inr tt).
Abbreviation q := (prof_Peer p).

Lemma interface_fields_ok : Forall field_ok (interface_fields p).
Proof using All.
    destruct Hwf as [(Ha & _ & _) Hd Hm _ _ _]. apply validate_ok in Hv as (Hk & _ & _ & Hn & _).
    unfold interface_fields. apply Forall_app_2; [|apply Forall_app_2; [|apply Forall_app_2]].
    - one_field; [by apply item_solid, validKey_solid|]. one_field. apply items_solid; [done|]. eapply Forall_impl; [exact Ha|]. apply prefix_item.
    - destruct (prof_DNS p) as [|a l] eqn:E; [constructor|]. rewrite <-E in *. replace (length (prof_DNS p) =? 0)%nat with false by by rewrite E.
      one_field. apply items_solid; [by rewrite E|]. eapply Forall_impl; [exact Hd|]. intros b (H1 & H2 & _). by apply addr_v4_item.
    - destruct (Z.eqb_spec (prof_MTU p) 0); [constructor|]. one_field. apply pretty_solid. lia.
    - by one_field.
Qed.
Lemma peer_fields_ok : Forall field_ok (peer_fields q).
Proof using All.
    destruct Hwf as [_ _ _ _ He Hk]. apply validate_ok in Hv as (_ & H1 & H2 & _ & _ & H3 & H4 & _).
    destruct He as [He|[He _]]; [done|].
    unfold peer_fields. apply Forall_app_2; [|apply Forall_app_2; [|apply Forall_app_2]].
    - one_field. by apply item_solid, validKey_solid.
    - destruct (String.eqb_spec (peer_PresharedKey q) ""); [constructor|]. one_field. apply item_solid, validKey_solid. by destruct H2.
    - one_field; [done|]. one_field. by apply endpoint_solid.
    - destruct (Z.eqb_spec (peer_PersistentKeepalive q) 0); [constructor|]. one_field. apply pretty_solid. lia.
Qed.

Lemma interface_assigned : assign_all true "Interface" no_profile (interface_fields p) =
    inr (mkProfile (prof_PrivateKey p) (prof_Addresses p) (prof_DNS p) (prof_MTU p) no_peer).
Proof using All.
    destruct Hwf as [(Ha & Hnd & Hs) Hd Hm _ _ _]. apply validate_ok in Hv as (Hk & _ & _ & Hn & _).
    unfold interface_fields. rewrite assign_all_app.
    assert (assign_all true "Interface" no_profile [("PrivateKey", prof_PrivateKey p); ("Address", joinPrefixes (prof_Addresses p))] =
      inr (mkProfile (prof_PrivateKey p) (prof_Addresses p) [] 0 no_peer)) as ->.
    { unfold assign_all. cbn [fold_err fst snd]. unfold assign at 1. cbn zeta. apply validKey_solid in Hk as [[Hk _]%item_solid _].
      rewrite (solid_nonempty _ Hk). cbn [String.eqb String.append Ascii.eqb Bool.eqb]. unfold assign. cbn zeta.
      rewrite solid_nonempty by (apply items_solid; [done|]; eapply Forall_impl; [exact Ha|]; apply prefix_item).
      by rewrite prefixes_read. }
    cbn [err_bind]. rewrite assign_all_app. generalize (prof_PrivateKey p) (prof_Addresses p). intros key addresses.
    assert (assign_all true "Interface" (mkProfile key addresses [] 0 no_peer)
      (if negb (length (prof_DNS p) =? 0)%nat then [("DNS", join ", " (map addr_String (prof_DNS p)))] else []) =
      inr (mkProfile key addresses (prof_DNS p) 0 no_peer)) as ->.
    { destruct (prof_DNS p) as [|a l] eqn:E; [done|]. rewrite <-E in *. replace (length (prof_DNS p) =? 0)%nat with false by by rewrite E.
      apply assign_one. unfold assign. cbn zeta. assert (prof_DNS p ≠ []) as Hne by by rewrite E.
      rewrite solid_nonempty by (apply items_solid; [done|]; eapply Forall_impl; [exact Hd|]; intros b (H1 & H2 & _); by apply addr_v4_item).
      pose proof (dns_read _ Hne Hd) as Hr. cbn [String.eqb String.append Ascii.eqb Bool.eqb]. by rewrite Hr. }
    cbn [err_bind]. generalize (prof_DNS p). intros dns.
    destruct (Z.eqb_spec (prof_MTU p) 0) as [->|Hmtu]; [done|]. unfold assign_all. cbn [negb app fold_err fst snd]. unfold assign at 1. cbn zeta.
    rewrite solid_nonempty by (apply pretty_solid; lia). cbn [String.eqb String.append Ascii.eqb Bool.eqb].
    by rewrite bounded_pretty by lia.
Qed.
Lemma peer_assigned r : prof_Peer r = no_peer →
    assign_all true "Peer" r (peer_fields q) = inr (mkProfile (prof_PrivateKey r) (prof_Addresses r) (prof_DNS r) (prof_MTU r) q).
Proof using All.
    intros Hr. destruct Hwf as [_ _ _ Hal He Hk]. apply validate_ok in Hv as (_ & H1 & H2 & _ & _ & H3 & H4 & a & E5 & H5).
    destruct He as [He|[He Hport]]; [done|]. apply validKey_solid in H1 as [[H1 _]%item_solid _].
    assert (peer_AllowedIPs q = [mkPrefix (V4 0) 0]) as Hall.
    { rewrite E5 in Hal |- *. apply Forall_singleton in Hal as [Hok Hm]. by rewrite (allowed_all a). }
    clear E5 Hal.
    destruct r as [key addresses dns mtu peer]. simpl in Hr. subst peer. cbn [prof_PrivateKey prof_Addresses prof_DNS prof_MTU].
    destruct q as [pub psk allowed host port keep]. cbn [peer_PublicKey peer_PresharedKey peer_AllowedIPs peer_EndpointHost peer_EndpointPort peer_PersistentKeepalive] in *.
    subst allowed. unfold peer_fields. cbn [peer_PublicKey peer_PresharedKey peer_AllowedIPs peer_EndpointHost peer_EndpointPort peer_PersistentKeepalive].
    rewrite assign_all_app, (assign_one _ _ _ _ _ (mkProfile key addresses dns mtu (mkPeer pub "" [] "" 0 0))).
    2:{ unfold assign. cbn zeta. by rewrite solid_nonempty. }
    cbn [err_bind]. rewrite assign_all_app.
    assert (assign_all true "Peer" (mkProfile key addresses dns mtu (mkPeer pub "" [] "" 0 0))
      (if negb (String.eqb psk "") then [("PresharedKey", psk)] else []) = inr (mkProfile key addresses dns mtu (mkPeer pub psk [] "" 0 0))) as ->.
    { destruct (String.eqb_spec psk "") as [->|Hp]; [done|]. apply assign_one. unfold assign. cbn zeta. by apply String.eqb_neq in Hp as ->. }
    cbn [err_bind]. rewrite assign_all_app.
    assert (assign_all true "Peer" (mkProfile key addresses dns mtu (mkPeer pub psk [] "" 0 0))
      [("AllowedIPs", "0.0.0.0/0"); ("Endpoint", JoinHostPort host (pretty port))] =
      inr (mkProfile key addresses dns mtu (mkPeer pub psk [mkPrefix (V4 0) 0] host port 0))) as ->.
    { change (assign_all true "Peer" (mkProfile key addresses dns mtu (mkPeer pub psk [mkPrefix (V4 0) 0] "" 0 0)) [("Endpoint", JoinHostPort host (pretty port))] =
        inr (mkProfile key addresses dns mtu (mkPeer pub psk [mkPrefix (V4 0) 0] host port 0))).
      apply assign_one. unfold assign. cbn zeta. rewrite solid_nonempty by by apply endpoint_solid. cbn [String.eqb String.append Ascii.eqb Bool.eqb].
      by rewrite endpoint_read. }
    cbn [err_bind]. destruct (Z.eqb_spec keep 0) as [->|Hkeep]; [done|]. apply assign_one. unfold assign. cbn zeta.
    rewrite solid_nonempty by (apply pretty_solid; lia). cbn [String.eqb String.append Ascii.eqb Bool.eqb]. by rewrite (bounded_pretty 0 65535) by lia.
Qed.
End fields.

Lemma identities_NoDup p : NoDup (map (λ f, "Interface" +:+ "." +:+ f.1) (interface_fields p)) ∧
  NoDup (map (λ f, "Peer" +:+ "." +:+ f.1) (peer_fields (prof_Peer p))) ∧
  Forall (λ f, ("Peer" +:+ "." +:+ f.1) ∉ identities "Interface" (interface_fields p) ∪ ∅) (peer_fields (prof_Peer p)).
Proof.
  assert (map fst (interface_fields p) `sublist_of` ["PrivateKey"; "Address"; "DNS"; "MTU"; "Table"]) as Hi.
  { unfold interface_fields. rewrite !map_app. destruct (negb _), (negb _); cbn [map app fst]; repeat constructor. }
  assert (map fst (peer_fields (prof_Peer p)) `sublist_of` ["PublicKey"; "PresharedKey"; "AllowedIPs"; "Endpoint"; "PersistentKeepalive"]) as Hp.
  { unfold peer_fields. rewrite !map_app. destruct (negb _), (negb _); cbn [map app fst]; repeat constructor. }
  assert (∀ sec (l : list (string * string)), map (λ f, sec +:+ "." +:+ f.1) l = map (λ k, sec +:+ "." +:+ k) (map fst l)) as Hm by (intros; by rewrite map_map).
  assert (∀ (sec : string) l k, l `sublist_of` k → NoDup (map (λ x, sec +:+ "." +:+ x) k) → NoDup (map (λ x, sec +:+ "." +:+ x) l)) as Hnd.
  { intros sec l k H Hk. eapply sublist_NoDup; [exact Hk|by apply (fmap_sublist (λ x, sec +:+ "." +:+ x))]. }
  rewrite !Hm. split; [|split].
  - eapply Hnd; [exact Hi|]. apply (bool_decide_unpack _). vm_compute. exact I.
  - eapply Hnd; [exact Hp|]. apply (bool_decide_unpack _). vm_compute. exact I.
  - apply list.Forall_forall. intros f _. rewrite (right_id_L ∅ (∪)). unfold identities. rewrite elem_of_list_to_set. intros (g & E & _)%list_elem_of_fmap. done.
Qed.

Lemma profile_lines_printable p : profile_wf p → validate p = inr tt → Forall (λ l, forallb printable (chars l) = true) (profile_lines p).
Proof.
  intros Hwf Hv. unfold profile_lines.
  assert (∀ l, Forall field_ok l → Forall (λ s, forallb printable (chars s) = true) (map field_text l)) as Hf.
  { intros l H. apply Forall_map. eapply Forall_impl; [exact H|]. intros f Hf. by apply solid_printable, field_solid. }
  repeat apply Forall_app_2; [by repeat constructor|by apply Hf, interface_fields_ok|by repeat constructor|by apply Hf, peer_fields_ok].
Qed.
Lemma text_lines_printable l : Forall (λ s, forallb printable (chars s) = true) l → has_char nul (chars (text_lines l)) = false.
Proof.
  intros H. apply has_char_free. rewrite text_lines_chars. induction H as [|s l Hs _ IH]; [done|]. cbn [map List.concat].
  apply Forall_app_2; [apply Forall_app_2|done]; [by apply printable_free|by repeat constructor].
Qed.

(** Reading the lines gives the profile. *)
Lemma fold_profile_lines p : profile_wf p → validate p = inr tt →
  ∃ st, fold_err (parse_line true) (mkParsing no_profile "" ∅ ∅) (profile_lines p) = inr st ∧ ps_profile st = p ∧
    "Interface" ∈ ps_sections st ∧ "Peer" ∈ ps_sections st.
Proof.
  intros Hwf Hv. destruct (identities_NoDup p) as (Hi & Hp & Hd). unfold profile_lines. rewrite fold_err_app.
  change (fold_err (parse_line true) (mkParsing no_profile "" ∅ ∅) ["[Interface]"]) with (inr (A:=err) (mkParsing no_profile "Interface" ({["Interface"]} ∪ ∅) ∅)).
  cbn [err_bind]. rewrite fold_err_app.
  rewrite (parse_fields true "Interface" _ ∅ _ _ _ ltac:(discriminate) (interface_fields_ok p Hwf Hv) Hi ltac:(by apply Forall_true; set_solver) (interface_assigned p Hwf Hv)).
  cbn [err_bind]. rewrite fold_err_app. cbn [fold_err].
  assert (∀ pr secs keys, "Peer" ∉ secs → fold_err (parse_line true) (mkParsing pr "Interface" secs keys) [""; "[Peer]"] =
    inr (mkParsing pr "Peer" ({["Peer"]} ∪ secs) keys)) as Hs.
  { intros pr secs keys Hn. cbn [fold_err]. change (parse_line true (mkParsing pr "Interface" secs keys) "") with (inr (A:=err) (mkParsing pr "Interface" secs keys)).
    cbn iota. unfold parse_line. change (trim_space "[Peer]") with "[Peer]". cbn zeta. change (header_name "[Peer]") with "Peer". simpl. by rewrite bool_decide_eq_false_2. }
  cbn [fold_err] in Hs. rewrite Hs by set_solver. cbn [err_bind]. eexists. split.
  { apply parse_fields; [done|by apply peer_fields_ok|done|done|]. by apply peer_assigned. }
  cbn [ps_profile ps_sections]. split; [by destruct p|]. split; set_solver.
Qed.


(** ** A provider's profile *)

Module Sample.
Definition key (n : N) : string := of_chars (b64_encode (replicate 32 n)).
Definition profile_with (endpoint allowed : string) : string :=
  text_lines ["# provider file"; "[Interface]"; "PrivateKey = " +:+ key 1; "Address = 10.9.0.2/32,  10.2.0.2/32"; "  DNS=1.1.1.1 "; "MTU = 1420"; "";
    "[ Peer ]"; "PublicKey = " +:+ key 2; "PresharedKey = " +:+ key 3; "AllowedIPs = " +:+ allowed; "Endpoint = " +:+ endpoint;
    "PersistentKeepalive = +25"].
Definition data : string := profile_with "vpn.example.test:51820" "10.0.0.0/0".
Definition read : Profile :=
  mkProfile (key 1) [mkPrefix (V4 167903234) 32; mkPrefix (V4 168361986) 32] [V4 16843009] 1420
    (mkPeer (key 2) (key 3) [mkPrefix (V4 0) 0] "vpn.example.test" 51820 25).

Example parsed : parse false data = inr (read, mkSummary 2 1 true true true true false).
Proof. vm_compute. reflexivity. Qed.
Example split_tunnel : Parse (profile_with "vpn.example.test:51820" "0.0.0.0/1") = inl (vpn_error "VPN_PROFILE_SPLIT_TUNNEL_UNSUPPORTED").
Proof. vm_compute. reflexivity. Qed.
Example masked_twice : Parse (profile_with "vpn.example.test:51820" "0.0.0.0/0, 1.0.0.0/0") = inl (vpn_error "VPN_PROFILE_ALLOWED_IPS_INVALID").
Proof. vm_compute. reflexivity. Qed.
Example endpoint_loopback : Parse (profile_with "127.0.0.1:51820" "0.0.0.0/0") = inl (vpn_error "VPN_PROFILE_ENDPOINT_INVALID").
Proof. vm_compute. reflexivity. Qed.
(** The normalized text is for managed reading only: it holds [Table]. *)
Example unmanaged_again : Parse (text_lines (profile_lines read)) = inl route_error.
Proof. vm_compute. reflexivity. Qed.

End Sample.
