(* ===== verification/Discovery.v ===== *)
(** Host discovery (internal/discovery/discovery.go): the snapshot of the host and the
    classification that clean setup asks for. *)

From S2P Require Import Prelude GoStrings Netip Config.
From Stdlib Require Import Ascii String.
Local Open Scope string_scope.
Local Open Scope check_scope.
Abbreviation length := List.length.

Record Snapshot := mkSnapshot {
  OSID : string; OSVersion : string; Architecture : string; Uplink : string; UplinkGateway : option Addr (* None: the zero address *);
  NonLoopbackInterfaces : list string; LANNetworks : list Prefix; ManagementTCP : list Z; IPv6DefaultRoute : bool;
  CompetingFirewallUnits : list string; OwnedNFTables : bool; ForeignNFTables : bool; ExistingNFTFWState : bool;
  DockerPresent : bool; DockerClean : bool; snap_DockerNetworks : list DockerNetwork
}.

Definition discovery_error (code : string) : err := Errorf code [].
Definition ValidateCleanHost (s : Snapshot) : err + unit :=
  fails (negb (String.eqb (OSID s) "debian") || negb (String.eqb (OSVersion s) "13"))
    (discovery_error "UNSUPPORTED_OS_REQUIRES_DEBIAN_13") then?
  fails (negb (is_one_of (Architecture s) ["amd64"; "arm64"])) (discovery_error "UNSUPPORTED_ARCHITECTURE") then?
  fails (String.eqb (Uplink s) "" || negb (from_option Is4 false (UplinkGateway s)) || (length (LANNetworks s) =? 0)%nat)
    (discovery_error "DISCOVERY_NETWORK_AMBIGUOUS") then?
  fails (nonempty (NonLoopbackInterfaces s) && negb (is_one_of (Uplink s) (NonLoopbackInterfaces s)))
    (discovery_error "DISCOVERY_NETWORK_AMBIGUOUS") then?
  fails (nonempty (CompetingFirewallUnits s) || ForeignNFTables s) (discovery_error "DISCOVERY_COMPETING_FIREWALL") then?
  fails (OwnedNFTables s || ExistingNFTFWState s) (discovery_error "DISCOVERY_EXISTING_NFTFW_REQUIRES_ADOPT") then?
  fails (DockerPresent s && negb (DockerClean s)) (discovery_error "DISCOVERY_DOCKER_WORKLOADS_REQUIRE_ADOPT").
