(* ===== verification/Json.v ===== *)
(** JSON values as [encoding/json] presents them to the program: decoding into the
    structures and maps the program declares, and marshalling of [map[string]any].

    A value is the decoded form of what a command prints or a client sends.  Objects are
    taken not to repeat a name and numbers to be integers that a float64 holds exactly, as
    in everything nft prints (no field of a request takes another number); the text parser
    itself is not modelled. *)

From S2P Require Import Prelude GoStrings GoTime Snapshot.
From Stdlib Require Import Ascii String.
Local Open Scope string_scope.
Local Open Scope N_scope.

Inductive json :=
  | JNull
  | JBool (b : bool)
  | JNum (z : Z)
  | JStr (s : string)
  | JArr (l : list json)
  | JObj (l : list (string * json)).

(** ** Decoding *)

(** The member a [map] lookup finds. *)
Definition member (name : string) (l : list (string * json)) : option json :=
  snd <$> List.find (λ m, String.eqb m.1 name) l.

(** The case folding with which [encoding/json] matches structure fields; U+017F and
    U+212A are the characters that fold to an ASCII letter. *)
Fixpoint fold_name (l : list ascii) : list ascii :=
  match l with
  | [] => []
  | a :: l1 =>
      match l1 with
      | b :: l2 =>
          if (code a =? 0xc5) && (code b =? 0xbf) then "s"%char :: fold_name l2
          else match l2 with
               | c :: l3 =>
                   if (code a =? 0xe2) && (code b =? 0x84) && (code c =? 0xaa)
                   then "k"%char :: fold_name l3
                   else to_lower_char a :: fold_name l1
               | [] => to_lower_char a :: fold_name l1
               end
      | [] => [to_lower_char a]
      end
  end.
Definition names_field (name key : string) : bool :=
  String.eqb (of_chars (fold_name (chars key))) name.

Definition json_error : err := Errorf "json: cannot unmarshal value" [].

(** Decoding into a structure field of type [string]: absent and [null] leave the
    zero value. *)
Definition string_field (name : string) (l : list (string * json)) : err + string :=
  foldl (λ acc m,
    if names_field name m.1 then
      match acc, m.2 with
      | inl e, _ => inl e
      | inr s, JNull => inr s
      | inr _, JStr s => inr s
      | inr _, _ => inl json_error
      end
    else acc) (inr "") l.

(** The members of a value decoded into a structure or a map. *)
Definition members (j : json) : err + list (string * json) :=
  match j with
  | JNull => inr []
  | JObj l => inr l
  | _ => inl json_error
  end.

Fixpoint collect {A B} (f : A → err + B) (l : list A) : err + list B :=
  match l with
  | [] => inr []
  | x :: l' =>
      match f x with
      | inl e => inl e
      | inr y => match collect f l' with inl e => inl e | inr r => inr (y :: r) end
      end
  end.

(** Unmarshalling into [struct { Nftables []map[string]json.RawMessage }]; [None] is
    text that is not JSON. *)
Definition nftables (j : option json) : err + list (list (string * json)) :=
  match match j with None => inl json_error | Some j => members j end with
  | inl e => inl e
  | inr l =>
      match List.find (λ m, names_field "nftables" m.1) l with
      | None | Some (_, JNull) => inr []
      | Some (_, JArr objects) => collect members objects
      | Some _ => inl json_error
      end
  end.

(** *** What a command prints *)

(** A text with its reading as JSON, if it is JSON. *)
Record output := mkOutput { out_text : string; out_json : option json }.

(** Fields of a decoded structure: the last member of the name counts; [null] leaves a
    value, and is a raw message of its own. *)
Definition raw_field (name : string) (l : list (string * json)) : option json :=
  foldl (λ acc m, if names_field name m.1 then Some m.2 else acc) None l.
Definition int_field (name : string) (l : list (string * json)) : err + Z :=
  fold_err (λ acc m,
    if names_field name m.1 then
      match m.2 with
      | JNull => inr acc
      | JNum z => if ((min_int64 <=? z) && (z <=? max_int64))%Z then inr z else inl json_error
      | _ => inl json_error
      end
    else inr acc) 0%Z l.
Definition uint_field (name : string) (l : list (string * json)) : err + N :=
  fold_err (λ acc m,
    if names_field name m.1 then
      match m.2 with
      | JNull => inr acc
      | JNum z => if ((0 <=? z) && (z <=? 2 ^ 64 - 1))%Z then inr (Z.to_N z) else inl json_error
      | _ => inl json_error
      end
    else inr acc) 0 l.
Definition flag_field (name : string) (l : list (string * json)) : err + bool :=
  fold_err (λ acc m,
    if names_field name m.1 then
      match m.2 with JNull => inr acc | JBool b => inr b | _ => inl json_error end
    else inr acc) false l.
(** A decoder that disallows the fields a structure does not have. *)
Definition decodeStrict {A} (names : list string) (decode : json → err + A) (j : json) : err + A :=
  err_bind (members j) (λ l,
  err_bind (fails (negb (forallb (λ m, existsb (λ name, names_field name m.1) names) l)) json_error) (λ _,
  decode j)).
(** Unmarshalling into a slice. *)
Definition decode_slice {A} (f : json → err + A) (j : option json) : err + list A :=
  match j with
  | Some JNull => inr []
  | Some (JArr l) => collect f l
  | _ => inl json_error
  end.

(** ** Marshalling [map[string]any] *)

Fixpoint insert_member (m : string * json) (l : list (string * json)) : list (string * json) :=
  match l with
  | [] => [m]
  | x :: l' => if str_leb m.1 x.1 then m :: l else x :: insert_member m l'
  end.
Definition sort_members (l : list (string * json)) : list (string * json) := foldr insert_member [] l.

(** [json.Marshal]: object names in byte order. *)
Fixpoint sorted_value (j : json) : json :=
  match j with
  | JArr l => JArr (map sorted_value l)
  | JObj l => JObj (sort_members (map (λ m, (m.1, sorted_value m.2)) l))
  | _ => j
  end.
Fixpoint json_text (j : json) : string :=
  match j with
  | JNull => "null"
  | JBool b => json_bool b
  | JNum z => pretty z
  | JStr s => json_string s
  | JArr l => json_array (map json_text l)
  | JObj l => json_object (map (λ m, json_string m.1 +:+ ":" +:+ json_text m.2) l)
  end.
Definition marshal (j : json) : string := json_text (sorted_value j).

Definition without (name : string) (l : list (string * json)) : list (string * json) :=
  List.filter (λ m, negb (String.eqb m.1 name)) l.
