(* ===== verification/Routing.v ===== *)
(** The managed tunnel (internal/routing/manager.go): the WireGuard interface, its policy
    routing and its resolver, brought up and taken down by ip, wg and resolver commands.

    A command is what the host makes of its words, its input and the staged files; what
    it prints is a text with its reading as JSON.  Before anything is touched the rules
    at the two reserved priorities and the routes of the reserved table must be the
    program's own; what fails later takes the tunnel down again. *)

From S2P Require Import Prelude GoStrings GoTime Netip GoPath GoText Json WgConfig.
From Stdlib Require Import Ascii String.
Local Open Scope string_scope.
Local Open Scope Z_scope.
Local Open Scope host_scope.
Abbreviation length := List.length.

(** ** Numbers of any base *)

(** [c | 0x20] in [strconv]. *)
Definition lower (c : ascii) : ascii := ascii_of_N (N.lor (code c) 32).
Definition digit_of (c : ascii) : option N :=
  if is_digit c then Some (code c - 48)%N
  else if is_lower (lower c) then Some (code (lower c) - 87)%N
  else None.
Definition is_base_mark (c : ascii) : bool := one_of "box" (lower c).
(** The base that a literal names and its digits. *)
Definition literal_base (l : list ascii) : N * list ascii :=
  match l with
  | "0"%char :: c :: d :: r =>
      if Ascii.eqb (lower c) "b"%char then (2, d :: r)%N
      else if Ascii.eqb (lower c) "o"%char then (8, d :: r)%N
      else if Ascii.eqb (lower c) "x"%char then (16, d :: r)%N
      else (8, c :: d :: r)%N
  | "0"%char :: r => (8, r)%N
  | _ => (10, l)%N
  end.
Fixpoint literal_value (base n : N) (l : list ascii) : option N :=
  match l with
  | [] => Some n
  | "_"%char :: l' => literal_value base n l'
  | c :: l' => d ← digit_of c; if (d <? base)%N then literal_value base (n * base + d)%N l' else None
  end.

(** [underscoreOK]: the last character seen is a digit, an underscore or something else. *)
Inductive seen := SawDigit | SawUnderscore | SawOther.
Fixpoint underscores_ok (hex : bool) (saw : seen) (l : list ascii) : bool :=
  match l with
  | [] => match saw with SawUnderscore => false | _ => true end
  | c :: l' =>
      if is_digit c || hex && in_range 97 102 (lower c) then underscores_ok hex SawDigit l'
      else if Ascii.eqb c "_"%char then match saw with SawDigit => underscores_ok hex SawUnderscore l' | _ => false end
      else match saw with SawUnderscore => false | _ => underscores_ok hex SawOther l' end
  end.
Definition drop_sign (l : list ascii) : list ascii := match l with c :: r => if one_of "+-" c then r else l | [] => [] end.
Definition underscoreOK (l : list ascii) : bool :=
  match drop_sign l with
  | "0"%char :: c :: r =>
      if is_base_mark c then underscores_ok (Ascii.eqb (lower c) "x"%char) SawDigit r
      else underscores_ok false SawOther ("0"%char :: c :: r)
  | r => underscores_ok false SawOther r
  end.

(** [strconv.ParseUint(s, 0, bits)] *)
Definition ParseUint0 (bits : N) (s : string) : option N :=
  let l := chars s in
  if (length l =? 0)%nat then None
  else
    n ← literal_value (literal_base l).1 0 (literal_base l).2;
    if (n <? 2 ^ bits)%N && (negb (existsb (Ascii.eqb "_"%char) l) || underscoreOK l) then Some n else None.

(** [value, _ := strconv.ParseInt(s, 10, 64)]: out of range is the nearest bound, a text
    that is no number is zero. *)
Definition ParseInt_value (s : string) : Z :=
  match chars s with
  | [] => 0
  | c :: l =>
      if Ascii.eqb c "-"%char then default 0 ((λ n, Z.max min_int64 (- Z.of_N n)) <$> digits l)
      else default 0 ((λ n, Z.min max_int64 (Z.of_N n)) <$> digits (if Ascii.eqb c "+"%char then l else c :: l))
  end.

Example parse_mark : map (ParseUint0 32) ["0xca6c"; "51820"; "0b11"; "017"; "1_000"; "_1"; "0x"; "4294967296"; ""; "0"] =
  [Some 51820%N; Some 51820%N; Some 3%N; Some 15%N; Some 1000%N; None; None; None; None; Some 0%N].
Proof. vm_compute. reflexivity. Qed.

(** ** What the commands print *)

Definition DefaultTable : Z := 51820.
Definition MainRulePriority : Z := 32764.
Definition VPNRulePriority : Z := 32765.
Definition DefaultCommandOutput : N := 1048576.
Definition bad_size (o : output) : bool := (slen (out_text o) =? 0)%nat || (DefaultCommandOutput <? N.of_nat (slen (out_text o)))%N.

(** [json.Unmarshal(raw, &text)] and [json.Unmarshal(raw, &value)] of fresh variables. *)
Definition raw_text (j : json) : option string := match j with JStr s => Some s | JNull => Some "" | _ => None end.
Definition raw_uint64 (j : json) : option N :=
  match j with JNum z => if (0 <=? z) && (z <? 2 ^ 64) then Some (Z.to_N z) else None | JNull => Some 0%N | _ => None end.

Record policyRule := mkRule { Priority : Z; rule_Table : option json; rule_Fwmark : option json; rule_Not : bool; SuppressPrefix : option json }.
Definition decode_rule (j : json) : err + policyRule :=
  match members j with
  | inl e => inl e
  | inr l =>
      match int_field "priority" l, flag_field "not" l with
      | inr p, inr n => inr (mkRule p (raw_field "table" l) (raw_field "fwmark" l) n (raw_field "suppress_prefixlength" l))
      | _, _ => inl json_error
      end
  end.
Definition decodeRules (o : output) : err + list policyRule :=
  if bad_size o then inl (Errorf "invalid rule output" []) else decode_slice decode_rule (out_json o).

Definition rawNumberOrName (raw : option json) (name : string) (number : N) : bool :=
  match raw with
  | None => false
  | Some j =>
      match raw_text j with
      | Some text => negb (String.eqb name "") && String.eqb text name || bool_decide (ParseUint0 64 text = Some number)
      | None => bool_decide (raw_uint64 j = Some number)
      end
  end.
Definition isManagedMain (r : policyRule) : bool :=
  (Priority r =? MainRulePriority) && rawNumberOrName (rule_Table r) "main" 254 && rawNumberOrName (SuppressPrefix r) "" 0 &&
  match rule_Fwmark r with None => true | Some _ => false end.
Definition isManagedVPN (table fwmark : N) (r : policyRule) : bool :=
  (Priority r =? VPNRulePriority) && rawNumberOrName (rule_Table r) "" table && rawNumberOrName (rule_Fwmark r) "" fwmark && rule_Not r.
Definition tableNumber (table : Z) : err + N :=
  if (table <? 1) || (0x7fffffff <? table) then inl (Errorf "invalid route table" []) else inr (Z.to_N table).

Record routeObservation := mkRoute { route_Table : option json; Destination : string; Device : string }.
(** [UnmarshalJSON]: exact names, each at most once. *)
Definition route_seen (name : string) (l : list (string * json)) : bool := existsb (λ m, String.eqb name m.1) l.
Definition decode_text (what : string) (acc : string) (j : json) : err + string :=
  match j with JStr s => inr s | JNull => inr acc | _ => inl (Errorf what []) end.
Fixpoint route_members (r : routeObservation) (before l : list (string * json)) : err + routeObservation :=
  match l with
  | [] => inr r
  | (name, j) :: l' =>
      if (String.eqb name "table" || String.eqb name "dst" || String.eqb name "dev") && route_seen name before
      then inl (Errorf "duplicate route field" [])
      else
        let next r := route_members r ((name, j) :: before) l' in
        if String.eqb name "table" then next (mkRoute (Some j) (Destination r) (Device r))
        else if String.eqb name "dst" then
          match decode_text "invalid route destination" (Destination r) j with
          | inl e => inl e | inr s => next (mkRoute (route_Table r) s (Device r)) end
        else if String.eqb name "dev" then
          match decode_text "invalid route device" (Device r) j with
          | inl e => inl e | inr s => next (mkRoute (route_Table r) (Destination r) s) end
        else next r
  end.
Definition decode_route (j : json) : err + routeObservation :=
  match j with JObj l => route_members (mkRoute None "" "") [] l | _ => inl (Errorf "route is not an object" []) end.
Definition numericRouteTable (j : json) : err + N :=
  match raw_text j with
  | Some text => of_option (ParseUint10 32 text) (Errorf "invalid syntax" [])
  | None =>
      match raw_uint64 j with
      | Some n => if (n <=? 0xffffffff)%N then inr n else inl (Errorf "invalid route table" [])
      | None => inl (Errorf "invalid route table" [])
      end
  end.
Fixpoint select_routes (table : N) (l : list routeObservation) : err + list routeObservation :=
  match l with
  | [] => inr []
  | r :: l' =>
      match route_Table r with
      | None => select_routes table l'
      | Some j =>
          match numericRouteTable j, select_routes table l' with
          | inr n, inr rest => inr (if (n =? table)%N then r :: rest else rest)
          | _, _ => inl (Errorf "invalid route table" [])
          end
      end
  end.
Definition decodeManagedRoutes (o : output) (table : Z) : err + list routeObservation :=
  match tableNumber table with
  | inl e => inl e
  | inr id =>
      if bad_size o then inl (Errorf "invalid route output" [])
      else match out_json o with
           | Some (JArr l) =>
               match collect decode_route l with
               | inl _ => inl (Errorf "invalid route output" [])
               | inr observed => select_routes id observed
               end
           | _ => inl (Errorf "invalid route output" [])
           end
  end.
(** The names of [ip -j -d link show]. *)
Definition decode_link (j : json) : err + string :=
  match members j with inl e => inl e | inr l => string_field "ifname" l end.
Definition decodeLinks (o : output) : err + list string :=
  if bad_size o then inl json_error else decode_slice decode_link (out_json o).

(** ** The configuration of a tunnel *)

Record Config := mkTunnel {
  tn_Interface : string; Uplink : string; Fwmark : string; Table : Z; tn_Addresses : list Prefix; EndpointAddress : Addr;
  tn_DNS : list Addr; tn_MTU : Z; tn_Profile : Profile; Resolver : string; RuntimeDir : string
}.
Definition ResolverNone : string := "none".
Definition ResolverResolvectl : string := "resolvectl".
Definition ResolverResolvconf : string := "resolvconf".
Definition coded (code : string) : err := Errorf code [].
Definition bad_address (a : Addr) : bool := negb (Is4 a) || IsUnspecified a || IsLoopback a || IsMulticast a.
Section checks.
Local Open Scope check_scope.
Definition Validate (c : Config) : err + unit :=
  fails (String.eqb (tn_Interface c) "" || String.eqb (Uplink c) "" || String.eqb (tn_Interface c) (Uplink c) ||
         (Table c <? 1) || (0x7fffffff <? Table c) || String.eqb (RuntimeDir c) "") (coded "TUNNEL_CONFIG_INVALID") then?
  fails (String.eqb (Fwmark c) "" || bad_address (EndpointAddress c) || (length (tn_Addresses c) =? 0)%nat) (coded "TUNNEL_CONFIG_INVALID") then?
  each (λ p, fails (negb (Is4 (pfx_addr p)) || (pfx_bits p =? 0)%N) (coded "TUNNEL_CONFIG_INVALID")) (tn_Addresses c) then?
  each (λ a, fails (bad_address a) (coded "TUNNEL_DNS_INVALID")) (tn_DNS c) then?
  fails (negb (length (tn_DNS c) =? 0)%nat && negb (String.eqb (Resolver c) ResolverResolvectl) && negb (String.eqb (Resolver c) ResolverResolvconf))
    (coded "TUNNEL_RESOLVER_UNSUPPORTED") then?
  fails (negb (String.eqb (Resolver c) ResolverNone) && negb (String.eqb (Resolver c) ResolverResolvectl) &&
         negb (String.eqb (Resolver c) ResolverResolvconf)) (coded "TUNNEL_RESOLVER_UNSUPPORTED") then?
  fails (match ParseUint0 32 (Fwmark c) with Some mark => (mark =? 0)%N | None => true end) (coded "TUNNEL_CONFIG_INVALID").
End checks.

(** ** The host and its commands *)

Definition command := list string.
Definition show_rules : command := ["ip"; "-j"; "-4"; "rule"; "show"].
Definition show_routes : command := ["ip"; "-j"; "-N"; "-4"; "route"; "show"; "table"; "all"].
Definition show_links : command := ["ip"; "-j"; "-d"; "link"; "show"].
Definition show_link (name : string) : command := ["ip"; "link"; "show"; "dev"; name].
Definition add_link (name : string) : command := ["ip"; "link"; "add"; "dev"; name; "type"; "wireguard"].
Definition delete_link (name : string) : command := ["ip"; "link"; "delete"; "dev"; name].
Definition add_default (name table : string) : command := ["ip"; "-4"; "route"; "replace"; "default"; "dev"; name; "table"; table].
Definition flush_table (table : string) : command := ["ip"; "-4"; "route"; "flush"; "table"; table].
Definition main_rule (verb : string) : command :=
  ["ip"; "-4"; "rule"; verb; "pref"; pretty MainRulePriority; "table"; "main"; "suppress_prefixlength"; "0"].
Definition vpn_rule (verb mark table : string) : command :=
  ["ip"; "-4"; "rule"; verb; "pref"; pretty VPNRulePriority; "not"; "fwmark"; mark; "table"; table].

Section manager.
Context {W : Type}.
(** What the host makes of a command, its input and the staged files; [None] is a
    command that fails. *)
Context (exec : command → string → gmap string string → W → option output * W).
(** The unused name that [os.CreateTemp] picks. *)
Context (temp_name : string → gset string → string).

Record Host := mkHost { h_net : W; h_files : gmap string string }.
Abbreviation HM := (M Host).

Definition Run (input : string) (words : command) : HM output :=
  io_write (λ h,
    let '(answer, w) := exec words input (h_files h) (h_net h) in
    (match answer with Some o => Ret o | None => Error (Errorf "%s failed" [ArgS (Base (hd "" words))]) end, mkHost w (h_files h))).
Definition run (words : command) : HM unit := Run "" words ;; ret tt.
Definition failing {A} (code : string) (m : HM A) : HM A := catch m (λ _, throw (coded code)).
Definition ignored {A} (m : HM A) : HM unit := try_ m ;; ret tt.

(** [secureTemporary]: a file of the secret; it does not outlive a failure. *)
Definition syscall : HM unit := io_read (λ _, Ret tt).
Definition put_file (path data : string) : HM unit := io_write (λ h, (Ret tt, mkHost (h_net h) (<[path := data]> (h_files h)))).
Definition remove_file (path : string) : HM unit := io_write (λ h, (Ret tt, mkHost (h_net h) (delete path (h_files h)))).
Definition secureTemporary (directory data : string) : HM string :=
  require (negb (String.eqb directory "") && IsAbs directory) (coded "TUNNEL_RUNTIME_DIR_INVALID") ;;
  failing "TUNNEL_RUNTIME_DIR_FAILED" syscall ;;
  failing "TUNNEL_RUNTIME_DIR_FAILED" syscall ;;
  path <- gets (λ h, temp_name directory (dom (h_files h))) ;;
  failing "TUNNEL_SECRET_STAGE_FAILED" (put_file path "") ;;
  catch (failing "TUNNEL_SECRET_STAGE_FAILED" (syscall ;; put_file path data ;; syscall ;; syscall))
    (λ e, ignored (remove_file path) ;; throw e) ;;
  ret path.

(** ** Looking *)

Definition observed_rules : HM (list policyRule) :=
  failing "TUNNEL_RULE_VERIFY_FAILED" (o <- Run "" show_rules ;; lift_check (decodeRules o)).
Definition inspectManagedRoutes (table : Z) : HM (list routeObservation) :=
  lift_check (tableNumber table) ;;
  o <- Run "" show_routes ;;
  lift_check (decodeManagedRoutes o table).
Definition is_reserved (r : policyRule) : bool := (Priority r =? MainRulePriority) || (Priority r =? VPNRulePriority).
Definition ensureRulePrioritiesAvailable : HM unit :=
  rules <- observed_rules ;;
  require (negb (existsb is_reserved rules)) (coded "TUNNEL_RULE_PRIORITY_CONFLICT").

Definition PreflightClean (c : Config) : HM unit :=
  lift_check (Validate c) ;;
  ensureRulePrioritiesAvailable ;;
  routes <- failing "TUNNEL_ROUTE_TABLE_INSPECTION_FAILED" (inspectManagedRoutes (Table c)) ;;
  require (length routes =? 0)%nat (coded "TUNNEL_ROUTE_TABLE_CONFLICT") ;;
  links <- failing "TUNNEL_LINK_INSPECTION_FAILED" (o <- Run "" show_links ;; lift_check (decodeLinks o)) ;;
  require (negb (existsb (String.eqb (tn_Interface c)) links)) (coded "TUNNEL_INTERFACE_CONFLICT").

Definition mark_of (c : Config) : N := default 0%N (ParseUint0 32 (Fwmark c)).
Definition is_managed (table mark : N) (r : policyRule) : bool := isManagedMain r || isManagedVPN table mark r.
Definition is_own_route (c : Config) (r : routeObservation) : bool :=
  (String.eqb (Destination r) "default" || String.eqb (Destination r) "0.0.0.0/0") && String.eqb (Device r) (tn_Interface c).
Definition checkOwnershipConflicts (c : Config) : HM unit :=
  rules <- observed_rules ;;
  let table := match tableNumber (Table c) with inr n => n | inl _ => 0%N end in
  require (forallb (λ r, negb (is_reserved r) || is_managed table (mark_of c) r) rules) (coded "TUNNEL_RULE_PRIORITY_CONFLICT") ;;
  routes <- failing "TUNNEL_ROUTE_TABLE_INSPECTION_FAILED" (inspectManagedRoutes (Table c)) ;;
  require (forallb (is_own_route c) routes) (coded "TUNNEL_ROUTE_TABLE_CONFLICT").

(** ** The resolver *)

Fixpoint each_run (code : string) (l : list command) : HM unit :=
  match l with [] => ret tt | words :: l' => failing code (run words) ;; each_run code l' end.
Definition configureDNS (c : Config) : HM unit :=
  if (length (tn_DNS c) =? 0)%nat || String.eqb (Resolver c) ResolverNone then ret tt
  else
    let values := map addr_String (tn_DNS c) in
    if String.eqb (Resolver c) ResolverResolvectl then
      each_run "TUNNEL_DNS_CONFIG_FAILED"
        ["resolvectl" :: "dns" :: tn_Interface c :: values; ["resolvectl"; "domain"; tn_Interface c; "~."];
         ["resolvectl"; "default-route"; tn_Interface c; "yes"]]
    else if String.eqb (Resolver c) ResolverResolvconf then
      failing "TUNNEL_DNS_CONFIG_FAILED"
        (Run (String.concat "" (map (λ v, "nameserver " +:+ v +:+ of_chars [lf]) values))
           ["resolvconf"; "-a"; tn_Interface c; "-m"; "0"; "-x"] ;; ret tt)
    else throw (coded "TUNNEL_RESOLVER_UNSUPPORTED").
Definition clearDNS (c : Config) : HM unit :=
  if String.eqb (Resolver c) ResolverNone || String.eqb (Resolver c) "" then ret tt
  else if String.eqb (Resolver c) ResolverResolvectl then
    failing "TUNNEL_DNS_ROLLBACK_FAILED" (run ["resolvectl"; "revert"; tn_Interface c])
  else if String.eqb (Resolver c) ResolverResolvconf then
    failing "TUNNEL_DNS_ROLLBACK_FAILED" (run ["resolvconf"; "-d"; tn_Interface c; "-f"])
  else throw (coded "TUNNEL_RESOLVER_UNSUPPORTED").
Definition DetectResolver (hasDNS : bool) : HM string :=
  if negb hasDNS then ret ResolverNone
  else
    catch (run ["resolvectl"; "status"] ;; ret ResolverResolvectl)
      (λ _, catch (run ["resolvconf"; "--version"] ;; ret ResolverResolvconf)
              (λ _, throw (coded "TUNNEL_RESOLVER_UNSUPPORTED"))).

(** ** Up and down *)

Definition deleteRules (c : Config) : HM unit :=
  ignored (run (vpn_rule "del" (Fwmark c) (pretty (Table c)))) ;;
  ignored (run (main_rule "del")) ;;
  rules <- observed_rules ;;
  mark <- lift_option (ParseUint0 32 (Fwmark c)) (coded "TUNNEL_CONFIG_INVALID") ;;
  table <- failing "TUNNEL_CONFIG_INVALID" (lift_check (tableNumber (Table c))) ;;
  require (negb (existsb (is_managed table mark) rules)) (coded "TUNNEL_RULE_DELETE_FAILED").

Definition failure_of (r : err + unit) : list string := match r with inl e => [err_text e] | inr _ => [] end.
Definition Down (c : Config) : HM unit :=
  require (negb (String.eqb (tn_Interface c) "" || (Table c <? 1) || (0x7fffffff <? Table c))) (coded "TUNNEL_CONFIG_INVALID") ;;
  dns <- try_ (clearDNS c) ;;
  rules <- try_ (deleteRules c) ;;
  ignored (run (flush_table (pretty (Table c)))) ;;
  deleted <- try_ (run (delete_link (tn_Interface c))) ;;
  link <- (match deleted with
           | inr _ => ret []
           | inl _ => shown <- try_ (run (show_link (tn_Interface c))) ;;
                      ret (match shown with inr _ => ["TUNNEL_LINK_DELETE_FAILED"] | inl _ => [] end)
           end) ;;
  let failures := (failure_of dns ++ failure_of rules ++ link)%list in
  require (length failures =? 0)%nat (Errorf (join "," (sort_strings failures)) []).

(** What follows once the interface is there. *)
Definition configure (c : Config) (setconf : string) : HM unit :=
  failing "TUNNEL_WIREGUARD_CONFIG_FAILED" (run ["wg"; "setconf"; tn_Interface c; setconf]) ;;
  each_run "TUNNEL_ADDRESS_FAILED"
    (map (λ p, ["ip"; "-4"; "address"; "replace"; prefix_String p; "dev"; tn_Interface c]) (tn_Addresses c)) ;;
  (if tn_MTU c =? 0 then ret tt
   else failing "TUNNEL_MTU_FAILED" (run ["ip"; "link"; "set"; "dev"; tn_Interface c; "mtu"; pretty (tn_MTU c)])) ;;
  failing "TUNNEL_FWMARK_FAILED" (run ["wg"; "set"; tn_Interface c; "fwmark"; Fwmark c]) ;;
  failing "TUNNEL_LINK_UP_FAILED" (run ["ip"; "link"; "set"; "dev"; tn_Interface c; "up"]).
Definition install (c : Config) : HM unit :=
  deleteRules c ;;
  ensureRulePrioritiesAvailable ;;
  failing "TUNNEL_ROUTE_FAILED" (run (add_default (tn_Interface c) (pretty (Table c)))) ;;
  failing "TUNNEL_MAIN_RULE_FAILED" (run (main_rule "add")) ;;
  failing "TUNNEL_VPN_RULE_FAILED" (run (vpn_rule "add" (Fwmark c) (pretty (Table c)))) ;;
  configureDNS c.
Definition bring_up (c : Config) : HM unit :=
  setConfig <- lift_check (WGSetConfig (tn_Profile c) (EndpointAddress c)) ;;
  temporary <- secureTemporary (RuntimeDir c) setConfig ;;
  finally (configure c temporary ;; install c) (remove_file temporary).
Definition Up (c : Config) : HM unit :=
  lift_check (Validate c) ;;
  checkOwnershipConflicts c ;;
  shown <- try_ (run (show_link (tn_Interface c))) ;;
  (match shown with
   | inr _ => ret tt
   | inl _ => failing "TUNNEL_LINK_CREATE_FAILED" (run (add_link (tn_Interface c)))
   end) ;;
  catch (bring_up c) (λ e, ignored (Down c) ;; throw e).

(** ** Status *)

Record TunnelStatus := mkStatus { st_active : bool; st_healthy : bool; st_latest : Z }.
Definition unix_time (seconds : Z) : time := wrap64 (seconds + 62135596800) * second.
Definition handshake (line : string) : Z := match fields line with [_; v] => ParseInt_value v | _ => 0 end.
Definition latest_handshake (s : string) : Z := foldl Z.max 0 (map handshake (split_string lf s)).
Definition Status (now : time) (c : Config) : HM TunnelStatus :=
  lift_check (Validate c) ;;
  shown <- try_ (Run "" ["wg"; "show"; tn_Interface c; "latest-handshakes"]) ;;
  ret (match shown with
       | inl _ => mkStatus false false 0
       | inr o =>
           let latest := latest_handshake (out_text o) in
           mkStatus true ((0 <? latest) && (duration_sub now (unix_time latest) <=? 180 * second)) latest
       end).
End manager.
Arguments Host : clear implicits.

(** ** What is known of ip

    The listings change nothing and show what is there; [rule add] and [rule del] add or
    remove one rule that their selectors describe, or fail; the other commands leave the
    rules alone, and those of the rules and of the resolver leave the routes alone. *)

Definition main_selected (r : policyRule) : bool :=
  (Priority r =? MainRulePriority) && rawNumberOrName (rule_Table r) "main" 254 && rawNumberOrName (SuppressPrefix r) "" 0.
Definition vpn_selected (table mark : N) (r : policyRule) : bool :=
  (Priority r =? VPNRulePriority) && rawNumberOrName (rule_Table r) "" table && rawNumberOrName (rule_Fwmark r) "" mark.
(** [l'] is [l] without one rule of the selection. *)
Definition one_less (sel : policyRule → bool) (l l' : list policyRule) : Prop :=
  ∃ l1 r l2, l = (l1 ++ r :: l2)%list ∧ sel r = true ∧ l' = (l1 ++ l2)%list.
Definition on_rules (words : command) : Prop := take 3 words = ["ip"; "-4"; "rule"].
Definition on_resolver (words : command) : Prop := hd "" words = "resolvectl" ∨ hd "" words = "resolvconf".
Definition on_link (words : command) : Prop := take 3 words = ["ip"; "link"; "add"] ∨ take 3 words = ["ip"; "link"; "delete"].

Class IPRoute {W : Type} (exec : command → string → gmap string string → W → option output * W) := {
  rules_of : W → list policyRule;
  routes_of : N → W → list routeObservation;
  links_of : W → gset string;
  rules_shown i f w a w' : exec show_rules i f w = (a, w') → w' = w ∧ ∀ o, a = Some o → decodeRules o = inr (rules_of w);
  routes_shown i f w a w' : exec show_routes i f w = (a, w') →
    w' = w ∧ ∀ o t n, a = Some o → tableNumber t = inr n → decodeManagedRoutes o t = inr (routes_of n w);
  links_shown i f w a w' : exec show_links i f w = (a, w') →
    w' = w ∧ ∀ o, a = Some o → ∃ l, decodeLinks o = inr l ∧ ∀ n, n ∈ l ↔ n ∈ links_of w;
  link_shown n i f w a w' : exec (show_link n) i f w = (a, w') → w' = w ∧ (is_Some a → n ∈ links_of w);
  link_added n i f w o w' : exec (add_link n) i f w = (Some o, w') → n ∈ links_of w';
  default_added n t table i f w o w' : tableNumber t = inr table → exec (add_default n (pretty t)) i f w = (Some o, w') →
    ∃ r, r ∈ routes_of table w' ∧ Destination r = "default" ∧ Device r = n;
  main_deleted i f w a w' : exec (main_rule "del") i f w = (a, w') →
    rules_of w' = rules_of w ∨ one_less main_selected (rules_of w) (rules_of w');
  vpn_deleted mark m t table i f w a w' : ParseUint0 32 mark = Some m → tableNumber t = inr table →
    exec (vpn_rule "del" mark (pretty t)) i f w = (a, w') →
    rules_of w' = rules_of w ∨ one_less (vpn_selected table m) (rules_of w) (rules_of w');
  main_added i f w a w' : exec (main_rule "add") i f w = (a, w') →
    a = None ∧ rules_of w' = rules_of w ∨ one_less main_selected (rules_of w') (rules_of w);
  vpn_added mark m t table i f w a w' : ParseUint0 32 mark = Some m → tableNumber t = inr table →
    exec (vpn_rule "add" mark (pretty t)) i f w = (a, w') →
    a = None ∧ rules_of w' = rules_of w ∨ one_less (vpn_selected table m) (rules_of w') (rules_of w);
  rules_kept words i f w a w' : ¬ on_rules words → exec words i f w = (a, w') → rules_of w' = rules_of w;
  links_kept words i f w a w' : ¬ on_link words → exec words i f w = (a, w') → links_of w' = links_of w;
  routes_kept words i f w a w' n : on_rules words ∨ on_resolver words → exec words i f w = (a, w') → routes_of n w' = routes_of n w
}.

(** ** The theory *)

Lemma Validate_ok c : Validate c = inr tt → ∃ table mark,
  tableNumber (Table c) = inr table ∧ ParseUint0 32 (Fwmark c) = Some mark ∧ mark_of c = mark ∧
  (Resolver c = ResolverNone ∨ Resolver c = ResolverResolvectl ∨ Resolver c = ResolverResolvconf).
Proof.
  unfold Validate. intros H. apply err_bind_ok in H as ([] & H1 & H). apply err_bind_ok in H as ([] & _ & H).
  apply err_bind_ok in H as ([] & _ & H). apply err_bind_ok in H as ([] & _ & H). apply err_bind_ok in H as ([] & _ & H).
  apply err_bind_ok in H as ([] & H2 & H). apply fails_ok in H1, H2, H. unfold mark_of, tableNumber.
  destruct (ParseUint0 32 (Fwmark c)) as [mark|]; [|done]. rewrite !orb_false_iff in H1. destruct H1 as [[[_ Ht] Ht'] _]. rewrite Ht, Ht'.
  eexists _, mark. do 3 (split; [done|]). rewrite !andb_false_iff, !negb_false_iff, !String.eqb_eq in H2. tauto.
Qed.

Lemma managed_selected table mark r : is_managed table mark r = true → main_selected r || vpn_selected table mark r = true.
Proof.
  unfold is_managed, isManagedMain, isManagedVPN. fold (main_selected r). intros [H|H]%orb_true_iff.
  - apply andb_true_iff in H as [H _]. by rewrite H.
  - apply andb_true_iff in H as [H _]. fold (vpn_selected table mark r) in H. by rewrite H, orb_true_r.
Qed.

Section theory.
Context {W : Type} (exec : command → string → gmap string string → W → option output * W) `{!IPRoute exec}.
Context (temp_name : string → gset string → string).
Abbreviation HM := (M (Host W)).
Implicit Types (c : Config) (h : Host W) (w : W) (J : W → Prop).

Definition table_of c : N := Z.to_N (Table c).
Lemma table_number c table : tableNumber (Table c) = inr table → table = table_of c.
Proof. unfold tableNumber, table_of. case_match; congruence. Qed.
(** The rules that no selection of the tunnel describes. *)
Definition ours c (r : policyRule) : bool := main_selected r || vpn_selected (table_of c) (mark_of c) r.
Definition foreign c w : list policyRule := List.filter (λ r, negb (ours c r)) (rules_of w).

Lemma one_less_filter sel p l l' : one_less sel l l' → (∀ r, sel r = true → p r = false) → List.filter p l' = List.filter p l.
Proof. intros (l1 & r & l2 & -> & Hr & ->) Hp. rewrite !List.filter_app. simpl. by rewrite Hp. Qed.

(** The commands of a tunnel that say rules say its own. *)
Definition tunnel_command c (words : command) : Prop :=
  ¬ on_rules words ∨ ∃ verb, (verb = "add" ∨ verb = "del") ∧ (words = main_rule verb ∨ words = vpn_rule verb (Fwmark c) (pretty (Table c))).
Lemma exec_foreign c words i f w a w' : Validate c = inr tt → tunnel_command c words → exec words i f w = (a, w') → foreign c w' = foreign c w.
Proof.
  intros Hv Hc He. apply Validate_ok in Hv as (table & mark & Ht & Hm & Hmk & _). pose proof (table_number _ _ Ht) as ->.
  assert (Hmain : ∀ r, main_selected r = true → negb (ours c r) = false) by (intros r E; unfold ours; by rewrite E).
  assert (Hvpn : ∀ r, vpn_selected (table_of c) mark r = true → negb (ours c r) = false).
  { intros r E. unfold ours. by rewrite Hmk, E, orb_true_r. }
  unfold foreign. destruct Hc as [Hk|(verb & [-> | ->] & [-> | ->])].
  - by rewrite (rules_kept words i f w a w' Hk He).
  - destruct (main_added i f w a w' He) as [[_ ->]|Hl]; [done|]. symmetry. by eapply one_less_filter.
  - destruct (vpn_added _ _ _ _ i f w a w' Hm Ht He) as [[_ ->]|Hl]; [done|]. symmetry. by eapply one_less_filter.
  - destruct (main_deleted i f w a w' He) as [->|Hl]; [done|]. by eapply one_less_filter.
  - destruct (vpn_deleted _ _ _ _ i f w a w' Hm Ht He) as [->|Hl]; [done|]. by eapply one_less_filter.
Qed.

(** *** What a computation keeps *)

Definition keeps J {A} (m : HM A) : Prop := ∀ h, J (h_net h) → safe (λ h, J (h_net h)) m (λ _ _, True) h.
Definition kept_by J (words : command) : Prop := ∀ i f w a w', exec words i f w = (a, w') → J w → J w'.
Lemma safe_then {A B} (I : Host W → Prop) (m : HM A) (k : A → HM B) Q P h :
  safe I m Q h → (∀ a h', I h' → Q a h' → safe I (k a) P h') → safe I (bind m k) P h.
Proof. intros Hm Hk. apply safe_bind. eapply safe_mono; [done|]. auto. Qed.
Lemma safe_Run (I : Host W → Prop) input words (P : output → Host W → Prop) h : I h →
  (∀ a w', exec words input (h_files h) (h_net h) = (a, w') → I (mkHost w' (h_files h)) ∧ ∀ o, a = Some o → P o (mkHost w' (h_files h))) →
  safe I (Run exec input words) P h.
Proof.
  intros HI Hx. unfold Run. destruct (exec words input (h_files h) (h_net h)) as [a w'] eqn:E. destruct (Hx _ _ eq_refl) as [H1 H2].
  apply safe_io_write; rewrite ?E; [done|done|]. intros o h' [= Ho <-]. destruct a; [|done]. injection Ho as ->. by apply H2.
Qed.
Lemma safe_failing {A} (I : Host W → Prop) code (m : HM A) P h : safe I m P h → safe I (failing code m) P h.
Proof. intros H. apply safe_catch_inv; [done|]. intros e h' Hh. by apply safe_throw. Qed.

Lemma keeps_then {A B} J (m : HM A) (k : A → HM B) P h : keeps J m → J (h_net h) →
  (∀ a h', J (h_net h') → safe (λ h, J (h_net h)) (k a) P h') → safe (λ h, J (h_net h)) (bind m k) P h.
Proof. intros Hm HJ Hk. eapply safe_then; [by apply Hm|]. auto. Qed.

Section keeping.
Context (J : W → Prop).
Lemma keeps_ret {A} (a : A) : keeps J (ret a).
Proof. intros h H. by apply safe_ret. Qed.
Lemma keeps_throw {A} e : keeps J (throw (A := A) e).
Proof. intros h H. by apply safe_throw. Qed.
Lemma keeps_seq {A B} (m : HM A) (k : A → HM B) : keeps J m → (∀ a, keeps J (k a)) → keeps J (bind m k).
Proof. intros Hm Hk h H. eapply safe_then; [by apply Hm|]. intros a h' H' _. by apply Hk. Qed.
Lemma keeps_catch {A} (m : HM A) k : keeps J m → (∀ e, keeps J (k e)) → keeps J (catch m k).
Proof. intros Hm Hk h H. apply safe_catch_inv; [by apply Hm|]. intros e h' H'. by apply Hk. Qed.
Lemma keeps_try {A} (m : HM A) : keeps J m → keeps J (try_ m).
Proof. intros Hm h H. eapply safe_try_inv; [by apply Hm|done..]. Qed.
Lemma keeps_finally {A} (m : HM A) k : keeps J m → keeps J k → keeps J (finally m k).
Proof. intros Hm Hk h H. apply safe_finally; [|by apply Hk]. eapply safe_mono; [by apply Hm|]. intros a h' H' _. split; [by apply Hk|done]. Qed.
Lemma keeps_failing {A} code (m : HM A) : keeps J m → keeps J (failing code m).
Proof. intros Hm. apply keeps_catch; [done|]. intros e. apply keeps_throw. Qed.
Lemma keeps_ignored {A} (m : HM A) : keeps J m → keeps J (ignored m).
Proof. intros Hm. apply keeps_seq; [by apply keeps_try|]. intros a. apply keeps_ret. Qed.
Lemma keeps_require b e : keeps J (require b e).
Proof. intros h H. by apply safe_require. Qed.
Lemma keeps_lift_check {A} (r : err + A) : keeps J (lift_check r).
Proof. destruct r; [apply keeps_throw|apply keeps_ret]. Qed.
Lemma keeps_lift {A} (x : option A) e : keeps J (lift_option x e).
Proof. intros h H. by apply safe_lift_option. Qed.
Lemma keeps_gets {A} (f : Host W → A) : keeps J (gets f).
Proof. intros h H. by apply safe_gets. Qed.
Lemma keeps_syscall : keeps J syscall.
Proof. intros h H. by apply safe_io_read. Qed.
Lemma keeps_put path data : keeps J (put_file path data).
Proof. intros h H. by apply safe_io_write. Qed.
Lemma keeps_remove path : keeps J (remove_file path).
Proof. intros h H. by apply safe_io_write. Qed.
Lemma keeps_Run input words : kept_by J words → keeps J (Run exec input words).
Proof. intros Hk h H. apply safe_Run; [done|]. intros a w' E. split; [by eapply Hk|done]. Qed.
Lemma keeps_run words : kept_by J words → keeps J (run exec words).
Proof. intros Hk. apply keeps_seq; [by apply keeps_Run|]. intros o. apply keeps_ret. Qed.
Lemma keeps_each code l : Forall (kept_by J) l → keeps J (each_run exec code l).
Proof.
  induction 1 as [|words l Hw _ IH]; [apply keeps_ret|]. apply keeps_seq; [by apply keeps_failing, keeps_run|by intros _].
Qed.
End keeping.
Create HintDb tunnel.
#[local] Hint Resolve keeps_ret keeps_throw keeps_require keeps_lift_check keeps_lift keeps_gets keeps_syscall keeps_put keeps_remove : tunnel.
(** Walks down a computation; what is left are the commands. *)
Ltac keeping :=
  repeat first
    [ progress eauto with tunnel nocore | apply keeps_seq; [|intros ?] | apply keeps_failing | apply keeps_ignored | apply keeps_try
    | apply keeps_finally | apply keeps_catch; [|intros ?] | apply keeps_run | apply keeps_Run | apply keeps_each
    | match goal with |- keeps _ (match ?x with _ => _ end) => destruct x eqn:? end ].

Lemma show_kept J words : words = show_rules ∨ words = show_routes ∨ words = show_links ∨ (∃ n, words = show_link n) → kept_by J words.
Proof.
  intros Hs i f w a w' He. destruct Hs as [->|[->|[->|[n ->]]]].
  - by apply rules_shown in He as [-> _].
  - by apply routes_shown in He as [-> _].
  - by apply links_shown in He as [-> _].
  - by apply link_shown in He as [-> _].
Qed.
#[local] Hint Extern 1 (kept_by _ show_rules) => apply show_kept; by left : tunnel.
#[local] Hint Extern 1 (kept_by _ show_routes) => apply show_kept; by right; left : tunnel.
#[local] Hint Extern 1 (kept_by _ show_links) => apply show_kept; by right; right; left : tunnel.
#[local] Hint Extern 1 (kept_by _ (show_link _)) => apply show_kept; right; right; right; by eexists : tunnel.

Lemma keeps_rules J : keeps J (observed_rules exec).
Proof. unfold observed_rules. keeping. Qed.
Lemma keeps_routes J t : keeps J (inspectManagedRoutes exec t).
Proof. unfold inspectManagedRoutes. keeping. Qed.
#[local] Hint Resolve keeps_rules keeps_routes : tunnel.
Lemma keeps_available J : keeps J (ensureRulePrioritiesAvailable exec).
Proof. unfold ensureRulePrioritiesAvailable. keeping. Qed.
#[local] Hint Resolve keeps_available : tunnel.
(** *** Looking changes nothing *)

Definition looks {A} (m : HM A) (Q : A → W → Prop) : Prop := ∀ h, safe (λ h', h' = h) m (λ a _, Q a (h_net h)) h.
Lemma looks_then {A B} (I : Host W → Prop) (m : HM A) (k : A → HM B) Q P h :
  looks m Q → I h → (∀ a, Q a (h_net h) → safe I (k a) P h) → safe I (bind m k) P h.
Proof.
  intros Hm HI Hk. eapply safe_then.
  - eapply safe_inv_mono with (I := λ h', h' = h); [by intros ? ->|]. eapply safe_mono with (Q := λ a h', h' = h ∧ Q a (h_net h)); [apply Hm|done].
  - intros a h' _ [-> HQ]. by apply Hk.
Qed.
Lemma looks_bind {A B} (m : HM A) (k : A → HM B) Q R : looks m Q → (∀ a, looks (k a) (λ b w, Q a w → R b w)) → looks (bind m k) R.
Proof.
  intros Hm Hk h. eapply looks_then; [done..|]. intros a HQ. eapply safe_mono; [apply Hk|]. cbn. auto.
Qed.
Lemma looks_failing {A} code (m : HM A) Q : looks m Q → looks (failing code m) Q.
Proof. intros Hm h. apply safe_failing, Hm. Qed.
Lemma looks_lift_check {A} (r : err + A) Q : (∀ a w, r = inr a → Q a w) → looks (lift_check r) Q.
Proof. intros HQ h. destruct r; [by apply safe_throw|]. apply safe_ret; auto. Qed.
Lemma looks_require b e (Q : unit → W → Prop) : (∀ w, b = true → Q tt w) → looks (require b e) Q.
Proof. intros HQ h. apply safe_require; auto. Qed.
Lemma looks_Run words : words = show_rules ∨ words = show_routes ∨ words = show_links ∨ (∃ n, words = show_link n) →
  looks (Run exec "" words) (λ o w, ∃ i f, exec words i f w = (Some o, w)).
Proof.
  intros Hs h. apply safe_Run; [done|]. intros a w' E. assert (w' = h_net h) as -> by by eapply (show_kept (λ w', w' = h_net h)).
  split; [by destruct h|]. intros o ->. eauto.
Qed.
Lemma looks_rules : looks (observed_rules exec) (λ l w, l = rules_of w).
Proof.
  apply looks_failing. eapply looks_bind; [apply looks_Run; by left|]. intros o. apply looks_lift_check.
  intros l w Hl (i & f & E). apply rules_shown in E as [_ E]. specialize (E _ eq_refl). congruence.
Qed.
Lemma looks_routes t n : tableNumber t = inr n → looks (inspectManagedRoutes exec t) (λ l w, l = routes_of n w).
Proof.
  intros Ht. unfold inspectManagedRoutes. eapply looks_bind with (Q := λ _ _, True); [by apply looks_lift_check|]. intros _.
  eapply looks_bind; [apply looks_Run; by right; left|]. intros o. apply looks_lift_check.
  intros l w Hl (i & f & E) _. apply routes_shown in E as [_ E]. specialize (E _ _ _ eq_refl Ht). congruence.
Qed.
Lemma looks_available : looks (ensureRulePrioritiesAvailable exec) (λ _ w, existsb is_reserved (rules_of w) = false).
Proof.
  eapply looks_bind; [apply looks_rules|]. intros l. apply looks_require. intros w Hn ->. by apply negb_true_iff.
Qed.

(** What may be touched: valid, and the reserved rules and routes are the program's own. *)
Definition owned c w : Prop :=
  Validate c = inr tt ∧ Forall (λ r, is_reserved r = true → is_managed (table_of c) (mark_of c) r = true) (rules_of w) ∧
  Forall (λ r, is_own_route c r = true) (routes_of (table_of c) w).
Lemma looks_owned c : Validate c = inr tt → looks (checkOwnershipConflicts exec c) (λ _ w, owned c w).
Proof.
  intros Hv. pose proof (Validate_ok _ Hv) as (table & mark & Ht & _). pose proof (table_number _ _ Ht) as ->.
  unfold checkOwnershipConflicts. eapply looks_bind; [apply looks_rules|]. intros l. rewrite Ht.
  eapply looks_bind with (Q := λ _ w, l = rules_of w → Forall (λ r, is_reserved r = true → is_managed (table_of c) (mark_of c) r = true) (rules_of w)).
  { apply looks_require. intros w Hl ->. apply Forall_forall. intros r Hr Hres. rewrite forallb_forall in Hl.
    apply list_elem_of_In in Hr. specialize (Hl r Hr). by rewrite Hres in Hl. }
  intros []. eapply looks_bind; [apply looks_failing, looks_routes, Ht|]. intros routes. apply looks_require.
  intros w Hr -> H ->. split; [done|]. split; [by apply H|]. apply Forall_forall. intros r Hin. rewrite forallb_forall in Hr.
  by apply Hr, list_elem_of_In.
Qed.

(** *** The tunnel *)

Definition clean c w : Prop :=
  Validate c = inr tt ∧ existsb is_reserved (rules_of w) = false ∧ routes_of (table_of c) w = [] ∧ tn_Interface c ∉ links_of w.
Lemma looks_links : looks (failing "TUNNEL_LINK_INSPECTION_FAILED" (o <- Run exec "" show_links ;; lift_check (decodeLinks o)))
  (λ l w, ∀ n, n ∈ l ↔ n ∈ links_of w).
Proof.
  apply looks_failing. eapply looks_bind; [apply looks_Run; by right; right; left|]. intros o. apply looks_lift_check.
  intros l w Hl (i & f & E). apply links_shown in E as [_ E]. destruct (E _ eq_refl) as (l' & El & Hn). by replace l with l' by congruence.
Qed.
Lemma unused_name (n : string) l : negb (existsb (String.eqb n) l) = true ↔ n ∉ l.
Proof.
  rewrite negb_true_iff, <-not_true_iff_false, existsb_exists. setoid_rewrite <-list_elem_of_In. setoid_rewrite String.eqb_eq.
  split; [intros H Hn; apply H; eauto|]. by intros H (x & Hx & ->).
Qed.
Lemma looks_clean c : looks (PreflightClean exec c) (λ _ w, clean c w).
Proof.
  unfold PreflightClean. destruct (Validate c) as [e|[]] eqn:Hv; [intros h; apply safe_bind; by apply safe_throw|].
  pose proof (Validate_ok _ Hv) as (table & mark & Ht & _). pose proof (table_number _ _ Ht) as ->.
  eapply looks_bind with (Q := λ _ _, True); [by apply looks_lift_check|]. intros _.
  eapply looks_bind; [apply looks_available|]. intros [].
  eapply looks_bind; [apply looks_failing, looks_routes, Ht|]. intros routes.
  eapply looks_bind with (Q := λ _ _, routes = []); [apply looks_require; intros w H%Nat.eqb_eq; by destruct routes|]. intros [].
  eapply looks_bind; [apply looks_links|]. intros links. apply looks_require. intros w Hn%unused_name Hl -> Hr Ha _.
  do 3 (split; [done|]). by rewrite <-Hl.
Qed.

(** Commands that a computation over [J] may run. *)
Definition spares J c : Prop := ∀ words, tunnel_command c words → ¬ on_link words → kept_by J words.
Ltac sparing HJ := apply HJ; [first [by left | right; eexists; split; [|eauto]; eauto]|by intros [?|?]].
Lemma keeps_deleteRules J c : spares J c → keeps J (deleteRules exec c).
Proof. intros HJ. unfold deleteRules. keeping; sparing HJ. Qed.
Lemma keeps_temporary J directory data : keeps J (secureTemporary temp_name directory data).
Proof. unfold secureTemporary. keeping. Qed.
Lemma resolver_other words : on_resolver words → ¬ on_link words ∧ ¬ on_rules words.
Proof.
  intros Hr. unfold on_resolver in Hr. unfold on_rules, on_link. destruct words as [|x l]; simpl in Hr; [by destruct Hr|].
  split; [intros [[= -> _]|[= -> _]]; by destruct Hr|]. intros [= -> _]. by destruct Hr.
Qed.
Lemma resolver_words J c words : spares J c → on_resolver words → kept_by J words.
Proof. intros HJ [Hl Hr]%resolver_other. apply HJ; [by left|done]. Qed.
Lemma keeps_configureDNS J c : (∀ words, on_resolver words → kept_by J words) → keeps J (configureDNS exec c).
Proof. intros HJ. unfold configureDNS. keeping; apply HJ; first [by left|by right]. Qed.
Lemma keeps_clearDNS J c : spares J c → keeps J (clearDNS exec c).
Proof. intros HJ. unfold clearDNS. keeping; (eapply resolver_words; [done|]); first [by left|by right]. Qed.
Lemma keeps_configure J c path : spares J c → keeps J (configure exec c path).
Proof.
  intros HJ. unfold configure. keeping; try sparing HJ. apply Forall_map, Forall_true. intros p. sparing HJ.
Qed.
#[local] Hint Resolve keeps_deleteRules keeps_temporary keeps_configureDNS resolver_words keeps_clearDNS keeps_configure : tunnel.
Lemma keeps_install J c : spares J c → keeps J (install exec c).
Proof. intros HJ. unfold install. keeping; sparing HJ. Qed.
Lemma keeps_Down J c : spares J c → kept_by J (delete_link (tn_Interface c)) → keeps J (Down exec c).
Proof. intros HJ Hd. unfold Down. keeping; try done; sparing HJ. Qed.

(** *** Up *)

Definition installed c w : Prop :=
  tn_Interface c ∈ links_of w ∧ (∃ r, r ∈ routes_of (table_of c) w ∧ is_own_route c r = true) ∧
  ∃ r1 r2, List.filter is_reserved (rules_of w) ≡ₚ [r1; r2] ∧ main_selected r1 = true ∧ vpn_selected (table_of c) (mark_of c) r2 = true.
Definition with_foreign c F w : Prop := foreign c w = F.
Definition with_link c F w : Prop := foreign c w = F ∧ tn_Interface c ∈ links_of w.
Lemma spares_foreign c F : Validate c = inr tt → spares (with_foreign c F) c.
Proof. intros Hv words Hc _ i f w a w' E H. unfold with_foreign. by rewrite (exec_foreign c words i f w a w' Hv Hc E). Qed.
Lemma spares_link c F : Validate c = inr tt → spares (with_link c F) c.
Proof.
  intros Hv words Hc Hl i f w a w' E [H1 H2]. split; [by rewrite (exec_foreign c words i f w a w' Hv Hc E)|].
  by rewrite (links_kept words i f w a w' Hl E).
Qed.

Lemma safe_said J code words (P : W → Prop) h : J (h_net h) →
  (∀ a w', exec words "" (h_files h) (h_net h) = (a, w') → J w' ∧ (is_Some a → P w')) →
  safe (λ h, J (h_net h)) (failing code (run exec words)) (λ _ h', P (h_net h')) h.
Proof.
  intros HJ Hx. apply safe_failing. unfold run. eapply safe_then; [apply safe_Run with (P := λ _ h', P (h_net h')); [done|]|].
  - intros a w' E. destruct (Hx a w' E) as [H1 H2]. split; [done|]. intros o ->. by apply H2.
  - intros o h' Hh HP. by apply safe_ret.
Qed.
(** A rule of a reserved selection joins the reserved rules. *)
Lemma one_less_reserved sel l l' : one_less sel l l' → (∀ r, sel r = true → is_reserved r = true) →
  ∃ r, sel r = true ∧ List.filter is_reserved l ≡ₚ r :: List.filter is_reserved l'.
Proof.
  intros (l1 & r & l2 & -> & Hr & ->) Hsel. exists r. split; [done|]. rewrite !List.filter_app. simpl. rewrite (Hsel r Hr).
  by rewrite Permutation_middle.
Qed.
Lemma main_is_reserved r : main_selected r = true → is_reserved r = true.
Proof. unfold main_selected, is_reserved. intros [[-> _]%andb_true_iff _]%andb_true_iff. done. Qed.
Lemma vpn_is_reserved table mark r : vpn_selected table mark r = true → is_reserved r = true.
Proof. unfold vpn_selected, is_reserved. intros [[-> _]%andb_true_iff _]%andb_true_iff. apply orb_true_r. Qed.
Lemma none_reserved l : existsb is_reserved l = false → List.filter is_reserved l = [].
Proof. induction l as [|r l IH]; simpl; [done|]. intros [-> H]%orb_false_iff. by apply IH. Qed.

Lemma safe_install c F h : Validate c = inr tt → with_link c F (h_net h) →
  safe (λ h, with_link c F (h_net h)) (install exec c) (λ _ h', installed c (h_net h')) h.
Proof.
  intros Hv HJ. pose proof (spares_link c F Hv) as Hsp. pose proof (Validate_ok _ Hv) as (table & mark & Ht & Hm & Hmk & _).
  pose proof (table_number _ _ Ht) as ->. unfold install.
  eapply keeps_then; [by apply keeps_deleteRules|done|]. clear h HJ. intros [] h HJ.
  eapply looks_then; [apply looks_available|done|]. intros [] Hfree%none_reserved.
  eapply safe_then.
  { apply safe_said with (P := λ w, List.filter is_reserved (rules_of w) = [] ∧ ∃ r, r ∈ routes_of (table_of c) w ∧ is_own_route c r = true); [done|].
    intros a w' E. assert (¬ on_rules (add_default (tn_Interface c) (pretty (Table c)))) as Hnr by done.
    split; [eapply Hsp; [by left|by intros [?|?]|done..]|]. intros [o ->]. rewrite (rules_kept _ _ _ _ _ _ Hnr E). split; [done|].
    destruct (default_added _ _ _ _ _ _ _ _ Ht E) as (r & Hr & Hd & Hdev). exists r. split; [done|]. unfold is_own_route. by rewrite Hd, Hdev, !String.eqb_refl. }
  clear h HJ Hfree. intros [] h HJ [Hfree Hroute].
  eapply safe_then.
  { apply safe_said with (P := λ w, (∃ r1, List.filter is_reserved (rules_of w) ≡ₚ [r1] ∧ main_selected r1 = true) ∧
      ∃ r, r ∈ routes_of (table_of c) w ∧ is_own_route c r = true); [done|].
    intros a w' E. split; [eapply (Hsp (main_rule "add")); [right; eauto|by intros [?|?]|done..]|]. intros [o ->].
    rewrite (routes_kept _ _ _ _ _ _ _ (or_introl (eq_refl : on_rules (main_rule "add"))) E). split; [|done]. destruct (main_added _ _ _ _ _ E) as [[? _]|Hl]; [done|].
    destruct (one_less_reserved _ _ _ Hl main_is_reserved) as (r1 & H1 & Hp). exists r1. by rewrite Hfree in Hp. }
  clear h HJ Hfree Hroute. intros [] h HJ ((r1 & Hr1 & H1) & Hroute).
  eapply safe_then.
  { apply safe_said with (P := installed c); [done|].
    intros a w' E. assert (with_link c F w') as Hl' by (eapply (Hsp (vpn_rule "add" _ _)); [right; eauto|by intros [?|?]|done..]). split; [done|]. intros [o ->].
    split; [apply Hl'|]. rewrite (routes_kept _ _ _ _ _ _ _ (or_introl (eq_refl : on_rules (vpn_rule "add" _ _))) E). split; [done|].
    destruct (vpn_added _ _ _ _ _ _ _ _ _ Hm Ht E) as [[? _]|Hl]; [done|].
    destruct (one_less_reserved _ _ _ Hl (vpn_is_reserved _ _)) as (r2 & H2 & Hp). exists r1, r2. rewrite Hp, Hr1, Hmk. split; [apply perm_swap|done]. }
  clear h HJ Hroute Hr1 H1. intros [] h HJ Hi.
  assert (Hk : keeps (λ w, with_link c F w ∧ installed c w) (configureDNS exec c)).
  { apply keeps_configureDNS. intros words Hr i f w a w' E [HJ' (H1 & H2 & H3)]. assert (¬ on_link words ∧ ¬ on_rules words) as [Hnl Hnr] by by apply resolver_other.
    split; [by eapply resolver_words|]. unfold installed. rewrite (links_kept _ _ _ _ _ _ Hnl E), (rules_kept _ _ _ _ _ _ Hnr E).
    by rewrite (routes_kept _ _ _ _ _ _ _ (or_intror Hr) E). }
  eapply safe_inv_mono; [|eapply safe_mono; [by apply Hk|]]; [by intros s' [? _]|]. by intros [] s' [_ ?] _.
Qed.

Lemma safe_bring_up c F h : Validate c = inr tt → with_link c F (h_net h) →
  safe (λ h, with_link c F (h_net h)) (bring_up exec temp_name c) (λ _ h', installed c (h_net h')) h.
Proof.
  intros Hv HJ. pose proof (spares_link c F Hv) as Hsp. unfold bring_up.
  eapply keeps_then; [apply keeps_lift_check|done|]. clear h HJ. intros setconf h HJ.
  eapply keeps_then; [apply keeps_temporary|done|]. clear h HJ. intros path h HJ.
  apply safe_finally_frame.
  - eapply keeps_then; [by apply keeps_configure|done|]. intros [] h' HJ'. by apply safe_install.
  - intros Q h' HQ HJ' HQ' o. assert (h_net (final (remove_file path o h')) = h_net h') as En.
    { unfold remove_file, io_write, final. by destruct (draw o) as [[] o']. }
    rewrite En. split; [done|]. destruct HQ as [[u ->]| ->]; [cbn beta; by rewrite En|done].
Qed.
Lemma safe_start c h : Validate c = inr tt → owned c (h_net h) →
  safe (λ h', with_foreign c (foreign c (h_net h)) (h_net h'))
    (shown <- try_ (run exec (show_link (tn_Interface c))) ;;
     (match shown with
      | inr _ => ret tt
      | inl _ => failing "TUNNEL_LINK_CREATE_FAILED" (run exec (add_link (tn_Interface c)))
      end) ;;
     catch (bring_up exec temp_name c) (λ e, ignored (Down exec c) ;; throw e))
    (λ _ h', installed c (h_net h')) h.
Proof.
  intros Hv Ho. set (F := foreign c (h_net h)). pose proof (spares_foreign c F Hv) as Hsp.
  assert (HF : with_foreign c F (h_net h)) by done.
  assert (Hlink : ∀ words, ¬ on_rules words → kept_by (with_foreign c F) words).
  { intros words Hn i f w a w' E H. unfold with_foreign, foreign. by rewrite (rules_kept _ _ _ _ _ _ Hn E). }
  eapply safe_then with (Q := λ shown h', match shown with inr _ => tn_Interface c ∈ links_of (h_net h') | inl _ => True end).
  { eapply safe_try_inv with (Q := λ _ h', tn_Interface c ∈ links_of (h_net h')); [|done..].
    unfold run. eapply safe_then; [apply safe_Run with (P := λ _ h', tn_Interface c ∈ links_of (h_net h')); [done|]|].
    - intros a w' E. destruct (link_shown _ _ _ _ _ _ E) as [-> Hl]. split; [done|]. intros o ->. by apply Hl.
    - intros o h' Hh Hl. by apply safe_ret. }
  clear Ho HF. clearbody F. clear h. intros shown h HF Hs.
  eapply safe_then with (Q := λ _ h', tn_Interface c ∈ links_of (h_net h')).
  { destruct shown; [|by apply safe_ret]. apply safe_said with (J := with_foreign c F) (P := λ w, tn_Interface c ∈ links_of w); [done|].
    intros a w' E. split; [by eapply (Hlink (add_link (tn_Interface c)))|]. intros [o ->]. by eapply link_added. }
  clear h HF Hs. intros [] h HF Hl. apply safe_catch_inv.
  - eapply safe_inv_mono; [|by apply safe_bring_up]. by intros h' [? _].
  - intros e h' HF'. eapply safe_then with (Q := λ _ _, True).
    + apply keeps_ignored; [|done]. apply keeps_Down; [done|]. by apply Hlink.
    + intros _ h'' HF'' _. by apply safe_throw.
Qed.

Lemma bind_eq {A B} (m : HM A) (k : A → HM B) o h : bind m k o h =
  match m o h with (Ret a, o', h') => k a o' h' | (Error e, o', h') => (Error e, o', h') | (Crash, o', h') => (Crash, o', h') end.
Proof. done. Qed.


(** No rule of the tunnel is left. *)
Definition no_rules c w : Prop := existsb (is_managed (table_of c) (mark_of c)) (rules_of w) = false.
Lemma safe_deleteRules c F h : Validate c = inr tt → with_foreign c F (h_net h) →
  safe (λ h, with_foreign c F (h_net h)) (deleteRules exec c) (λ _ h', no_rules c (h_net h')) h.
Proof.
  intros Hv HF. pose proof (spares_foreign c F Hv) as Hsp. pose proof (Validate_ok _ Hv) as (table & mark & Ht & Hm & Hmk & _).
  pose proof (table_number _ _ Ht) as ->. unfold deleteRules. rewrite Hm, Ht.
  eapply keeps_then; [apply keeps_ignored, keeps_run; sparing Hsp|done|]. clear h HF. intros [] h HF.
  eapply keeps_then; [apply keeps_ignored, keeps_run; sparing Hsp|done|]. clear h HF. intros [] h HF.
  eapply looks_then; [apply looks_rules|done|]. intros rules ->.
  eapply safe_then with (Q := λ a h', a = mark ∧ h' = h); [by apply safe_ret|]. intros ? ? _ [-> ->].
  eapply safe_then with (Q := λ a h', a = table_of c ∧ h' = h); [apply safe_failing; by apply safe_ret|]. intros ? ? _ [-> ->].
  apply safe_require; [done|]. intros Hn%negb_true_iff. unfold no_rules. by rewrite Hmk.
Qed.

(** C39: Down keeps every rule that the tunnel's selectors do not describe, whatever
    fails, and reports success only when the rules were listed once more and none of
    the tunnel's is left. *)
Theorem Down_sound c o h : Validate c = inr tt →
  let r := Down exec c o h in
  foreign c (h_net (final r)) = foreign c (h_net h) ∧ (result r = Ret tt → no_rules c (h_net (final r))).
Proof.
  intros Hv. set (F := foreign c (h_net h)). pose proof (spares_foreign c F Hv) as Hsp.
  assert (safe (λ h, with_foreign c F (h_net h)) (Down exec c) (λ _ h', no_rules c (h_net h')) h) as Hs.
  2: { destruct (Hs o) as [H1 H2]. cbv zeta. split; [exact H1|]. intros Hr. by rewrite Hr in H2. }
  assert (HF : with_foreign c F (h_net h)) by done. clearbody F. unfold Down.
  eapply keeps_then; [apply keeps_require|done|]. clear h HF. intros [] h HF.
  eapply keeps_then; [by apply keeps_try, keeps_clearDNS|done|]. clear h HF. intros dns h HF.
  eapply safe_then with (Q := λ rules h', rules = inr tt → no_rules c (h_net h')).
  { eapply safe_try_inv; [by apply safe_deleteRules|by intros [] ? ? ? ?|done]. }
  clear h HF. intros rules h HF Hn.
  assert (Hk : ∀ words, ¬ on_rules words → kept_by (λ w, with_foreign c F w ∧ (rules = inr tt → no_rules c w)) words).
  { intros words Hw i f w a w' E [H1 H2]. unfold with_foreign, foreign, no_rules in *. by rewrite (rules_kept _ _ _ _ _ _ Hw E). }
  set (J := λ w, with_foreign c F w ∧ (rules = inr tt → no_rules c w)) in Hk.
  eapply safe_inv_mono with (I := λ h, J (h_net h)); [by intros ? [? _]|]. assert (HJ : J (h_net h)) by done. clear HF Hn.
  eapply keeps_then; [by apply keeps_ignored, keeps_run, Hk|done|]. clear h HJ. intros [] h HJ.
  eapply keeps_then; [by apply keeps_try, keeps_run, Hk|done|]. clear h HJ. intros deleted h HJ.
  eapply keeps_then; [keeping|done|]. clear h HJ. intros link h HJ.
  apply safe_require; [done|]. intros He%Nat.eqb_eq. apply HJ. rewrite !length_app in He. destruct rules as [e|[]]; [simpl in He; lia|done].
Qed.

(** ** Preflight *)

Lemma run_shown words h : is_Some (exec words "" (h_files h) (h_net h)).1 →
  words = show_rules ∨ words = show_routes ∨ words = show_links ∨ (∃ n, words = show_link n) →
  ∃ o, exec words "" (h_files h) (h_net h) = (Some o, h_net h) ∧ Run exec "" words [] h = (Ret o, [], h).
Proof.
  intros [o Ho] Hs. destruct (exec words "" (h_files h) (h_net h)) as [a w'] eqn:E. simpl in Ho. subst a. exists o.
  assert (w' = h_net h) as -> by by eapply (show_kept (λ w', w' = h_net h)). split; [done|].
  unfold Run, io_write. simpl. rewrite E. by destruct h.
Qed.
(** The preflight changes nothing and passes only a host on which the tunnel's
    priorities, table and interface name are unused, whatever fails meanwhile; it passes
    every such host whose three listings answer. *)
Theorem PreflightClean_exact c o h :
  let r := PreflightClean exec c o h in
  final r = h ∧ (result r = Ret tt → clean c (h_net h)) ∧
  (o = [] → Forall (λ words, is_Some (exec words "" (h_files h) (h_net h)).1) [show_rules; show_routes; show_links] →
   clean c (h_net h) → result r = Ret tt).
Proof.
  cbv zeta. pose proof (looks_clean c h o) as [H1 H2]. split; [exact H1|]. split; [intros Hr; by rewrite Hr in H2|]. clear H1 H2.
  intros -> Hall (Hv & Hfree & Hroutes & Hlink). inversion_clear Hall as [|?? Hs1 Hall']. inversion_clear Hall' as [|?? Hs2 Hall'']. inversion_clear Hall'' as [|?? Hs3 _].
  pose proof (Validate_ok _ Hv) as (table & mark & Ht & _). pose proof (table_number _ _ Ht) as ->.
  destruct (run_shown show_rules h Hs1) as (o1 & E1 & R1); [by left|]. destruct (run_shown show_routes h Hs2) as (o2 & E2 & R2); [by right; left|].
  destruct (run_shown show_links h Hs3) as (o3 & E3 & R3); [by right; right; left|].
  apply rules_shown in E1 as [_ E1]. apply routes_shown in E2 as [_ E2]. apply links_shown in E3 as [_ E3].
  specialize (E1 _ eq_refl). specialize (E2 _ _ _ eq_refl Ht). destruct (E3 _ eq_refl) as (l & El & Hl). rewrite Hroutes in E2.
  assert (observed_rules exec [] h = (Ret (rules_of (h_net h)), [], h)) as A1.
  { unfold observed_rules, failing, catch. rewrite bind_eq, R1. unfold lift_check. by rewrite E1. }
  assert (failing "TUNNEL_ROUTE_TABLE_INSPECTION_FAILED" (inspectManagedRoutes exec (Table c)) [] h = (Ret [], [], h)) as A2.
  { unfold inspectManagedRoutes, failing, catch. rewrite Ht, bind_eq. unfold lift_check at 1. unfold ret at 1. rewrite bind_eq, R2. unfold lift_check. by rewrite E2. }
  assert (failing "TUNNEL_LINK_INSPECTION_FAILED" (o <- Run exec "" show_links ;; lift_check (decodeLinks o)) [] h = (Ret l, [], h)) as A3.
  { unfold failing, catch. rewrite bind_eq, R3. unfold lift_check. by rewrite El. }
  unfold result, PreflightClean, ensureRulePrioritiesAvailable. rewrite Hv, bind_eq. unfold lift_check at 1. unfold ret at 1. rewrite bind_eq, bind_eq, A1, Hfree.
  unfold require at 1. unfold negb at 1. unfold ret at 1. rewrite bind_eq, A2. unfold require at 1. rewrite bind_eq. unfold ret at 1. simpl (length [] =? 0)%nat. cbn iota beta.
  rewrite bind_eq, A3. by rewrite (proj2 (unused_name (tn_Interface c) l)) by by rewrite Hl.
Qed.

End theory.

(** ** A sample host *)

Module Iproute.
Record Net := mkNet { nt_rules : list policyRule; nt_routes : list (N * string * string); nt_links : gset string }.
Definition silent : output := mkOutput "" None.
Definition said (l : list json) : output := mkOutput "[]" (Some (JArr l)).
Definition optional_member (name : string) (x : option json) : list (string * json) := match x with Some j => [(name, j)] | None => [] end.
Definition rule_json (r : policyRule) : json :=
  JObj (("priority", JNum (Priority r)) :: ("not", JBool (rule_Not r)) :: optional_member "table" (rule_Table r) ++
        optional_member "fwmark" (rule_Fwmark r) ++ optional_member "suppress_prefixlength" (SuppressPrefix r))%list.
Definition route_json (x : N * string * string) : json :=
  JObj [("table", JNum (Z.of_N x.1.1)); ("dst", JStr x.1.2); ("dev", JStr x.2)].
Definition rule_listed (r : policyRule) : bool := (min_int64 <=? Priority r) && (Priority r <=? max_int64).
Definition route_listed (x : N * string * string) : bool := (x.1.1 <=? 0xffffffff)%N.
Fixpoint remove_first (sel : policyRule → bool) (l : list policyRule) : list policyRule :=
  match l with [] => [] | r :: l' => if sel r then l' else r :: remove_first sel l' end.
Definition set_rules (w : Net) l := mkNet l (nt_routes w) (nt_links w).
Definition set_links (w : Net) l := mkNet (nt_rules w) (nt_routes w) l.
Definition edit_rules (verb : string) (r : policyRule) (sel : policyRule → bool) (w : Net) : option output * Net :=
  if String.eqb verb "add" then (Some silent, set_rules w (nt_rules w ++ [r])%list)
  else if existsb sel (nt_rules w) then (Some silent, set_rules w (remove_first sel (nt_rules w)))
  else (None, w).
Definition main_policy : policyRule := mkRule MainRulePriority (Some (JStr "main")) None false (Some (JNum 0)).
Definition vpn_policy (table : Z) (mark : N) : policyRule :=
  mkRule VPNRulePriority (Some (JNum table)) (Some (JNum (Z.of_N mark))) true None.
Definition exec (words : command) (input : string) (files : gmap string string) (w : Net) : option output * Net :=
  if bool_decide (words = show_rules) then
    (if forallb rule_listed (nt_rules w) then Some (said (map rule_json (nt_rules w))) else None, w)
  else if bool_decide (words = show_routes) then
    (if forallb route_listed (nt_routes w) then Some (said (map route_json (nt_routes w))) else None, w)
  else if bool_decide (words = show_links) then
    (Some (said (map (λ n, JObj [("ifname", JStr n)]) (elements (nt_links w)))), w)
  else if bool_decide (take 3 words = ["ip"; "-4"; "rule"]) then
    match drop 3 words with
    | [verb; _; _; _; _; mark; _; t] =>
        match ParseUint0 32 mark, Atoi t with
        | Some m, Some z => edit_rules verb (vpn_policy z m) (vpn_selected (Z.to_N z) m) w
        | _, _ => (None, w)
        end
    | [verb; _; _; _; _; _; _] => edit_rules verb main_policy main_selected w
    | _ => (None, w)
    end
  else if bool_decide (take 3 words = ["ip"; "link"; "add"]) then
    match drop 3 words with _ :: n :: _ => (Some silent, set_links w ({[n]} ∪ nt_links w)) | _ => (None, w) end
  else if bool_decide (take 3 words = ["ip"; "link"; "delete"]) then
    match drop 3 words with
    | [_; n] => if bool_decide (n ∈ nt_links w) then (Some silent, set_links w (nt_links w ∖ {[n]})) else (None, w)
    | _ => (None, w)
    end
  else if bool_decide (take 3 words = ["ip"; "link"; "show"]) then
    match drop 3 words with [_; n] => (if bool_decide (n ∈ nt_links w) then Some silent else None, w) | _ => (None, w) end
  else if bool_decide (take 4 words = ["ip"; "-4"; "route"; "replace"]) then
    match drop 4 words with
    | [dst; _; n; _; t] =>
        match Atoi t with Some z => (Some silent, mkNet (nt_rules w) ((Z.to_N z, dst, n) :: nt_routes w) (nt_links w)) | None => (None, w) end
    | _ => (None, w)
    end
  else if bool_decide (take 4 words = ["ip"; "-4"; "route"; "flush"]) then
    match drop 4 words with
    | [_; t] =>
        match Atoi t with
        | Some z => (Some silent, mkNet (nt_rules w) (List.filter (λ x, negb (x.1.1 =? Z.to_N z)%N) (nt_routes w)) (nt_links w))
        | None => (None, w)
        end
    | _ => (None, w)
    end
  else (Some silent, w).

Lemma collect_map {A B} (f : json → err + A) (g : B → json) (h : B → A) (p : B → bool) l :
  (∀ x, p x = true → f (g x) = inr (h x)) → forallb p l = true → collect f (map g l) = inr (map h l).
Proof. intros Hf. induction l as [|x l IH]; simpl; [done|]. intros [Hx Hl]%andb_true_iff. by rewrite Hf, IH. Qed.
Ltac field_names := repeat match goal with
  |- context [names_field ?a ?b] => let v := eval vm_compute in (names_field a b) in change (names_field a b) with v end.
Lemma rule_read r : rule_listed r = true → decode_rule (rule_json r) = inr r.
Proof.
  unfold rule_listed. intros Hr. destruct r as [p [t|] [m|] n [s|]]; cbn [Priority] in Hr;
    unfold decode_rule, int_field, flag_field, raw_field, rule_json, optional_member;
    cbn [members app fold_err foldl fst snd Priority rule_Table rule_Fwmark rule_Not SuppressPrefix]; field_names; by rewrite Hr.
Qed.
Definition route_of (x : N * string * string) : routeObservation := mkRoute (Some (JNum (Z.of_N x.1.1))) x.1.2 x.2.
Definition routes_in (n : N) (w : Net) : list routeObservation := map route_of (List.filter (λ x, (x.1.1 =? n)%N) (nt_routes w)).
Lemma routes_read n l : forallb route_listed l = true →
  select_routes n (map route_of l) = inr (map route_of (List.filter (λ x, (x.1.1 =? n)%N) l)).
Proof.
  induction l as [|[[k d] e] l IH]; simpl; [done|]. unfold route_listed at 1. cbn [fst]. intros [Hk Hl]%andb_true_iff. rewrite IH by done.
  unfold numericRouteTable. cbn [raw_text raw_uint64]. apply N.leb_le in Hk.
  rewrite (proj2 (Z.leb_le 0 (Z.of_N k))), (proj2 (Z.ltb_lt (Z.of_N k) (2 ^ 64))) by lia. cbn [andb]. rewrite N2Z.id.
  rewrite (proj2 (N.leb_le k 0xffffffff)) by lia. by destruct (k =? n)%N.
Qed.
Lemma remove_first_less sel l : existsb sel l = true → one_less sel l (remove_first sel l).
Proof.
  induction l as [|r l IH]; simpl; [done|]. destruct (sel r) eqn:E; simpl; [intros _; by exists [], r, l|].
  intros (l1 & x & l2 & -> & Hx & ->)%IH. by exists (r :: l1), x, l2.
Qed.


Ltac not_words := repeat (rewrite bool_decide_eq_false_2 by (intros [=])).
Ltac these_words := rewrite bool_decide_eq_true_2 by done.
Lemma edit_main verb w a w' : edit_rules verb main_policy main_selected w = (a, w') →
  if String.eqb verb "add" then one_less main_selected (nt_rules w') (nt_rules w)
  else nt_rules w' = nt_rules w ∨ one_less main_selected (nt_rules w) (nt_rules w').
Proof.
  unfold edit_rules. destruct (String.eqb verb "add").
  - intros [= <- <-]. exists (nt_rules w), main_policy, []. by rewrite app_nil_r.
  - destruct (existsb _ _) eqn:E; intros [= <- <-]; [right; by apply remove_first_less|by left].
Qed.
Lemma edit_vpn verb z m w a w' : 0 <= z < 2 ^ 64 → (m < 2 ^ 64)%N → edit_rules verb (vpn_policy z m) (vpn_selected (Z.to_N z) m) w = (a, w') →
  if String.eqb verb "add" then one_less (vpn_selected (Z.to_N z) m) (nt_rules w') (nt_rules w)
  else nt_rules w' = nt_rules w ∨ one_less (vpn_selected (Z.to_N z) m) (nt_rules w) (nt_rules w').
Proof.
  intros Hz Hm. unfold edit_rules. destruct (String.eqb verb "add").
  - intros [= <- <-]. exists (nt_rules w), (vpn_policy z m), []. rewrite app_nil_r. split; [done|]. split; [|done].
    unfold vpn_selected, rawNumberOrName, vpn_policy. cbn [Priority rule_Table rule_Fwmark raw_text raw_uint64].
    rewrite (proj2 (Z.leb_le 0 z)), (proj2 (Z.ltb_lt z (2 ^ 64))), (proj2 (Z.leb_le 0 (Z.of_N m))), (proj2 (Z.ltb_lt (Z.of_N m) (2 ^ 64))) by lia.
    cbn [andb]. rewrite N2Z.id. by rewrite !bool_decide_eq_true_2.
  - destruct (existsb _ _) eqn:E; intros [= <- <-]; [right; by apply remove_first_less|by left].
Qed.
Lemma exec_main verb i f w : exec (main_rule verb) i f w = edit_rules verb main_policy main_selected w.
Proof. unfold exec. not_words. these_words. done. Qed.
Lemma exec_vpn verb mark t i f w : exec (vpn_rule verb mark t) i f w =
  match ParseUint0 32 mark, Atoi t with
  | Some m, Some z => edit_rules verb (vpn_policy z m) (vpn_selected (Z.to_N z) m) w
  | _, _ => (None, w)
  end.
Proof. unfold exec. not_words. these_words. done. Qed.
Lemma table_bounds t table : tableNumber t = inr table → 1 <= t <= 0x7fffffff ∧ table = Z.to_N t.
Proof. unfold tableNumber. destruct (_ || _) eqn:E; [done|]. intros [= <-]. apply orb_false_iff in E as [?%Z.ltb_ge ?%Z.ltb_ge]. done. Qed.
Lemma mark_bound mark m : ParseUint0 32 mark = Some m → (m < 2 ^ 32)%N.
Proof.
  unfold ParseUint0. destruct (_ =? 0)%nat; [done|]. intros (n & _ & H)%bind_Some. destruct ((n <? 2 ^ 32)%N && _) eqn:E; [|done].
  injection H as <-. by apply andb_true_iff in E as [?%N.ltb_lt _].
Qed.
Lemma vpn_run verb mark m t table i f w a w' : ParseUint0 32 mark = Some m → tableNumber t = inr table →
  exec (vpn_rule verb mark (pretty t)) i f w = (a, w') →
  if String.eqb verb "add" then one_less (vpn_selected table m) (nt_rules w') (nt_rules w)
  else nt_rules w' = nt_rules w ∨ one_less (vpn_selected table m) (nt_rules w) (nt_rules w').
Proof.
  intros Hm [Ht ->]%table_bounds. rewrite exec_vpn, Hm, Atoi_pretty by lia. apply edit_vpn; [lia|]. apply mark_bound in Hm. lia.
Qed.
Ltac quiet_words := unfold exec; repeat (case_bool_decide; simplify_eq; [repeat case_match; simplify_eq; try done|]); intros; simplify_eq; try done.

#[export] Instance iproute : IPRoute exec.
Proof.
  refine {| rules_of := nt_rules; routes_of := routes_in; links_of := nt_links |}.
  - intros i f w a w'. unfold exec. these_words. destruct (forallb _ _) eqn:E; intros [= <- <-]; split; try done. intros o [= <-].
    unfold decodeRules, decode_slice, said. cbn [out_json]. rewrite (collect_map decode_rule rule_json id rule_listed _ rule_read E). by rewrite map_id.
  - intros i f w a w'. unfold exec. not_words. these_words. destruct (forallb _ _) eqn:E; intros [= <- <-]; split; try done. intros o t n [= <-] Ht.
    unfold decodeManagedRoutes. rewrite Ht. unfold said. cbn [out_json]. rewrite (collect_map decode_route route_json route_of route_listed _ (λ _ _, eq_refl) E).
    by apply routes_read.
  - intros i f w a w'. unfold exec. not_words. these_words. intros [= <- <-]. split; [done|]. intros o [= <-]. exists (elements (nt_links w)).
    split; [|intros n; apply elem_of_elements]. unfold decodeLinks, decode_slice, said. cbn [out_json].
    rewrite (collect_map decode_link (λ n, JObj [("ifname", JStr n)]) id (λ _, true)); [by rewrite map_id|done|by apply forallb_forall].
  - intros n i f w a w'. unfold exec. not_words. these_words. cbn. intros [= <- <-]. split; [done|]. case_bool_decide; [done|]. by intros [].
  - intros n i f w o w'. unfold exec. not_words. these_words. cbn. intros [= <- <-]. set_solver.
  - intros n t table i f w o w' [Ht ->]%table_bounds. unfold exec. not_words. these_words. cbn -[pretty Atoi]. rewrite Atoi_pretty by lia.
    intros [= <- <-]. exists (route_of (Z.to_N t, "default", n)). split; [|done]. unfold routes_in. cbn. rewrite N.eqb_refl. by left.
  - intros i f w a w' E. rewrite exec_main in E. apply (edit_main "del" _ _ _ E).
  - intros mark m t table i f w a w' Hm Ht E. apply (vpn_run "del" _ _ _ _ _ _ _ _ _ Hm Ht E).
  - intros i f w a w' E. right. rewrite exec_main in E. apply (edit_main "add" _ _ _ E).
  - intros mark m t table i f w a w' Hm Ht E. right. apply (vpn_run "add" _ _ _ _ _ _ _ _ _ Hm Ht E).
  - intros words i f w a w' Hn. unfold exec. repeat case_bool_decide; simplify_eq; try done; repeat case_match; intros; simplify_eq; done.
  - intros words i f w a w' Hn. unfold exec. unfold on_link in Hn. repeat case_bool_decide; simplify_eq; try tauto; unfold edit_rules; repeat case_match; intros; simplify_eq; done.
  - intros words i f w a w' n Hn. assert (∀ verb, take 4 words ≠ ["ip"; "-4"; "route"; verb]) as Hr.
    { intros verb Hr. destruct words as [|x1 [|x2 [|x3 [|x4 words]]]]; try done. injection Hr as -> -> -> ->. destruct Hn as [?|[?|?]]; done. }
    assert (H1 := Hr "replace"). assert (H2 := Hr "flush").
    unfold exec, edit_rules, routes_in. repeat case_bool_decide; simplify_eq; try done; repeat case_match; intros; simplify_eq; done.
Defined.

Definition sample_config : Config :=
  mkTunnel "nftfw0" "eth0" "0xca6c" DefaultTable (prof_Addresses Sample.read) (V4 0xcb007109) (prof_DNS Sample.read) 1420 Sample.read
    ResolverResolvectl "/run/nftfw/setup".
Definition local_rule : policyRule := mkRule 0 (Some (JStr "local")) None false None.
Definition lan_rule : policyRule := mkRule 32766 (Some (JStr "main")) None false None.
Definition sample_host : Host Net := mkHost (mkNet [local_rule; lan_rule] [(100%N, "10.0.0.0/8", "eth1")] {["eth0"; "eth1"]}) ∅.
Definition temp_name (directory : string) (_ : gset string) : string := directory +:+ "/.wg-setconf-1".
Definition brought_up : Host Net := final (Up exec temp_name sample_config [] sample_host).
(** The interface can be created, and everything after the first address fails. *)
Definition half_up : Host Net := final (Up exec temp_name sample_config (replicate 12 FOk ++ [FFail])%list sample_host).

Lemma Down_sound_witness : no_rules exec sample_config (h_net (final (Down exec sample_config [] brought_up))).
Proof. apply (Down_sound exec sample_config [] brought_up); vm_compute; reflexivity. Defined.
Lemma PreflightClean_exact_witness : clean exec sample_config (h_net sample_host) ∧ ¬ clean exec sample_config (h_net brought_up).
Proof.
  split; [apply (PreflightClean_exact exec sample_config [] sample_host); vm_compute; reflexivity|].
  intros (_ & H & _). vm_compute in H. discriminate.
Defined.
Example taken_down : h_net (final (Down exec sample_config [] brought_up)) = h_net sample_host ∧ half_up = sample_host.
Proof. vm_compute. done. Qed.

(** ip prints the inversion of a rule as a null member: such a rule of the tunnel is not
    recognized, and a second Up refuses it. *)
Definition printed_by_ip : json :=
  JObj [("priority", JNum 32765); ("not", JNull); ("src", JStr "all"); ("fwmark", JStr "0xca6c"); ("table", JStr "51820")].
Example inversion_lost : isManagedVPN 51820 0xca6c <$> match decode_rule printed_by_ip with inr r => Some r | inl _ => None end = Some false.
Proof. vm_compute. reflexivity. Qed.

End Iproute.
