(* ===== verification/BootGuard.v ===== *)
(** The handoff from the initramfs (internal/bootguard): the table that denies everything
    until the committed policy is enforced is removed only when it is exactly the one the
    program installed.  The nft command is what the kernel makes of its arguments. *)

From S2P Require Import Prelude GoStrings GoTime Json.
From Stdlib Require Import Ascii String.
Local Open Scope string_scope.
Local Open Scope Z_scope.
Local Open Scope host_scope.
Abbreviation length := List.length.

Definition TableFamily : string := "inet".
Definition TableName : string := "nftfw_initramfs_guard".
Definition TableComment : string := "nftfw:initramfs-guard:v1".
Definition guard_error (text : string) : err := Errorf text [].

(** ** The listings *)

Record tableObject := mkTable { to_Family : string; to_Name : string; to_Comment : string; to_Handle : Z }.
Record chainObject := mkChain {
  co_Family : string; co_Table : string; co_Name : string; co_Type : string; co_Hook : string; co_Priority : Z; co_Policy : string;
  co_Comment : string; co_Handle : Z
}.
#[export] Instance chainObject_eq_dec : EqDecision chainObject.
Proof. solve_decision. Defined.
Definition guard_chain (name hook comment : string) : chainObject :=
  mkChain TableFamily TableName name "filter" hook (-310) "drop" comment 0.
Definition expected_chains : list chainObject :=
  [guard_chain "input_guard" "input" "nftfw:initramfs-input:v1"; guard_chain "output_guard" "output" "nftfw:initramfs-output:v1";
   guard_chain "forward_guard" "forward" "nftfw:initramfs-forward:v1"].
Definition expected_chain (name : string) : option chainObject := List.find (λ c, String.eqb (co_Name c) name) expected_chains.

Section decode.
Local Open Scope check_scope.
Definition decode_table (j : json) : err + tableObject :=
  l <-? members j ;; family <-? string_field "family" l ;; name <-? string_field "name" l ;; comment <-? string_field "comment" l ;;
  handle <-? int_field "handle" l ;; inr (mkTable family name comment handle).
Definition decode_chain (j : json) : err + chainObject :=
  l <-? members j ;; family <-? string_field "family" l ;; table <-? string_field "table" l ;; name <-? string_field "name" l ;;
  type <-? string_field "type" l ;; hook <-? string_field "hook" l ;; prio <-? int_field "prio" l ;; policy <-? string_field "policy" l ;;
  comment <-? string_field "comment" l ;; handle <-? int_field "handle" l ;;
  inr (mkChain family table name type hook prio policy comment handle).
Definition table_fields : list string := ["family"; "name"; "comment"; "handle"].
Definition chain_fields : list string := ["family"; "table"; "name"; "type"; "hook"; "prio"; "policy"; "comment"; "handle"].

Definition output_limit : N := 1048576.
Definition decode (o : output) : err + list (list (string * json)) :=
  fails ((slen (out_text o) =? 0)%nat || (output_limit <? N.of_nat (slen (out_text o)))%N)
    (guard_error "nftables guard output is empty or oversized") then?
  let invalid := guard_error "nftables guard output is invalid" in
  match out_json o with
  | None => inl invalid
  | Some j =>
      match members j with
      | inl _ => inl invalid
      | inr l =>
          match raw_field "nftables" l with
          | Some (JArr objects) => match collect members objects with inl _ => inl invalid | inr r => inr r end
          | _ => inl invalid
          end
      end
  end.

Definition one_table (present : bool) (object : list (string * json)) : err + bool :=
  match member "table" object with
  | None =>
      match member "metainfo" object with
      | Some _ => fails (negb (length object =? 1)%nat) (guard_error "unexpected object while listing nftables tables") then? inr present
      | None => inl (guard_error "unexpected object while listing nftables tables")
      end
  | Some raw =>
      fails (negb (length object =? 1)%nat) (guard_error "ambiguous nftables table object") then?
      let invalid := guard_error "invalid nftables table object" in
      match decode_table raw with
      | inl _ => inl invalid
      | inr t =>
          fails (String.eqb (to_Family t) "" || String.eqb (to_Name t) "") invalid then?
          if String.eqb (to_Family t) TableFamily && String.eqb (to_Name t) TableName
          then fails present (guard_error "duplicate initramfs guard table") then? inr true
          else inr present
      end
  end.
Definition table_listed (o : output) : err + bool := objects <-? decode o ;; fold_err one_table false objects.

(** What was seen of the guard. *)
Record guard_seen := mkSeen { tableSeen : bool; chainsSeen : list string }.
Definition without_handle (c : chainObject) : chainObject :=
  mkChain (co_Family c) (co_Table c) (co_Name c) (co_Type c) (co_Hook c) (co_Priority c) (co_Policy c) (co_Comment c) 0.
Definition one_object (s : guard_seen) (object : list (string * json)) : err + guard_seen :=
  fails (negb (length object =? 1)%nat) (guard_error "ambiguous initramfs guard object") then?
  match member "metainfo" object with
  | Some _ => inr s
  | None =>
      match member "table" object with
      | Some raw =>
          let invalid := guard_error "initramfs guard table identity is invalid" in
          match decodeStrict table_fields decode_table raw with
          | inl _ => inl invalid
          | inr t =>
              fails (tableSeen s || negb (String.eqb (to_Family t) TableFamily) || negb (String.eqb (to_Name t) TableName) ||
                     negb (String.eqb (to_Comment t) TableComment)) invalid then?
              inr (mkSeen true (chainsSeen s))
          end
      | None =>
          match member "chain" object with
          | Some raw =>
              match decodeStrict chain_fields decode_chain raw with
              | inl _ => inl (guard_error "initramfs guard chain is invalid")
              | inr c =>
                  fails (bool_decide (co_Name c ∈ chainsSeen s) || negb (bool_decide (expected_chain (co_Name c) = Some (without_handle c))))
                    (guard_error "initramfs guard chain identity is invalid") then?
                  inr (mkSeen (tableSeen s) (co_Name c :: chainsSeen s))
              end
          | None => inl (guard_error "initramfs guard contains an unexpected object")
          end
      end
  end.
Definition validateExact (o : output) : err + unit :=
  objects <-? decode o ;;
  s <-? fold_err one_object (mkSeen false []) objects ;;
  fails (negb (tableSeen s) || negb (length (chainsSeen s) =? length expected_chains)%nat) (guard_error "initramfs guard is incomplete").
End decode.

(** ** Verification and handoff *)

Definition list_tables : list string := ["--json"; "list"; "tables"].
Definition list_guard : list string := ["--json"; "list"; "table"; TableFamily; TableName].
Definition delete_guard : list string := ["delete"; "table"; TableFamily; TableName].

Section guard.
Context {W : Type} (exec : list string → W → option output * W).
Abbreviation HM := (M W).
Definition nft (args : list string) : HM output := host_command (exec args) ErrIO.
Definition wrapped {A} (fmt : string) (m : HM A) : HM A := catch m (λ e, throw (Wrapf fmt [] e)).

Definition tablePresent : HM bool :=
  o <- wrapped "list nftables tables: %w" (nft list_tables) ;; lift_check (table_listed o).
Definition Verify : HM bool :=
  present <- tablePresent ;;
  if negb present then ret false
  else
    o <- wrapped "inspect initramfs guard: %w" (nft list_guard) ;;
    lift_check (validateExact o) ;;
    ret true.
Definition Handoff : HM bool :=
  present <- Verify ;;
  if negb present then ret false
  else
    deleted <- try_ (nft delete_guard) ;;
    inspected <- try_ tablePresent ;;
    match inspected with
    | inl e =>
        let e := Wrapf "verify initramfs guard removal: %w" [] e in
        throw (match deleted with inl d => Join d e | inr _ => e end)
    | inr true =>
        throw (Wrapf "remove initramfs guard: %w" [] (match deleted with inl d => d | inr _ => guard_error "guard remains present" end))
    | inr false => ret true
    end.
End guard.

(** ** What an exact guard is *)

(** The objects of a listing read as tables and chains, besides the metadata. *)
Inductive reads : list (list (string * json)) → list tableObject → list chainObject → Prop :=
  | reads_nil : reads [] [] []
  | reads_meta raw l ts cs : reads l ts cs → reads ([("metainfo", raw)] :: l) ts cs
  | reads_table raw t l ts cs : decodeStrict table_fields decode_table raw = inr t → reads l ts cs →
      reads ([("table", raw)] :: l) (t :: ts) cs
  | reads_chain raw c l ts cs : decodeStrict chain_fields decode_chain raw = inr c → reads l ts cs →
      reads ([("chain", raw)] :: l) ts (c :: cs).
Definition guard_table (t : tableObject) : Prop := to_Family t = TableFamily ∧ to_Name t = TableName ∧ to_Comment t = TableComment.
(** One table of that comment and the three chains that drop everything, no rule. *)
Definition exact_guard (o : output) : Prop := ∃ objects t cs,
  decode o = inr objects ∧ reads objects [t] cs ∧ guard_table t ∧ map without_handle cs ≡ₚ expected_chains.

Definition expected_one (c : chainObject) : Prop := expected_chain (co_Name c) = Some (without_handle c).
Lemma single_member {A} (x : string * A) (l : list (string * A)) : length (x :: l) = 1%nat → l = [].
Proof. by destruct l. Qed.
Lemma one_object_ok s object s' : one_object s object = inr s' →
  (∃ raw, object = [("metainfo", raw)] ∧ s' = s) ∨
  (∃ raw t, object = [("table", raw)] ∧ decodeStrict table_fields decode_table raw = inr t ∧ guard_table t ∧ tableSeen s = false ∧
     s' = mkSeen true (chainsSeen s)) ∨
  (∃ raw c, object = [("chain", raw)] ∧ decodeStrict chain_fields decode_chain raw = inr c ∧ expected_one c ∧ (co_Name c ∉ chainsSeen s) ∧
     s' = mkSeen (tableSeen s) (co_Name c :: chainsSeen s)).
Proof.
  unfold one_object. intros H. apply err_bind_ok in H as ([] & Hl & H). apply fails_ok, negb_false_iff, Nat.eqb_eq in Hl.
  destruct object as [|[k raw] object]; [done|]. apply single_member in Hl as ->.
  assert (∀ n, member n [(k, raw)] = if String.eqb k n then Some raw else None) as Hm.
  { intros n. unfold member. simpl. by destruct (String.eqb k n). }
  rewrite !Hm in H. destruct (String.eqb_spec k "metainfo") as [->|_]; [injection H as <-; left; by eexists|].
  destruct (String.eqb_spec k "table") as [->|_].
  { destruct (decodeStrict _ _ _) as [|t] eqn:Et; [done|]. apply err_bind_ok in H as ([] & Hf & H). apply fails_ok in Hf. injection H as <-.
    rewrite !orb_false_iff, !negb_false_iff, !String.eqb_eq in Hf. destruct Hf as [[[Hs Hf] Hn] Hc].
    right; left. by exists raw, t. }
  destruct (String.eqb_spec k "chain") as [->|_]; [|done]. destruct (decodeStrict _ _ _) as [|c] eqn:Ec; [done|].
  apply err_bind_ok in H as ([] & Hf & H). apply fails_ok in Hf. injection H as <-.
  apply orb_false_iff in Hf as [Hn He]. apply bool_decide_eq_false in Hn. apply negb_false_iff, bool_decide_eq_true in He.
  right; right. by exists raw, c.
Qed.
Lemma one_object_chain s raw c : decodeStrict chain_fields decode_chain raw = inr c → expected_one c → co_Name c ∉ chainsSeen s →
  one_object s [("chain", raw)] = inr (mkSeen (tableSeen s) (co_Name c :: chainsSeen s)).
Proof.
  intros Ec He Hn. unfold one_object. cbn. rewrite Ec. unfold fails. rewrite bool_decide_eq_false_2, bool_decide_eq_true_2 by done. done.
Qed.
Lemma one_object_table s raw t : decodeStrict table_fields decode_table raw = inr t → guard_table t → tableSeen s = false →
  one_object s [("table", raw)] = inr (mkSeen true (chainsSeen s)).
Proof. intros Et (Hf & Hn & Hc) Hs. unfold one_object. cbn. rewrite Et, Hf, Hn, Hc, Hs, !String.eqb_refl. done. Qed.

Lemma objects_ok objects s s' : fold_err one_object s objects = inr s' → NoDup (chainsSeen s) → ∃ ts cs,
  reads objects ts cs ∧ Forall guard_table ts ∧ Forall expected_one cs ∧ (tableSeen s = true → ts = []) ∧
  (ts = [] ∧ tableSeen s' = tableSeen s ∨ (∃ t, ts = [t]) ∧ tableSeen s' = true) ∧
  (chainsSeen s' = rev (map co_Name cs) ++ chainsSeen s)%list ∧ NoDup (chainsSeen s').
Proof.
  revert s. induction objects as [|object objects IH]; intros s H Hnd.
  { injection H as <-. exists [], []. split_and!; [constructor|constructor|constructor|done|by left|done|done]. }
  cbn [fold_err] in H. destruct (one_object s object) as [|s1] eqn:E; [done|].
  destruct (one_object_ok _ _ _ E) as [(raw & -> & ->)|[(raw & t & -> & Et & Ht & Hs & ->)|(raw & c & -> & Ec & Hc & Hn & ->)]].
  - destruct (IH _ H Hnd) as (ts & cs & Hr & Hrest). exists ts, cs. split; [by constructor|done].
  - destruct (IH _ H Hnd) as (ts & cs & Hr & Hts & Hcs & Hone & Hseen & Hnames). cbn in Hone. rewrite Hone in * by done.
    exists [t], cs. split; [by constructor|]. split; [by constructor|]. split; [done|]. split; [congruence|]. split; [|done].
    right. split; [by eexists|]. destruct Hseen as [[_ ->]|[_ ->]]; done.
  - destruct (IH _ H) as (ts & cs & Hr & Hts & Hcs & Hone & Hseen & Hnames & Hnd'); [by constructor|].
    exists ts, (c :: cs). split; [by constructor|]. split; [done|]. split; [by constructor|]. split; [done|]. split; [done|].
    split; [|done]. rewrite Hnames. cbn. by rewrite <-app_assoc.
Qed.
Lemma objects_pass objects ts cs s : reads objects ts cs → Forall guard_table ts → Forall expected_one cs →
  (length ts <= 1)%nat → (tableSeen s = true → ts = []) → NoDup (map co_Name cs ++ chainsSeen s)%list →
  fold_err one_object s objects = inr (mkSeen (tableSeen s || negb (length ts =? 0)%nat) (rev (map co_Name cs) ++ chainsSeen s)%list).
Proof.
  intros Hr. revert s. induction Hr as [|raw l ts cs _ IH|raw t l ts cs Et _ IH|raw c l ts cs Ec _ IH]; intros s Hts Hcs Hlen Hone Hnd; cbn [fold_err].
  - destruct s. cbn. by rewrite orb_false_r.
  - change (one_object s [("metainfo", raw)]) with (inr s : err + guard_seen). by apply IH.
  - apply Forall_cons in Hts as [Ht Hts]. assert (tableSeen s = false) as Hs by (destruct (tableSeen s); [by specialize (Hone eq_refl)|done]).
    rewrite (one_object_table _ _ _ Et Ht Hs). destruct ts as [|]; [|cbn in Hlen; lia]. rewrite IH by (cbn; auto using Forall_nil). by rewrite Hs.
  - apply Forall_cons in Hcs as [Hc Hcs]. cbn in Hnd. apply NoDup_cons in Hnd as [Hn Hnd]. rewrite (one_object_chain _ _ _ Ec Hc) by set_solver.
    rewrite IH; [|done..|]; cbn; [by rewrite <-app_assoc|]. rewrite <-Permutation_middle. by constructor.
Qed.

Lemma expected_names : map co_Name expected_chains = ["input_guard"; "output_guard"; "forward_guard"].
Proof. reflexivity. Qed.
Lemma expected_one_in c : expected_one c ↔ without_handle c ∈ expected_chains.
Proof.
  unfold expected_one, expected_chain. split.
  - intros H. apply List.find_some in H as [H _]. by apply list_elem_of_In.
  - intros H. change (co_Name c) with (co_Name (without_handle c)). revert H. generalize (without_handle c). intros d Hd.
    repeat (apply elem_of_cons in Hd as [->|Hd]; [reflexivity|]). by apply elem_of_nil in Hd.
Qed.
Lemma chains_exact cs : Forall expected_one cs → NoDup (map co_Name cs) →
  length cs = length expected_chains → map without_handle cs ≡ₚ expected_chains.
Proof.
  intros Hcs Hnd Hlen. apply submseteq_length_Permutation; [|by rewrite List.length_map, Hlen].
  apply NoDup_submseteq.
  - apply (NoDup_fmap_1 co_Name). replace (co_Name <$> map without_handle cs) with (map co_Name cs); [done|].
    by rewrite <-list_fmap_compose.
  - intros d Hd. apply list_elem_of_fmap in Hd as (c & -> & Hc). by apply expected_one_in, (Forall_forall expected_one cs).
Qed.
Lemma exact_chains cs : map without_handle cs ≡ₚ expected_chains →
  Forall expected_one cs ∧ NoDup (map co_Name cs) ∧ length cs = length expected_chains.
Proof.
  intros H. split_and!.
  - apply Forall_forall. intros c Hc. apply expected_one_in. rewrite <-H. by apply list_elem_of_fmap_2.
  - replace (map co_Name cs) with (map co_Name (map without_handle cs)) by (by rewrite List.map_map).
    change (NoDup (co_Name <$> map without_handle cs)). rewrite H. apply (bool_decide_unpack _). vm_compute. done.
  - by rewrite <-H, List.length_map.
Qed.

(** ** What is removed *)

(** The listing of the guard is accepted exactly when it is that of the guard. *)
Theorem validateExact_iff o : validateExact o = inr tt ↔ exact_guard o.
Proof.
  unfold validateExact, exact_guard. split.
  - intros H. apply err_bind_ok in H as (objects & Ho & H). apply err_bind_ok in H as (s & Hs & H). apply fails_ok, orb_false_iff in H as [Ht Hl].
    apply negb_false_iff in Ht. apply negb_false_iff, Nat.eqb_eq in Hl.
    destruct (objects_ok _ _ _ Hs (NoDup_nil_2)) as (ts & cs & Hr & Hts & Hcs & _ & Hseen & Hn & Hnd). cbn in *.
    rewrite app_nil_r in Hn. rewrite Hn in *. destruct Hseen as [[-> Hseen]|[[t ->] _]]; [congruence|].
    rewrite List.length_rev, List.length_map in Hl. exists objects, t, cs. split_and!; [done|done|by inversion Hts|].
    apply chains_exact; [done| |done]. by rewrite (Permutation_rev (map co_Name cs)).
  - intros (objects & t & cs & Ho & Hr & Ht & Hp). destruct (exact_chains _ Hp) as (Hcs & Hnd & Hl). rewrite Ho. cbn.
    rewrite (objects_pass _ _ _ (mkSeen false []) Hr); cbn; [|by constructor|done|lia|done|by rewrite app_nil_r].
    by rewrite app_nil_r, List.length_rev, List.length_map, Hl.
Qed.

Section handoff.
Context {W : Type} (exec : list string → W → option output * W).
(** Listing changes nothing. *)
Hypothesis listing_only : ∀ args w a w', args = list_tables ∨ args = list_guard → exec args w = (a, w') → w' = w.

(** What the kernel holds under the name of the guard: exactly the guard, or nothing. *)
Definition holds_guard (w : W) : Prop := ∃ tables listing,
  exec list_tables w = (Some tables, w) ∧ table_listed tables = inr true ∧ exec list_guard w = (Some listing, w) ∧ exact_guard listing.
Definition no_guard (w : W) : Prop := ∃ tables, exec list_tables w = (Some tables, w) ∧ table_listed tables = inr false.

Lemma safe_listed (I : W → Prop) fmt args (P : output → W → Prop) w : I w → args = list_tables ∨ args = list_guard →
  (∀ out, exec args w = (Some out, w) → P out w) → safe I (wrapped fmt (nft exec args)) P w.
Proof.
  intros HI Ha HP. apply safe_catch_inv; [|intros e s Hs; by apply safe_throw].
  apply safe_host_command; [done|]. intros a w' E. pose proof (listing_only _ _ _ _ Ha E) as ->. split; [done|]. intros out ->. by apply HP.
Qed.
Lemma safe_tablePresent (I : W → Prop) (P : bool → W → Prop) w : I w →
  (∀ tables present, exec list_tables w = (Some tables, w) → table_listed tables = inr present → P present w) →
  safe I (tablePresent exec) P w.
Proof.
  intros HI HP. apply safe_bind, safe_listed; [done|by left|]. intros tables E. apply safe_lift_check; [done|]. intros present Hp. by apply (HP tables).
Qed.
Lemma safe_Verify (I : W → Prop) w : I w → safe I (Verify exec) (λ present w', w' = w ∧ if present then holds_guard w else no_guard w) w.
Proof.
  intros HI. apply safe_bind, safe_tablePresent; [done|]. intros tables [] E Hl; cbn [negb]; [|apply safe_ret; [done|]; split; [done|]; by exists tables].
  apply safe_bind, safe_listed; [done|by right|]. intros listing El. apply safe_bind, safe_lift_check; [done|]. intros [] Hx.
  apply safe_ret; [done|]. split; [done|]. exists tables, listing. by rewrite <-validateExact_iff.
Qed.

(** C40: The handoff changes nothing but to delete a table that is exactly the guard; it
    answers that the guard was removed only when none is left, and that there was none
    only when nothing changed. *)
Theorem Handoff_exact o w :
  let r := Handoff exec o w in
  (final r = w ∨ holds_guard w ∧ ∃ a, exec delete_guard w = (a, final r)) ∧
  (result r = Ret true → holds_guard w ∧ no_guard (final r)) ∧
  (result r = Ret false → final r = w ∧ no_guard w).
Proof.
  set (I := λ w', w' = w ∨ holds_guard w ∧ ∃ a, exec delete_guard w = (a, w')).
  assert (safe I (Handoff exec) (λ b w', if b then holds_guard w ∧ no_guard w' else w' = w ∧ no_guard w) w) as Hs.
  2: { destruct (Hs o) as [H1 H2]. cbv zeta. split; [exact H1|]. split; intros Hr; by rewrite Hr in H2. }
  assert (HI : I w) by by left.
  apply safe_bind. eapply safe_mono; [by apply safe_Verify|]. intros [] w1 _ [-> Hg]; cbn [negb]; [|by apply safe_ret].
  apply safe_bind. eapply safe_try_inv with (Q := λ _ _, True).
  { apply safe_host_command; [done|]. intros a w' E. split; [|done]. right. split; [done|]. by exists a. }
  all: intros d w1 HI1; try intros _; apply safe_bind.
  all: eapply safe_try_inv; [apply (safe_tablePresent I (λ present w', if present then True else no_guard w')); [done|]; intros tables [] E Hl; [done|by exists tables]| |].
  all: try (intros e w2 HI2; by apply safe_throw).
  all: intros [] w2 HI2 Hn; [by apply safe_throw|by apply safe_ret].
Qed.
End handoff.

(** ** A sample kernel: the guard beside another table *)

Definition shown (objects : list json) : output := mkOutput "{}" (Some (JObj [("nftables", JArr (JObj [("metainfo", JObj [])] :: objects))])).
Definition table_json (name comment : string) : json :=
  JObj [("table", JObj [("family", JStr "inet"); ("name", JStr name); ("handle", JNum 4); ("comment", JStr comment)])].
Definition chain_json (name hook comment : string) (priority : Z) : json :=
  JObj [("chain", JObj [("family", JStr "inet"); ("table", JStr TableName); ("name", JStr name); ("handle", JNum 1); ("type", JStr "filter");
    ("hook", JStr hook); ("prio", JNum priority); ("policy", JStr "drop"); ("comment", JStr comment)])].
(** The priority is -310 in the guard that the program installs. *)
Definition guard_json (priority : Z) : list json :=
  [table_json TableName TableComment; chain_json "forward_guard" "forward" "nftfw:initramfs-forward:v1" priority;
   chain_json "input_guard" "input" "nftfw:initramfs-input:v1" priority; chain_json "output_guard" "output" "nftfw:initramfs-output:v1" priority].
Definition sample_nft (priority : Z) (args : list string) (present : bool) : option output * bool :=
  if bool_decide (args = list_tables) then
    (Some (shown (table_json "nft_firewall" "" :: if present then [table_json TableName TableComment] else [])), present)
  else if bool_decide (args = list_guard) then (if present then Some (shown (guard_json priority)) else None, present)
  else if bool_decide (args = delete_guard) then (if present then Some (mkOutput "" None) else None, false)
  else (None, present).
Example sample_handoffs :
  Handoff (sample_nft (-310)) [] true = (Ret true, [], false) ∧ Handoff (sample_nft (-310)) [] false = (Ret false, [], false) ∧
  Handoff (sample_nft (-310)) [FOk; FOk; FLost] true = (Ret true, [], false) ∧
  final (Handoff (sample_nft 0) [] true) = true.
Proof. vm_compute. done. Qed.

Lemma Handoff_exact_witness : holds_guard (sample_nft (-310)) true ∧ no_guard (sample_nft (-310)) false.
Proof.
  assert (∀ args w a w', args = list_tables ∨ args = list_guard → sample_nft (-310) args w = (a, w') → w' = w) as Hlist.
  { intros args w a w' [-> | ->]; unfold sample_nft; repeat (rewrite bool_decide_eq_true_2 by done || rewrite bool_decide_eq_false_2 by done); by intros [= <- <-]. }
  destruct (Handoff_exact (sample_nft (-310)) Hlist [] true) as (_ & H & _). apply H. vm_compute. reflexivity.
Defined.
