(* ===== verification/Api.v ===== *)
(** The local status and control boundary (internal/api/unix.go): a request is a line of
    JSON on one of two sockets; the control socket serves only root, the status socket
    only reads.

    A connection is what the kernel says of its peer and the text that arrives before it
    ends or fails.  Listening, deadlines and the writing of the answer are left out. *)

From S2P Require Import Prelude GoStrings GoTime GoText Json.
From Stdlib Require Import Ascii String.
Local Open Scope string_scope.
Local Open Scope Z_scope.
Local Open Scope host_scope.
Abbreviation length := List.length.

Definition MaxRequestBytes : N := 65536.
Definition MaxConcurrentStatusConnections : nat := 64.
Definition MaxConcurrentControlConnections : nat := 16.

(** ** Requests *)

Record Request := mkRequest {
  Op : string; rq_Generation : N; rq_Safe : bool; rq_Unsafe : bool; rq_Address : string; ClaimID : Z;
  rq_Source : string; rq_Reason : string; ExpiresSec : Z; Limit : Z; Offset : Z
}.
Definition request_fields : list string :=
  ["op"; "generation"; "safe"; "unsafe"; "address"; "claim_id"; "source"; "reason"; "expires_seconds"; "limit"; "offset"].
Section requests.
Local Open Scope check_scope.
Definition decode_request (j : json) : err + Request :=
  l <-? members j ;; op <-? string_field "op" l ;; generation <-? uint_field "generation" l ;;
  safe <-? flag_field "safe" l ;; unsafe <-? flag_field "unsafe" l ;; address <-? string_field "address" l ;;
  claim <-? int_field "claim_id" l ;; source <-? string_field "source" l ;; reason <-? string_field "reason" l ;;
  expires <-? int_field "expires_seconds" l ;; limit <-? int_field "limit" l ;; offset <-? int_field "offset" l ;;
  inr (mkRequest op generation safe unsafe address claim source reason expires limit offset).
(** The text is one JSON value. *)
Definition decodeRequest (j : option json) : err + Request :=
  match j with Some j => decodeStrict request_fields decode_request j | None => inl json_error end.

Definition one_of_ops (op : string) (ops : list string) : bool := existsb (String.eqb op) ops.
(** Which fields a request leaves at their zero values. *)
Definition no_mode (r : Request) : bool := negb (rq_Safe r) && negb (rq_Unsafe r).
Definition no_page (r : Request) : bool := (Limit r =? 0) && (Offset r =? 0).
Definition no_generation (r : Request) : bool := (rq_Generation r =? 0)%N.
Definition no_claim (r : Request) : bool := ClaimID r =? 0.
Definition no_text (r : Request) : bool := String.eqb (rq_Address r) "" && String.eqb (rq_Source r) "" && String.eqb (rq_Reason r) "" && (ExpiresSec r =? 0).
Definition max_seconds : Z := 365 * 24 * 60 * 60.

Definition validateRequest (r : Request) (control : bool) : err + unit :=
  fails ((128 <? slen (rq_Address r)) || (129 <? slen (rq_Source r)) || (1024 <? slen (rq_Reason r)) || (64 <? slen (Op r)))%nat
    (Errorf "request field exceeds its size limit" []) then?
  fails (negb control && negb (String.eqb (Op r) "status")) (Errorf "status socket is read-only" []) then?
  if one_of_ops (Op r) ["status"; "audit"; "plan"; "reconcile"; "wg-refresh"] then
    fails (negb (no_generation r && no_mode r && no_claim r && no_text r && no_page r)) (Errorf "operation does not accept fields" [])
  else if one_of_ops (Op r) ["claims"] then
    fails (negb (no_generation r && no_mode r && no_claim r && no_text r) ||
           (Limit r <? 0) || (1000 <? Limit r) || (Offset r <? 0) || (1000000 <? Offset r))
      (Errorf "claims accepts only limit 1..1000 and bounded offset" [])
  else if one_of_ops (Op r) ["apply"] then
    fails (Bool.eqb (rq_Safe r) (rq_Unsafe r) || negb (no_generation r && no_claim r && no_text r && no_page r))
      (Errorf "apply requires exactly one explicit safe or unsafe mode" [])
  else if one_of_ops (Op r) ["commit"; "rollback"; "generation"] then
    fails (no_generation r || negb (no_mode r && no_claim r && no_text r && no_page r))
      (Errorf "generation operation requires only a positive generation" [])
  else if one_of_ops (Op r) ["block-add"] then
    fails (String.eqb (rq_Address r) "" || negb (no_generation r && no_mode r && no_claim r && no_page r) ||
           negb (String.eqb (rq_Source r) "manual") || (ExpiresSec r <? 0) || (max_seconds <? ExpiresSec r))
      (Errorf "block-add requires an address, source=manual, optional reason, and a bounded expiry" [])
  else if one_of_ops (Op r) ["allow-add"] then
    fails (String.eqb (rq_Address r) "" || negb (no_generation r && no_mode r && no_claim r && no_page r) ||
           negb (String.eqb (rq_Source r) "") || (ExpiresSec r <=? 0) || (max_seconds <? ExpiresSec r))
      (Errorf "allow-add requires an address, optional reason, and a positive bounded expiry" [])
  else if one_of_ops (Op r) ["block-remove"; "allow-remove"] then
    fails ((ClaimID r <=? 0) || negb (no_generation r && no_mode r && no_text r && no_page r))
      (Errorf "block-remove requires only a positive claim_id" [])
  else inl (Errorf "unsupported operation %q" [ArgS (Op r)]).
End requests.

(** ** Serving a connection *)

Record Conn := mkConn { peerUcred : option N; received : string; broken : option err }.

(** [ReadBytes] up to a newline, from at most one byte more than a request may have. *)
Fixpoint until_newline (n : N) (s : string) : string * bool :=
  match s with
  | String c s' =>
      if (n =? 0)%N then ("", false)
      else if Ascii.eqb c lf then (String c "", true)
      else let '(l, found) := until_newline (N.pred n) s' in (String c l, found)
  | "" => ("", false)
  end.
Definition oversized (frame : string) : bool := (MaxRequestBytes <? N.of_nat (slen frame))%N.
Definition read_frame (c : Conn) : err + string :=
  let '(frame, found) := until_newline (N.succ MaxRequestBytes) (received c) in
  if found || oversized frame then inr frame
  else match broken c with Some e => inl e | None => inr frame end.

Section server.
Context {W D : Type}.
(** [encoding/json] on the bytes of a frame, and the program that answers. *)
Context (parse : string → option json).
Record Handler := mkHandler { Status : M W D; Control : Request → M W D; SecurityEvent : string → string → M W unit }.
Context (h : Handler).

Definition credentials (c : Conn) : string :=
  sprintf "peer_uid=%d credential_available=%t" [ArgN (default 0%N (peerUcred c)); ArgB (bool_decide (is_Some (peerUcred c)))].
(** The answer: an error or the data. *)
Definition reject (control : bool) (detail : string) (e : err) : M W (err + D) :=
  (if control then SecurityEvent h "privileged_request_rejected" detail else ret tt) ;; ret (inl e).
Definition run_request (control : bool) (req : Request) : M W (err + D) :=
  if control then
    r <- try_ (Control h req) ;;
    match r with
    | inl e => SecurityEvent h "privileged_request_failed" ("operation=" +:+ Op req) ;; ret (inl e)
    | inr _ => ret r
    end
  else if negb (String.eqb (Op req) "status") then ret (inl (Errorf "status socket is read-only" []))
  else try_ (Status h).
Definition handle (control : bool) (c : Conn) : M W (err + D) :=
  if control && negb (bool_decide (peerUcred c = Some 0%N)) then
    SecurityEvent h "control_access_denied" (credentials c) ;;
    ret (inl (Errorf "control socket requires root peer credentials" []))
  else
    match read_frame c with
    | inl e => reject control "invalid request frame" (Wrapf "invalid request frame: %w" [] e)
    | inr frame =>
        if (slen frame =? 0)%nat || oversized frame then
          reject control "invalid request frame size" (Errorf "invalid request frame size" [])
        else
          match decodeRequest (parse frame) with
          | inl e => reject control "request JSON rejected" (Wrapf "invalid request: %w" [] e)
          | inr req =>
              if String.eqb (Op req) "" then reject control "missing operation" (Errorf "missing op" [])
              else
                match validateRequest req control with
                | inl e => reject control ("operation=" +:+ Op req) (Wrapf "invalid request: %w" [] e)
                | inr _ => run_request control req
                end
          end
    end.

(** *** The quotas of the two sockets *)

Record Connections := mkConnections { statusConnections : nat; controlConnections : nat }.
Definition acquireConnection (control : bool) (q : Connections) : option Connections :=
  if control then
    if (controlConnections q <? MaxConcurrentControlConnections)%nat then Some (mkConnections (statusConnections q) (S (controlConnections q))) else None
  else
    if (statusConnections q <? MaxConcurrentStatusConnections)%nat then Some (mkConnections (S (statusConnections q)) (controlConnections q)) else None.
Definition releaseConnection (control : bool) (q : Connections) : Connections :=
  if control then mkConnections (statusConnections q) (pred (controlConnections q))
  else mkConnections (pred (statusConnections q)) (controlConnections q).
Definition rejectConnectionLimit (control : bool) : M W (err + D) :=
  (if control then SecurityEvent h "privileged_request_rejected" "connection limit reached" else ret tt) ;;
  ret (inl (Errorf "server connection limit reached" [])).
(** A connection is accepted: served while it holds a place of its quota, or turned away. *)
Definition accept (q : Connections) (control : bool) (c : Conn) : M W (err + D) :=
  match acquireConnection control q with Some _ => handle control c | None => rejectConnectionLimit control end.
End server.

(** ** What is accepted *)

(** The operations of the boundary, and the request that stands for each. *)
Inductive operation :=
  | OpStatus | OpAudit | OpPlan | OpReconcile | OpRefresh
  | OpClaims (limit offset : Z)
  | OpApply (safe : bool)
  | OpCommit (generation : N) | OpRollback (generation : N) | OpGeneration (generation : N)
  | OpBlockAdd (address reason : string) (seconds : Z) | OpAllowAdd (address reason : string) (seconds : Z)
  | OpBlockRemove (id : Z) | OpAllowRemove (id : Z).
Definition bare (op : string) : Request := mkRequest op 0 false false "" 0 "" "" 0 0 0.
Definition about_generation (op : string) (g : N) : Request := mkRequest op g false false "" 0 "" "" 0 0 0.
Definition about_claim (op : string) (id : Z) : Request := mkRequest op 0 false false "" id "" "" 0 0 0.
Definition request_of (o : operation) : Request :=
  match o with
  | OpStatus => bare "status" | OpAudit => bare "audit" | OpPlan => bare "plan" | OpReconcile => bare "reconcile" | OpRefresh => bare "wg-refresh"
  | OpClaims limit offset => mkRequest "claims" 0 false false "" 0 "" "" 0 limit offset
  | OpApply safe => mkRequest "apply" 0 safe (negb safe) "" 0 "" "" 0 0 0
  | OpCommit g => about_generation "commit" g | OpRollback g => about_generation "rollback" g | OpGeneration g => about_generation "generation" g
  | OpBlockAdd address reason seconds => mkRequest "block-add" 0 false false address 0 "manual" reason seconds 0 0
  | OpAllowAdd address reason seconds => mkRequest "allow-add" 0 false false address 0 "" reason seconds 0 0
  | OpBlockRemove id => about_claim "block-remove" id | OpAllowRemove id => about_claim "allow-remove" id
  end.
Definition text_bounded (address reason : string) : Prop := address ≠ "" ∧ (slen address <= 128)%nat ∧ (slen reason <= 1024)%nat.
Definition bounded (o : operation) : Prop :=
  match o with
  | OpClaims limit offset => 0 <= limit <= 1000 ∧ 0 <= offset <= 1000000
  | OpCommit g | OpRollback g | OpGeneration g => g ≠ 0%N
  | OpBlockAdd address reason seconds => text_bounded address reason ∧ 0 <= seconds <= 31536000
  | OpAllowAdd address reason seconds => text_bounded address reason ∧ 0 < seconds <= 31536000
  | OpBlockRemove id | OpAllowRemove id => 0 < id
  | _ => True
  end.

Lemma one_of_ops_in op ops : one_of_ops op ops = true ↔ op ∈ ops.
Proof.
  unfold one_of_ops. rewrite existsb_exists. setoid_rewrite String.eqb_eq. setoid_rewrite <-list_elem_of_In. naive_solver.
Qed.
Ltac fields_of_request := cbn [Op rq_Generation rq_Safe rq_Unsafe rq_Address ClaimID rq_Source rq_Reason ExpiresSec Limit Offset] in *.
Ltac zeros :=
  unfold no_generation, no_mode, no_claim, no_page, no_text in *; fields_of_request;
  rewrite ?orb_false_iff, ?negb_false_iff, ?andb_true_iff, ?negb_true_iff, ?String.eqb_eq, ?String.eqb_neq,
    ?Z.eqb_eq, ?Z.eqb_neq, ?N.eqb_eq, ?N.eqb_neq, ?Z.ltb_ge, ?Z.leb_gt, ?Nat.ltb_ge, ?Bool.eqb_false_iff in *; destruct_and?; subst.
Ltac which_op H := apply one_of_ops_in in H; repeat (apply elem_of_cons in H as [->|H]); try by apply elem_of_nil in H.

(** The requests that are accepted are those of the operations within their bounds, and
    on the status socket only the status. *)
Lemma validateRequest_iff r control : validateRequest r control = inr tt ↔
  ∃ o, r = request_of o ∧ bounded o ∧ (control = false → o = OpStatus).
Proof.
  unfold validateRequest. split.
  - intros H. apply err_bind_ok in H as ([] & Hs & H). apply fails_ok in Hs. apply err_bind_ok in H as ([] & Hc & H). apply fails_ok in Hc.
    assert (control = true ∨ Op r = "status") as Hctl by (destruct control; [by left|right]; by apply negb_false_iff, String.eqb_eq in Hc).
    clear Hc. destruct r as [op g safe unsafe address id source reason seconds limit offset]. cbn [Op] in *.
    destruct (one_of_ops op ["status"; "audit"; "plan"; "reconcile"; "wg-refresh"]) eqn:E1; [apply fails_ok in H|].
    { which_op E1; zeros; [exists OpStatus|exists OpAudit|exists OpPlan|exists OpReconcile|exists OpRefresh].
      all: split; [done|]; split; [done|]; by destruct Hctl as [->|?]. }
    destruct Hctl as [-> | ->]; [|done].
    destruct (one_of_ops op ["claims"]) eqn:E2; [apply fails_ok in H|].
    { which_op E2; zeros. exists (OpClaims limit offset). cbn. split_and!; [done|lia..|done]. }
    destruct (one_of_ops op ["apply"]) eqn:E3; [apply fails_ok in H|].
    { which_op E3; zeros. exists (OpApply safe). cbn. split_and!; [by destruct safe, unsafe|done..]. }
    destruct (one_of_ops op ["commit"; "rollback"; "generation"]) eqn:E4; [apply fails_ok in H|].
    { which_op E4; zeros; [exists (OpCommit g)|exists (OpRollback g)|exists (OpGeneration g)]; cbn; by split_and!. }
    destruct (one_of_ops op ["block-add"]) eqn:E5; [apply fails_ok in H|].
    { which_op E5; zeros. exists (OpBlockAdd address reason seconds). cbn. unfold text_bounded, max_seconds in *. split_and!; [done|done|lia..|done]. }
    destruct (one_of_ops op ["allow-add"]) eqn:E6; [apply fails_ok in H|].
    { which_op E6; zeros. exists (OpAllowAdd address reason seconds). cbn. unfold text_bounded, max_seconds in *. split_and!; [done|done|lia..|done]. }
    destruct (one_of_ops op ["block-remove"; "allow-remove"]) eqn:E7; [apply fails_ok in H|done].
    which_op E7; zeros; [exists (OpBlockRemove id)|exists (OpAllowRemove id)]; cbn; split_and!; [done|lia|done..].
  - intros (o & -> & Hb & Hc). apply err_bind_ok. exists tt. split; [|apply err_bind_ok; exists tt; split].
    + apply fails_ok. rewrite !orb_false_iff, !Nat.ltb_ge. destruct o; cbn in *; unfold text_bounded in *; lia.
    + apply fails_ok. destruct control; [done|]. by rewrite Hc.
    + destruct o as [| | | | | |[]| | | | | | |]; try reflexivity; cbn [request_of]; unfold about_generation, about_claim; fields_of_request;
        cbn [one_of_ops existsb]; apply fails_ok; unfold no_generation, no_mode, no_claim, no_page, no_text; fields_of_request; cbn [bounded] in Hb.
      all: rewrite ?orb_false_iff, ?Z.ltb_ge, ?Z.leb_gt, ?N.eqb_neq, ?String.eqb_neq; unfold text_bounded, max_seconds in *.
      all: destruct_and?; split_and?; first [reflexivity|assumption|lia].
Qed.

(** ** What is answered *)

Section serving.
Context {W D : Type} (parse : string → option json) (h : Handler (W := W) (D := D)).
(** The request that a connection has the right to make. *)
Definition admitted (control : bool) (c : Conn) (req : Request) : Prop :=
  (control = true → peerUcred c = Some 0%N) ∧
  ∃ frame, read_frame c = inr frame ∧ frame ≠ "" ∧ (N.of_nat (slen frame) <= MaxRequestBytes)%N ∧
    decodeRequest (parse frame) = inr req ∧ validateRequest req control = inr tt.
(** What a refusal runs: at most one security event, on the control socket. *)
Definition notes (control : bool) (m : M W unit) : Prop := m = ret tt ∨ control = true ∧ ∃ event detail, m = SecurityEvent h event detail.

Lemma accepted_op req control : validateRequest req control = inr tt → String.eqb (Op req) "" = false.
Proof. intros (o & -> & _)%validateRequest_iff. by destruct o as [| | | | | |[]| | | | | | |]. Qed.
Lemma handle_cases control c :
  (∃ req, admitted control c req ∧ handle parse h control c = run_request h control req) ∨
  (∃ m e, notes control m ∧ handle parse h control c = (m ;; ret (inl e))).
Proof.
  unfold handle. assert (∀ detail e, ∃ m e', notes control m ∧ reject h control detail e = (m ;; ret (inl e'))) as Hrej.
  { intros detail e. unfold reject. exists (if control then SecurityEvent h "privileged_request_rejected" detail else ret tt), e. split; [|done].
    destruct control; [right; eauto|by left]. }
  destruct (control && _) eqn:Ec.
  { right. apply andb_true_iff in Ec as [-> _]. eexists _, _. split; [right; eauto|reflexivity]. }
  destruct (read_frame c) as [e|frame] eqn:Ef; [by right|]. destruct ((slen frame =? 0)%nat || oversized frame) eqn:Es; [by right|].
  destruct (decodeRequest (parse frame)) as [e|req] eqn:Ed; [by right|]. destruct (String.eqb (Op req) "") eqn:Eo; [by right|].
  destruct (validateRequest req control) as [e|[]] eqn:Ev; [by right|]. left. exists req. split; [|done]. split.
  - intros ->. by apply negb_false_iff, bool_decide_eq_true in Ec.
  - apply orb_false_iff in Es as [H1 H2]. exists frame. split_and!; [done| |by apply N.ltb_ge|done|done]. by intros ->.
Qed.
Lemma status_only c req : admitted false c req → run_request h false req = try_ (Status h).
Proof. intros (_ & frame & _ & _ & _ & _ & (o & -> & _ & Hs)%validateRequest_iff). by rewrite Hs. Qed.
End serving.
