(* ===== verification/WgControl.v ===== *)
(** The live WireGuard interface (internal/wireguard/controller.go): the update of the
    endpoint of its one peer, and what is observed of it.  The wg command is what the host
    makes of its arguments; the age in seconds, which is only shown, is left out. *)

From S2P Require Import Prelude GoStrings GoTime Netip GoPath GoText Routing.
From Stdlib Require Import Ascii String.
Local Open Scope string_scope.
Local Open Scope Z_scope.
Local Open Scope host_scope.
Abbreviation length := List.length.

Definition interface_char (c : ascii) : bool := is_alnum c || one_of "_.-" c.
Definition interfaceName : string → bool := matches_head_tail interface_char interface_char 0 14.
Definition validPublicKey (raw : string) : bool :=
  match b64_decode raw with Some l => (length l =? 32)%nat | None => false end.

Record Observation := mkObserved {
  Interface_ : string; Available : bool; Healthy : bool; PeerCount : Z; EndpointCount : Z;
  LatestHandshake : option time; Reason : string
}.

(** The handshakes and the endpoints that wg lists, a key and a value on each line. *)
Definition keyed (line : string) : option (string * string) :=
  match fields line with [k; v] => if validPublicKey k then Some (k, v) else None | _ => None end.
Definition keyed_lines (s : string) : list (string * string) := omap keyed (split_string lf s).
Definition latest_of (l : list (string * string)) : Z :=
  foldl (λ latest x, match Atoi x.2 with Some v => Z.max latest v | None => latest end) 0 l.
Definition endpoint_count (l : list (string * string)) : Z :=
  Z.of_nat (length (List.filter (λ x, negb (String.eqb x.2 "(none)")) l)).

Section controller.
Context {W : Type} (exec : list string → W → option string * W).
Abbreviation HM := (M W).

Definition wg (args : list string) : HM string := host_command (exec args) (Errorf "WireGuard command failed" []).

Definition SetEndpoint (iface address : string) (port : Z) : HM bool :=
  require (interfaceName iface) (Errorf "invalid WireGuard interface" []) ;;
  ip <- lift_option (ParseAddr address) (Errorf "invalid WireGuard endpoint" []) ;;
  require (negb (IsUnspecified ip || IsMulticast ip || (port <? 1) || (65535 <? port))) (Errorf "invalid WireGuard endpoint" []) ;;
  peersOutput <- wg ["show"; iface; "peers"] ;;
  match fields peersOutput with
  | [peer] =>
      require (validPublicKey peer)
        (Errorf "endpoint refresh requires exactly one valid WireGuard peer, got %d" [ArgN 1]) ;;
      let desired := JoinHostPort (addr_String ip) (pretty port) in
      endpointsOutput <- wg ["show"; iface; "endpoints"] ;;
      if bool_decide (fields endpointsOutput = [peer; desired]) then ret false
      else wg ["set"; iface; "peer"; peer; "endpoint"; desired] ;; ret true
  | peers => throw (Errorf "endpoint refresh requires exactly one valid WireGuard peer, got %d" [ArgN (N.of_nat (length peers))])
  end.

Definition health (now : time) (healthyWithin : Z) (iface : string) (peers endpoints : list (string * string)) : Observation :=
  let count := Z.of_nat (length peers) in
  let latest := latest_of peers in
  if latest =? 0 then mkObserved iface true false count (endpoint_count endpoints) None "no completed handshake"
  else
    let timestamp := unix_time latest in
    let age := Z.max 0 (duration_sub now timestamp) in
    let within := if healthyWithin <=? 0 then 180 * second else healthyWithin in
    let healthy := (0 <? count) && (age <=? within) in
    mkObserved iface true healthy count (endpoint_count endpoints) (Some timestamp)
      (if healthy then "" else "latest handshake is stale").
Definition Observe (now : time) (iface : string) (healthyWithin : Z) : HM Observation :=
  let nothing reason := mkObserved iface false false 0 0 None reason in
  if negb (interfaceName iface) then ret (nothing "invalid configured interface")
  else
    peersOutput <- try_ (wg ["show"; iface; "latest-handshakes"]) ;;
    match peersOutput with
    | inl _ => ret (nothing "interface unavailable")
    | inr peers =>
        endpointsOutput <- try_ (wg ["show"; iface; "endpoints"]) ;;
        ret (health now healthyWithin iface (keyed_lines peers)
               (match endpointsOutput with inl _ => [] | inr s => keyed_lines s end))
    end.

(** What [wg show] lists is not changed by listing it. *)
Hypothesis show_only : ∀ args w a w', exec ("show" :: args) w = (a, w') → w' = w.
Lemma safe_show (I : W → Prop) args (P : string → W → Prop) w : I w →
  (∀ s, exec ("show" :: args) w = (Some s, w) → P s w) → safe I (wg ("show" :: args)) P w.
Proof.
  intros HI HP. apply safe_host_command; [done|]. intros a w' E. pose proof (show_only _ _ _ _ E) as ->. split; [done|]. intros s ->. by apply HP.
Qed.

(** The one change: the endpoint of the only peer becomes the address asked for. *)
Definition endpoint_set (iface address : string) (port : Z) (w w' : W) : Prop := ∃ ip peers peer a,
  ParseAddr address = Some ip ∧ 1 <= port <= 65535 ∧ exec ["show"; iface; "peers"] w = (Some peers, w) ∧ fields peers = [peer] ∧
  validPublicKey peer = true ∧ exec ["set"; iface; "peer"; peer; "endpoint"; JoinHostPort (addr_String ip) (pretty port)] w = (a, w').

(** Whatever fails, SetEndpoint changes nothing but the endpoint of the only peer; when it
    answers that nothing changed nothing did. *)
Theorem SetEndpoint_confined iface address port o w :
  let r := SetEndpoint iface address port o w in
  (final r = w ∨ endpoint_set iface address port w (final r)) ∧ (result r = Ret false → final r = w).
Proof.
  assert (safe (λ w', w' = w ∨ endpoint_set iface address port w w') (SetEndpoint iface address port) (λ b w', b = false → w' = w) w) as Hs.
  2: { destruct (Hs o) as [H1 H2]. cbv zeta. split; [exact H1|]. intros Hr. rewrite Hr in H2. by apply H2. }
  unfold SetEndpoint. set (I := λ w', w' = w ∨ endpoint_set iface address port w w'). assert (HI : I w) by by left.
  apply safe_bind, safe_require; [done|]. intros _. apply safe_bind, safe_lift_option; [done|]. intros ip Hip.
  apply safe_bind, safe_require; [done|]. intros Hport. apply safe_bind, safe_show; [done|]. intros peersOutput Ep.
  destruct (fields peersOutput) as [|peer [|]] eqn:Ef; [by apply safe_throw| |by apply safe_throw].
  apply safe_bind, safe_require; [done|]. intros Hk. apply safe_bind, safe_show; [done|]. intros endpointsOutput _.
  case_bool_decide; [by apply safe_ret|]. apply safe_bind, safe_host_command; [done|]. intros a w' E.
  assert (I w') as HI'.
  { right. rewrite negb_true_iff, !orb_false_iff, !Z.ltb_ge in Hport. exists ip, peersOutput, peer, a. intuition. }
  split; [done|]. intros s _. by apply safe_ret.
Qed.
End controller.

(** ** A sample: one peer whose endpoint moves *)

Definition sample_peer : string := WgConfig.Sample.key 2.
Definition sample_wg (args : list string) (endpoint : string) : option string * string :=
  if bool_decide (args = ["show"; "wg0"; "peers"]) then (Some (sample_peer +:+ of_chars [lf]), endpoint)
  else if bool_decide (args = ["show"; "wg0"; "endpoints"]) then (Some (sample_peer +:+ of_chars [ascii_of_nat 9] +:+ endpoint +:+ of_chars [lf]), endpoint)
  else if bool_decide (take 5 args = ["set"; "wg0"; "peer"; sample_peer; "endpoint"]) then (Some "", default "" (args !! 5%nat))
  else (None, endpoint).
Example endpoint_moves :
  SetEndpoint sample_wg "wg0" "198.51.100.9" 51820 [] "203.0.113.9:51820" = (Ret true, [], "198.51.100.9:51820") ∧
  SetEndpoint sample_wg "wg0" "198.51.100.9" 51820 [] "198.51.100.9:51820" = (Ret false, [], "198.51.100.9:51820").
Proof. vm_compute. done. Qed.
Lemma SetEndpoint_confined_witness : endpoint_set sample_wg "wg0" "198.51.100.9" 51820 "203.0.113.9:51820" "198.51.100.9:51820".
Proof.
  assert (∀ args w a w', sample_wg ("show" :: args) w = (a, w') → w' = w) as Hshow.
  { intros args w a w'. unfold sample_wg. repeat case_bool_decide; by intros [= <- <-]. }
  destruct (SetEndpoint_confined sample_wg Hshow "wg0" "198.51.100.9" 51820 [] "203.0.113.9:51820") as [[E|E] _]; [|exact E].
  vm_compute in E. discriminate.
Defined.
