(* ===== verification/SetupJournal.v ===== *)
(** The journal of the managed setup (internal/setup/journal.go): one file that records
    the phase of the installation, and a history of the journals of setups that were
    rolled back.  The file is the indented JSON of the record; a reader takes no other
    form, so a file that is read is the text of the journal it holds.  The texts of a
    journal are taken to be UTF-8, which JSON stores as they are. *)

From S2P Require Import Prelude GoStrings GoTime Sha256 GoPath Ledger Snapshot Json NetGate.
From Stdlib Require Import Ascii String.
Local Open Scope string_scope.
Local Open Scope Z_scope.
Local Open Scope host_scope.
Abbreviation length := List.length.

(** ** The record *)

(** A Go slice, [nil] told from empty, as [reflect.DeepEqual] and JSON do. *)
Abbreviation slice A := (option (list A)).
Record Summary := mkSummary {
  sum_Schema : string; sum_Uplink : string; sum_VPNInterface : string; sum_IPv6Interfaces : slice string; sum_LANNetworks : slice string;
  sum_ManagementTCP : slice Z; sum_PublicTCP : slice Z; sum_PublicUDP : slice Z; sum_IPv6Mode : string; sum_BootPolicy : string;
  sum_DockerMode : string; sum_DockerNetworks : slice string; sum_DockerRestart : bool; sum_ResolverMode : string;
  sum_NetworkProducers : slice string; sum_SourceModeWarning : bool
}.
#[export] Instance Summary_eq_dec : EqDecision Summary.
Proof. solve_decision. Defined.

Definition Phase := string.
Definition PhaseInspect : Phase := "inspect".
Definition PhaseBackup : Phase := "backup".
Definition PhaseBootPrep : Phase := "boot_prepare".
Definition PhaseGuard : Phase := "guard".
Definition PhaseInstall : Phase := "install".
Definition PhaseDocker : Phase := "docker".
Definition PhaseRuntime : Phase := "runtime".
Definition PhaseApply : Phase := "apply".
Definition PhaseTunnel : Phase := "tunnel".
Definition PhaseValidate : Phase := "validate".
Definition PhaseCommit : Phase := "commit".
Definition PhaseHandoff : Phase := "handoff".
Definition PhaseBoot : Phase := "boot".
Definition PhaseFinalize : Phase := "finalize".
Definition PhaseComplete : Phase := "complete".
Definition PhaseFailed : Phase := "failed".

Record Journal := mkJournal {
  jr_Schema : string; jr_Transaction : string; jr_Phase : Phase; jr_Status : string;
  jr_StartedAt : time; jr_UpdatedAt : time; jr_Deadline : time;
  jr_BackupDir : string; jr_Generation : N; jr_Committed : bool; jr_Summary : Summary; jr_ErrorCode : string
}.
#[export] Instance Journal_eq_dec : EqDecision Journal.
Proof. solve_decision. Defined.

Definition set_phase (p : Phase) (status code : string) (now : time) (j : Journal) : Journal :=
  mkJournal (jr_Schema j) (jr_Transaction j) p status (jr_StartedAt j) now (jr_Deadline j)
    (jr_BackupDir j) (jr_Generation j) (jr_Committed j) (jr_Summary j) code.
Definition touch (now : time) (j : Journal) : Journal := set_phase (jr_Phase j) (jr_Status j) (jr_ErrorCode j) now j.
Definition set_deadline (d : time) (j : Journal) : Journal :=
  mkJournal (jr_Schema j) (jr_Transaction j) (jr_Phase j) (jr_Status j) (jr_StartedAt j) (jr_UpdatedAt j) d
    (jr_BackupDir j) (jr_Generation j) (jr_Committed j) (jr_Summary j) (jr_ErrorCode j).
Definition set_backup (dir : string) (j : Journal) : Journal :=
  mkJournal (jr_Schema j) (jr_Transaction j) (jr_Phase j) (jr_Status j) (jr_StartedAt j) (jr_UpdatedAt j) (jr_Deadline j)
    dir (jr_Generation j) (jr_Committed j) (jr_Summary j) (jr_ErrorCode j).
Definition set_generation (g : N) (j : Journal) : Journal :=
  mkJournal (jr_Schema j) (jr_Transaction j) (jr_Phase j) (jr_Status j) (jr_StartedAt j) (jr_UpdatedAt j) (jr_Deadline j)
    (jr_BackupDir j) g (jr_Committed j) (jr_Summary j) (jr_ErrorCode j).
Definition set_committed (b : bool) (j : Journal) : Journal :=
  mkJournal (jr_Schema j) (jr_Transaction j) (jr_Phase j) (jr_Status j) (jr_StartedAt j) (jr_UpdatedAt j) (jr_Deadline j)
    (jr_BackupDir j) (jr_Generation j) b (jr_Summary j) (jr_ErrorCode j).

(** JSON omits an empty list of Docker networks, so it reads back as [nil]. *)
Definition stored_summary (s : Summary) : Summary :=
  mkSummary (sum_Schema s) (sum_Uplink s) (sum_VPNInterface s) (sum_IPv6Interfaces s) (sum_LANNetworks s) (sum_ManagementTCP s)
    (sum_PublicTCP s) (sum_PublicUDP s) (sum_IPv6Mode s) (sum_BootPolicy s) (sum_DockerMode s)
    (match sum_DockerNetworks s with Some [] => None | l => l end) (sum_DockerRestart s) (sum_ResolverMode s)
    (sum_NetworkProducers s) (sum_SourceModeWarning s).
Definition stored (j : Journal) : Journal :=
  mkJournal (jr_Schema j) (jr_Transaction j) (jr_Phase j) (jr_Status j) (jr_StartedAt j) (jr_UpdatedAt j) (jr_Deadline j)
    (jr_BackupDir j) (jr_Generation j) (jr_Committed j) (stored_summary (jr_Summary j)) (jr_ErrorCode j).

(** ** Classes of journals *)

Definition journal_schema : string := "nftfw.setup-journal.v1".
Definition plan_schema : string := "nftfw.setup-plan.v1".
(** [^[A-Za-z0-9][A-Za-z0-9_.-]{0,127}$] *)
Definition journalIdentityPattern : string → bool := matches_head_tail is_alnum (λ c, is_alnum c || one_of "_.-" c) 0 127.
Definition code_char (c : ascii) : bool := is_upper c || is_digit c || Ascii.eqb c "_"%char.
Definition validJournalPath (path : string) : bool := IsAbs path && String.eqb (Clean path) path.
Definition validSHA256 (s : string) : bool := (slen s =? 64)%nat && String.eqb (trim s "0123456789abcdef") "".

Definition ordered_times (j : Journal) : bool :=
  negb (is_zero_time (jr_StartedAt j)) && negb (is_zero_time (jr_UpdatedAt j)) && negb (is_zero_time (jr_Deadline j)) &&
  negb (jr_UpdatedAt j <? jr_StartedAt j) && negb (jr_Deadline j <? jr_StartedAt j).
(** What [readJournalFile] requires of the journal it decodes. *)
Definition readable (j : Journal) : bool :=
  String.eqb (jr_Schema j) journal_schema && journalIdentityPattern (jr_Transaction j) && ordered_times j.

Definition terminalRolledBackJournal (j : Journal) : bool :=
  String.eqb (jr_Status j) "rolled_back" && String.eqb (jr_Phase j) PhaseFailed && negb (jr_Committed j) && journalIdentityPattern (jr_Transaction j) &&
  (String.eqb (jr_BackupDir j) "" || validJournalPath (jr_BackupDir j)) &&
  (String.eqb (jr_ErrorCode j) "" ||
   (slen (jr_ErrorCode j) <=? 96)%nat && String.eqb (trim (jr_ErrorCode j) "ABCDEFGHIJKLMNOPQRSTUVWXYZ0123456789_") "").
Definition initialSetupJournal (j : Journal) : bool :=
  String.eqb (jr_Schema j) journal_schema && journalIdentityPattern (jr_Transaction j) && String.eqb (jr_Phase j) PhaseInspect &&
  String.eqb (jr_Status j) "running" && negb (jr_Committed j) && (jr_Generation j =? 0)%N && String.eqb (jr_BackupDir j) "" &&
  String.eqb (jr_ErrorCode j) "" && String.eqb (sum_Schema (jr_Summary j)) plan_schema && ordered_times j.
Definition journalNeedsRecovery (status : string) : bool :=
  existsb (String.eqb status) ["running"; "resume_ready"; "rolling_back"; "recovering_committed"; "rollback_failed"; "commit_state_unknown"; "committed_recovery_failed"].
Definition journalBeforeProtectedMutation (j : Journal) : bool :=
  negb (jr_Committed j || negb (jr_Generation j =? 0)%N || negb (String.eqb (jr_BackupDir j) "")) &&
  (String.eqb (jr_Phase j) PhaseInspect || String.eqb (jr_Phase j) PhaseBackup).
Definition producers (s : Summary) : list string := default [] (sum_NetworkProducers s).
Definition rebootRequiredJournal (j : Journal) : bool :=
  String.eqb (jr_Schema j) journal_schema && journalIdentityPattern (jr_Transaction j) && String.eqb (jr_Phase j) PhaseBootPrep &&
  (String.eqb (jr_Status j) "reboot_required" || String.eqb (jr_Status j) "resume_ready") && negb (jr_Committed j) && (jr_Generation j =? 0)%N &&
  negb (String.eqb (jr_BackupDir j) "") && validJournalPath (jr_BackupDir j) && String.eqb (sum_Schema (jr_Summary j)) plan_schema &&
  negb (bool_decide (is_Some (ValidateUnits (producers (jr_Summary j))))) && String.eqb (jr_ErrorCode j) "".

(** [errorCode]: a short code is kept, any other error becomes a general one. *)
Definition errorCode (e : err) : string :=
  let value := err_text e in
  if (0 <? slen value)%nat && (slen value <=? 96)%nat && all_chars code_char value then value else "SETUP_FAILED".

(** ** The text of a journal *)

Definition spaces (n : nat) : string := of_chars (repeat " "%char n).
Definition indent_block (open close : string) (depth : nat) (items : list string) : string :=
  match items with
  | [] => open +:+ close
  | _ => open +:+ newline +:+ String.concat ("," +:+ newline) (map (λ s, spaces (2 * S depth) +:+ s) items)
           +:+ newline +:+ spaces (2 * depth) +:+ close
  end.
(** [json.MarshalIndent(v, "", "  ")] *)
Fixpoint json_indent (depth : nat) (j : json) : string :=
  match j with
  | JArr l => indent_block "[" "]" depth (map (json_indent (S depth)) l)
  | JObj l => indent_block "{" "}" depth (map (λ m, json_string m.1 +:+ ": " +:+ json_indent (S depth) m.2) l)
  | JNull => "null"
  | JBool b => json_bool b
  | JNum z => pretty z
  | JStr s => json_string s
  end.

Definition json_slice {A} (f : A → json) (l : slice A) : json := match l with None => JNull | Some l => JArr (map f l) end.
Definition omit_empty (name value : string) : list (string * json) := if String.eqb value "" then [] else [(name, JStr value)].
Definition summary_json (s : Summary) : json :=
  JObj ([("schema", JStr (sum_Schema s)); ("uplink", JStr (sum_Uplink s)); ("vpn_interface", JStr (sum_VPNInterface s));
         ("ipv6_interfaces", json_slice JStr (sum_IPv6Interfaces s)); ("lan_networks", json_slice JStr (sum_LANNetworks s));
         ("management_tcp", json_slice JNum (sum_ManagementTCP s)); ("public_tcp", json_slice JNum (sum_PublicTCP s));
         ("public_udp", json_slice JNum (sum_PublicUDP s)); ("ipv6_mode", JStr (sum_IPv6Mode s))] ++
        omit_empty "boot_policy" (sum_BootPolicy s) ++ [("docker_mode", JStr (sum_DockerMode s))] ++
        match sum_DockerNetworks s with None | Some [] => [] | l => [("docker_networks", json_slice JStr l)] end ++
        [("docker_restart_required", JBool (sum_DockerRestart s)); ("resolver_mode", JStr (sum_ResolverMode s));
         ("network_producers", json_slice JStr (sum_NetworkProducers s)); ("source_mode_warning", JBool (sum_SourceModeWarning s))])%list.
Definition json_of_time (t : time) : json := JStr (format_rfc3339nano t).
Definition journal_json (j : Journal) : json :=
  JObj ([("schema", JStr (jr_Schema j)); ("transaction", JStr (jr_Transaction j)); ("phase", JStr (jr_Phase j)); ("status", JStr (jr_Status j));
         ("started_at", json_of_time (jr_StartedAt j)); ("updated_at", json_of_time (jr_UpdatedAt j)); ("deadline", json_of_time (jr_Deadline j))] ++
        omit_empty "backup_dir" (jr_BackupDir j) ++
        (if (jr_Generation j =? 0)%N then [] else [("generation", JNum (Z.of_N (jr_Generation j)))]) ++
        (if jr_Committed j then [("committed", JBool true)] else []) ++
        [("summary", summary_json (jr_Summary j))] ++ omit_empty "error_code" (jr_ErrorCode j))%list.
Definition journal_text (j : Journal) : string := json_indent 0 (journal_json j) +:+ newline.

(** [Time.MarshalJSON] refuses a year that has not four digits. *)
Definition four_digit_year (t : time) : bool := let year := (civil (day_of t)).1.1 in (0 <=? year) && (year <=? 9999).
Definition encodable (j : Journal) : bool := four_digit_year (jr_StartedAt j) && four_digit_year (jr_UpdatedAt j) && four_digit_year (jr_Deadline j).

(** ** The journal on the host *)

(** A file of the setup directory: absent, one that [readJournalFile] refuses with the
    error given ([regular] tells a regular file from a link or directory), or a regular
    file of the process's own, closed to others, that holds the text of a journal. *)
Inductive Slot := NoFile | Damaged (regular : bool) (e : err) | Holds (j : Journal).
#[export] Instance Slot_NoFile_dec (s : Slot) : Decision (s = NoFile).
Proof. destruct s; [by left|by right|by right]. Defined.

(** The calls that the engine makes of the executor. *)
Inductive setup_call :=
  | CallBackup | CallPrepareBoot | CallVerifyBootResume | CallStartGuard | CallInstall | CallConfigureDocker | CallStartRuntime
  | CallApplySafe | CallStartTunnel | CallValidate (g : N) | CallCommit (g : N) | CallPublishFinalDependencies | CallEnableBoot | CallFinalize
  | CallGenerationCommitted (g : N) | CallRollback (j : Journal) | CallRecoverCommitted (j : Journal).
Record visit W := mkVisit { v_call : setup_call; v_file : Slot; v_world : W }.
Arguments mkVisit {W} _ _ _.
Arguments v_call {W} _.
Arguments v_file {W} _.
Arguments v_world {W} _.

(** The setup directory, the host the executor works on, the answers of the clock and
    the calls made so far, newest first, with the journal file and the host as each call
    found them. *)
Record Site W := mkSite {
  st_secure : bool;                 (* the setup directory passes secureSetupDirectory once it exists *)
  st_file : Slot;
  st_history_secure : bool;         (* the same of its subdirectory history *)
  st_history : gmap string Slot;    (* the entries of history that exist *)
  st_world : W;
  st_clock : list time;
  st_calls : list (visit W)
}.
Arguments mkSite {W} _ _ _ _ _ _ _.
Arguments st_secure {W} _.
Arguments st_file {W} _.
Arguments st_history_secure {W} _.
Arguments st_history {W} _.
Arguments st_world {W} _.
Arguments st_clock {W} _.
Arguments st_calls {W} _.

Section files.
Context {W : Type}.
Implicit Types s : Site W.

Definition with_file (f : Slot) s : Site W :=
  mkSite (st_secure s) f (st_history_secure s) (st_history s) (st_world s) (st_clock s) (st_calls s).
Definition with_archived (name : string) (j : Journal) s : Site W :=
  mkSite (st_secure s) (st_file s) (st_history_secure s) (<[name := Holds j]> (st_history s)) (st_world s) (st_clock s) (st_calls s).
Definition code (c : string) : err := Errorf c [].
(** [if err := m; err != nil { return errors.New(c) }] *)
Definition coded {A} (c : string) (m : M (Site W) A) : M (Site W) A := catch m (λ _, throw (code c)).
(** A system call without effect on what is modelled. *)
Definition syscall : M (Site W) unit := io_read (λ _, Ret tt).

Definition syncSetupDirectory : M (Site W) unit := syscall ;; syscall.
Definition syncRegularSetupFile : M (Site W) unit := syscall ;; syscall.
Definition secureSetupDirectory (dir : string) : M (Site W) unit :=
  let unsafe := code "setup journal directory is unsafe" in
  require (validJournalPath dir) unsafe ;;
  secure <- coded "setup journal directory is unsafe" (io_read (λ s, Ret (st_secure s))) ;;
  require secure unsafe ;;
  coded "setup journal directory is unsafe" syscall.
(** [os.Mkdir] of a directory that exists is no failure. *)
Definition secureHistoryDirectory (dir : string) : M (Site W) unit :=
  require (validJournalPath dir) (code "SETUP_JOURNAL_HISTORY_UNSAFE") ;;
  coded "SETUP_JOURNAL_HISTORY_CREATE_FAILED" syscall ;;
  secure <- coded "SETUP_JOURNAL_HISTORY_UNSAFE" (io_read (λ s, Ret (st_history_secure s))) ;;
  require secure (code "SETUP_JOURNAL_HISTORY_UNSAFE") ;;
  coded "SETUP_JOURNAL_HISTORY_UNSAFE" syscall ;;
  syncSetupDirectory.

(** [readJournalFile] of the file that [look] finds: opened without following links,
    its size bounded before and after the read. *)
Definition text_size (j : Journal) : N := N.of_nat (slen (journal_text j)).
Definition read_limit : N := 1048576.
Definition readJournalFile (path : string) (look : Site W → Slot) : M (Site W) Journal :=
  require (validJournalPath path) (code "SETUP_JOURNAL_PATH_INVALID") ;;
  file <- coded "SETUP_JOURNAL_READ_FAILED" (io_read (λ s, match look s with NoFile => Error ErrNotExist | f => Ret f end)) ;;
  coded "SETUP_JOURNAL_FILE_UNSAFE" syscall ;;
  require (match file with Holds j => (text_size j <=? read_limit)%N | _ => true end) (code "SETUP_JOURNAL_FILE_UNSAFE") ;;
  coded "SETUP_JOURNAL_READ_FAILED" syscall ;;
  coded "SETUP_JOURNAL_CHANGED" syscall ;;
  match file with
  | NoFile => throw (code "SETUP_JOURNAL_READ_FAILED")
  | Damaged _ e => throw e
  | Holds j =>
      require (readable j) (code "SETUP_JOURNAL_INVALID") ;;
      ret (stored j)
  end.

(** [writeAtomic] of the journal file: a temporary file, written and synced, takes its
    name; the temporary, which no reader looks at, is not part of the state. *)
Definition write_limit : N := 4194304.
Definition writeAtomic (path : string) (j : Journal) : M (Site W) unit :=
  require (validJournalPath path && (text_size j <=? write_limit)%N) (code "SETUP_FILE_TARGET_INVALID") ;;
  coded "SETUP_FILE_DIRECTORY_FAILED" syscall ;;
  file <- coded "SETUP_FILE_TARGET_UNSAFE" (io_read (λ s, Ret (st_file s))) ;;
  require (match file with Damaged false _ => false | _ => true end) (code "SETUP_FILE_TARGET_UNSAFE") ;;
  coded "SETUP_FILE_CREATE_FAILED" syscall ;;
  coded "SETUP_FILE_WRITE_FAILED" syscall ;;
  coded "SETUP_FILE_SYNC_FAILED" syscall ;;
  coded "SETUP_FILE_MODE_FAILED" syscall ;;
  coded "SETUP_FILE_SYNC_FAILED" syscall ;;
  coded "SETUP_FILE_PUBLISH_FAILED" (io_write (λ s, (Ret tt, with_file (Holds (stored j)) s))) ;;
  coded "SETUP_FILE_DIRECTORY_FAILED" syscall ;;
  coded "SETUP_FILE_SYNC_FAILED" syscall.

(** ** [FileJournal] *)

Definition Write (path : string) (j : Journal) : M (Site W) unit :=
  require (validJournalPath path) (code "SETUP_JOURNAL_PATH_INVALID") ;;
  coded "SETUP_JOURNAL_DIRECTORY_FAILED" syscall ;;
  coded "SETUP_JOURNAL_DIRECTORY_FAILED" (secureSetupDirectory (Dir path)) ;;
  require (encodable j) (code "SETUP_JOURNAL_ENCODE_FAILED") ;;
  writeAtomic path j.
Definition Read (path : string) : M (Site W) Journal := readJournalFile path st_file.

(** The digest that names a journal is that of its text. *)
Definition journal_digest (j : Journal) : string := sha256_hex (journal_text j).
Definition archive_name (j : Journal) (digest : string) : string := jr_Transaction j +:+ "." +:+ digest +:+ ".json".
Definition archived (name : string) s : Slot := default NoFile (st_history s !! name).
(** The entry read back is the journal archived. *)
Definition same_archive (read : err + Journal) (j : Journal) (digest : string) : bool :=
  match read with
  | inl _ => false
  | inr j' => String.eqb (journal_digest j') digest && String.eqb (journal_text j') (journal_text j) && terminalRolledBackJournal j'
  end.

Definition EEXIST : err := Sentinel "file exists".
Definition archiveTerminalJournal (parent : string) (j : Journal) (digest : string) : M (Site W) unit :=
  coded "SETUP_JOURNAL_HISTORY_UNSAFE" (secureSetupDirectory parent) ;;
  let history := GoPath.Join [parent; "history"] in
  secureHistoryDirectory history ;;
  coded "SETUP_JOURNAL_HISTORY_SYNC_FAILED" syncSetupDirectory ;;
  let name := archive_name j digest in
  let destination := GoPath.Join [history; name] in
  let look := archived name in
  found <- coded "SETUP_JOURNAL_HISTORY_COLLISION" (io_read (λ s, Ret (negb (bool_decide (look s = NoFile))))) ;;
  if found then
    existing <- try_ (readJournalFile destination look) ;;
    require (same_archive existing j digest) (code "SETUP_JOURNAL_HISTORY_COLLISION") ;;
    coded "SETUP_JOURNAL_HISTORY_SYNC_FAILED" (syncRegularSetupFile ;; syncSetupDirectory ;; syncSetupDirectory)
  else
    coded "SETUP_JOURNAL_HISTORY_CREATE_FAILED" syscall ;;
    coded "SETUP_JOURNAL_HISTORY_CREATE_FAILED" syscall ;;
    coded "SETUP_JOURNAL_HISTORY_SYNC_FAILED" syscall ;;
    coded "SETUP_JOURNAL_HISTORY_SYNC_FAILED" syscall ;;
    coded "SETUP_JOURNAL_HISTORY_SYNC_FAILED" syscall ;;
    catch (io_write (λ s, match look s with NoFile => (Ret tt, with_archived name j s) | _ => (Error EEXIST, s) end))
      (λ e, require (negb (is_sentinel "file exists" e)) (code "SETUP_JOURNAL_HISTORY_COLLISION") ;;
            there <- try_ (io_read (λ s, Ret (negb (bool_decide (look s = NoFile))))) ;;
            throw (code (match there with inr true => "SETUP_JOURNAL_HISTORY_COLLISION" | _ => "SETUP_JOURNAL_HISTORY_PUBLISH_FAILED" end))) ;;
    coded "SETUP_JOURNAL_HISTORY_SYNC_FAILED" (syncSetupDirectory ;; syncSetupDirectory) ;;
    back <- try_ (readJournalFile destination look) ;;
    require (same_archive back j digest) (code "SETUP_JOURNAL_HISTORY_VERIFY_FAILED").

Definition Begin (path : string) (j : Journal) (priorSHA256 : string) : M (Site W) unit :=
  require (validJournalPath path) (code "SETUP_JOURNAL_PATH_INVALID") ;;
  require (initialSetupJournal j) (code "SETUP_JOURNAL_INITIAL_INVALID") ;;
  if String.eqb priorSHA256 "" then
    absent <- coded "SETUP_JOURNAL_LINEAGE_UNEXPECTED" (io_read (λ s, Ret (bool_decide (st_file s = NoFile)))) ;;
    require absent (code "SETUP_JOURNAL_LINEAGE_UNEXPECTED") ;;
    Write path j
  else
    require (validSHA256 priorSHA256) (code "SETUP_JOURNAL_LINEAGE_INVALID") ;;
    prior <- coded "SETUP_JOURNAL_LINEAGE_CHANGED" (readJournalFile path st_file) ;;
    require (String.eqb (journal_digest prior) priorSHA256 && terminalRolledBackJournal prior &&
             negb (String.eqb (jr_Transaction prior) (jr_Transaction j))) (code "SETUP_JOURNAL_LINEAGE_CHANGED") ;;
    archiveTerminalJournal (Dir path) prior priorSHA256 ;;
    Write path j.
End files.
