(* ===== verification/SetupEngine.v ===== *)
(** The managed setup (internal/setup/engine.go): an installation in phases, each
    recorded in the journal before it runs, and what becomes of one that fails or whose
    process died.  The operations of the host are the [Executor]'s; the engine decides
    which of them runs, with what recorded, and what a failure does. *)

From S2P Require Import Prelude GoStrings GoTime GoPath Ledger Snapshot NetGate SetupJournal.
From Stdlib Require Import Ascii String.
Local Open Scope string_scope.
Local Open Scope Z_scope.
Local Open Scope host_scope.
Abbreviation length := List.length.

Definition ErrRebootRequired : err := Sentinel "SETUP_REBOOT_REQUIRED".
Definition ErrRollbackRebootRequired : err := Sentinel "SETUP_ROLLBACK_REBOOT_REQUIRED".

(** [PD] is the executor's own data in a plan ([PrivateData any]). *)
Record Plan PD := mkPlan {
  plan_VPNSource : string; plan_Summary : Summary; plan_PrivateData : PD; plan_PriorJournalSHA256 : string;
  plan_ResumeJournal : option Journal; plan_ResumeReady : bool
}.
Arguments mkPlan {PD} _ _ _ _ _ _.
Arguments plan_VPNSource {PD} _.
Arguments plan_Summary {PD} _.
Arguments plan_PrivateData {PD} _.
Arguments plan_PriorJournalSHA256 {PD} _.
Arguments plan_ResumeJournal {PD} _.
Arguments plan_ResumeReady {PD} _.

(** The interface [bootTransactionExecutor], which an executor may have too. *)
Record bootTransactionExecutor W PD := mkBoot {
  BootTransactionRequired : Plan PD → bool;
  PrepareBoot : Plan PD → M W unit;
  VerifyBootResume : Plan PD → M W unit
}.
Arguments mkBoot {W PD} _ _ _.
Arguments BootTransactionRequired {W PD} _ _.
Arguments PrepareBoot {W PD} _ _.
Arguments VerifyBootResume {W PD} _ _.

(** The interface [Executor].  [Prepare] also reads the setup directory: the journal file
    and the history. *)
Record Executor W PD := mkExecutor {
  ex_Prepare : string → Slot → gmap string Slot → M W (Plan PD);
  ex_Backup : Plan PD → M W string;
  ex_StartGuard : Plan PD → M W unit;
  ex_Install : Plan PD → M W unit;
  ex_ConfigureDocker : Plan PD → M W unit;
  ex_StartRuntime : Plan PD → M W unit;
  ex_ApplySafe : Plan PD → M W N;
  ex_StartTunnel : Plan PD → M W unit;
  ex_Validate : Plan PD → N → M W unit;
  ex_Commit : Plan PD → N → M W unit;
  ex_PublishFinalDependencies : Plan PD → M W unit;
  ex_EnableBoot : Plan PD → M W unit;
  ex_Finalize : Plan PD → M W unit;
  ex_GenerationCommitted : N → M W bool;
  ex_Rollback : Plan PD → Journal → M W unit;
  ex_RecoverCommitted : Plan PD → Journal → M W unit;
  boot_executor : option (bootTransactionExecutor W PD)
}.
Arguments mkExecutor {W PD} _ _ _ _ _ _ _ _ _ _ _ _ _ _ _ _ _.
Arguments ex_Prepare {W PD} _ _ _ _.
Arguments ex_Backup {W PD} _ _.
Arguments ex_StartGuard {W PD} _ _.
Arguments ex_Install {W PD} _ _.
Arguments ex_ConfigureDocker {W PD} _ _.
Arguments ex_StartRuntime {W PD} _ _.
Arguments ex_ApplySafe {W PD} _ _.
Arguments ex_StartTunnel {W PD} _ _.
Arguments ex_Validate {W PD} _ _ _.
Arguments ex_Commit {W PD} _ _ _.
Arguments ex_PublishFinalDependencies {W PD} _ _.
Arguments ex_EnableBoot {W PD} _ _.
Arguments ex_Finalize {W PD} _ _.
Arguments ex_GenerationCommitted {W PD} _ _.
Arguments ex_Rollback {W PD} _ _ _.
Arguments ex_RecoverCommitted {W PD} _ _ _.
Arguments boot_executor {W PD} _.

(** [Engine]; [en_Journal] is the path of its [FileJournal]. *)
Record Engine W PD := mkEngine {
  en_Executor : option (Executor W PD); en_Journal : option string; en_NewID : option string; en_Timeout : Z
}.
Arguments mkEngine {W PD} _ _ _ _.
Arguments en_Executor {W PD} _.
Arguments en_Journal {W PD} _.
Arguments en_NewID {W PD} _.
Arguments en_Timeout {W PD} _.

Section engine.
Context {W PD : Type}.
Implicit Types (s : Site W) (plan : Plan PD).

(** [now().UTC()]: any answer is possible. *)
Definition now : M (Site W) time := λ o s,
  match st_clock s with
  | [] => (Ret zero_time, o, s)
  | t :: c => (Ret t, o, mkSite (st_secure s) (st_file s) (st_history_secure s) (st_history s) (st_world s) c (st_calls s))
  end.
(** A call of the executor: what it finds is noted, and it works on the host alone. *)
Definition noted (c : setup_call) s : Site W :=
  mkSite (st_secure s) (st_file s) (st_history_secure s) (st_history s) (st_world s) (st_clock s)
    (mkVisit c (st_file s) (st_world s) :: st_calls s).
Definition on_host (w : W) s : Site W :=
  mkSite (st_secure s) (st_file s) (st_history_secure s) (st_history s) w (st_clock s) (st_calls s).
Definition call {A} (c : setup_call) (op : M W A) : M (Site W) A := λ o s,
  let '(r, o', w) := op o (st_world s) in (r, o', on_host w (noted c s)).
Definition prepare (ex : Executor W PD) (vpnPath : string) : M (Site W) (Plan PD) := λ o s,
  let '(r, o', w) := ex_Prepare ex vpnPath (st_file s) (st_history s) o (st_world s) in (r, o', on_host w s).

Context (ex : Executor W PD) (path : string).

(** [journal.Phase, journal.Status, journal.ErrorCode = ...; journal.UpdatedAt = now().UTC()],
    and the write of the result. *)
Definition update (phase : Phase) (status error : string) (j : Journal) : M (Site W) Journal :=
  t <- now ;; ret (set_phase phase status error t j).
Definition write_result (c : string) (j : Journal) : M (Site W) (option err) :=
  w <- try_ (Write path j) ;; ret (match w with inl _ => Some (code c) | inr _ => None end).
Abbreviation result_failed := "SETUP_RECOVERY_RESULT_WRITE_FAILED".
Abbreviation transition_failed := "SETUP_RECOVERY_TRANSITION_WRITE_FAILED".
(** The journal takes its last form and [e] is what the caller gets. *)
Definition conclude (phase : Phase) (status error : string) (e : err) (j : Journal) : M (Site W) err :=
  j <- update phase status error j ;;
  failed <- write_result result_failed j ;;
  ret (default e failed).

Definition recover_committed plan (cause : err) (j : Journal) : M (Site W) err :=
  j <- update (jr_Phase j) "recovering_committed" (errorCode cause) j ;;
  failed <- write_result transition_failed j ;;
  match failed with
  | Some e => ret e
  | None =>
      recovered <- try_ (call (CallRecoverCommitted j) (ex_RecoverCommitted ex plan j)) ;;
      match recovered with
      | inl e => conclude (jr_Phase j) "committed_recovery_failed" (errorCode e)
                   (Errorf "%s; SETUP_COMMITTED_RECOVERY_FAILED" [ArgS (errorCode cause)]) j
      | inr _ => conclude PhaseComplete "complete" "" (code "SETUP_COMMITTED_RECOVERED") j
      end
  end.

Definition roll_back plan (cause : err) (j : Journal) : M (Site W) err :=
  j <- update (jr_Phase j) "rolling_back" (errorCode cause) j ;;
  failed <- write_result transition_failed j ;;
  match failed with
  | Some e => ret e
  | None =>
      undone <- try_ (call (CallRollback j) (ex_Rollback ex plan j)) ;;
      match undone with
      | inl e =>
          if is_sentinel "SETUP_ROLLBACK_REBOOT_REQUIRED" e
          then conclude PhaseFailed "rollback_reboot_required" "" ErrRollbackRebootRequired j
          else conclude (jr_Phase j) "rollback_failed" (errorCode e) (Errorf "%s; SETUP_ROLLBACK_FAILED" [ArgS (errorCode cause)]) j
      | inr _ => conclude PhaseFailed "rolled_back" (jr_ErrorCode j) (code (errorCode cause)) j
      end
  end.

(** A setup known not to be committed is not asked about again. *)
Definition uncommittedKnown (j : Journal) : bool :=
  String.eqb (jr_Status j) "rolling_back" || String.eqb (jr_Status j) "rollback_failed".
Definition undecided (j : Journal) : bool :=
  negb (jr_Committed j) && negb (uncommittedKnown j) && negb (jr_Generation j =? 0)%N.
Definition decided plan (cause : err) (j : Journal) : M (Site W) err :=
  if jr_Committed j then recover_committed plan cause j else roll_back plan cause j.

Definition fail plan (j : Journal) (cause : err) : M (Site W) err :=
  if journalBeforeProtectedMutation j
  then conclude PhaseFailed "rolled_back" (errorCode cause) (code (errorCode cause)) j
  else if undecided j then
    committed <- try_ (call (CallGenerationCommitted (jr_Generation j)) (ex_GenerationCommitted ex (jr_Generation j))) ;;
    match committed with
    | inl _ => conclude (jr_Phase j) "commit_state_unknown" "SETUP_COMMIT_STATE_UNKNOWN" (code "SETUP_COMMIT_STATE_UNKNOWN") j
    | inr b => decided plan cause (set_committed b j)
    end
  else decided plan cause j.

(** [return Plan{}, e.fail(ctx, plan, journal, err)] *)
Definition failing {A} plan (j : Journal) (cause : err) : M (Site W) A := e <- fail plan j cause ;; throw e.
Definition write_or_fail plan (j : Journal) : M (Site W) unit :=
  catch (Write path j) (λ _, failing plan j (code "SETUP_JOURNAL_WRITE_FAILED")).
Definition run_or_fail {A} plan (j : Journal) (m : M (Site W) A) : M (Site W) A := catch m (failing plan j).

(** ** The phases *)

Definition plain (c : setup_call) (op : M W unit) (j : Journal) : M (Site W) Journal := call c op ;; ret j.
Definition steps plan : list (Phase * (Journal → M (Site W) Journal)) :=
  [(PhaseGuard, plain CallStartGuard (ex_StartGuard ex plan));
   (PhaseInstall, plain CallInstall (ex_Install ex plan));
   (PhaseDocker, plain CallConfigureDocker (ex_ConfigureDocker ex plan));
   (PhaseRuntime, plain CallStartRuntime (ex_StartRuntime ex plan));
   (PhaseApply, λ j, generation <- call CallApplySafe (ex_ApplySafe ex plan) ;; ret (set_generation generation j));
   (PhaseTunnel, plain CallStartTunnel (ex_StartTunnel ex plan));
   (PhaseValidate, λ j, plain (CallValidate (jr_Generation j)) (ex_Validate ex plan (jr_Generation j)) j);
   (PhaseCommit, λ j, call (CallCommit (jr_Generation j)) (ex_Commit ex plan (jr_Generation j)) ;; ret (set_committed true j));
   (PhaseHandoff, plain CallPublishFinalDependencies (ex_PublishFinalDependencies ex plan));
   (PhaseBoot, plain CallEnableBoot (ex_EnableBoot ex plan));
   (PhaseFinalize, plain CallFinalize (ex_Finalize ex plan))].

Definition run_step plan (step : Phase * (Journal → M (Site W) Journal)) (j : Journal) : M (Site W) Journal :=
  t <- now ;;
  if negb (t <? jr_Deadline j) then failing plan j (code "SETUP_DEADLINE_EXPIRED")
  else
    j <- update step.1 (jr_Status j) (jr_ErrorCode j) j ;;
    write_or_fail plan j ;;
    j <- run_or_fail plan j (step.2 j) ;;
    t <- now ;;
    write_or_fail plan (touch t j) ;;
    ret (touch t j).
Fixpoint run_steps plan (l : list (Phase * (Journal → M (Site W) Journal))) (j : Journal) : M (Site W) Journal :=
  match l with
  | [] => ret j
  | step :: l' => j <- run_step plan step j ;; run_steps plan l' j
  end.

(** ** [Run]

    The plan and [ErrRebootRequired] are returned together; with any other error the
    plan is empty. *)

(** Continuing after the reboot that [PrepareBoot] asked for. *)
Definition resume (boot : option (bootTransactionExecutor W PD)) plan (j : Journal) (started : time) (timeout : Z) : M (Site W) (option Journal) :=
  match boot with
  | Some b =>
      require (rebootRequiredJournal j && bool_decide (jr_Summary j = plan_Summary plan)) (code "SETUP_RESUME_STATE_INVALID") ;;
      if negb (plan_ResumeReady plan) then ret None
      else
        let j := set_deadline (started + timeout) (set_phase (jr_Phase j) "resume_ready" "" started j) in
        coded "SETUP_JOURNAL_WRITE_FAILED" (Write path j) ;;
        run_or_fail plan j (call CallVerifyBootResume (VerifyBootResume b plan)) ;;
        j <- update (jr_Phase j) "running" (jr_ErrorCode j) j ;;
        write_or_fail plan j ;;
        ret (Some j)
  | None => throw (code "SETUP_RESUME_STATE_INVALID")
  end.

Definition begin (boot : option (bootTransactionExecutor W PD)) plan (id : string) (started : time) (timeout : Z) : M (Site W) (option Journal) :=
  let j := mkJournal journal_schema id PhaseInspect "running" started started (started + timeout) "" 0 false (plan_Summary plan) "" in
  coded "SETUP_JOURNAL_WRITE_FAILED" (Begin path j (plan_PriorJournalSHA256 plan)) ;;
  j <- update PhaseBackup "running" "" j ;;
  write_or_fail plan j ;;
  backup <- run_or_fail plan j (call CallBackup (ex_Backup ex plan)) ;;
  t <- now ;;
  let j := touch t (set_backup backup j) in
  write_or_fail plan j ;;
  match boot with
  | Some b =>
      j <- update PhaseBootPrep (jr_Status j) (jr_ErrorCode j) j ;;
      write_or_fail plan j ;;
      run_or_fail plan j (call CallPrepareBoot (PrepareBoot b plan)) ;;
      j <- update (jr_Phase j) "reboot_required" "" j ;;
      write_or_fail plan j ;;
      ret None
  | None => ret (Some j)
  end.

Definition unix_epoch : Z := 62135596800 * second.
(** [fmt.Sprintf("%d", now().UTC().UnixNano())] *)
Definition default_id : M (Site W) string := t <- now ;; ret (pretty (wrap64 (t - unix_epoch))).
Definition default_timeout : Z := 900 * second.

Definition run (newID : option string) (timeout : Z) (vpnPath : string) : M (Site W) (Plan PD * option err) :=
  plan <- catch (prepare ex vpnPath) (λ e, throw (code (errorCode e))) ;;
  require (String.eqb (sum_Schema (plan_Summary plan)) plan_schema &&
           negb (bool_decide (is_Some (ValidateUnits (producers (plan_Summary plan)))))) (code "SETUP_PLAN_INVALID") ;;
  let timeout := if timeout <=? 0 then default_timeout else timeout in
  started <- now ;;
  let boot := match boot_executor ex with
              | Some b => if BootTransactionRequired b plan then Some b else None
              | None => None
              end in
  opened <- match plan_ResumeJournal plan with
            | Some j => resume boot plan j started timeout
            | None =>
                id <- match newID with Some id => ret id | None => default_id end ;;
                begin boot plan id started timeout
            end ;;
  match opened with
  | None => ret (plan, Some ErrRebootRequired)
  | Some j =>
      j <- run_steps plan (steps plan) j ;;
      j <- update PhaseComplete "complete" "" j ;;
      coded "SETUP_FINAL_JOURNAL_WRITE_FAILED" (Write path j) ;;
      ret (plan, None)
  end.

Definition rollback_expired plan : M (Site W) (bool * option err) :=
  j <- Read path ;;
  if negb (journalNeedsRecovery (jr_Status j)) then ret (false, None)
  else
    t <- now ;;
    if t <? jr_Deadline j then ret (false, None)
    else e <- fail plan j (code "SETUP_DEADLINE_EXPIRED") ;; ret (true, Some e).
End engine.

(** ** The engine's methods *)

Section methods.
Context {W PD : Type}.
Implicit Types (e : Engine W PD).

Definition DryRun e (vpnPath : string) : M (Site W) (Plan PD) :=
  match en_Executor e with
  | None => throw (code "SETUP_EXECUTOR_MISSING")
  | Some ex => prepare ex vpnPath
  end.
Definition Run e (vpnPath : string) : M (Site W) (Plan PD * option err) :=
  match en_Executor e, en_Journal e with
  | Some ex, Some path => run ex path (en_NewID e) (en_Timeout e) vpnPath
  | _, _ => throw (code "SETUP_ENGINE_INCOMPLETE")
  end.
Definition RollbackExpired e (plan : Plan PD) : M (Site W) (bool * option err) :=
  match en_Executor e, en_Journal e with
  | Some ex, Some path => rollback_expired ex path plan
  | _, _ => throw (code "SETUP_ENGINE_INCOMPLETE")
  end.
End methods.
