(* ===== verification/SetupSafety.v ===== *)
(** What the managed setup guarantees whatever fails and wherever its process dies: the
    executor is called only with the journal naming the call, and a setup whose
    generation is committed is never rolled back. *)

From S2P Require Import Prelude GoStrings GoTime GoPath Ledger Snapshot NetGate SetupJournal SetupEngine.
From Stdlib Require Import Ascii String.
Local Open Scope string_scope.
Local Open Scope Z_scope.
Local Open Scope host_scope.
Abbreviation length := List.length.

(** ** Reasoning about the setup

    [esafe J m P v]: from a site whose journal file, host and calls are [v], [m] ends in
    a view satisfying [J] under every oracle, and returns only values and views in [P]. *)

Record view W := mkView { vw_file : Slot; vw_world : W; vw_calls : list (visit W) }.
Arguments mkView {W} _ _ _.
Arguments vw_file {W} _.
Arguments vw_world {W} _.
Arguments vw_calls {W} _.

Section esafe.
Context {W : Type}.
Implicit Types (J : view W → Prop) (v : view W).

Definition view_of (s : Site W) : view W := mkView (st_file s) (st_world s) (st_calls s).
Definition esafe {A} J (m : M (Site W) A) (P : A → view W → Prop) v : Prop :=
  ∀ s, view_of s = v → safe (λ s, J (view_of s)) m (λ a s, P a (view_of s)) s.

Lemma esafe_final {A} J (m : M (Site W) A) P s o : esafe J m P (view_of s) → J (view_of (final (m o s))).
Proof. intros H. apply (H s eq_refl o). Qed.
Lemma esafe_mono {A} J (m : M (Site W) A) (P Q : A → view W → Prop) v :
  esafe J m P v → (∀ a v', J v' → P a v' → Q a v') → esafe J m Q v.
Proof. intros H HPQ s Hs. eapply safe_mono; [by apply H|]. simpl. eauto. Qed.
Lemma esafe_weaken {A} K J (m : M (Site W) A) (P Q : A → view W → Prop) v :
  esafe K m P v → (∀ v', K v' → J v') → (∀ a v', K v' → P a v' → Q a v') → esafe J m Q v.
Proof. intros H HKJ HPQ s Hs. eapply safe_inv_mono; [|eapply safe_mono; [by apply H|]]; simpl; eauto. Qed.
Lemma esafe_ret {A} J (a : A) (P : A → view W → Prop) v : J v → P a v → esafe J (ret a) P v.
Proof. intros ?? s <-. by apply safe_ret. Qed.
Lemma esafe_throw {A} J e (P : A → view W → Prop) v : J v → esafe J (throw e) P v.
Proof. intros ? s <-. by apply safe_throw. Qed.
Lemma esafe_bind {A B} J (m : M (Site W) A) (f : A → M (Site W) B) P v :
  esafe J m (λ a v', esafe J (f a) P v') v → esafe J (bind m f) P v.
Proof. intros H s Hs. apply safe_bind. eapply safe_mono; [by apply H|]. intros a s' _ H'. by apply H'. Qed.
Lemma esafe_require J b e P v : J v → (b = true → P tt v) → esafe J (require b e) P v.
Proof. intros ?? s <-. by apply safe_require. Qed.
(** What the failing part keeps may be stronger than what the whole keeps. *)
Lemma esafe_catch {A} (J K : view W → Prop) (m : M (Site W) A) h P v :
  (∀ v', K v' → J v') → esafe K m P v → (∀ e v', K v' → esafe J (h e) P v') → esafe J (catch m h) P v.
Proof.
  intros HKJ H Hh s Hs. apply safe_catch. intros o. specialize (H s Hs o). simpl in *. destruct H as [HK H]. split; [auto|].
  destruct (result (m o s)); [done| |done]. by apply (Hh _ _ HK).
Qed.
Lemma esafe_try {A} (J K : view W → Prop) (m : M (Site W) A) P Q v :
  (∀ v', K v' → J v') → esafe K m Q v → (∀ a v', K v' → Q a v' → P (inr a) v') → (∀ e v', K v' → P (inl e) v') → esafe J (try_ m) P v.
Proof.
  intros HKJ H Hr He s Hs. apply safe_try. intros o. specialize (H s Hs o). simpl in *. destruct H as [HK H]. split; [auto|].
  destruct (result (m o s)); auto.
Qed.
Lemma esafe_coded {A} J c (m : M (Site W) A) P v : esafe J m P v → esafe J (coded c m) P v.
Proof. intros H. eapply esafe_catch; [|exact H|]; [done|]. intros e v' HJ. by apply esafe_throw. Qed.
Lemma esafe_read {A} J (f : Site W → outcome A) (P : A → view W → Prop) v : J v →
  (∀ s a, view_of s = v → f s = Ret a → P a v) → esafe J (io_read f) P v.
Proof. intros HJ HP s Hs. apply safe_io_read; rewrite ?Hs; eauto. Qed.
Lemma esafe_syscall J P v : J v → P tt v → esafe J syscall P v.
Proof. intros ??. by apply esafe_read; [|intros ? [] ??]. Qed.
Lemma esafe_write J (f : Site W → outcome unit * Site W) (P : unit → view W → Prop) v : J v →
  (∀ s, view_of s = v → J (view_of (f s).2) ∧ P tt (view_of (f s).2)) → esafe J (io_write f) P v.
Proof.
  intros HJ H s Hs. destruct (H s Hs) as [H1 H2]. apply safe_io_write; [by rewrite Hs|done|].
  intros [] s' E. by rewrite E in H2.
Qed.
Lemma esafe_now J P v : J v → (∀ t, P t v) → esafe J now P v.
Proof. intros ?? s <- o. unfold now. destruct (st_clock s); simpl; auto. Qed.
Lemma esafe_call {A} J c (op : M W A) (P : A → view W → Prop) v :
  safe (λ w, J (mkView (vw_file v) w (mkVisit c (vw_file v) (vw_world v) :: vw_calls v))) op
    (λ a w, P a (mkView (vw_file v) w (mkVisit c (vw_file v) (vw_world v) :: vw_calls v))) (vw_world v) →
  esafe J (call c op) P v.
Proof.
  intros H s <- o. specialize (H o). unfold call, result, final in *. simpl in *.
  by destruct (op o (st_world s)) as [[r o'] w].
Qed.
End esafe.

Ltac estep :=
  lazymatch goal with
  | |- esafe _ (bind _ _) _ _ => apply esafe_bind
  | |- esafe _ (ret _) _ _ => apply esafe_ret
  | |- esafe _ (throw _) _ _ => apply esafe_throw
  | |- esafe _ (require _ _) _ _ => apply esafe_require; [|intros ?]
  | |- esafe _ (coded _ _) _ _ => apply esafe_coded
  | |- esafe _ syscall _ _ => apply esafe_syscall
  | |- esafe _ (io_read _) _ _ => apply esafe_read; [|intros ? ? ? ?]
  | |- esafe _ now _ _ => apply esafe_now; [|let t := fresh "t" in intros t]
  | |- esafe _ (match ?x with _ => _ end) _ _ => destruct x eqn:?
  end.

(** ** The files *)

Section secure.
Context {W : Type}.
Implicit Types (J : view W → Prop) (v : view W).

Lemma esafe_secure J dir P v : J v → P tt v → esafe J (secureSetupDirectory dir) P v.
Proof. intros ??. unfold secureSetupDirectory. repeat (estep; try done). Qed.
Lemma esafe_sync J P v : J v → P tt v → esafe J syncSetupDirectory P v.
Proof. intros ??. unfold syncSetupDirectory. repeat (estep; try done). Qed.
Lemma esafe_secure_history J dir P v : J v → P tt v → esafe J (secureHistoryDirectory dir) P v.
Proof. intros ??. unfold secureHistoryDirectory. repeat (estep; try done). by apply esafe_sync. Qed.

End secure.

Ltac esteps := repeat (first [estep | apply esafe_secure | apply esafe_sync | apply esafe_secure_history]; try done).

Section files.
Context {W : Type}.
Implicit Types (J : view W → Prop) (v : view W).

(** A view after the journal was written. *)
Definition holding (j : Journal) v : view W := mkView (Holds (stored j)) (vw_world v) (vw_calls v).

Lemma esafe_Write J path j P v : J v → J (holding j v) → P tt (holding j v) → esafe J (Write path j) P v.
Proof.
  intros H1 H2 H3. unfold Write, writeAtomic. esteps. apply esafe_write; [done|]. intros s1 <-. split; [done|]. esteps.
Qed.

Lemma esafe_readJournalFile J path look P v : J v →
  (∀ s j, view_of s = v → look s = Holds j → P (stored j) v) → esafe J (readJournalFile path look) P v.
Proof.
  intros HJ HP. unfold readJournalFile. estep. estep; [done|]. estep. estep. apply esafe_read; [done|]. intros s a Hs Ha.
  esteps. destruct (look s) eqn:E; simplify_eq. eauto.
Qed.

Lemma esafe_try_read J path look P v : J v → (∀ r, P r v) → esafe J (try_ (readJournalFile path look)) P v.
Proof.
  intros HJ HP. apply (esafe_try J (λ v', J v' ∧ v' = v) _ _ (λ _ v', v' = v)).
  - by intros v' [? _].
  - by apply esafe_readJournalFile.
  - by intros r v' [_ ->] _.
  - by intros e v' [_ ->].
Qed.
(** What the history holds is not in the view. *)
Lemma esafe_archive J parent j digest P v : J v → P tt v → esafe J (archiveTerminalJournal parent j digest) P v.
Proof.
  intros HJ HP. unfold archiveTerminalJournal, syncRegularSetupFile. esteps.
  - apply esafe_try_read; [done|]. intros r. esteps.
  - apply (esafe_catch J (λ v', J v' ∧ v' = v)); [by intros ? []| |].
    + apply esafe_write; [done|]. intros s1 <-. split; [by destruct (archived _ s1)|]. destruct (archived _ s1); simpl.
      all: esteps; try (apply esafe_try_read; [done|]; intros r; esteps).
    + intros e v' [? ->]. esteps. apply (esafe_try J (λ v', J v' ∧ v' = v) _ _ (λ _ v', v' = v)); [by intros ? []| | |].
      * esteps.
      * intros r v1 [? ->] _. esteps.
      * intros r v1 [? ->]. esteps.
Qed.

Lemma esafe_Begin J path j digest P v : J v → J (holding j v) → P tt (holding j v) → esafe J (Begin path j digest) P v.
Proof.
  intros H1 H2 H3. unfold Begin. esteps; [by apply esafe_Write|]. apply esafe_readJournalFile; [done|]. intros s j0 Hs _.
  estep. estep; [exact H1|]. estep.
  apply esafe_archive; [done|]. by apply esafe_Write.
Qed.
End files.

(** ** Every call is recorded *)

Definition named (p : Phase) (status : string) (j : Journal) : bool := String.eqb (jr_Phase j) p && String.eqb (jr_Status j) status.
(** The journal that must be on disk while the executor is called. *)
Definition names (c : setup_call) (j : Journal) : bool :=
  match c with
  | CallBackup => named PhaseBackup "running" j
  | CallPrepareBoot => named PhaseBootPrep "running" j
  | CallVerifyBootResume => named PhaseBootPrep "resume_ready" j
  | CallStartGuard => named PhaseGuard "running" j
  | CallInstall => named PhaseInstall "running" j
  | CallConfigureDocker => named PhaseDocker "running" j
  | CallStartRuntime => named PhaseRuntime "running" j
  | CallApplySafe => named PhaseApply "running" j
  | CallStartTunnel => named PhaseTunnel "running" j
  | CallValidate g => named PhaseValidate "running" j && (jr_Generation j =? g)%N
  | CallCommit g => named PhaseCommit "running" j && (jr_Generation j =? g)%N
  | CallPublishFinalDependencies => named PhaseHandoff "running" j && jr_Committed j
  | CallEnableBoot => named PhaseBoot "running" j && jr_Committed j
  | CallFinalize => named PhaseFinalize "running" j && jr_Committed j
  | CallGenerationCommitted _ => true
  | CallRollback j' => bool_decide (j = stored j') && String.eqb (jr_Status j) "rolling_back" && negb (jr_Committed j)
  | CallRecoverCommitted j' => bool_decide (j = stored j') && String.eqb (jr_Status j) "recovering_committed" && jr_Committed j
  end.
Definition recorded {W} (x : visit W) : bool :=
  match v_call x, v_file x with
  | CallGenerationCommitted _, _ => true
  | c, Holds j => names c j
  | _, _ => false
  end.

(** A series of sessions with the journal: setups, recoveries after a deadline, and
    whatever else happens to the host in between.  The process may die in any of them. *)
Inductive session (W PD : Type) :=
  | Setup (e : Engine W PD) (vpnPath : string) (o : oracle)
  | Recovery (e : Engine W PD) (plan : Plan PD) (o : oracle)
  | Elsewhere (f : W → W).
Arguments Setup {W PD} _ _ _.
Arguments Recovery {W PD} _ _ _.
Arguments Elsewhere {W PD} _.

Definition happen {W PD} (s : Site W) (x : session W PD) : Site W :=
  match x with
  | Setup e vpnPath o => final (Run e vpnPath o s)
  | Recovery e plan o => final (RollbackExpired e plan o s)
  | Elsewhere f => on_host (f (st_world s)) s
  end.
Definition after {W PD} (l : list (session W PD)) (s : Site W) : Site W := foldl happen s l.

Section recorded.
Context {W PD : Type}.
Implicit Types (v : view W) (plan : Plan PD) (ex : Executor W PD).

Definition all_recorded v : Prop := Forall recorded (vw_calls v).
Definition on_disk (j : Journal) v : Prop := all_recorded v ∧ vw_file v = Holds (stored j).

Lemma recorded_Write path j v : all_recorded v → esafe all_recorded (Write path j) (λ _, on_disk j) v.
Proof. intros H. by apply esafe_Write. Qed.
Lemma recorded_call {A} c (op : M W A) j v : on_disk j v → recorded (mkVisit c (Holds (stored j)) (vw_world v)) = true →
  esafe all_recorded (call c op) (λ _, on_disk j) v.
Proof.
  intros [Hv Hf] Hc. apply esafe_call. intros o.
  assert (∀ w, all_recorded (mkView (vw_file v) w (mkVisit c (vw_file v) (vw_world v) :: vw_calls v))) as H.
  { intros w. constructor; [by rewrite Hf, Hc|done]. }
  split; [done|]. by destruct (result (op o (vw_world v))).
Qed.
Lemma recorded_conclude path p status error e j v : all_recorded v →
  esafe all_recorded (conclude path p status error e j) (λ _, all_recorded) v.
Proof.
  intros H. unfold conclude, update, write_result. esteps.
  eapply esafe_try; [|by apply recorded_Write| |]; [done|..].
  all: intros; esteps.
Qed.
Hint Extern 1 (esafe _ (conclude _ _ _ _ _ _) _ _) => apply recorded_conclude : core.

Lemma recorded_fail ex path plan j cause v : all_recorded v →
  esafe all_recorded (fail ex path plan j cause) (λ _, all_recorded) v.
Proof.
  intros H. assert (∀ j v, all_recorded v → esafe all_recorded (decided ex path plan cause j) (λ _, all_recorded) v) as Hd.
  { clear H. intros j1 v1 H. unfold decided, recover_committed, roll_back, update, write_result.
    destruct (jr_Committed j1) eqn:Hj; esteps.
    all: eapply esafe_try; [|by apply recorded_Write|intros r v2 H2 Hr|intros e v2 H2]; [done|..]; esteps.
    all: eapply esafe_try; [|apply recorded_call; [exact Hr|]|intros ? v3 H3 _|intros ? v3 H3]; [done|..]; esteps; auto.
    all: unfold recorded, names; simpl; rewrite bool_decide_true by done; by rewrite Hj. }
  unfold fail. esteps; auto. apply esafe_try with (K := all_recorded) (Q := λ _, all_recorded); try done.
  - apply esafe_call. intros o. assert (∀ w x, all_recorded (mkView (vw_file v) w (mkVisit (CallGenerationCommitted x) (vw_file v) (vw_world v) :: vw_calls v))) as H'.
    { intros w x. by constructor. }
    split; [done|]. by destruct (result _).
  - intros b v1 H1 _. by apply Hd.
  - auto.
Qed.
Lemma recorded_failing {A} ex path plan j cause v (P : A → view W → Prop) : all_recorded v →
  esafe all_recorded (failing ex path plan j cause) P v.
Proof. intros H. unfold failing. estep. eapply esafe_mono; [by apply recorded_fail|]. intros. by estep. Qed.
Lemma recorded_write_or_fail ex path plan j v : all_recorded v →
  esafe all_recorded (write_or_fail ex path plan j) (λ _, on_disk j) v.
Proof.
  intros H. eapply esafe_catch; [|by apply recorded_Write|]; [done|]. intros e v1 H1. by apply recorded_failing.
Qed.
Lemma recorded_run_or_fail {A} ex path plan j (m : M (Site W) A) P v : esafe all_recorded m P v →
  esafe all_recorded (run_or_fail ex path plan j m) P v.
Proof. intros H. eapply esafe_catch; [|exact H|]; [done|]. intros e v1 H1. by apply recorded_failing. Qed.

(** The journal of a setup that runs; [c] tells that its generation is committed. *)
Definition running (c : bool) (j : Journal) : Prop := jr_Status j = "running" ∧ (c = true → jr_Committed j = true).
Definition step_ok (c c' : bool) (step : Phase * (Journal → M (Site W) Journal)) : Prop :=
  ∀ j v, running c j → jr_Phase j = step.1 → on_disk j v →
    esafe all_recorded (step.2 j) (λ j' v', running c' j' ∧ all_recorded v') v.
Inductive steps_ok : bool → list (Phase * (Journal → M (Site W) Journal)) → Prop :=
  | steps_done c : steps_ok c []
  | steps_next c c' step l : step_ok c c' step → steps_ok c' l → steps_ok c (step :: l).

Lemma recorded_run_step ex path plan c c' step j v : step_ok c c' step → running c j → all_recorded v →
  esafe all_recorded (run_step ex path plan step j) (λ j' v', running c' j' ∧ all_recorded v') v.
Proof.
  intros Hok [Hr Hc] H. unfold run_step, update. estep. esteps.
  - by apply recorded_failing.
  - eapply esafe_mono; [by apply recorded_write_or_fail|]. intros [] v1 _ H1. estep.
    eapply esafe_mono; [apply recorded_run_or_fail, Hok; [by split|done|exact H1]|]. intros j2 v2 _ [Hr2 H2]. esteps.
    eapply esafe_mono; [by apply recorded_write_or_fail|]. intros [] v3 _ [H3 _]. esteps.
Qed.
Lemma recorded_run_steps ex path plan l c j v : steps_ok c l → running c j → all_recorded v →
  esafe all_recorded (run_steps ex path plan l j) (λ _, all_recorded) v.
Proof.
  intros Hl. revert j v. induction Hl as [c|c c' step l Hok _ IH]; intros j v Hr H; simpl; esteps.
  eapply esafe_mono; [by eapply recorded_run_step|]. intros j1 v1 _ [Hr1 H1]. by apply IH.
Qed.

Lemma recorded_named c j (w : W) : recorded (mkVisit c (Holds j) w) = names c j.
Proof. by destruct c. Qed.
(** A phase makes one call, which its journal names, and updates the journal. *)
Lemma step_call_ok {A} p c (op : Journal → M W A) (g : A → Journal → Journal) b b' :
  (∀ j, jr_Status j = "running" → (b = true → jr_Committed j = true) → jr_Phase j = p →
     names (c j) (stored j) = true ∧ ∀ a, running b' (g a j)) →
  step_ok b b' (p, λ j, a <- call (c j) (op j) ;; ret (g a j)).
Proof.
  intros Hn j v [Hr Hc] Hp H. destruct (Hn j Hr Hc Hp) as [Hj Hg]. simpl. estep.
  eapply esafe_mono; [apply recorded_call; [exact H|by rewrite recorded_named]|]. intros a v1 _ [H1 _]. by estep.
Qed.
Lemma named_stored p status j : jr_Status j = status → jr_Phase j = p → named p status (stored j) = true.
Proof. intros <- <-. unfold named. simpl. by rewrite !String.eqb_refl. Qed.
Ltac phase b := apply (steps_next _ b);
  [apply step_call_ok; intros j Hs Hc Hp; split; [simpl; rewrite named_stored, ?N.eqb_refl, ?Hc by done; done|by intros ?; split]|].
Lemma steps_recorded ex plan : steps_ok false (steps ex plan).
Proof.
  unfold steps, plain. do 7 phase false. do 4 phase true. apply steps_done.
Qed.

(** A journal that is open for the phases. *)
Definition opened (r : option Journal) v : Prop :=
  match r with Some j => running false j ∧ all_recorded v | None => all_recorded v end.
Lemma recorded_call_or_fail {A} ex path plan c (op : M W A) j v : on_disk j v → names c (stored j) = true →
  esafe all_recorded (run_or_fail ex path plan j (call c op)) (λ _, all_recorded) v.
Proof.
  intros H Hc. apply recorded_run_or_fail. eapply esafe_mono; [by apply recorded_call; rewrite ?recorded_named|].
  by intros a v1 _ [].
Qed.
Ltac written := eapply esafe_mono; [by apply recorded_write_or_fail|]; intros [] ? _ [? ?].
Lemma recorded_resume ex path boot plan j started timeout v : all_recorded v →
  esafe all_recorded (resume ex path boot plan j started timeout) opened v.
Proof.
  intros H. unfold resume, update. estep; [|by estep]. estep. estep; [done|]. estep; [by estep|]. esteps.
  eapply esafe_mono; [by apply recorded_Write|]. intros [] v1 _ H1. estep.
  eapply esafe_mono; [apply recorded_call_or_fail; [exact H1|]|].
  - apply named_stored; [done|]. match goal with H : _ && _ = true |- _ => apply andb_true_iff in H as [H _] end.
    unfold rebootRequiredJournal in *. rewrite !andb_true_iff in *. simpl. apply String.eqb_eq. tauto.
  - intros [] v2 _ H2. esteps. written. esteps.
Qed.
Lemma recorded_begin ex path boot plan id started timeout v : all_recorded v →
  esafe all_recorded (begin ex path boot plan id started timeout) opened v.
Proof.
  intros H. unfold begin, update. esteps. apply esafe_Begin; [done..|]. esteps.
  eapply esafe_mono; [by apply recorded_write_or_fail|]. intros [] v1 _ H1. estep.
  eapply esafe_mono; [by apply recorded_call_or_fail|]. intros dir v2 _ H2. esteps.
  written. esteps. eapply esafe_mono; [by apply recorded_write_or_fail|]. intros [] v5 _ K5. estep.
  eapply esafe_mono; [by apply recorded_call_or_fail|]. intros [] v4 _ K4. esteps. written. esteps.
Qed.
Lemma esafe_prepare {A} J (C : W → Prop) ex vpnPath (k : Plan PD → M (Site W) A) Q v :
  (∀ file history, safe C (ex_Prepare ex vpnPath file history) (λ _ _, True) (vw_world v)) →
  (∀ w, C w → J (mkView (vw_file v) w (vw_calls v))) →
  (∀ plan w, C w → esafe J (k plan) Q (mkView (vw_file v) w (vw_calls v))) →
  esafe J (plan <- catch (prepare ex vpnPath) (λ e, throw (code (errorCode e))) ;; k plan) Q v.
Proof.
  intros HC HJ Hk. estep. eapply (esafe_catch J J); [done| |intros; esteps].
  intros s <- o. specialize (HC (st_file s) (st_history s) o). revert HC. simpl. unfold prepare, result, final.
  destruct (ex_Prepare _ _ _ _ _ _) as [[r o'] w]. simpl. intros [Hw _]. split; [by apply HJ|]. destruct r; [by apply Hk|done..].
Qed.
Lemma recorded_after_opening ex path plan r v : opened r v →
  esafe all_recorded
    (match r with
     | None => ret (plan, Some ErrRebootRequired)
     | Some j =>
         j <- run_steps ex path plan (steps ex plan) j ;;
         j <- update PhaseComplete "complete" "" j ;;
         coded "SETUP_FINAL_JOURNAL_WRITE_FAILED" (Write path j) ;;
         ret (plan, None)
     end) (λ _, all_recorded) v.
Proof.
  destruct r as [j|]; [|intros; by estep]. intros [Hr H]. estep.
  eapply esafe_mono; [by eapply recorded_run_steps; [apply steps_recorded|..]|]. intros j1 v1 _ H1. unfold update. esteps.
  apply esafe_Write; [done..|]. by esteps.
Qed.
Lemma recorded_run ex path newID timeout vpnPath v : all_recorded v →
  esafe all_recorded (run ex path newID timeout vpnPath) (λ _, all_recorded) v.
Proof.
  intros H. unfold run. apply (esafe_prepare all_recorded (λ _, True)); [intros ?? o; split; [done|by destruct (result _)]|done|]. intros plan w _. estep. estep; [exact H|]. estep. estep; [exact H|]. estep.
  eapply (esafe_mono _ _ opened); [|intros r v1 _ H1; by apply recorded_after_opening].
  destruct (plan_ResumeJournal plan); [by apply recorded_resume|]. estep.
  eapply (esafe_mono _ _ (λ _, all_recorded)); [|intros id v1 _ H1; by apply recorded_begin].
  unfold default_id. destruct newID; esteps.
Qed.
Lemma recorded_rollback_expired ex path plan v : all_recorded v →
  esafe all_recorded (rollback_expired ex path plan) (λ _, all_recorded) v.
Proof.
  intros H. unfold rollback_expired, Read. estep. apply esafe_readJournalFile; [done|]. intros s j Hs _. esteps.
  eapply esafe_mono; [by apply recorded_fail|]. intros e v1 _ H1. by estep.
Qed.
Lemma happen_recorded s (x : session W PD) : Forall recorded (st_calls s) → Forall recorded (st_calls (happen s x)).
Proof.
  intros H. change (Forall recorded (st_calls s)) with (all_recorded (view_of s)) in H.
  change (Forall recorded (st_calls (happen s x))) with (all_recorded (view_of (happen s x))). destruct x as [e vpnPath o|e plan o|f]; [| |done].
  - apply (esafe_final all_recorded _ (λ _, all_recorded)). unfold Run. destruct (en_Executor e), (en_Journal e); [by apply recorded_run|by estep..].
  - apply (esafe_final all_recorded _ (λ _, all_recorded)). unfold RollbackExpired. destruct (en_Executor e), (en_Journal e); [by apply recorded_rollback_expired|by estep..].
Qed.
End recorded.

(** ** A committed setup is not rolled back *)

(** What an executor promises of commits: only [Commit] commits, and it commits the
    generation given when it returns; [GenerationCommitted] tells the truth. *)
Definition same_commits {W} (committed : W → N → bool) (w w' : W) : Prop := ∀ g, committed w' g = committed w g.
Definition steady {W} (committed : W → N → bool) {A} (op : M W A) : Prop := ∀ w, safe (same_commits committed w) op (λ _ _, True) w.
Class CommitContract {W PD} (ex : Executor W PD) (committed : W → N → bool) : Prop := {
  cc_Prepare vpnPath file history : steady committed (ex_Prepare ex vpnPath file history);
  cc_Backup plan : steady committed (ex_Backup ex plan);
  cc_ApplySafe plan : steady committed (ex_ApplySafe ex plan);
  cc_plain plan op : op ∈ [ex_StartGuard; ex_Install; ex_ConfigureDocker; ex_StartRuntime; ex_StartTunnel; ex_PublishFinalDependencies; ex_EnableBoot; ex_Finalize] → steady committed (op ex plan);
  cc_Validate plan g : steady committed (ex_Validate ex plan g);
  cc_Commit plan g w : safe (λ w', (∀ g', g' ≠ g → committed w' g' = committed w g') ∧ (committed w g = true → committed w' g = true))
                         (ex_Commit ex plan g) (λ _ w', committed w' g = true) w;
  cc_GenerationCommitted g w : safe (same_commits committed w) (ex_GenerationCommitted ex g) (λ b _, b = committed w g) w;
  cc_Rollback plan j : steady committed (ex_Rollback ex plan j);
  cc_RecoverCommitted plan j : steady committed (ex_RecoverCommitted ex plan j);
  cc_boot b plan : boot_executor ex = Some b → steady committed (PrepareBoot b plan) ∧ steady committed (VerifyBootResume b plan)
}.

(** The generation of a journal that was or is being rolled back is not committed, and
    one noted as committed is. *)
Definition undone (status : string) : bool := existsb (String.eqb status) ["rolling_back"; "rollback_failed"; "rolled_back"; "rollback_reboot_required"].
Definition agrees {W} (committed : W → N → bool) (j : Journal) (w : W) : Prop :=
  (jr_Committed j = true → committed w (jr_Generation j) = true) ∧
  (jr_Committed j = false → undone (jr_Status j) = true → jr_Generation j ≠ 0%N → committed w (jr_Generation j) = false).
Definition file_agrees {W} (committed : W → N → bool) (f : Slot) (w : W) : Prop :=
  match f with Holds j => agrees committed j w | _ => True end.
(** Rolling back is called only of what is not committed, completing only of what is. *)
Definition right_decision {W} (committed : W → N → bool) (x : visit W) : Prop :=
  match v_call x with
  | CallRollback j => jr_Generation j ≠ 0%N → committed (v_world x) (jr_Generation j) = false
  | CallRecoverCommitted j => committed (v_world x) (jr_Generation j) = true
  | _ => True
  end.

Section decisions.
Context {W PD : Type} (committed : W → N → bool) (ex : Executor W PD) `{!CommitContract ex committed} (path : string).
Implicit Types (v : view W) (plan : Plan PD).

Definition sound v : Prop := file_agrees committed (vw_file v) (vw_world v) ∧ Forall (right_decision committed) (vw_calls v).
(** The host moved on without a commit. *)
Definition quiet v v' : Prop := sound v' ∧ vw_file v' = vw_file v ∧ same_commits committed (vw_world v) (vw_world v').

Lemma agrees_same j w w' : same_commits committed w w' → agrees committed j w → agrees committed j w'.
Proof. intros H. unfold agrees. by rewrite !H. Qed.
Lemma agrees_stored j w : agrees committed (stored j) w ↔ agrees committed j w.
Proof. done. Qed.
Lemma file_agrees_same f w w' : same_commits committed w w' → file_agrees committed f w → file_agrees committed f w'.
Proof. destruct f; [done..|]. apply agrees_same. Qed.

(** A write leaves the host as it is, a call may move it on without a commit. *)
Definition put v v' : Prop := sound v' ∧ vw_world v' = vw_world v.
Lemma put_sound v v' : put v v' → sound v'.
Proof. by intros []. Qed.
Lemma quiet_sound v v' : quiet v v' → sound v'.
Proof. by intros []. Qed.
Lemma sound_Write j v : sound v → agrees committed j (vw_world v) →
  esafe (put v) (Write path j) (λ _ v', vw_file v' = Holds (stored j)) v.
Proof. intros [H1 H2] H. by apply esafe_Write. Qed.
Lemma sound_call {A} c (op : M W A) (Q : A → W → Prop) v : sound v → right_decision committed (mkVisit c (vw_file v) (vw_world v)) →
  safe (same_commits committed (vw_world v)) op Q (vw_world v) →
  esafe (quiet v) (call c op) (λ a v', Q a (vw_world v')) v.
Proof.
  intros [H1 H2] Hc H. apply esafe_call. eapply safe_inv_mono; [|eapply safe_mono; [exact H|done]].
  intros w Hw. split; [|done]. split; [by eapply file_agrees_same|by constructor].
Qed.
Lemma sound_quiet {A} c (op : M W A) v : sound v → right_decision committed (mkVisit c (vw_file v) (vw_world v)) → steady committed op →
  esafe (quiet v) (call c op) (λ _ _, True) v.
Proof. intros H Hc Hop. apply (sound_call c op (λ _ _, True)); [done..|apply Hop]. Qed.
Lemma sound_conclude p status error e j v : sound v → (∀ t, agrees committed (set_phase p status error t j) (vw_world v)) →
  esafe sound (conclude path p status error e j) (λ _, sound) v.
Proof.
  intros H Hj. unfold conclude, update, write_result. esteps.
  eapply esafe_try; [by apply put_sound|by apply sound_Write|intros ? v1 [] _|intros ? v1 []]; by esteps.
Qed.

(** What is known once the question is decided. *)
Definition settled_question (j : Journal) (w : W) : Prop :=
  (jr_Committed j = true → committed w (jr_Generation j) = true) ∧
  (jr_Committed j = false → jr_Generation j ≠ 0%N → committed w (jr_Generation j) = false).
Lemma settled_agrees j w : settled_question j w → agrees committed j w.
Proof. intros [H1 H2]. split; auto. Qed.
Lemma sound_decided plan cause j v : sound v → settled_question j (vw_world v) →
  esafe sound (decided ex path plan cause j) (λ _, sound) v.
Proof.
  intros H Hj. unfold decided, recover_committed, roll_back, update, write_result.
  destruct (jr_Committed j) eqn:Hc; esteps.
  all: eapply esafe_try; [by apply put_sound|apply sound_Write; [done|by apply settled_agrees]|intros [] v1 [H1 Hw] _|intros e v1 []; by esteps]; esteps.
  all: eapply esafe_try; [by apply quiet_sound|apply sound_quiet; [done|rewrite Hw|first [apply cc_RecoverCommitted | apply cc_Rollback]]|..].
  all: try (destruct Hj; unfold right_decision; simpl; by auto).
  all: intros r v2 (H2 & _ & Hs); rewrite Hw in Hs; intros; esteps; (apply sound_conclude; [done|]); intros t2.
  all: eapply agrees_same; [exact Hs|]; apply settled_agrees; destruct Hj; by split; simpl; auto.
Qed.

Lemma sound_fail plan j cause v : sound v → agrees committed j (vw_world v) →
  esafe sound (fail ex path plan j cause) (λ _, sound) v.
Proof.
  intros H [Ha Hb]. unfold fail. destruct (journalBeforeProtectedMutation j) eqn:Hbefore; [|destruct (undecided j) eqn:Hu].
  - apply sound_conclude; [done|]. intros t. unfold journalBeforeProtectedMutation in Hbefore.
    rewrite andb_true_iff, negb_true_iff, !orb_false_iff, negb_false_iff, N.eqb_eq in Hbefore. destruct Hbefore as [[[Hc Hg] _] _].
    split; simpl; [by rewrite Hc|]. by rewrite Hg.
  - unfold undecided in Hu. rewrite !andb_true_iff, !negb_true_iff in Hu. destruct Hu as [[Hc _] _]. esteps.
    eapply esafe_try; [by apply quiet_sound|by eapply sound_call; [done|done|apply cc_GenerationCommitted]|..].
    + intros b v1 (H1 & _ & Hs) ->. apply sound_decided; [done|]. by split; simpl; rewrite Hs.
    + intros e v1 (H1 & _ & Hs). apply sound_conclude; [done|]. intros t. by split; simpl; [rewrite Hc|].
  - apply sound_decided; [done|]. split; [done|]. intros Hc Hg. apply Hb; [done| |done].
    unfold undecided in Hu. rewrite Hc in Hu. simpl in Hu. apply andb_false_iff in Hu as [Hu|Hu].
    + unfold uncommittedKnown in Hu. apply negb_false_iff, orb_true_iff in Hu as [Hu|Hu]; apply String.eqb_eq in Hu; by rewrite Hu.
    + apply negb_false_iff, N.eqb_eq in Hu. done.
Qed.
Lemma sound_failing {A} plan j cause v (P : A → view W → Prop) : sound v → agrees committed j (vw_world v) →
  esafe sound (failing ex path plan j cause) P v.
Proof. intros H Hj. unfold failing. estep. eapply esafe_mono; [by apply sound_fail|]. intros. by estep. Qed.
Lemma sound_write_or_fail plan j v : sound v → agrees committed j (vw_world v) →
  esafe sound (write_or_fail ex path plan j) (λ _ v', put v v' ∧ vw_file v' = Holds (stored j)) v.
Proof.
  intros H Hj. eapply (esafe_catch _ (put v)); [by apply put_sound| |].
  - eapply esafe_mono; [by apply sound_Write|]. done.
  - intros e v1 [H1 Hw]. apply sound_failing; [done|]. by rewrite Hw.
Qed.
(** A call of which the engine gives up when it fails. *)
Lemma sound_quiet_or_fail {A} plan j c (op : M W A) v : sound v → agrees committed j (vw_world v) → steady committed op →
  right_decision committed (mkVisit c (vw_file v) (vw_world v)) →
  esafe sound (run_or_fail ex path plan j (call c op)) (λ _, quiet v) v.
Proof.
  intros H Hj Hop Hc. eapply (esafe_catch _ (quiet v)); [by apply quiet_sound| |].
  - eapply esafe_mono; [by apply sound_quiet|]. done.
  - intros e v1 (H1 & _ & Hs). apply sound_failing; [done|]. by eapply agrees_same.
Qed.

(** The journal of a setup that runs; [c] tells whether its generation is committed. *)
Definition active (c : bool) (j : Journal) (w : W) : Prop :=
  jr_Status j = "running" ∧ jr_Committed j = c ∧ (c = true → committed w (jr_Generation j) = true).
Definition step_sound plan (c c' : bool) (step : Phase * (Journal → M (Site W) Journal)) : Prop :=
  ∀ j v, sound v → vw_file v = Holds (stored j) → active c j (vw_world v) →
    esafe sound (run_or_fail ex path plan j (step.2 j)) (λ j' v', sound v' ∧ active c' j' (vw_world v')) v.
Inductive steps_sound plan : bool → list (Phase * (Journal → M (Site W) Journal)) → Prop :=
  | sound_done c : steps_sound plan c []
  | sound_next c c' step l : step_sound plan c c' step → steps_sound plan c' l → steps_sound plan c (step :: l).

Lemma active_agrees c j w : active c j w → agrees committed j w.
Proof. intros (Hs & Hc & Hw). split; [|by rewrite Hs]. rewrite Hc. done. Qed.
Lemma active_same c j w w' : same_commits committed w w' → active c j w → active c j w'.
Proof. intros H. unfold active. by rewrite H. Qed.
Lemma sound_run_step plan c c' step j v : step_sound plan c c' step → sound v → active c j (vw_world v) →
  esafe sound (run_step ex path plan step j) (λ j' v', sound v' ∧ active c' j' (vw_world v')) v.
Proof.
  intros Hok H Hj. unfold run_step, update. esteps.
  - apply sound_failing; [done|by eapply active_agrees].
  - eapply esafe_mono; [apply sound_write_or_fail; [done|by eapply active_agrees, Hj]|]. intros [] v1 _ [[H1 Hw1] Hf]. estep.
    eapply esafe_mono; [apply Hok; [done|done|rewrite Hw1; exact Hj]|]. intros j2 v2 _ [H2 Ha2]. esteps.
    eapply esafe_mono; [apply sound_write_or_fail; [done|by eapply active_agrees, Ha2]|]. intros [] v3 _ [[H3 Hw3] _]. esteps.
    split; [done|]. rewrite Hw3. exact Ha2.
Qed.
Lemma sound_run_steps plan l c j v : steps_sound plan c l → sound v → active c j (vw_world v) →
  esafe sound (run_steps ex path plan l j) (λ j' v', sound v' ∧ ∃ c', active c' j' (vw_world v')) v.
Proof.
  intros Hl. revert j v. induction Hl as [c|c c' step l Hok _ IH]; intros j v H Hj; simpl; esteps; [by eauto|].
  eapply esafe_mono; [by eapply sound_run_step|]. intros j1 v1 _ [H1 Hj1]. by apply IH.
Qed.

(** A phase whose call commits nothing. *)
Lemma step_quiet plan {A} p c (op : Journal → M W A) (g : A → Journal → Journal) b :
  (∀ j v, right_decision committed (mkVisit (c j) (vw_file v) (vw_world v))) → (∀ j, steady committed (op j)) →
  (∀ a j w, active b j w → active b (g a j) w) →
  step_sound plan b b (p, λ j, a <- call (c j) (op j) ;; ret (g a j)).
Proof.
  intros Hc Hop Hg j v H Hf Hj. simpl. eapply (esafe_catch _ (quiet v)); [by apply quiet_sound| |].
  - estep. eapply esafe_mono; [by apply sound_quiet|]. intros a v1 Hq _. estep; [done|].
    destruct Hq as (H1 & _ & Hs). split; [done|]. apply Hg. by eapply active_same.
  - intros e v1 (H1 & _ & Hs). apply sound_failing; [done|]. eapply agrees_same; [exact Hs|by eapply active_agrees].
Qed.
Lemma step_commit plan : step_sound plan false true
  (PhaseCommit, λ j, call (CallCommit (jr_Generation j)) (ex_Commit ex plan (jr_Generation j)) ;; ret (set_committed true j)).
Proof.
  intros j v [H1 H2] Hf Hj. destruct Hj as (Hs & Hc & _).
  assert (∀ w, agrees committed j w) as Ha by (intros w; split; [by rewrite Hc|by rewrite Hs]).
  apply (esafe_catch _ sound); [done| |].
  - simpl. estep. apply esafe_call. eapply safe_inv_mono; [|eapply safe_mono; [apply cc_Commit|]].
    + intros w _. split; [|by constructor]. simpl. rewrite Hf. apply Ha.
    + intros [] w _ Hw. assert (sound (mkView (vw_file v) w (mkVisit (CallCommit (jr_Generation j)) (vw_file v) (vw_world v) :: vw_calls v))) as Hsound.
      { split; [|by constructor]. simpl. rewrite Hf. apply Ha. }
      estep; [done|]. by split.
  - intros e v1 H. by apply sound_failing.
Qed.
Ltac quiet_phase b := apply (sound_next _ _ b);
  [apply step_quiet; [done|intros j; first [apply cc_plain; set_solver | apply cc_Validate | apply cc_ApplySafe]|intros a j w (? & ? & ?); by split]|].
Lemma steps_are_sound plan : steps_sound plan false (steps ex plan).
Proof.
  unfold steps, plain. do 7 quiet_phase false.
  apply (sound_next _ _ true); [apply step_commit|]. do 3 quiet_phase true. apply sound_done.
Qed.

Lemma sound_resume plan b j started timeout v : boot_executor ex = Some b → sound v →
  esafe sound (resume ex path (Some b) plan j started timeout) (λ r v', sound v' ∧ ∀ j', r = Some j' → active false j' (vw_world v')) v.
Proof.
  intros Hb H. unfold resume, update. estep. estep; [done|]. estep; [by estep|].
  match goal with H : _ && _ = true |- _ => apply andb_true_iff in H as [Hj _] end.
  unfold rebootRequiredJournal in Hj. rewrite !andb_true_iff, !negb_true_iff, N.eqb_eq in Hj.
  assert (jr_Committed j = false ∧ jr_Generation j = 0%N) as [Hc Hg] by tauto.
  assert (∀ st t w, agrees committed (set_phase (jr_Phase j) st "" t j) w) as Ha.
  { intros st t w. split; simpl; [by rewrite Hc|by rewrite Hg]. }
  esteps. eapply esafe_weaken; [apply sound_Write; [exact H|by split; apply Ha]|by apply put_sound|]. intros [] v1 [H1 Hw1] Hf1. estep.
  eapply esafe_mono; [apply sound_quiet_or_fail; [exact H1|by split; apply Ha|by apply (cc_boot b)|done]|]. intros [] v2 _ (H2 & Hf2 & Hs2). esteps.
  eapply esafe_mono; [apply sound_write_or_fail; [exact H2|by split; apply Ha]|]. intros [] v3 _ [[H3 Hw3] Hf3]. esteps.
  split; [done|]. intros j' [= <-]. by split.
Qed.
Lemma sound_begin boot plan id started timeout v : (∀ b, boot = Some b → boot_executor ex = Some b) → sound v →
  esafe sound (begin ex path boot plan id started timeout) (λ r v', sound v' ∧ ∀ j', r = Some j' → active false j' (vw_world v')) v.
Proof.
  intros Hb H. unfold begin, update. set (j0 := mkJournal _ _ _ _ _ _ _ _ _ _ _ _).
  assert (∀ w, agrees committed j0 w) as Ha0 by by split.
  assert (sound (holding j0 v)) as Hh by (split; [apply Ha0|apply H]).
  estep. estep. apply esafe_Begin; [exact H|exact Hh|]. clear Ha0. generalize dependent (holding j0 v). clear v H. intros v H. esteps.
  eapply esafe_mono; [by apply sound_write_or_fail|]. intros [] v1 _ [[H1 _] _]. estep.
  eapply esafe_mono; [apply sound_quiet_or_fail; [done|done|apply cc_Backup|done]|]. intros dir v2 _ (H2 & _ & _). esteps.
  eapply esafe_mono; [by apply sound_write_or_fail|]. intros [] v3 _ [[H3 _] _]. destruct boot as [b|]; esteps.
  - eapply esafe_mono; [by apply sound_write_or_fail|]. intros [] v4 _ [[H4 _] _]. esteps.
    eapply esafe_mono; [apply sound_quiet_or_fail; [done|done|by apply (cc_boot b); auto|done]|]. intros [] v5 _ (H5 & _ & _). esteps.
    eapply esafe_mono; [by apply sound_write_or_fail|]. intros [] v6 _ [[H6 _] _]. by estep.
  - split; [done|]. intros j' [= <-]. by split.
Qed.
Lemma sound_after_opening plan r v : sound v → (∀ j, r = Some j → active false j (vw_world v)) →
  esafe sound
    (match r with
     | None => ret (plan, Some ErrRebootRequired)
     | Some j =>
         j <- run_steps ex path plan (steps ex plan) j ;;
         j <- update PhaseComplete "complete" "" j ;;
         coded "SETUP_FINAL_JOURNAL_WRITE_FAILED" (Write path j) ;;
         ret (plan, None)
     end) (λ _, sound) v.
Proof.
  intros H Hj. destruct r as [j|]; [|by estep]. estep.
  eapply esafe_mono; [by eapply sound_run_steps; [apply steps_are_sound|..]; auto|]. intros j1 v1 _ [H1 [c Hj1]]. unfold update. esteps.
  eapply esafe_weaken; [apply sound_Write; [exact H1|]|by apply put_sound|intros [] v2 [] _; by esteps].
  destruct Hj1 as (Hs & Hc & Hw). split; simpl; [rewrite Hc; done|done].
Qed.
Lemma sound_run newID timeout vpnPath v : sound v → esafe sound (run ex path newID timeout vpnPath) (λ _, sound) v.
Proof.
  intros H. assert (∀ w, same_commits committed (vw_world v) w → sound (mkView (vw_file v) w (vw_calls v))) as Hs.
  { intros w Hw. destruct H. split; [by eapply file_agrees_same|done]. }
  unfold run. apply (esafe_prepare sound (same_commits committed (vw_world v))); [intros; apply cc_Prepare|done|].
  intros plan w Hw. apply Hs in Hw. clear Hs. generalize dependent (mkView (vw_file v) w (vw_calls v)). clear v H. intros v H.
  estep. estep; [done|]. estep. estep; [done|]. estep.
  eapply (esafe_mono _ _ (λ r v', sound v' ∧ ∀ j', r = Some j' → active false j' (vw_world v'))); [|intros r v1 _ [H1 Hr]; by apply sound_after_opening].
  set (boot := match boot_executor ex with Some _ => _ | None => _ end).
  assert (∀ b, boot = Some b → boot_executor ex = Some b) as Hb.
  { subst boot. intros b. destruct (boot_executor ex) as [b'|]; [|done]. destruct (BootTransactionRequired b' plan); congruence. }
  destruct (plan_ResumeJournal plan).
  - destruct boot as [b|]; [apply sound_resume; auto|]. by apply esafe_throw.
  - estep. eapply (esafe_mono _ _ (λ _, sound)); [|intros id v1 _ H1; by apply sound_begin]. unfold default_id. destruct newID; esteps.
Qed.
Lemma sound_rollback_expired plan v : sound v → esafe sound (rollback_expired ex path plan) (λ _, sound) v.
Proof.
  intros H. unfold rollback_expired, Read. estep. apply esafe_readJournalFile; [done|]. intros s j Hs Hf. esteps.
  eapply esafe_mono; [apply sound_fail; [done|]|intros e v1 _ H1; by estep].
  apply agrees_stored. destruct H as [H _]. rewrite <-Hs in *. unfold view_of in H. simpl in *. by rewrite Hf in H.
Qed.
End decisions.

(** The engine of each session has an executor that keeps the contract, and nothing else
    commits or takes back a commit. *)
Definition contractual {W PD} (committed : W → N → bool) (x : session W PD) : Prop :=
  match x with
  | Setup e _ _ | Recovery e _ _ => match en_Executor e with Some ex => CommitContract ex committed | None => True end
  | Elsewhere f => ∀ w, same_commits committed w (f w)
  end.
Lemma happen_sound {W PD} committed (s : Site W) (x : session W PD) :
  contractual committed x → sound committed (view_of s) → sound committed (view_of (happen s x)).
Proof.
  destruct x as [e vpnPath o|e plan o|f]; simpl; intros Hc H.
  - apply (esafe_final _ _ (λ _, sound committed)). unfold Run. destruct (en_Executor e), (en_Journal e); [by apply sound_run|by estep..].
  - apply (esafe_final _ _ (λ _, sound committed)). unfold RollbackExpired. destruct (en_Executor e), (en_Journal e); [by apply sound_rollback_expired|by estep..].
  - destruct H as [H1 H2]. split; [|done]. simpl. eapply file_agrees_same; [apply Hc|done].
Qed.

(** ** The theorems *)

(** C29: from a host on which no setup call was made yet, whatever sequence of setups, recoveries and other events follows, whichever call fails and wherever the process dies, each call of the executor that changes the host is made while the journal on disk names it: its phase, that the setup is running (or, for the two calls of a recovery, which of them was decided on), the generation it is about, and from the hand-over on that the generation is committed. *)
Theorem every_call_recorded {W PD} (l : list (session W PD)) (s : Site W) : st_calls s = [] → Forall recorded (st_calls (after l s)).
Proof.
  intros H. assert (Forall recorded (st_calls s)) as Hs by (rewrite H; constructor). clear H. revert s Hs.
  induction l as [|x l IH]; intros s Hs; [done|]. apply IH. by apply happen_recorded.
Qed.

