(* ===== verification/SetupLive.v ===== *)
(** A managed setup in which nothing fails: what runs, in which order, and what the
    journal says in the end. *)

From S2P Require Import Prelude GoStrings GoTime GoPath Ledger Snapshot NetGate SetupJournal SetupEngine SetupSafety.
From Stdlib Require Import Ascii String.
Local Open Scope string_scope.
Local Open Scope Z_scope.
Local Open Scope host_scope.
Abbreviation length := List.length.

(** [goes m s P]: without faults [m] returns from [s], with a result and a site in [P]. *)
Section goes.
Context {W : Type}.
Implicit Types s : Site W.

Definition goes {A} (m : M (Site W) A) s (P : A → Site W → Prop) : Prop := ∃ a s', m [] s = (Ret a, [], s') ∧ P a s'.
Lemma goes_ret {A} (a : A) s (P : A → Site W → Prop) : P a s → goes (ret a) s P.
Proof. by exists a, s. Qed.
Lemma goes_bind {A B} (m : M (Site W) A) (f : A → M (Site W) B) s P : goes m s (λ a s', goes (f a) s' P) → goes (bind m f) s P.
Proof. intros (a & s' & E & b & s'' & E' & H). exists b, s''. unfold bind. by rewrite E. Qed.
Lemma goes_catch {A} (m : M (Site W) A) h s P : goes m s P → goes (catch m h) s P.
Proof. intros (a & s' & E & H). exists a, s'. unfold catch. by rewrite E. Qed.
Lemma goes_coded {A} c (m : M (Site W) A) s P : goes m s P → goes (coded c m) s P.
Proof. apply goes_catch. Qed.
Lemma goes_require b e s P : b = true → P tt s → goes (require b e) s P.
Proof. intros ->. by apply goes_ret. Qed.
Lemma goes_read {A} (f : Site W → outcome A) a s P : f s = Ret a → P a s → goes (io_read f) s P.
Proof. intros E H. exists a, s. unfold io_read. simpl. by rewrite E. Qed.
Lemma goes_syscall s P : P tt s → goes syscall s P.
Proof. by apply goes_read. Qed.
Lemma goes_io_write f s s' P : f s = (Ret tt, s') → P tt s' → goes (io_write f) s P.
Proof. intros E H. exists tt, s'. unfold io_write. simpl. by rewrite E. Qed.
End goes.

Ltac go_on :=
  lazymatch goal with
  | |- goes (bind _ _) _ _ => apply goes_bind
  | |- goes (ret _) _ _ => apply goes_ret
  | |- goes (coded _ _) _ _ => apply goes_coded
  | |- goes (require _ _) _ _ => apply goes_require; [try done|]
  | |- goes syscall _ _ => apply goes_syscall
  end.

Local Ltac listed := first [assumption | by left | by right; left | right; listed].

Section live.
Context {W PD : Type}.
Implicit Types s : Site W.

(** A journal that can be written, and a site where it can be. *)
Definition storable (j : Journal) : bool := encodable j && (text_size j <=? write_limit)%N.
Definition usable (path : string) : bool := validJournalPath path && validJournalPath (Dir path).
Definition replaceable (f : Slot) : bool := match f with Damaged false _ => false | _ => true end.
Lemma goes_Write path j s (P : unit → Site W → Prop) : usable path = true → st_secure s = true → replaceable (st_file s) = true → storable j = true →
  P tt (with_file (Holds (stored j)) s) → goes (Write path j) s P.
Proof.
  unfold usable, storable. rewrite !andb_true_iff. intros [H1 H2] H3 H4 [H5 H6] HP. unfold Write, writeAtomic, secureSetupDirectory.
  repeat go_on. eapply goes_read; [done|]. repeat go_on; try (by rewrite H1, H6).
  eapply goes_read; [done|]. repeat go_on; try exact H4. eapply goes_io_write; [done|]. by repeat go_on.
Qed.

(** Operations that return, from any host, with a given answer. *)
Definition answers {A} (op : M W A) (a : A) : Prop := ∀ w, ∃ w', op [] w = (Ret a, [], w').
Lemma goes_call {A} c (op : M W A) a s P : answers op a → (∀ w, P a (on_host w (noted c s))) → goes (call c op) s P.
Proof. intros H HP. destruct (H (st_world s)) as [w E]. exists a, (on_host w (noted c s)). unfold call. by rewrite E. Qed.

(** The clock still has [n] answers, all in [good]. *)
Definition ticks (good : list time) (n : nat) s : Prop := (n ≤ length (st_clock s))%nat ∧ ∀ t, t ∈ st_clock s → t ∈ good.
Definition with_clock (c : list time) s : Site W :=
  mkSite (st_secure s) (st_file s) (st_history_secure s) (st_history s) (st_world s) c (st_calls s).
Lemma goes_now good n s P : ticks good (S n) s → (∀ t c, t ∈ good → ticks good n (with_clock c s) → P t (with_clock c s)) → goes now s P.
Proof.
  intros [Hn Hg] HP. destruct (st_clock s) as [|t c] eqn:E; simpl in Hn; [lia|].
  exists t, (with_clock c s). unfold now. rewrite E. split; [done|]. apply HP; [apply Hg; by left|]. split; simpl; [lia|].
  intros t' Ht. apply Hg. by right.
Qed.

(** ** A setup of [plan] in which every operation works

    [good] are the times the clock may show, [started] the one at which it began. *)
Section setup.
Context (ex : Executor W PD) (path id : string) (plan : Plan PD) (good : list time) (started deadline : time) (dir : string) (gen : N).

Definition written (p : Phase) (status : string) (t : time) (d : string) (g : N) (c : bool) : Journal :=
  mkJournal journal_schema id p status started t deadline d g c (plan_Summary plan) "".
Definition phases : list Phase :=
  [PhaseInspect; PhaseBackup; PhaseGuard; PhaseInstall; PhaseDocker; PhaseRuntime; PhaseApply; PhaseTunnel; PhaseValidate;
   PhaseCommit; PhaseHandoff; PhaseBoot; PhaseFinalize; PhaseComplete].
Definition fits : Prop := ∀ p status t d g c, p ∈ phases → status ∈ ["running"; "complete"] → t ∈ good → d ∈ [""; dir] → g ∈ [0%N; gen] →
  storable (written p status t d g c) = true.
Context (Hpath : usable path = true) (Hfits : fits) (Hgood : ∀ t, t ∈ good → t < deadline).

Definition ready (n : nat) s : Prop := st_secure s = true ∧ replaceable (st_file s) = true ∧ ticks good n s.
Definition calls_of s : list setup_call := map v_call (st_calls s).
Lemma goes_write_or_fail j n s (P : unit → Site W → Prop) : storable j = true → ready n s →
  (∀ s', ready n s' → calls_of s' = calls_of s → st_file s' = Holds (stored j) → P tt s') → goes (write_or_fail ex path plan j) s P.
Proof. intros Hj (H1 & H2 & H3) HP. apply goes_catch, goes_Write; [done..|]. by apply HP. Qed.
Lemma goes_clock n s P : ready (S n) s → (∀ t s', t ∈ good → ready n s' → calls_of s' = calls_of s → P t s') → goes now s P.
Proof. intros (H1 & H2 & H3) HP. eapply goes_now; [exact H3|]. intros t c Ht Hc. by apply HP. Qed.
Lemma goes_call_or_fail {A} j c (op : M W A) a n s P : answers op a → ready n s →
  (∀ s', ready n s' → calls_of s' = c :: calls_of s → P a s') → goes (run_or_fail ex path plan j (call c op)) s P.
Proof. intros H (H1 & H2 & H3) HP. apply goes_catch. eapply goes_call; [done|]. intros w. by apply HP. Qed.

Definition at_step (g : N) (c : bool) (j : Journal) : Prop := ∃ p t, p ∈ phases ∧ t ∈ good ∧ j = written p "running" t dir g c.
Lemma goes_run_step {A} p c (op : Journal → M W A) (upd : A → Journal → Journal) a g b g' b' j n s P :
  p ∈ phases → g ∈ [0%N; gen] → g' ∈ [0%N; gen] →
  (∀ t, answers (op (written p "running" t dir g b)) a) → (∀ t, upd a (written p "running" t dir g b) = written p "running" t dir g' b') →
  (∀ t, c (written p "running" t dir g b) = c j) → at_step g b j → ready (3 + n) s →
  (∀ j' s', at_step g' b' j' → ready n s' → calls_of s' = c j :: calls_of s → P j' s') →
  goes (run_step ex path plan (p, λ j, a <- call (c j) (op j) ;; ret (upd a j)) j) s P.
Proof.
  intros Hp Hg Hg' Hop Hupd Hc (q & t & Hq & Ht & ->) Hs HP. unfold run_step, update.
  go_on. eapply goes_clock; [exact Hs|]. intros t1 s1 Ht1 Hs1 Hc1. simpl.
  rewrite (proj2 (Z.ltb_lt t1 deadline)) by auto. simpl. do 2 go_on. eapply goes_clock; [exact Hs1|]. intros t2 s2 Ht2 Hs2 Hc2. do 2 go_on.
  change (set_phase p "running" "" t2 (written q "running" t dir g b)) with (written p "running" t2 dir g b).
  eapply goes_write_or_fail; [|exact Hs2|]; [by apply Hfits; listed|]. intros s3 Hs3 Hc3 _. go_on. apply goes_catch. go_on.
  destruct Hs3 as (H1 & H2 & H3). eapply goes_call; [apply Hop|]. intros w. rewrite Hupd. do 2 go_on.
  eapply (goes_clock n); [by split|]. intros t4 s4 Ht4 Hs4 Hc4. go_on.
  change (touch t4 (written p "running" t2 dir g' b')) with (written p "running" t4 dir g' b').
  eapply goes_write_or_fail; [|exact Hs4|]; [by apply Hfits; listed|]. intros s5 Hs5 Hc5 _. go_on.
  apply HP; [by exists p, t4|exact Hs5|].
  rewrite Hc5, Hc4. change (calls_of (on_host w (noted (c (written p "running" t2 dir g b)) s3))) with (c (written p "running" t2 dir g b) :: calls_of s3).
  by rewrite Hc, Hc3, Hc2, Hc1.
Qed.

(** What every phase calls, and that all of it works. *)
Definition order : list setup_call :=
  [CallStartGuard; CallInstall; CallConfigureDocker; CallStartRuntime; CallApplySafe; CallStartTunnel; CallValidate gen; CallCommit gen;
   CallPublishFinalDependencies; CallEnableBoot; CallFinalize].
Class Working : Prop := {
  wk_Backup : answers (ex_Backup ex plan) dir;
  wk_ApplySafe : answers (ex_ApplySafe ex plan) gen;
  wk_plain op : op ∈ [ex_StartGuard; ex_Install; ex_ConfigureDocker; ex_StartRuntime; ex_StartTunnel; ex_PublishFinalDependencies; ex_EnableBoot; ex_Finalize] → answers (op ex plan) tt;
  wk_Validate : answers (ex_Validate ex plan gen) tt;
  wk_Commit : answers (ex_Commit ex plan gen) tt
}.
Context `{!Working}.

Ltac among := first [by left | right; among].
Ltac step_goes g b g' b' a Hj Hs := simpl; go_on; eapply (goes_run_step _ _ _ _ a g b g' b');
  [among|listed|listed|intros t; first [apply wk_plain; among|apply wk_ApplySafe|apply wk_Validate|apply wk_Commit]
  |done|try done|exact Hj|exact Hs|].
Lemma goes_steps n j s P : at_step 0 false j → ready (33 + n) s →
  (∀ j' s', at_step gen true j' → ready n s' → calls_of s' = (rev order ++ calls_of s)%list → P j' s') →
  goes (run_steps ex path plan (steps ex plan) j) s P.
Proof.
  intros Hj Hs HP.
  unfold steps, plain.
  step_goes 0%N false 0%N false tt Hj Hs; intros j1 s1 Hj1 Hs1 Hc1.
  step_goes 0%N false 0%N false tt Hj1 Hs1; intros j2 s2 Hj2 Hs2 Hc2.
  step_goes 0%N false 0%N false tt Hj2 Hs2; intros j3 s3 Hj3 Hs3 Hc3.
  step_goes 0%N false 0%N false tt Hj3 Hs3; intros j4 s4 Hj4 Hs4 Hc4.
  step_goes 0%N false gen false gen Hj4 Hs4; intros j5 s5 Hj5 Hs5 Hc5.
  step_goes gen false gen false tt Hj5 Hs5; intros j6 s6 Hj6 Hs6 Hc6.
  step_goes gen false gen false tt Hj6 Hs6; [by destruct Hj6 as (? & ? & _ & _ & ->)|]; intros j7 s7 Hj7 Hs7 Hc7.
  step_goes gen false gen true tt Hj7 Hs7; [by destruct Hj7 as (? & ? & _ & _ & ->)|]; intros j8 s8 Hj8 Hs8 Hc8.
  step_goes gen true gen true tt Hj8 Hs8; intros j9 s9 Hj9 Hs9 Hc9.
  step_goes gen true gen true tt Hj9 Hs9; intros j10 s10 Hj10 Hs10 Hc10.
  step_goes gen true gen true tt Hj10 Hs10; intros j11 s11 Hj11 Hs11 Hc11.
  go_on. apply HP; [done..|]. rewrite Hc11, Hc10, Hc9, Hc8, Hc7, Hc6, Hc5, Hc4, Hc3, Hc2, Hc1.
  destruct Hj6 as (? & ? & _ & _ & ->), Hj7 as (? & ? & _ & _ & ->). done.
Qed.

Lemma goes_begin n s (P : option Journal → Site W → Prop) timeout :
  plan_PriorJournalSHA256 plan = "" → st_file s = NoFile → deadline = started + timeout → started ∈ good → ready (2 + n) s →
  initialSetupJournal (written PhaseInspect "running" started "" 0 false) = true →
  (∀ j s', at_step 0 false j → ready n s' → calls_of s' = CallBackup :: calls_of s → P (Some j) s') →
  goes (begin ex path None plan id started timeout) s P.
Proof.
  intros Hprior Hfile Hd Hstart Hs Hinit HP. unfold begin, update, Begin. rewrite <-Hd, Hprior. simpl. set (j0 := mkJournal _ _ _ _ _ _ _ _ _ _ _ _).
  change j0 with (written PhaseInspect "running" started "" 0 false). clear j0.
  assert (validJournalPath path = true) as Hp by (unfold usable in Hpath; by apply andb_true_iff in Hpath as [? _]).
  repeat go_on. eapply goes_read; [by rewrite bool_decide_true|]. repeat go_on.
  destruct Hs as (H1 & H2 & H3). apply goes_Write; [done..|apply Hfits; listed|].
  do 2 go_on. eapply (goes_clock (S n)); [by split|]. intros t1 s1 Ht1 Hs1 Hc1. do 2 go_on.
  change (set_phase PhaseBackup "running" "" t1 (written PhaseInspect "running" started "" 0 false)) with (written PhaseBackup "running" t1 "" 0 false).
  eapply goes_write_or_fail; [apply Hfits; listed|exact Hs1|]. intros s2 Hs2 Hc2 _. go_on.
  eapply goes_call_or_fail; [apply wk_Backup|exact Hs2|]. intros s3 Hs3 Hc3. go_on. eapply goes_clock; [exact Hs3|]. intros t4 s4 Ht4 Hs4 Hc4. go_on.
  change (touch t4 (set_backup dir (written PhaseBackup "running" t1 "" 0 false))) with (written PhaseBackup "running" t4 dir 0 false).
  eapply goes_write_or_fail; [apply Hfits; listed|exact Hs4|]. intros s5 Hs5 Hc5 _. go_on. apply HP; [|done|].
  - exists PhaseBackup, t4. split; [listed|done].
  - by rewrite Hc5, Hc4, Hc3, Hc2, Hc1.
Qed.
End setup.

End live.
