(* ===== verification/SetupSample.v ===== *)
(** A concrete host and executor for the managed setup, and what the engine does there. *)

From S2P Require Import Prelude GoStrings GoTime GoPath Ledger Snapshot NetGate SetupJournal SetupEngine SetupSafety SetupLive.
From Stdlib Require Import Ascii String.
Local Open Scope string_scope.
Local Open Scope Z_scope.
Local Open Scope host_scope.
Abbreviation length := List.length.

(** The host remembers the committed generations; every operation works. *)
Definition demo_summary : Summary :=
  mkSummary plan_schema "eth0" "wg0" None (Some ["192.168.1.0/24"]) (Some [22]) None None "block" "" "none" None false "static"
    (Some ["systemd-networkd.service"]) false.
Definition demo_plan (file : Slot) : Plan unit :=
  match file with
  | Holds j => if rebootRequiredJournal j then mkPlan "/root/wg0.conf" demo_summary () "" (Some j) true
               else mkPlan "/root/wg0.conf" demo_summary () (journal_digest j) None false
  | _ => mkPlan "/root/wg0.conf" demo_summary () "" None false
  end.
Definition works {A} (a : A) : M (list N) A := io_read (λ _, Ret a).
Definition demo (boot : option (bootTransactionExecutor (list N) unit)) : Executor (list N) unit :=
  mkExecutor (λ _ file _, works (demo_plan file)) (λ _, works "/var/lib/nftfw/setup/backups/one") (λ _, works ()) (λ _, works ())
    (λ _, works ()) (λ _, works ()) (λ _, works 7%N) (λ _, works ()) (λ _ _, works ())
    (λ _ g, io_write (λ w, (Ret (), g :: w))) (λ _, works ()) (λ _, works ()) (λ _, works ())
    (λ g, io_read (λ w, Ret (existsb (N.eqb g) w))) (λ _ _, works ()) (λ _ _, works ()) boot.
Definition demo_boot : bootTransactionExecutor (list N) unit := mkBoot (λ _, true) (λ _, works ()) (λ _, works ()).
Definition demo_engine boot : Engine (list N) unit := mkEngine (Some (demo boot)) (Some "/var/lib/nftfw/setup/journal.json") (Some "tx-1") 0.
Definition noon : time := 63844804800 * second.
Definition demo_site (clock : list time) : Site (list N) := mkSite true NoFile true ∅ [] clock [].


(** The sample executor keeps the contract of commits. *)
Definition demo_committed (w : list N) (g : N) : bool := existsb (N.eqb g) w.
Lemma works_steady {A} (a : A) : steady demo_committed (works a).
Proof. intros w. by apply safe_io_read. Qed.
#[export] Instance demo_contract : CommitContract (demo (Some demo_boot)) demo_committed.
Proof.
  constructor; intros; try apply works_steady.
  - rewrite !elem_of_cons in *. destruct_or!; subst; try apply works_steady. by apply not_elem_of_nil in H.
  - unfold demo, ex_Commit. apply safe_io_write; simpl; [done|split; intros|intros [] w' E; injection E as <-].
    + unfold demo_committed. simpl. by rewrite (proj2 (N.eqb_neq g' g)).
    + unfold demo_committed. simpl. by rewrite N.eqb_refl.
    + unfold demo_committed. simpl. by rewrite N.eqb_refl.
  - unfold demo, ex_GenerationCommitted. apply safe_io_read; [done|]. by intros a [= <-].
  - simpl in H. injection H as <-. split; apply works_steady.
Qed.

(** A setup that waits for its reboot, one that resumes and dies when the commit has
    taken place but not been answered, and the recovery after the deadline. *)
Definition demo_sessions : list (session (list N) unit) :=
  [Setup (demo_engine (Some demo_boot)) "/root/wg0.conf" [];
   Setup (demo_engine (Some demo_boot)) "/root/wg0.conf" (repeat FOk 234 ++ [FCrashLate])%list;
   Elsewhere id;
   Recovery (demo_engine (Some demo_boot)) (demo_plan NoFile) []].
Definition late : list time := (repeat noon 30 ++ repeat (noon + 3600 * second) 10)%list.
Definition demo_end : Site (list N) := after demo_sessions (demo_site late).

Lemma every_call_recorded_witness : st_calls (demo_site late) = [] ∧ Forall recorded (st_calls demo_end) ∧
  map v_call (st_calls demo_end) ≠ [].
Proof.
  split; [reflexivity|]. split; [|by vm_compute]. exact (every_call_recorded demo_sessions (demo_site late) eq_refl).
Defined.


(** The same setup without a reboot, in which nothing fails. *)
Definition calm : Site (list N) := demo_site (repeat noon 37).
Definition demo_dir : string := "/var/lib/nftfw/setup/backups/one".
Lemma demo_works (a : unit) : answers (works a) a.
Proof. intros w. by exists w. Qed.
#[export] Instance demo_working : Working (demo None) (demo_plan NoFile) demo_dir 7.
Proof.
  constructor; try (intros w; by exists w).
  - intros op Hop. rewrite !elem_of_cons in Hop. destruct_or!; subst; try apply demo_works. by apply not_elem_of_nil in Hop.
  - intros w. by exists (7%N :: w).
Qed.
Definition demo_deadline : time := noon + default_timeout.
Definition forallb5 {A B C D E} (f : A → B → C → D → E → bool) la lb lc ld le : bool :=
  forallb (λ a, forallb (λ b, forallb (λ c, forallb (λ d, forallb (f a b c d) le) ld) lc) lb) la.
Lemma forallb_elem {A} (f : A → bool) l x : forallb f l = true → x ∈ l → f x = true.
Proof. intros H Hx. rewrite forallb_forall in H. apply H. by apply list_elem_of_In. Qed.
Lemma forallb5_elem {A B C D E} (f : A → B → C → D → E → bool) la lb lc ld le : forallb5 f la lb lc ld le = true →
  ∀ a b c d e, a ∈ la → b ∈ lb → c ∈ lc → d ∈ ld → e ∈ le → f a b c d e = true.
Proof. intros H a b c d e Ha Hb Hc Hd He. unfold forallb5 in H. do 5 (eapply forallb_elem in H; [|eassumption]; cbn beta in H). done. Qed.
Abbreviation demo_storable := (λ (p status d : string) (g : N) (c : bool),
  storable (written "tx-1" (demo_plan NoFile) noon demo_deadline p status noon d g c)).
Lemma demo_all_fit : forallb5 demo_storable phases ["running"; "complete"] [""; demo_dir] [0%N; 7%N] [true; false] = true.
Proof. vm_compute. reflexivity. Qed.
Lemma demo_fits : fits "tx-1" (demo_plan NoFile) (repeat noon 37) noon demo_deadline demo_dir 7.
Proof.
  intros p status t d g c Hp Hs Ht Hd Hg. apply list_elem_of_In, repeat_spec in Ht as ->.
  assert (c ∈ [true; false]) as Hc by (destruct c; [by left|by right; left]).
  pose proof (forallb5_elem demo_storable _ _ _ _ _ demo_all_fit p status d g c Hp Hs Hd Hg Hc) as H.
  exact H.
Qed.
Lemma noon_before_deadline t : t ∈ noon :: repeat noon 36 → t < demo_deadline.
Proof. change (noon :: repeat noon 36) with (repeat noon 37). intros ->%list_elem_of_In%repeat_spec. by vm_compute. Qed.

