(* ===== verification/NftJson.v ===== *)
(** Reading nft's JSON (internal/nft/backend.go, fingerprint.go): the tables that
    exist, the structural markers of an owned table, and the canonical form whose
    digest is the fingerprint. *)

From S2P Require Import Prelude GoStrings Sha256 Json NftScript.
From Stdlib Require Import Ascii String.
Local Open Scope string_scope.

(** ** [ListOwned]: entries that do not decode are skipped *)

Definition listed_table (object : list (string * json)) : option NftTable :=
  match member "table" object with
  | None => None
  | Some raw =>
      match members raw with
      | inl _ => None
      | inr l =>
          match string_field "family" l, string_field "name" l with
          | inr family, inr name => Some (mkTable family name)
          | _, _ => None
          end
      end
  end.

Definition listed_owned (owned : list NftTable) (doc : option json) : err + list NftTable :=
  match nftables doc with
  | inl e => inl (Wrapf "decode nft JSON: %w" [] e)
  | inr objects =>
      inr (List.filter (λ t, existsb (λ o, String.eqb (table_key o) (table_key t)) owned)
             (omap listed_table objects))
  end.

(** ** [validateOwnedTableJSON] *)

Record observedChain := mkChain {
  chain_Family : string; chain_Table : string; chain_Name : string; chain_Type : string;
  chain_Hook : string; chain_Policy : string; chain_Comment : string
}.
Record observedRule := mkRule {
  rule_Family : string; rule_Table : string; rule_Chain : string; rule_Comment : string
}.

Definition decode_chain (j : json) : err + observedChain :=
  match members j with
  | inl e => inl e
  | inr l =>
      match string_field "family" l, string_field "table" l, string_field "name" l, string_field "type" l,
            string_field "hook" l, string_field "policy" l, string_field "comment" l with
      | inr f, inr t, inr n, inr ty, inr h, inr p, inr c => inr (mkChain f t n ty h p c)
      | _, _, _, _, _, _, _ => inl json_error
      end
  end.
Definition decode_rule (j : json) : err + observedRule :=
  match members j with
  | inl e => inl e
  | inr l =>
      match string_field "family" l, string_field "table" l, string_field "chain" l, string_field "comment" l with
      | inr f, inr t, inr c, inr k => inr (mkRule f t c k)
      | _, _, _, _ => inl json_error
      end
  end.

(** The [chains] map and the [comments] set. *)
Record observed := mkObserved { ob_chains : gmap string observedChain; ob_comments : gset string }.

Definition observe_chain (table : NftTable) (c : observedChain) (o : observed) : observed :=
  if String.eqb (chain_Family c) (Family table) && String.eqb (chain_Table c) (TableName table) then
    mkObserved (<[chain_Name c := c]> (ob_chains o))
      (if String.eqb (chain_Comment c) "" then ob_comments o else {[chain_Comment c]} ∪ ob_comments o)
  else o.
Definition observe_rule (table : NftTable) (r : observedRule) (o : observed) : observed :=
  if String.eqb (rule_Family r) (Family table) && String.eqb (rule_Table r) (TableName table) &&
     negb (String.eqb (rule_Comment r) "")
  then mkObserved (ob_chains o) ({[rule_Comment r]} ∪ ob_comments o)
  else o.

Definition observe_object (table : NftTable) (object : list (string * json)) (o : observed) : err + observed :=
  let chain := match member "chain" object with
               | None => inr o
               | Some raw => match decode_chain raw with
                             | inl e => inl (Wrapf "decode chain: %w" [] e)
                             | inr c => inr (observe_chain table c o)
                             end
               end in
  match chain with
  | inl e => inl e
  | inr o =>
      match member "rule" object with
      | None => inr o
      | Some raw => match decode_rule raw with
                    | inl e => inl (Wrapf "decode rule: %w" [] e)
                    | inr r => inr (observe_rule table r o)
                    end
      end
  end.

Fixpoint observe (table : NftTable) (objects : list (list (string * json))) (o : observed) : err + observed :=
  match objects with
  | [] => inr o
  | x :: l => match observe_object table x o with inl e => inl e | inr o' => observe table l o' end
  end.

(** A failed requirement is its detail. *)
Definition requireComment (o : observed) (table : NftTable) (comment : string) : option string :=
  if bool_decide (comment ∈ ob_comments o) then None
  else Some (sprintf "marker %q missing from %s/%s" [ArgS comment; ArgS (Family table); ArgS (TableName table)]).

Definition requireBaseChain (o : observed) (table : NftTable) (name typ hook policy : string) : option string :=
  match ob_chains o !! name with
  | None => Some (sprintf "base chain %q missing from %s/%s" [ArgS name; ArgS (Family table); ArgS (TableName table)])
  | Some c =>
      if String.eqb (chain_Type c) typ && String.eqb (chain_Hook c) hook && String.eqb (chain_Policy c) policy
      then None
      else Some (sprintf "base chain %q has unsafe type/hook/policy in %s/%s"
                   [ArgS name; ArgS (Family table); ArgS (TableName table)])
  end.

Definition commentSuffixes (o : observed) (prefix : string) : gset string :=
  set_map (λ c, trim_prefix c prefix) (filter (λ c, has_prefix c prefix = true) (ob_comments o)).

Fixpoint first_detail (l : list (option string)) : option string :=
  match l with
  | [] => None
  | Some d :: _ => Some d
  | None :: l' => first_detail l'
  end.

Definition filterComments : list string :=
  ["nftfw:input-default-deny"; "nftfw:output-default-deny"; "nftfw:forward-default-deny";
   "nftfw:forward-physical-deny"; "nftfw:input-reply-only"; "nftfw:vpn-only-egress"].
Definition provenanceMarkers : list string :=
  ["nftfw:provenance-tag-input:"; "nftfw:provenance-tag-output:"; "nftfw:provenance-tag-forward:";
   "nftfw:provenance-reply-output:"; "nftfw:provenance-reply-forward:"].

(** The loop over the marker classes; [expected] is the first class's interface set. *)
Fixpoint check_markers (o : observed) (table : NftTable) (expected : option (gset string)) (l : list string) : option string :=
  match l with
  | [] => None
  | prefix :: l' =>
      let observed := commentSuffixes o prefix in
      if (size observed =? 0)%nat || (64 <? size observed)%nat
      then Some (sprintf "provenance marker class %q is absent or unbounded in %s/%s"
                   [ArgS prefix; ArgS (Family table); ArgS (TableName table)])
      else match expected with
           | None => check_markers o table (Some observed) l'
           | Some e =>
               if negb (size e =? size observed)%nat
               then Some (sprintf "provenance marker interface sets differ in %s/%s" [ArgS (Family table); ArgS (TableName table)])
               else match List.filter (λ n, String.eqb n "" || negb (bool_decide (n ∈ observed))) (elements e) with
                    | n :: _ => Some (sprintf "provenance marker for interface %q is incomplete in %s/%s"
                                        [ArgS n; ArgS (Family table); ArgS (TableName table)])
                    | [] => check_markers o table expected l'
                    end
           end
  end.

Definition ipv6_mode_prefix : string := "nftfw:ipv6-mode-".

(** The loop over the comments takes the first mode marker it meets; the order in
    which Go ranges over the map is the argument [order]. *)
Definition ipv6_mode (order : list string) : string :=
  match List.find (λ c, has_prefix c ipv6_mode_prefix) order with
  | Some c => trim_prefix c ipv6_mode_prefix
  | None => ""
  end.

Definition base_chains (o : observed) (table : NftTable) : list (option string) :=
  map (λ c, requireBaseChain o table c "filter" c "drop") ["input"; "output"; "forward"].

(** The answer of the table's [switch]: [None] when every requirement holds. *)
Definition check_owned_table (o : observed) (order : list string) (table : NftTable) : option string :=
  if bool_decide (table = mkTable "inet" FilterTable) then
    first_detail (base_chains o table ++ map (requireComment o table) filterComments ++
                  [check_markers o table None provenanceMarkers])
  else if bool_decide (table = mkTable "ip" NATTable) then
    first_detail [requireBaseChain o table "prerouting" "nat" "prerouting" "accept";
                  requireComment o table "nftfw:dnat-chain";
                  requireBaseChain o table "postrouting" "nat" "postrouting" "accept"]
  else if bool_decide (table = mkTable "ip6" Filter6) then
    let mode := ipv6_mode order in
    if String.eqb mode "" then Some (sprintf "IPv6 mode marker missing from %s/%s" [ArgS (Family table); ArgS (TableName table)])
    else if String.eqb mode "disabled" then first_detail (base_chains o table)
    else if negb (String.eqb mode "vpn") && negb (String.eqb mode "native")
    then Some (sprintf "invalid IPv6 mode marker in %s/%s" [ArgS (Family table); ArgS (TableName table)])
    else None
  else Some (sprintf "unexpected owned table %s/%s" [ArgS (Family table); ArgS (TableName table)]).

(** [range] gives the iteration order of the comments map. *)
Definition validateOwnedTableJSON (range : gset string → list string) (doc : option json) (table : NftTable) : err + (bool * string) :=
  match nftables doc with
  | inl e => inl (Wrapf "decode nft JSON: %w" [] e)
  | inr objects =>
      match observe table objects (mkObserved ∅ ∅) with
      | inl e => inl e
      | inr o =>
          match check_owned_table o (range (ob_comments o)) table with
          | None => inr (true, "")
          | Some detail => inr (false, detail)
          end
      end
  end.

(** ** [canonicalOwnedJSON] *)

(** [stripVolatileValues]: handles everywhere, packet and byte counts of counters. *)
Fixpoint stripVolatileValues (j : json) : json :=
  match j with
  | JObj l =>
      JObj (without "handle" (map (λ m,
        (m.1, match stripVolatileValues m.2 with
              | JObj c => if String.eqb m.1 "counter" then JObj (without "packets" (without "bytes" c)) else JObj c
              | v => v
              end)) l))
  | JArr l => JArr (map stripVolatileValues l)
  | _ => j
  end.

Definition is_string (s : string) (v : option json) : bool :=
  match v with Some (JStr t) => String.eqb t s | _ => false end.

(** One [kind: value] member of an object: it belongs to the table and loses its
    volatile parts. *)
Definition canonical_entry (table : NftTable) (m : string * json) : err + (string * json) :=
  match m.2 with
  | JObj entry =>
      if negb (is_string (Family table) (member "family" entry))
      then inl (Errorf "fingerprint JSON contains an unexpected %s object" [ArgS m.1])
      else if negb (if String.eqb m.1 "table" then is_string (TableName table) (member "name" entry)
                    else is_string (TableName table) (member "table" entry))
      then inl (Errorf "fingerprint JSON contains an unexpected %s object" [ArgS m.1])
      else
        let entry := without "handle" entry in
        let entry := if String.eqb m.1 "set" then without "elem" entry else entry in
        inr (m.1, stripVolatileValues (JObj entry))
  | _ => inl (Errorf "invalid %s object in fingerprint JSON" [ArgS m.1])
  end.

Definition volatile_object (object : list (string * json)) : bool :=
  match member "metainfo" object, member "element" object with
  | None, None => false
  | _, _ => true
  end.

Definition canonical_object (table : NftTable) (object : list (string * json)) : err + json :=
  match collect (canonical_entry table) object with inl e => inl e | inr l => inr (JObj l) end.

Definition canonicalOwnedJSON (doc : option json) (table : NftTable) : err + string :=
  match nftables doc with
  | inl e => inl (Wrapf "decode fingerprint JSON for %s/%s: %w" [ArgS (Family table); ArgS (TableName table)] e)
  | inr objects =>
      match collect (canonical_object table) (List.filter (λ o, negb (volatile_object o)) objects) with
      | inl e => inl e
      | inr [] => inl (Errorf "fingerprint JSON for %s/%s contains no owned objects" [ArgS (Family table); ArgS (TableName table)])
      | inr l => inr (marshal (JArr l))
      end
  end.
