(* ===== verification/Backend.v ===== *)
(** The nftables backend (internal/nft/backend.go, fingerprint.go): the only code
    that mutates nftables.  The nft command is a parameter: an instance of [Nft]
    says what it answers about a kernel state and what running a script does. *)

From S2P Require Import Prelude GoStrings Sha256 Json NftScript NftJson Ledger Snapshot Host.
From Stdlib Require Import Ascii String.
Local Open Scope string_scope.
Local Open Scope N_scope.
Local Open Scope host_scope.

(** ** The nft command

    [Runner.Run] on the argument lists the backend uses.  [None] is a failed
    command; the JSON output is [None] when it is not JSON at all. *)

Class Nft (K : Type) := {
  nft_check : string → K → bool;                       (* nft --check --file *)
  nft_file : string → K → option K;                    (* nft --file *)
  nft_list_tables : K → option (option json);          (* nft -j list tables *)
  nft_list_table : NftTable → K → option (option json); (* nft -j list table *)
  nft_list_ruleset : K → option (option json)          (* nft -j list ruleset *)
}.

(** The context values the program passes along: whether it carries the mutation
    lock ([state.WithMutationLock]) and the safe-apply preflight marker. *)
Record Ctx := mkCtx { ctx_locked : bool; ctx_preflight : bool }.
Definition WithMutationLock (c : Ctx) : Ctx := mkCtx true (ctx_preflight c).

Section backend.
Context {K : Type} `{Nft K}.
(** The order in which Go ranges over a set of comments. *)
Context (range : gset string → list string).
Abbreviation HM := (M (Host K)).

Definition throw_err {A} (e : option err) (k : HM A) : HM A :=
  match e with Some e => throw e | None => k end.

Definition requireGlobalMutationLock (c : Ctx) : HM unit :=
  require (ctx_locked c) (Errorf "nft mutation requires the held global mutation lock" []).

(** ** Inspection *)

Definition run_json (what : string) (f : K → option (option json)) : HM (option json) :=
  sys_read (EvNftRead what)
    (λ w, match f (w_kernel w) with Some out => Ret out | None => Error ErrIO end).

Definition ListOwned : HM (list NftTable) :=
  out <- catch (run_json "list tables" nft_list_tables)
           (λ e, throw (Wrapf "nft list tables: %s: %w" [] e)) ;;
  lift_check (listed_owned OwnedTables out).

Definition ExistingOwned : HM (gset string) :=
  items <- ListOwned ;;
  ret (list_to_set (map table_key items)).

Definition table_name (t : NftTable) : string := Family t +:+ "/" +:+ TableName t.

(** The loop over the tables of [Integrity]; the answer is [(ok, detail)].  A failed
    inspection is the error. *)
Fixpoint integrity_tables (l : list NftTable) : HM (bool * string) :=
  match l with
  | [] => ret (true, "owned table markers intact")
  | t :: l' =>
      out <- run_json (table_name t) (nft_list_table t) ;;
      r <- lift_check (validateOwnedTableJSON range out t) ;;
      if (r : bool * string).1 then integrity_tables l' else ret (false, r.2)
  end.

Definition Integrity : HM (bool * string) :=
  owned <- ExistingOwned ;;
  match List.filter (λ t, negb (bool_decide (table_key t ∈ owned))) OwnedTables with
  | t :: _ => ret (false, sprintf "owned table %s/%s is missing" [ArgS (Family t); ArgS (TableName t)])
  | [] => integrity_tables OwnedTables
  end.

(** The canonical forms of the owned tables, in order. *)
Fixpoint canonical_tables (l : list NftTable) : HM string :=
  match l with
  | [] => ret ""
  | t :: l' =>
      out <- catch (run_json (table_name t) (nft_list_table t))
               (λ e, throw (Wrapf "fingerprint %s/%s: %s: %w" [ArgS (Family t); ArgS (TableName t)] e)) ;;
      c <- lift_check (canonicalOwnedJSON out t) ;;
      rest <- canonical_tables l' ;;
      ret (c +:+ rest)
  end.

Definition Fingerprint : HM string :=
  text <- canonical_tables OwnedTables ;;
  ret (sha256_hex text).

(** ** Mutation *)

(** [tempScript]: writing and syncing the temporary file. *)
Definition tempScript : HM unit := sys_read (EvFSWrite "temporary nft script") (λ _, Ret tt).

Definition Check (script : string) : HM unit :=
  throw_err (validateScript script)
    (tempScript ;;
     catch (sys_read (EvNftRead "--check")
              (λ w, if nft_check script (w_kernel w) then Ret tt else Error ErrIO))
       (λ e, throw (Wrapf "nft --check failed: %s: %w" [] e))).

(** [nft --file]: an atomic batch. *)
Definition run_file (script : string) : HM unit :=
  sys_write (EvNftFile script)
    (λ w, match nft_file script (w_kernel w) with
          | Some k => inr (tt, set_kernel k (w_first_use w) w)
          | None => inl ErrIO
          end).

Definition disarm_first_use : HM unit :=
  modify (on_world (λ w, set_kernel (w_kernel w) false w)).

Definition ProtectFirstUse : HM unit :=
  existing <- catch ExistingOwned (λ e, throw (Wrapf "inspect first-use nft table collisions: %w" [] e)) ;;
  throw_err (firstUseCollision existing OwnedTables)
    (modify (on_world (λ w, set_kernel (w_kernel w) true w))).

(** The checks [Apply] and [CheckCandidate] share, up to the transaction text. *)
Definition prepare_transaction (script : string) : HM string :=
  throw_err (validateScript script)
    (owned <- catch ExistingOwned (λ e, throw (Wrapf "inspect owned nft tables: %w" [] e)) ;;
     armed <- peek w_first_use ;;
     throw_err (if armed : bool then firstUseCollision owned OwnedTables else None)
       (let transaction := prependDestroy script owned OwnedTables in
        throw_err (validateScript transaction) (Check transaction ;; ret transaction))).

Definition Apply (c : Ctx) (script : string) : HM unit :=
  requireGlobalMutationLock c ;;
  transaction <- prepare_transaction script ;;
  tempScript ;;
  catch (run_file transaction)
    (λ e, throw (ErrApplyExecution (Wrapf "nft apply failed: %s: %w" [] e))) ;;
  disarm_first_use.

Definition CheckCandidate (script : string) : HM unit :=
  prepare_transaction script ;; ret tt.

Definition DestroyOwned (c : Ctx) : HM unit :=
  requireGlobalMutationLock c ;;
  existing <- ExistingOwned ;;
  let script := destroy_lines existing OwnedTables in
  if String.eqb script "" then ret tt
  else
    tempScript ;;
    catch (run_file script) (λ e, throw (Wrapf "destroy owned tables failed: %s: %w" [] e)).
End backend.

(** [errors.As(err, &ApplyExecutionError)] *)
Fixpoint MutationAttempted (e : err) : bool :=
  match e with
  | ErrApplyExecution _ => true
  | Wrapf _ _ e => MutationAttempted e
  | Join e1 e2 => MutationAttempted e1 || MutationAttempted e2
  | _ => false
  end.
