(* ===== verification/SetUpdates.v ===== *)
(** Runtime sets of the nft backend (internal/nft/backend.go, leases.go): the members
    of the owned sets are replaced in one nft batch, without recompiling the chains. *)

From S2P Require Import Prelude GoStrings GoTime Netip Json NftScript NftJson Ledger Snapshot Host Backend.
From Stdlib Require Import Ascii String.
Local Open Scope string_scope.
Local Open Scope Z_scope.
Local Open Scope host_scope.
Abbreviation length := List.length.

(** ** Batches *)

Record set_update := mkUpdate { su_family : string; su_table : string; su_name : string; su_elements : list string }.

Definition newline : string := String lf EmptyString.
Definition flush_line (u : set_update) : string :=
  "flush set " +:+ su_family u +:+ " " +:+ su_table u +:+ " " +:+ su_name u +:+ newline.
Definition element_line (verb : string) (u : set_update) : string :=
  verb +:+ " element " +:+ su_family u +:+ " " +:+ su_table u +:+ " " +:+ su_name u +:+ " { " +:+
  join ", " (su_elements u) +:+ " }" +:+ newline.
Definition update_lines (u : set_update) : string :=
  flush_line u +:+ match su_elements u with [] => "" | _ => element_line "add" u end.
Definition batch (l : list set_update) : string := String.concat "" (map update_lines l).

(** The sets of the inet table, and whether they hold IPv4 addresses. *)
Definition allowed_sets : list (string * bool) :=
  [("blocked_v4", true); ("blocked_v6", false); ("trusted_v4", true); ("trusted_v6", false);
   ("wg_bootstrap_v4", true); ("wg_bootstrap_v6", false); ("docker_nets", true); ("docker_nets6", false)].
Definition set_is_ipv4 (name : string) : option bool := snd <$> List.find (λ a, String.eqb a.1 name) allowed_sets.

Definition check_element (name : string) (ipv4 : bool) (raw : string) : option err :=
  match ParsePrefix raw with
  | None => Some (Errorf "invalid set element %q" [ArgS raw])
  | Some p =>
      if (pfx_bits p =? 0)%N then Some (Errorf "invalid set element %q" [ArgS raw])
      else if negb (Bool.eqb (Is4 (pfx_addr p)) ipv4)
      then Some (Errorf "set %s contains wrong-family element %q" [ArgS name; ArgS raw])
      else if has_prefix name "wg_bootstrap_" && negb (IsSingleIP p)
      then Some (Errorf "set %s requires host-prefix elements" [ArgS name])
      else None
  end.
Fixpoint check_elements (check : string → option err) (l : list string) : option err :=
  match l with
  | [] => None
  | raw :: l' => match check raw with Some e => Some e | None => check_elements check l' end
  end.

Definition validateSetPrefix (ipv4 : bool) (raw : string) : option err :=
  match ParsePrefix raw with
  | None => Some (Errorf "invalid set element %q" [ArgS raw])
  | Some p =>
      if (pfx_bits p =? 0)%N then Some (Errorf "invalid set element %q" [ArgS raw])
      else if negb (Bool.eqb (Is4 (pfx_addr p)) ipv4) then Some (Errorf "wrong-family set element %q" [ArgS raw])
      else None
  end.

(** ** Temporary access *)

Record TimedElement := mkTimed { te_Prefix : string; te_TimeoutSeconds : Z }.
Definition max_timeout : Z := 365 * 24 * 3600.
Definition check_timed (name : string) (ipv4 : bool) (e : TimedElement) : option err :=
  match validateSetPrefix ipv4 (te_Prefix e) with
  | Some x => Some (Wrapf "set %s: %w" [ArgS name] x)
  | None =>
      if (te_TimeoutSeconds e <? 0) || (max_timeout <? te_TimeoutSeconds e)
      then Some (Errorf "set %s has invalid timeout" [ArgS name])
      else None
  end.
Definition timed_text (e : TimedElement) : string :=
  te_Prefix e +:+ if 0 <? te_TimeoutSeconds e then " timeout " +:+ pretty (te_TimeoutSeconds e) +:+ "s" else "".
Definition sort_timed : list TimedElement → list TimedElement := sort_by (λ a b, str_leb (te_Prefix a) (te_Prefix b)).
Fixpoint check_timed_elements (name : string) (ipv4 : bool) (l : list TimedElement) : option err :=
  match l with
  | [] => None
  | e :: l' => match check_timed name ipv4 e with Some x => Some x | None => check_timed_elements name ipv4 l' end
  end.

(** One set of [ReplaceClaimSets], in the order of the code: the plain sets, then the
    timed ones. *)
Definition plain_update (name : string) (ipv4 : bool) (values : list string) : err + set_update :=
  let values := sort_strings values in
  match check_elements (validateSetPrefix ipv4) values with
  | Some e => inl (Wrapf "set %s: %w" [ArgS name] e)
  | None => inr (mkUpdate "inet" FilterTable name values)
  end.
Definition timed_update (name : string) (ipv4 : bool) (values : list TimedElement) : err + set_update :=
  let values := sort_timed values in
  match check_timed_elements name ipv4 values with
  | Some e => inl e
  | None => inr (mkUpdate "inet" FilterTable name (map timed_text values))
  end.
Fixpoint sequence {A} (l : list (err + A)) : err + list A :=
  match l with
  | [] => inr []
  | inl e :: _ => inl e
  | inr a :: l' => match sequence l' with inl e => inl e | inr r => inr (a :: r) end
  end.
Definition claim_updates (blockedV4 blockedV6 : list string) (trustedV4 trustedV6 : list TimedElement) : err + list set_update :=
  sequence [plain_update "blocked_v4" true blockedV4; plain_update "blocked_v6" false blockedV6;
            timed_update "trusted_v4" true trustedV4; timed_update "trusted_v6" false trustedV6].

(** *** Container networks *)

Definition check_container (ipv4 : bool) (raw : string) : option err :=
  match ParsePrefix raw with
  | None => Some (Errorf "invalid container network %q" [ArgS raw])
  | Some p =>
      if (pfx_bits p =? 0)%N || negb (Bool.eqb (Is4 (pfx_addr p)) ipv4)
      then Some (Errorf "invalid container network %q" [ArgS raw])
      else None
  end.
Definition container_update (family table name : string) (ipv4 : bool) (values : list string) : err + set_update :=
  let values := sort_strings values in
  match check_elements (check_container ipv4) values with
  | Some e => inl e
  | None => inr (mkUpdate family table name values)
  end.
Definition container_updates (v4 v6 : list string) : err + list set_update :=
  sequence [container_update "inet" FilterTable "docker_nets" true v4; container_update "inet" FilterTable "docker_nets6" false v6;
            container_update "ip" NATTable "docker_nets_nat" true v4].

(** *** Named sets *)

Definition named_update (sets : gmap string (list string)) (name : string) : err + set_update :=
  let values := sort_strings (default [] (sets !! name)) in
  match check_elements (check_element name (default true (set_is_ipv4 name))) values with
  | Some e => inl e
  | None => inr (mkUpdate "inet" FilterTable name values)
  end.

Section backend.
Context {K : Type} `{Nft K}.
(** The order in which Go ranges over the keys of a map. *)
Context (range : gset string → list string).
Abbreviation HM := (M (Host K)).

(** [Check], the temporary file and [nft --file], as every runtime transaction runs. *)
Definition run_batch (failed : string) (script : string) : HM unit :=
  Check script ;;
  tempScript ;;
  catch (run_file script) (λ e, throw (Wrapf failed [] e)).
Definition applyRuntimeTransaction (script : string) : HM unit :=
  run_batch "nft runtime set replacement failed: %s: %w" script.

Definition ReplaceClaimSets (c : Ctx) (blockedV4 blockedV6 : list string) (trustedV4 trustedV6 : list TimedElement) : HM unit :=
  requireGlobalMutationLock c ;;
  match claim_updates blockedV4 blockedV6 trustedV4 trustedV6 with
  | inl e => throw e
  | inr l => applyRuntimeTransaction (batch l)
  end.

Definition ReplaceContainerNetworks (c : Ctx) (v4 v6 : list string) : HM unit :=
  requireGlobalMutationLock c ;;
  match container_updates v4 v6 with
  | inl e => throw e
  | inr l => run_batch "nft container set replacement failed: %s: %w" (batch l)
  end.

Definition ReplaceSets (c : Ctx) (sets : gmap string (list string)) : HM unit :=
  requireGlobalMutationLock c ;;
  match List.find (λ n, negb (bool_decide (is_Some (set_is_ipv4 n)))) (range (dom sets)) with
  | Some n => throw (Errorf "set %q is not owned" [ArgS n])
  | None =>
      match sequence (map (named_update sets) (sort_strings (map fst (map_to_list sets)))) with
      | inl e => throw e
      | inr [] => ret tt
      | inr l => run_batch "nft set replacement failed: %s: %w" (batch l)
      end
  end.

Definition UpdateSet (c : Ctx) (name : string) (add : bool) (elements : list string) : HM unit :=
  requireGlobalMutationLock c ;;
  match set_is_ipv4 name with
  | None => throw (Errorf "set %q is not owned" [ArgS name])
  | Some ipv4 =>
      match elements with
      | [] => ret tt
      | _ =>
          match check_elements (check_element name ipv4) elements with
          | Some e => throw e
          | None =>
              let script := element_line (if add then "add" else "delete") (mkUpdate "inet" FilterTable name elements) in
              throw_err (validateScript script) (run_batch "nft set update failed: %s: %w" script)
          end
      end
  end.
End backend.
