(* ===== verification/SetBatch.v ===== *)
(** What a batch of set updates says: every checked batch passes the validation of the
    backend, and reads back as exactly the updates asked for. *)

From S2P Require Import Prelude GoStrings GoTime Netip NftScript ScriptText Json NftJson Ledger Snapshot Host Backend SetUpdates.
From Stdlib Require Import Ascii String.
Local Open Scope string_scope.
Local Open Scope Z_scope.
Abbreviation length := List.length.

(** ** Reading a batch

    One command per line, as nft reads them: words separated by single blanks, and the
    elements of a set between braces, separated by commas. *)

Inductive command := FlushSet (family table name : string) | AddElements (family table name : string) (elements : list string).
Definition commands_of (u : set_update) : list command :=
  FlushSet (su_family u) (su_table u) (su_name u) ::
  match su_elements u with [] => [] | l => [AddElements (su_family u) (su_table u) (su_name u) l] end.

Fixpoint split_on (c : ascii) (l : list ascii) : list (list ascii) :=
  match l with
  | [] => [[]]
  | x :: l' => if Ascii.eqb x c then [] :: split_on c l'
               else match split_on c l' with [] => [[x]] | a :: r => (x :: a) :: r end
  end.
Definition tail_brace : list ascii := [" "; "}"]%char.
Definition read_elements (body : list ascii) : option (list string) :=
  let n := (length body - 2)%nat in
  if bool_decide (drop n body = tail_brace) then Some (map (λ e, of_chars (drop 1 e)) (split_on ","%char (take n body))) else None.
Definition read_command (line : list ascii) : option command :=
  match split_at "{"%char line with
  | None => match map of_chars (split_on " "%char line) with
            | [v; o; f; t; n] => if String.eqb v "flush" && String.eqb o "set" then Some (FlushSet f t n) else None
            | _ => None
            end
  | Some (head, body) =>
      match map of_chars (split_on " "%char head) with
      | [v; o; f; t; n; e] => if String.eqb v "add" && String.eqb o "element" && String.eqb e "" then AddElements f t n <$> read_elements body else None
      | _ => None
      end
  end.
Fixpoint read_lines (l : list (list ascii)) : option (list command) :=
  match l with
  | [] => Some []
  | x :: l' => match read_command x, read_lines l' with Some c, Some r => Some (c :: r) | _, _ => None end
  end.
Definition read_batch (s : string) : option (list command) := read_lines (removelast (split_on lf (chars s))).

Lemma split_on_none c l : Forall (λ x, x ≠ c) l → split_on c l = [l].
Proof. induction 1 as [|x l Hx _ IH]; [done|]. simpl. apply Ascii.eqb_neq in Hx as ->. by rewrite IH. Qed.
Lemma split_on_cons c a b : Forall (λ x, x ≠ c) a → split_on c (a ++ c :: b) = a :: split_on c b.
Proof.
  induction 1 as [|x a Hx _ IH]; simpl; [by rewrite Ascii.eqb_refl|]. apply Ascii.eqb_neq in Hx as ->. by rewrite IH.
Qed.
Lemma split_on_nonempty c l : split_on c l ≠ [].
Proof. destruct l as [|x l]; [done|]. simpl. destruct (Ascii.eqb x c); [done|]. by destruct (split_on c l). Qed.

(** ** Elements *)

(** A character that neither ends the statement nor the element. *)
Definition inner (c : ascii) : bool := negb (one_of "{},;" c) && negb (Ascii.eqb c lf) && bare_char c && ascii7 c.
Definition element_ok (e : string) : Prop := forallb inner (chars e) = true ∧ good e ∧ good (e +:+ ",").
Definition known_sets : list (string * string * string) :=
  (map (λ a, ("inet", FilterTable, a.1)) allowed_sets ++ [("ip", NATTable, "docker_nets_nat")])%list.
Definition update_ok (u : set_update) : Prop := (su_family u, su_table u, su_name u) ∈ known_sets ∧ Forall element_ok (su_elements u).

Lemma prefix_inner : ∀ c, prefix_char c = true → inner c = true.
Proof. apply class_impl. vm_compute. reflexivity. Qed.
Lemma digit_inner : ∀ c, is_digit c = true → inner c = true.
Proof. apply class_impl. vm_compute. reflexivity. Qed.
Lemma prefix_element s p : ParsePrefix s = Some p → element_ok s.
Proof.
  intros H. pose proof (prefix_text_odd _ _ H) as Ho. apply ParsePrefix_chars in H as [H _]. split; [|split].
  - by apply (forallb_impl _ _ _ prefix_inner).
  - by apply good_odd.
  - apply good_odd. by apply odd_word_app.
Qed.
Lemma timed_element s p n : ParsePrefix s = Some p → 0 <= n → element_ok (s +:+ (" timeout " +:+ pretty n +:+ "s")).
Proof.
  intros H Hn. pose proof (prefix_text_odd _ _ H) as Ho. pose proof (pretty_odd n Hn) as Hp. apply prefix_element in H as (Hc & Hg & _).
  pose proof (pretty_Z_digits n Hn) as [Hd _]. split; [|split].
  - rewrite !chars_app, !forallb_app, Hc, (forallb_impl _ _ _ digit_inner Hd). reflexivity.
  - apply good_app_r; [done|done|]. apply good_app_l; [done..|]. apply good_odd. by apply odd_word_app.
  - rewrite <-string_app_assoc. apply good_app_r; [done|done|]. rewrite <-string_app_assoc. apply good_app_l; [done..|]. apply good_odd.
    rewrite <-string_app_assoc. by apply odd_word_app.
Qed.

(** ** Lines *)

Definition set_text (u : set_update) : string := su_family u +:+ " " +:+ su_table u +:+ " " +:+ su_name u.
Definition flush_text (u : set_update) : string := "flush set " +:+ set_text u.
Definition head_text (verb : string) (u : set_update) : string := verb +:+ " element " +:+ set_text u +:+ " ".
Definition element_text (verb : string) (u : set_update) : string := head_text verb u +:+ "{ " +:+ join ", " (su_elements u) +:+ " }".
Definition update_texts (u : set_update) : list string :=
  flush_text u :: match su_elements u with [] => [] | _ => [element_text "add" u] end.

Lemma flush_line_text u : flush_line u = flush_text u +:+ newline.
Proof. unfold flush_line, flush_text, set_text. by rewrite <-!string_app_assoc. Qed.
Lemma element_line_text verb u : element_line verb u = element_text verb u +:+ newline.
Proof. unfold element_line, element_text, head_text, set_text. by rewrite <-!string_app_assoc. Qed.
Lemma batch_unlines l : batch l = unlines (l ≫= update_texts).
Proof.
  unfold batch. induction l as [|u l IH]; [done|]. cbn [mbind list_bind].
  assert (String.concat "" (map update_lines (u :: l)) = update_lines u +:+ String.concat "" (map update_lines l)) as ->.
  { simpl. destruct (map update_lines l); [by rewrite string_app_nil_r|done]. }
  rewrite IH. unfold update_lines, update_texts. rewrite flush_line_text. destruct (su_elements u) as [|e es]; simpl.
  - by rewrite string_app_nil_r, <-string_app_assoc.
  - rewrite element_line_text, <-!string_app_assoc. done.
Qed.

(** A fact about the sets of the product, decided by computation. *)
Lemma known_fact (p : set_update → bool) u : (su_family u, su_table u, su_name u) ∈ known_sets → (∀ v, p v = p (mkUpdate (su_family v) (su_table v) (su_name v) [])) →
  forallb (λ k, p (mkUpdate k.1.1 k.1.2 k.2 [])) known_sets = true → p u = true.
Proof. intros Hu Hp H. rewrite forallb_forall in H. rewrite Hp. exact (H _ (proj1 (list_elem_of_In _ _) Hu)). Qed.
Ltac known := match goal with
  | |- ?p = true => eapply (known_fact _ _); [eassumption|intros; reflexivity|vm_compute; reflexivity]
  end.

Section update.
Context (u : set_update) (Hu : (su_family u, su_table u, su_name u) ∈ known_sets).

Lemma flush_read : read_command (chars (flush_text u)) = Some (FlushSet (su_family u) (su_table u) (su_name u)).
Proof.
  assert ((match read_command (chars (flush_text u)) with
    | Some (FlushSet f t n) => String.eqb f (su_family u) && String.eqb t (su_table u) && String.eqb n (su_name u) | _ => false end) = true) as H.
  { apply (known_fact (λ u, match read_command (chars (flush_text u)) with
      | Some (FlushSet f t n) => String.eqb f (su_family u) && String.eqb t (su_table u) && String.eqb n (su_name u) | _ => false end) u Hu);
      [done|vm_compute; reflexivity]. }
  destruct (read_command _) as [[f t n|]|]; [|done..]. apply andb_true_iff in H as [[->%String.eqb_eq ->%String.eqb_eq]%andb_true_iff ->%String.eqb_eq].
  done.
Qed.
(** What the head of an element line is, as text and as words. *)
Lemma head_plain verb : verb = "add" ∨ verb = "delete" →
  forallb (λ c, negb (Ascii.eqb c "{"%char) && negb (stop c) && bare_char c && ascii7 c) (chars (head_text verb u)) = true.
Proof.
  intros [-> | ->]; [apply (known_fact (λ u, forallb (λ c, negb (Ascii.eqb c "{"%char) && negb (stop c) && bare_char c && ascii7 c) (chars (head_text "add" u))) u Hu)
    |apply (known_fact (λ u, forallb (λ c, negb (Ascii.eqb c "{"%char) && negb (stop c) && bare_char c && ascii7 c) (chars (head_text "delete" u))) u Hu)];
    [done|vm_compute; reflexivity|done|vm_compute; reflexivity].
Qed.
Lemma head_read : map of_chars (split_on " "%char (chars (head_text "add" u))) = ["add"; "element"; su_family u; su_table u; su_name u; ""].
Proof.
  apply (bool_decide_eq_true_1 _), (known_fact (λ u, bool_decide (map of_chars (split_on " "%char (chars (head_text "add" u))) =
      ["add"; "element"; su_family u; su_table u; su_name u; ""])) u Hu); [done|vm_compute; reflexivity].
Qed.
End update.

Lemma inner_not c x : inner x = true → inner c = false → x ≠ c.
Proof. congruence. Qed.
Lemma join_cons sep a b l : join sep (a :: b :: l) = a +:+ sep +:+ join sep (b :: l).
Proof. done. Qed.
Lemma inner_free c e : inner c = false → forallb inner (chars e) = true → Forall (λ x, x ≠ c) (chars e).
Proof. intros Hc He. apply list.Forall_forall. intros x Hx. rewrite forallb_forall in He. eapply inner_not; [|done]. by apply He, list_elem_of_In. Qed.
Lemma split_join es : es ≠ [] → Forall (λ e, forallb inner (chars e) = true) es →
  split_on ","%char (" "%char :: chars (join ", " es)) = map (λ e, " "%char :: chars e) es.
Proof.
  intros Hn H. induction H as [|e es He _ IH]; [done|]. assert (Forall (λ x, x ≠ ","%char) (" "%char :: chars e)) as Hc.
  { constructor; [done|]. by apply inner_free. }
  destruct es as [|a es]; [by apply split_on_none|]. rewrite join_cons, !chars_app. change (chars ", ") with [","; " "]%char.
  change (" "%char :: chars e ++ [","; " "]%char ++ chars (join ", " (a :: es)))%list
    with ((" "%char :: chars e) ++ ","%char :: (" "%char :: chars (join ", " (a :: es))))%list.
  rewrite split_on_cons by done. by rewrite IH.
Qed.
Lemma read_elements_join es : es ≠ [] → Forall (λ e, forallb inner (chars e) = true) es →
  read_elements (" "%char :: chars (join ", " es +:+ " }")) = Some es.
Proof.
  intros Hn H. unfold read_elements. rewrite chars_app. change (chars " }") with tail_brace. rewrite app_comm_cons.
  set (b := " "%char :: chars (join ", " es)). rewrite length_app. change (length tail_brace) with 2%nat. rewrite Nat.add_sub.
  rewrite drop_app_length, take_app_length, bool_decide_eq_true_2 by done. f_equal. unfold b. rewrite split_join by done.
  rewrite map_map. etrans; [|apply map_id]. apply map_ext. intros e. apply of_chars_chars.
Qed.
Lemma join_chars p es : (∀ c, inner c = true → p c = true) → forallb p (chars ", ") = true → Forall (λ e, forallb inner (chars e) = true) es → forallb p (chars (join ", " es)) = true.
Proof.
  intros Hp Hs. induction 1 as [|e es He _ IH]; [done|]. destruct es as [|a es]; [by apply (forallb_impl _ _ _ Hp)|].
  rewrite join_cons, !chars_app, !forallb_app, (forallb_impl _ _ _ Hp He), Hs. exact IH.
Qed.
Lemma elements_inner es : Forall element_ok es → Forall (λ e, forallb inner (chars e) = true) es.
Proof. intros H. eapply Forall_impl; [exact H|]. by intros e (? & _). Qed.

Lemma element_chars verb u : chars (element_text verb u) =
  (chars (head_text verb u) ++ "{"%char :: " "%char :: chars (join ", " (su_elements u) +:+ " }"))%list.
Proof. unfold element_text. rewrite !chars_app. done. Qed.
Lemma element_read u : update_ok u → su_elements u ≠ [] →
  read_command (chars (element_text "add" u)) = Some (AddElements (su_family u) (su_table u) (su_name u) (su_elements u)).
Proof.
  intros [Hu He] Hn. unfold read_command. rewrite element_chars, split_at_skip.
  2:{ pose proof (head_plain u Hu "add" (or_introl eq_refl)) as Hp. apply list.Forall_forall. intros x Hx. rewrite forallb_forall in Hp.
      specialize (Hp x (proj1 (list_elem_of_In _ _) Hx)). intros ->. done. }
  cbn [split_at]. rewrite Ascii.eqb_refl. cbn [fmap option_fmap option_map]. rewrite app_nil_r, (head_read u Hu).
  rewrite read_elements_join; [|done|by apply elements_inner]. done.
Qed.

(** ** Words of a line *)

Definition line_char (c : ascii) : bool := negb (stop c) && bare_char c && ascii7 c.
Lemma inner_line : ∀ c, inner c = true → line_char c = true.
Proof. apply class_impl. vm_compute. reflexivity. Qed.
Lemma good_elements es : Forall element_ok es → good (join ", " es).
Proof.
  induction 1 as [|e es (_ & Hg & Hc) _ IH]; [apply good_empty|]. destruct es as [|a es]; [done|]. rewrite join_cons.
  replace (e +:+ ", " +:+ join ", " (a :: es)) with ((e +:+ ",") +:+ (" " +:+ join ", " (a :: es))) by (by rewrite <-!string_app_assoc).
  apply good_app_r; [done|done|]. by apply good_app_l.
Qed.
Lemma good_words s : good s → forallb line_char (chars s) = true → Forall (λ t, harmless t = true) (words (chars s)).
Proof.
  intros (c & Hc & _ & Hw) Hs. rewrite (closed_unique _ _ _ (closed_plain (chars s) ltac:(eapply forallb_impl; [|exact Hs]; clear; intros c; unfold line_char; by intros [[_ ?]%andb_true_iff _]%andb_true_iff)) Hc).
  done.
Qed.
(** The words of an element line: the command, the set, and harmless ones. *)
Lemma element_words verb u : verb = "add" ∨ verb = "delete" → update_ok u →
  forallb line_char (chars (element_text verb u)) = true ∧
  ∃ tail, words (chars (element_text verb u)) = verb :: "element" :: su_family u :: su_table u :: su_name u :: tail ∧
    Forall (λ t, harmless t = true) tail.
Proof.
  intros Hv [Hu He]. pose proof (head_plain u Hu verb Hv) as Hp. pose proof (elements_inner _ He) as Hi.
  assert (forallb line_char (chars ("{ " +:+ join ", " (su_elements u) +:+ " }")) = true) as Ht.
  { rewrite !chars_app, !forallb_app, (join_chars line_char) by (done || apply inner_line). done. }
  assert (good ("{ " +:+ join ", " (su_elements u) +:+ " }")) as Hg.
  { apply good_app_l; [done..|]. apply good_app_r; [by apply good_elements|done|]. by apply good_literal. }
  split.
  - unfold element_text. rewrite chars_app, forallb_app, Ht, andb_true_r. eapply forallb_impl; [|exact Hp].
    intros c. unfold line_char. by intros [[[_ ->]%andb_true_iff ->]%andb_true_iff ->]%andb_true_iff.
  - exists (words (chars ("{ " +:+ join ", " (su_elements u) +:+ " }"))). split; [|by apply good_words].
    unfold element_text, head_text. rewrite <-!string_app_assoc. set (t := "{ " +:+ _).
    assert (words (chars (verb +:+ " element " +:+ set_text u)) = [verb; "element"; su_family u; su_table u; su_name u]) as E.
    { apply (bool_decide_eq_true_1 _). destruct Hv as [-> | ->];
        [apply (known_fact (λ u, bool_decide (words (chars ("add" +:+ " element " +:+ set_text u)) = ["add"; "element"; su_family u; su_table u; su_name u])) u Hu)
        |apply (known_fact (λ u, bool_decide (words (chars ("delete" +:+ " element " +:+ set_text u)) = ["delete"; "element"; su_family u; su_table u; su_name u])) u Hu)];
        [done|vm_compute; reflexivity|done|vm_compute; reflexivity]. }
    replace (verb +:+ " element " +:+ set_text u +:+ " " +:+ t) with ((verb +:+ " element " +:+ set_text u) +:+ String " " t) by (by rewrite <-!string_app_assoc).
    rewrite chars_app. change (chars (String " " t)) with (" "%char :: chars t). unfold words. rewrite fields_go_app by done.
    fold (words (chars (verb +:+ " element " +:+ set_text u))) (words (chars t)). by rewrite E.
Qed.

(** ** The whole batch *)

Lemma mutable_line parts : (4 <= length parts)%nat → ∀ command object, nftMutationCommands command && nftManagedObjects object = true →
  check_management parts command object = None.
Proof.
  intros Hl command object [Hc Ho]%andb_true_iff. unfold check_management. rewrite Hc, Ho. destruct (negb _); [done|]. simpl.
  by destruct (Nat.ltb_spec (length parts) 4); [lia|].
Qed.
Lemma element_statement verb u : verb = "add" ∨ verb = "delete" → update_ok u → check_statement (element_text verb u) = None.
Proof.
  intros Hv Hu. destruct (element_words verb u Hv Hu) as (Hl & tail & Hw & Ht). destruct Hu as [Hu _].
  assert (fields (element_text verb u) = verb :: "element" :: su_family u :: su_table u :: su_name u :: tail) as E.
  { rewrite <-Hw. unfold fields, words. rewrite ascii_spaces_id.
    - apply fields_go_ext. intros c Hc. unfold brk. rewrite forallb_forall in Hl. specialize (Hl c (proj1 (list_elem_of_In _ _) Hc)).
      unfold line_char, stop in Hl. destruct (Ascii.eqb c ";"%char); [by rewrite orb_true_r in Hl|by rewrite orb_false_r].
    - eapply forallb_impl; [|exact Hl]. intros c. unfold line_char. by intros [_ ?]%andb_true_iff. }
  unfold check_statement. rewrite E. rewrite mutable_line; [|simpl; lia|by destruct Hv as [-> | ->]]. cbn [or_else].
  assert (check_tokens (verb :: "element" :: su_family u :: su_table u :: su_name u :: tail) = check_tokens tail) as ->.
  { assert (∀ t l, negb (nftDirectives (nftKeyword t)) && negb (String.eqb (nftKeyword t) "table") = true → check_tokens (t :: l) = check_tokens l) as Hs.
    { intros t l [H1%negb_true_iff H2%negb_true_iff]%andb_true_iff. cbn [check_tokens]. by rewrite H1, H2. }
    rewrite !Hs; [done| | | | |by destruct Hv as [-> | ->]]; try done.
    - apply (known_fact (λ u, negb (nftDirectives (nftKeyword (su_name u))) && negb (String.eqb (nftKeyword (su_name u)) "table")) u Hu); [done|vm_compute; reflexivity].
    - apply (known_fact (λ u, negb (nftDirectives (nftKeyword (su_table u))) && negb (String.eqb (nftKeyword (su_table u)) "table")) u Hu); [done|vm_compute; reflexivity].
    - apply (known_fact (λ u, negb (nftDirectives (nftKeyword (su_family u))) && negb (String.eqb (nftKeyword (su_family u)) "table")) u Hu); [done|vm_compute; reflexivity]. }
  rewrite check_tokens_harmless by done. cbn [or_else check_object].
  assert (isOwnedFamilyName (nftKeyword (su_family u)) (nftIdentifier (su_table u)) = true) as ->.
  { apply (known_fact (λ u, isOwnedFamilyName (nftKeyword (su_family u)) (nftIdentifier (su_table u))) u Hu); [done|vm_compute; reflexivity]. }
  destruct Hv as [-> | ->]; by vm_compute.
Qed.

(** A line that validates on its own, wherever it stands. *)
Definition batch_line (s : string) : Prop :=
  forallb line_char (chars s) = true ∧ check_statement s = None ∧ flushes_ruleset (words (chars s)) = false ∧
  ∃ w l, words (chars s) = w :: l ∧ String.eqb (nftKeyword w) "ruleset" = false.
Lemma flushes_app a b : flushes_ruleset a = false → flushes_ruleset b = false →
  match b with [] => True | w :: _ => String.eqb (nftKeyword w) "ruleset" = false end → flushes_ruleset (a ++ b) = false.
Proof.
  intros Ha Hb Hh. induction a as [|x a IH]; [done|]. destruct a as [|y a].
  - destruct b as [|w b]; [done|]. cbn [app flushes_ruleset]. rewrite Hh, andb_false_r. exact Hb.
  - cbn [flushes_ruleset] in Ha. apply orb_false_iff in Ha as [Ha Hr]. specialize (IH Hr). change (flushes_ruleset ((x :: y :: a) ++ b)) with
      (String.eqb (nftKeyword x) "flush" && String.eqb (nftKeyword y) "ruleset" || flushes_ruleset ((y :: a) ++ b)). by rewrite Ha, IH.
Qed.
Lemma line_char_parts s : forallb line_char (chars s) = true →
  forallb bare_char (chars s) = true ∧ forallb ascii7 (chars s) = true ∧ Forall (λ x, x ≠ lf) (chars s) ∧ (∀ c, c ∈ chars s → stop c = false).
Proof.
  unfold line_char. rewrite !forallb_and, !andb_true_iff. intros [[H1 H2] H3].
  assert (∀ c, c ∈ chars s → stop c = false) as Hs.
  { intros c Hc. rewrite forallb_forall in H1. by apply negb_true_iff, H1, list_elem_of_In. }
  split; [done|]. split; [done|]. split; [|done]. apply list.Forall_forall. intros x Hx ->. specialize (Hs _ Hx). by vm_compute in Hs.
Qed.
Lemma lines_text ls : Forall batch_line ls →
  stripNftComments (unlines ls) = inr (unlines ls) ∧ forallb ascii7 (chars (unlines ls)) = true ∧
  check_statements (statements (unlines ls)) = None ∧ flushes_ruleset (words (chars (unlines ls))) = false ∧
  (match words (chars (unlines ls)) with [] => True | w :: _ => String.eqb (nftKeyword w) "ruleset" = false end) ∧
  removelast (split_on lf (chars (unlines ls))) = map chars ls ∧ (ls ≠ [] → words (chars (unlines ls)) ≠ []).
Proof.
  induction 1 as [|s ls (Hl & Hs & Hf & w & l & Hw & Hr) _ (I1 & I2 & I3 & I4 & I5 & I6 & _)]; [done|].
  apply line_char_parts in Hl as (P1 & P2 & P3 & P4). simpl unlines. set (t := unlines ls) in *.
  assert (chars (s +:+ String lf t) = (chars s ++ lf :: chars t)%list) as Ec by (by rewrite chars_app).
  assert (words (chars (s +:+ String lf t)) = (words (chars s) ++ words (chars t))%list) as Ew.
  { rewrite Ec. unfold words. by rewrite fields_go_app. }
  split; [|split; [|split; [|split; [|split; [|split]]]]].
  - unfold stripNftComments in *. rewrite Ec. rewrite (closed_plain _ P1). simpl. destruct (strip InCode (chars t)) as [|k] eqn:E; [done|].
    injection I1 as I1. simpl. f_equal. apply chars_inj. rewrite chars_of_chars, Ec. rewrite <-I1, chars_of_chars. done.
  - rewrite Ec, forallb_app, P2. exact I2.
  - rewrite statements_line. unfold statements at 1, fields_func. rewrite fields_go_none by exact P4. rewrite app_nil_r. simpl.
    destruct (rev (chars s)); [done|]. cbn [app check_statements]. rewrite of_chars_chars, Hs. exact I3.
  - rewrite Ew. by apply flushes_app.
  - by rewrite Ew, Hw.
  - rewrite Ec, split_on_cons by done. cbn [removelast map]. rewrite <-I6. pose proof (split_on_nonempty lf (chars t)).
    by destruct (split_on lf (chars t)).
  - by rewrite Ew, Hw.
Qed.
Lemma element_batch_line verb u : verb = "add" ∨ verb = "delete" → update_ok u → batch_line (element_text verb u).
Proof.
  intros Hv Hok. destruct (element_words verb u Hv Hok) as (Hl & tail & Hw & Ht). pose proof Hok as [Hu _].
  split; [done|]. split; [by apply element_statement|]. rewrite Hw. split; [|eexists _, _; split; [done|by destruct Hv as [-> | ->]]].
  assert (∀ a l, String.eqb (nftKeyword a) "flush" = false → flushes_ruleset (a :: l) = flushes_ruleset l) as Hs.
  { intros a l Ha. destruct l as [|b l]; [done|]. change (flushes_ruleset (a :: b :: l)) with
      (String.eqb (nftKeyword a) "flush" && String.eqb (nftKeyword b) "ruleset" || flushes_ruleset (b :: l)). by rewrite Ha. }
  rewrite !Hs; [apply flush_free; eapply Forall_impl; [exact Ht|]; apply flush_harmful| | | |done|by destruct Hv as [-> | ->]]; apply negb_true_iff.
  - apply (known_fact (λ u, negb (String.eqb (nftKeyword (su_name u)) "flush")) u Hu); [done|vm_compute; reflexivity].
  - apply (known_fact (λ u, negb (String.eqb (nftKeyword (su_table u)) "flush")) u Hu); [done|vm_compute; reflexivity].
  - apply (known_fact (λ u, negb (String.eqb (nftKeyword (su_family u)) "flush")) u Hu); [done|vm_compute; reflexivity].
Qed.
Lemma update_lines_ok u : update_ok u → Forall batch_line (update_texts u).
Proof.
  intros Hok. pose proof Hok as [Hu He]. unfold update_texts. constructor.
  - assert (∀ p : string → bool, forallb (λ k, p (flush_text (mkUpdate k.1.1 k.1.2 k.2 []))) known_sets = true → p (flush_text u) = true) as Hk.
    { intros p Hp. by apply (known_fact (λ u, p (flush_text u)) u Hu). }
    split; [apply (Hk (λ s, forallb line_char (chars s))); vm_compute; reflexivity|]. split; [|split].
    + pose proof (Hk (λ s, match check_statement s with None => true | Some _ => false end) ltac:(vm_compute; reflexivity)) as H. cbv beta in H.
      by destruct (check_statement _).
    + apply negb_true_iff, (Hk (λ s, negb (flushes_ruleset (words (chars s))))). vm_compute. reflexivity.
    + pose proof (Hk (λ s, match words (chars s) with w :: _ => negb (String.eqb (nftKeyword w) "ruleset") | [] => false end) ltac:(vm_compute; reflexivity)) as H.
      cbv beta in H. destruct (words _) as [|w l]; [done|]. exists w, l. split; [done|]. by apply negb_true_iff.
  - destruct (su_elements u); [done|]. constructor; [|done]. apply element_batch_line; [by left|done].
Qed.
Lemma lines_valid ls : Forall batch_line ls → ls ≠ [] → validateScript (unlines ls) = None.
Proof.
  intros H Hn. destruct (lines_text ls H) as (I1 & I2 & I3 & I4 & _ & _ & I7). unfold validateScript.
  assert (fields (unlines ls) ≠ []) as Hf.
  { destruct H as [|s ls (Hl & _ & _ & w & l & Hw & _) _]; [done|]. simpl unlines. rewrite fields_line.
    apply line_char_parts in Hl as (P1 & P2 & P3 & P4). unfold fields at 1. rewrite ascii_spaces_id by done.
    rewrite (fields_go_ext is_space brk); [by unfold words in Hw; rewrite Hw|]. intros c Hc. specialize (P4 c Hc). unfold brk, stop in *.
    by apply orb_false_iff in P4 as [_ ->]; rewrite orb_false_r. }
  destruct (fields (unlines ls)); [done|]. rewrite I1, fields_words, I4 by done. exact I3.
Qed.
Lemma batch_valid l : Forall update_ok l → l ≠ [] → validateScript (batch l) = None.
Proof.
  intros H Hn. rewrite batch_unlines. apply lines_valid; [|by destruct l].
  induction H as [|u l Hu _ IH]; [done|]. cbn [mbind list_bind]. apply Forall_app_2; [by apply update_lines_ok|].
  destruct l; [done|]. by apply IH.
Qed.
Lemma batch_read l : Forall update_ok l → read_batch (batch l) = Some (l ≫= commands_of).
Proof.
  intros H. rewrite batch_unlines. unfold read_batch.
  assert (Forall batch_line (l ≫= update_texts)) as Hl.
  { induction H as [|u l Hu _ IH]; [done|]. by apply Forall_app_2; [apply update_lines_ok|]. }
  destruct (lines_text _ Hl) as (_ & _ & _ & _ & _ & -> & _). clear Hl.
  induction H as [|u l Hu _ IH]; [done|]. cbn [mbind list_bind]. unfold update_texts at 1. pose proof (flush_read u (proj1 Hu)) as Hf.
  unfold commands_of at 1. destruct (su_elements u) as [|e es] eqn:E; cbn [app map read_lines]; rewrite Hf.
  - by rewrite IH.
  - rewrite element_read by (done || by rewrite E). by rewrite IH, E.
Qed.

(** ** What is asked of the backend *)

Inductive request :=
  | ClaimSets (blockedV4 blockedV6 : list string) (trustedV4 trustedV6 : list TimedElement)
  | ContainerNetworks (v4 v6 : list string)
  | NamedSets (sets : gmap string (list string)).
Definition set_names (sets : gmap string (list string)) : list string := sort_strings (map fst (map_to_list sets)).
Definition updates_of (q : request) : err + list set_update :=
  match q with
  | ClaimSets b4 b6 t4 t6 => claim_updates b4 b6 t4 t6
  | ContainerNetworks v4 v6 => container_updates v4 v6
  | NamedSets sets => sequence (map (named_update sets) (set_names sets))
  end.
Definition allowed_names (q : request) : Prop :=
  match q with NamedSets sets => Forall (λ n, is_Some (set_is_ipv4 n)) (set_names sets) | _ => True end.
(** The members asked for, whatever they are. *)
Definition asked (q : request) : list set_update :=
  let inet n l := mkUpdate "inet" FilterTable n l in
  match q with
  | ClaimSets b4 b6 t4 t6 =>
      [inet "blocked_v4" (sort_strings b4); inet "blocked_v6" (sort_strings b6);
       inet "trusted_v4" (map timed_text (sort_timed t4)); inet "trusted_v6" (map timed_text (sort_timed t6))]
  | ContainerNetworks v4 v6 =>
      [inet "docker_nets" (sort_strings v4); inet "docker_nets6" (sort_strings v6); mkUpdate "ip" NATTable "docker_nets_nat" (sort_strings v4)]
  | NamedSets sets => map (λ n, inet n (sort_strings (default [] (sets !! n)))) (set_names sets)
  end.

Lemma check_elements_ok check l : check_elements check l = None ↔ Forall (λ s, check s = None) l.
Proof.
  induction l as [|s l IH]; [done|]. simpl. rewrite list.Forall_cons, <-IH. destruct (check s); [|tauto]. split; [done|]. by intros [? _].
Qed.
Lemma check_timed_ok name ipv4 l : check_timed_elements name ipv4 l = None ↔ Forall (λ e, check_timed name ipv4 e = None) l.
Proof.
  induction l as [|e l IH]; [done|]. simpl. rewrite list.Forall_cons, <-IH. destruct (check_timed name ipv4 e); [|tauto]. split; [done|]. by intros [? _].
Qed.
Lemma sequence_ok {A} (l : list (err + A)) r : sequence l = inr r → l = map inr r.
Proof.
  revert r. induction l as [|[e|a] l IH]; intros r; simpl; [by intros [= <-]|done|]. destruct (sequence l) as [|r']; [done|].
  intros [= <-]. by rewrite (IH _ eq_refl).
Qed.
Lemma validateSetPrefix_ok ipv4 s : validateSetPrefix ipv4 s = None → ∃ p, ParsePrefix s = Some p ∧ pfx_bits p ≠ 0%N ∧ Is4 (pfx_addr p) = ipv4.
Proof.
  unfold validateSetPrefix. destruct (ParsePrefix s) as [p|]; [|done]. destruct (N.eqb_spec (pfx_bits p) 0); [done|].
  destruct (Bool.eqb_spec (Is4 (pfx_addr p)) ipv4); [|done]. by exists p.
Qed.
Lemma check_container_ok ipv4 s : check_container ipv4 s = None → element_ok s.
Proof. unfold check_container. destruct (ParsePrefix s) as [p|] eqn:E; [|done]. intros _. by eapply prefix_element. Qed.
Lemma check_element_ok name ipv4 s : check_element name ipv4 s = None → element_ok s.
Proof. unfold check_element. destruct (ParsePrefix s) as [p|] eqn:E; [|done]. intros _. by eapply prefix_element. Qed.
Lemma timed_ok name ipv4 e : check_timed name ipv4 e = None → element_ok (timed_text e).
Proof.
  unfold check_timed, timed_text. destruct (validateSetPrefix _ _) eqn:E; [done|]. apply validateSetPrefix_ok in E as (p & E & _).
  destruct (Z.ltb_spec (te_TimeoutSeconds e) 0); [done|]. intros _. destruct (0 <? te_TimeoutSeconds e).
  - by eapply timed_element.
  - rewrite string_app_nil_r. by eapply prefix_element.
Qed.

Lemma plain_update_ok name ipv4 values u : (name, ipv4) ∈ allowed_sets → plain_update name ipv4 values = inr u →
  u = mkUpdate "inet" FilterTable name (sort_strings values) ∧ update_ok u.
Proof.
  unfold plain_update. intros Hn. destruct (check_elements _ _) eqn:E; [done|]. intros [= <-]. split; [done|]. split; simpl.
  - apply elem_of_app. left. by apply (list_elem_of_fmap_2 (λ a, ("inet", FilterTable, a.1)) _ (name, ipv4)).
  - apply check_elements_ok in E. eapply Forall_impl; [exact E|]. intros s (p & Hp & _)%validateSetPrefix_ok. by eapply prefix_element.
Qed.
Lemma timed_update_ok name ipv4 values u : (name, ipv4) ∈ allowed_sets → timed_update name ipv4 values = inr u →
  u = mkUpdate "inet" FilterTable name (map timed_text (sort_timed values)) ∧ update_ok u.
Proof.
  unfold timed_update. intros Hn. destruct (check_timed_elements _ _ _) eqn:E; [done|]. intros [= <-]. split; [done|]. split; simpl.
  - apply elem_of_app. left. by apply (list_elem_of_fmap_2 (λ a, ("inet", FilterTable, a.1)) _ (name, ipv4)).
  - apply check_timed_ok in E. apply Forall_map. eapply Forall_impl; [exact E|]. intros e. apply timed_ok.
Qed.
Lemma container_update_ok family table name ipv4 values u : (family, table, name) ∈ known_sets → container_update family table name ipv4 values = inr u →
  u = mkUpdate family table name (sort_strings values) ∧ update_ok u.
Proof.
  unfold container_update. intros Hn. destruct (check_elements _ _) eqn:E; [done|]. intros [= <-]. split; [done|]. split; [done|].
  apply check_elements_ok in E. eapply Forall_impl; [exact E|]. intros s. apply check_container_ok.
Qed.
Lemma named_update_ok sets name u : is_Some (set_is_ipv4 name) → named_update sets name = inr u →
  u = mkUpdate "inet" FilterTable name (sort_strings (default [] (sets !! name))) ∧ update_ok u.
Proof.
  unfold named_update. intros [b Hb]. destruct (check_elements _ _) eqn:E; [done|]. intros [= <-]. split; [done|]. split; simpl.
  - apply elem_of_app. left. unfold set_is_ipv4 in Hb. destruct (List.find _ _) as [a|] eqn:Ef; [|done].
    apply find_some in Ef as [Hin Heq%String.eqb_eq]. rewrite <-Heq. apply (list_elem_of_fmap_2 (λ a, ("inet", FilterTable, a.1))). by apply list_elem_of_In.
  - apply check_elements_ok in E. eapply Forall_impl; [exact E|]. intros s. apply check_element_ok.
Qed.
Lemma request_ok q l : updates_of q = inr l → allowed_names q → l = asked q ∧ Forall update_ok l.
Proof.
  assert (∀ n, List.In n allowed_sets → n ∈ allowed_sets) as Ha by (intros n; apply list_elem_of_In).
  destruct q as [b4 b6 t4 t6|v4 v6|sets]; intros H%sequence_ok Hn.
  - destruct l as [|u1 [|u2 [|u3 [|u4 [|]]]]]; try done. injection H as H1 H2 H3 H4.
    apply plain_update_ok in H1 as [-> ?], H2 as [-> ?]; [|apply Ha; vm_compute; tauto..].
    apply timed_update_ok in H3 as [-> ?], H4 as [-> ?]; [|apply Ha; vm_compute; tauto..]. split; [done|]. by repeat (apply Forall_cons_2; [done|]).
  - destruct l as [|u1 [|u2 [|u3 [|]]]]; try done. injection H as H1 H2 H3.
    apply container_update_ok in H1 as [-> ?], H2 as [-> ?], H3 as [-> ?]; [split; [done|by repeat (apply Forall_cons_2; [done|])]|apply list_elem_of_In; vm_compute; tauto..].
  - simpl in *. revert l H. induction Hn as [|n ns Hn _ IH]; intros [|u l] H; try done. injection H as H1 H2. destruct (IH l H2) as [-> Hu].
    apply named_update_ok in H1 as [-> ?]; [|done]. split; [done|]. by constructor.
Qed.

(** C26: No element of a request can smuggle a statement into nft: when the backend accepts
    the members of a request, the batch it writes passes the backend's own validation and
    reads back, line by line, as flushing each set asked for and adding exactly the members
    asked for, in sorted order. *)
Theorem batch_faithful q l : updates_of q = inr l → allowed_names q →
  l = asked q ∧ (l ≠ [] → validateScript (batch l) = None) ∧ read_batch (batch l) = Some (asked q ≫= commands_of).
Proof.
  intros H Hn. destruct (request_ok q l H Hn) as [-> Hu]. split; [done|]. split; [by apply batch_valid|by apply batch_read].
Qed.
Definition sample_request : request := ClaimSets ["203.0.113.7/32"; "198.51.100.0/24"] ["2001:db8::/32"] [mkTimed "192.0.2.1/32" 60] [].
Lemma batch_faithful_witness : ∃ l, updates_of sample_request = inr l ∧
  (l = asked sample_request ∧ (l ≠ [] → validateScript (batch l) = None) ∧ read_batch (batch l) = Some (asked sample_request ≫= commands_of)).
Proof. exists (asked sample_request). split; [vm_compute; reflexivity|]. exact (batch_faithful sample_request _ ltac:(vm_compute; reflexivity) I). Defined.

(** The script of [UpdateSet] always passes: its own validation never refuses a checked
    change. *)
Lemma UpdateSet_valid name ipv4 verb elements : set_is_ipv4 name = Some ipv4 → verb = "add" ∨ verb = "delete" →
  check_elements (check_element name ipv4) elements = None → validateScript (element_line verb (mkUpdate "inet" FilterTable name elements)) = None.
Proof.
  intros Hs Hv E. rewrite element_line_text. set (u := mkUpdate _ _ _ _). change (element_text verb u +:+ newline) with (unlines [element_text verb u]).
  assert (update_ok u) as Hu.
  { destruct (named_update_ok {[name := elements]} name (mkUpdate "inet" FilterTable name (sort_strings elements))) as [_ [Hk _]]; [by eexists| |split; [exact Hk|]].
    - unfold named_update. rewrite lookup_singleton, decide_True by done. simpl. rewrite Hs. simpl. destruct (check_elements _ (sort_strings elements)) eqn:F; [|done].
      enough (check_elements (check_element name ipv4) (sort_strings elements) = None) by congruence.
      apply check_elements_ok. rewrite check_elements_ok in E. by rewrite sort_strings_perm.
    - apply check_elements_ok in E. eapply Forall_impl; [exact E|]. intros s. apply check_element_ok. }
  apply lines_valid; [|done]. constructor; [by apply element_batch_line|done].
Qed.
