(* ===== verification/Collision.v ===== *)
(** The audit of foreign conntrack-mark use (internal/nft/provenance_collision.go):
    a read-only scan of the whole ruleset for rules of other tables that read or
    write the reserved byte of the conntrack mark. *)

From S2P Require Import Prelude GoStrings Sha256 Json Ledger NftScript.
From S2P Require Import Claims Host Backend.
From Stdlib Require Import Ascii String.
Local Open Scope string_scope.
Local Open Scope N_scope.
Local Open Scope host_scope.

Definition ProvenanceCollisionScope : string := "NETFILTER_RULES_ONLY".
Definition maxProvenanceAuditDepth : nat := 64.
Definition maxProvenanceAuditNodes : N := 2000000.
Definition maxNFTStdout : N := 33554432.

Definition listRulesetObjectKinds : string → bool := among
  ["metainfo"; "table"; "chain"; "rule"; "set"; "map"; "element"; "flowtable"; "counter"; "quota";
   "ct helper"; "ct timeout"; "ct expectation"; "limit"; "secmark"; "synproxy"].

Record ForeignProvenanceAudit := mkAuditResult {
  ForeignRules : N; OwnedRulesIgnored : N; CollidingRules : N
}.
Record provenanceRuleLocation := mkLocation {
  loc_family : string; loc_table : string; loc_chain : string; loc_handle : option N; loc_ordinal : N
}.
Record provenanceCollision := mkCollision { col_location : provenanceRuleLocation; col_reason : string }.

Definition location_String (l : provenanceRuleLocation) : string :=
  match loc_handle l with
  | Some h => sprintf "rule %q/%q/%q handle=%d" [ArgS (loc_family l); ArgS (loc_table l); ArgS (loc_chain l); ArgN h]
  | None => sprintf "rule %q/%q/%q ordinal=%d" [ArgS (loc_family l); ArgS (loc_table l); ArgS (loc_chain l); ArgN (loc_ordinal l)]
  end.

(** ** Constants: [strconv.ParseUint(text, base, 32)] *)

Definition underscore : ascii := "_"%char.

(** The digit value of a byte, as [ParseUint] computes it. *)
Definition digit_value (c : ascii) : option N :=
  if is_digit c then Some (code c - 48)
  else if is_alpha c then Some (code (to_lower_char c) - 97 + 10)
  else None.

(** The digit loop: [None] is a syntax or range error; underscores count only under
    base 0. *)
Fixpoint parse_digits (base0 : bool) (base : N) (l : list ascii) (n : N) : option N :=
  match l with
  | [] => Some n
  | c :: l' =>
      if base0 && Ascii.eqb c underscore then parse_digits base0 base l' n
      else match digit_value c with
           | Some d =>
               if base <=? d then None
               else let n' := n * base + d in
                    if 2 ^ 32 <=? n' then None else parse_digits base0 base l' n'
           | None => None
           end
  end.

(** [underscoreOK] after a hexadecimal prefix: [saw] is the previous byte's class. *)
Inductive seen := SawDigit | SawUnderscore | SawOther.
Fixpoint underscore_ok (saw : seen) (l : list ascii) : bool :=
  match l with
  | [] => match saw with SawUnderscore => false | _ => true end
  | c :: l' =>
      if is_digit c || in_range 97 102 (to_lower_char c) then underscore_ok SawDigit l'
      else if Ascii.eqb c underscore then
        match saw with SawDigit => underscore_ok SawUnderscore l' | _ => false end
      else match saw with SawUnderscore => false | _ => underscore_ok SawOther l' end
  end.

Definition parse_decimal (l : list ascii) : option N :=
  match l with [] => None | _ => parse_digits false 10 l 0 end.
(** Base 0 on a text that starts with 0x: without a digit it is not hexadecimal and
    no other base accepts the x. *)
Definition parse_hex (rest : list ascii) : option N :=
  match rest with
  | [] => None
  | _ => if underscore_ok SawDigit rest then parse_digits true 16 rest 0 else None
  end.

Definition parse_mask_text (text : string) : option N :=
  if String.eqb text "" || negb (String.eqb (trim_space text) text) || has_prefix text "-" then None
  else match chars text with
       | "0"%char :: x :: rest =>
           if Ascii.eqb x "x"%char || Ascii.eqb x "X"%char then parse_hex rest else parse_decimal (chars text)
       | l => parse_decimal l
       end.

Definition markUint32Constant (v : json) : option N :=
  match v with
  | JNum z => parse_mask_text (pretty z)
  | JStr s => parse_mask_text s
  | _ => None
  end.

(** ** Conntrack-mark descriptors *)

(** [ctMarkDescriptor]: whether an object describes the conntrack mark, with the
    descriptor's members. *)
Definition ctMarkDescriptor (value : list (string * json)) : err + (bool * list (string * json)) :=
  match member "ct" value with
  | None => inr (false, [])
  | Some (JObj body) =>
      match member "key" body with
      | None => inl (Errorf "ct descriptor has no key" [])
      | Some (JStr key) => inr (String.eqb key "mark", body)
      | Some _ => inl (Errorf "ct descriptor key is not a string" [])
      end
  | Some _ => inl (Errorf "ct descriptor is not an object" [])
  end.

Definition ctMarkDescriptorValue (value : json) : err + (bool * list (string * json)) :=
  match value with JObj l => ctMarkDescriptor l | _ => inr (false, []) end.

Definition classifyCTMarkDescriptor (value : list (string * json)) : err + (bool * bool) :=
  match ctMarkDescriptor value with
  | inl e => inl e
  | inr (false, _) => inr (false, false)
  | inr (true, body) => inr (true, bool_decide (is_Some (member "set" body)))
  end.

Definition canonicalCTMarkRead (value : json) : err + bool :=
  match value with
  | JObj [m] =>
      match ctMarkDescriptor [m] with
      | inl e => inl e
      | inr (false, _) => inr false
      | inr (true, body) => inr (forallb (λ k, among ["key"; "family"; "dir"] k.1) body)
      end
  | _ => inr false
  end.

(** ** The expression scanner

    The scanner's node count is threaded through every call; an answer is the first
    collision reason, empty when there is none. [room] is what is left of the
    nesting limit: a call at depth [d] has room [maxProvenanceAuditDepth + 1 - d]. *)

Abbreviation Scan := (N → N * (err + string)).

Definition writes_mark : string := "foreign expression writes the reserved conntrack-mark byte".
Definition first_reason (first reason : string) : string := if String.eqb first "" then reason else first.

(** Scanning siblings: an error stops the loop, a reason does not. *)
Fixpoint inspect_all {A} (f : A → Scan) (l : list A) (first : string) : Scan := λ nodes,
  match l with
  | [] => (nodes, inr first)
  | x :: l' =>
      match f x nodes with
      | (n, inl e) => (n, inl e)
      | (n, inr reason) => inspect_all f l' (first_reason first reason) n
      end
  end.

(** The search for the masked operand: [inl reason] when there are two of them. *)
Fixpoint mark_index (operands : list json) (index : nat) (found : option nat) : err + (string + option nat) :=
  match operands with
  | [] => inr (inr found)
  | x :: l =>
      match canonicalCTMarkRead x with
      | inl e => inl e
      | inr false => mark_index l (S index) found
      | inr true =>
          match found with
          | Some _ => inr (inl "foreign expression combines multiple conntrack-mark reads in one mask")
          | None => mark_index l (S index) (Some index)
          end
      end
  end.

Definition mask_reason (operand : json) : string :=
  match markUint32Constant operand with
  | None => "foreign expression uses an unverifiable conntrack-mark mask"
  | Some mask =>
      if N.land mask Mask =? 0 then ""
      else "foreign expression mask overlaps the reserved conntrack-mark byte"
  end.
(** The operands beside the mark, up to the first that is not a disjoint constant. *)
Fixpoint masks_reason (operands : list json) : string :=
  match operands with
  | [] => ""
  | x :: l => if String.eqb (mask_reason x) "" then masks_reason l else mask_reason x
  end.

(** [inspectAnd], [scan] being the recursive call on an operand. *)
Definition inspectAnd (scan : json → Scan) (body : json) : Scan := λ nodes,
  match body with
  | JArr ((_ :: _ :: _) as operands) =>
      match mark_index operands 0 None with
      | inl e => (nodes, inl e)
      | inr (inl reason) => (nodes, inr reason)
      | inr (inr (Some i)) => (nodes, inr (masks_reason (delete i operands)))
      | inr (inr None) => inspect_all scan operands "" nodes
      end
  | _ => scan body nodes
  end.

Definition inspectMangle (scan : json → Scan) (value : json) : Scan := λ nodes,
  match value with
  | JObj body =>
      match member "key" body, member "value" body with
      | Some key, Some assigned =>
          if negb (List.length body =? 2)%nat
          then (nodes, inl (Errorf "mangle expression must contain exactly key and value" []))
          else
            match ctMarkDescriptorValue key with
            | inl e => (nodes, inl e)
            | inr (isMark, _) =>
                match (if isMark then (nodes, inr writes_mark) else scan key nodes) with
                | (n, inl e) => (n, inl e)
                | (n, inr first) => inspect_all scan [assigned] first n
                end
            end
      | _, _ => (nodes, inl (Errorf "mangle expression must contain exactly key and value" []))
      end
  | _ => (nodes, inl (Errorf "mangle expression is not an object" []))
  end.

Definition and_body (l : list (string * json)) : option json :=
  match l with [m] => if String.eqb m.1 "&" then Some m.2 else None | _ => None end.

(** [inspect]: the nested calls go one level deeper, through [inspectAnd] and
    [inspectMangle] two. *)
Fixpoint inspect (room : nat) (value : json) : Scan := λ nodes0,
  let nodes := nodes0 + 1 in
  if maxProvenanceAuditNodes <? nodes then (nodes, inl (Errorf "expression node count exceeds safety limit" []))
  else match room with
  | O => (nodes, inl (Errorf "expression nesting exceeds safety limit" []))
  | S deeper =>
      match value with
      | JArr l => inspect_all (inspect deeper) l "" nodes
      | JObj l =>
          match and_body l with
          | Some body => inspectAnd (inspect (Nat.pred deeper)) body nodes
          | None =>
              if bool_decide (is_Some (member "xt" l)) then
                (nodes, inr "foreign xtables-compat expression has unverifiable conntrack-mark semantics")
              else
                match classifyCTMarkDescriptor l with
                | inl e => (nodes, inl e)
                | inr (true, isWrite) =>
                    (nodes, inr (if isWrite then writes_mark
                                 else "foreign expression reads conntrack mark without a disjoint constant mask"))
                | inr (false, _) =>
                    inspect_all (λ m, if String.eqb m.1 "mangle"
                                      then inspectMangle (inspect (Nat.pred deeper)) m.2
                                      else inspect deeper m.2) (sort_members l) "" nodes
                end
          end
      | _ => (nodes, inr "")
      end
  end.

(** ** Rules *)

(** [requireString] *)
Definition required_string (fields : list (string * json)) (name : string) : err + string :=
  match member name fields with
  | None => inl (Errorf "missing %s" [ArgS name])
  | Some (JStr value) =>
      if String.eqb value "" then inl (Errorf "invalid %s" [ArgS name])
      else if (1024 <? slen value)%nat then inl (Errorf "%s exceeds safety limit" [ArgS name])
      else inr value
  | Some _ => inl (Errorf "invalid %s" [ArgS name])
  end.

(** Unmarshalling the handle into a [uint64]. *)
Definition decode_handle (v : option json) : err + option N :=
  match v with
  | None => inr None
  | Some JNull => inr (Some 0)
  | Some (JNum z) =>
      if ((0 <=? z) && (z <? 2 ^ 64))%Z then inr (Some (Z.to_N z)) else inl (Errorf "invalid handle" [])
  | Some _ => inl (Errorf "invalid handle" [])
  end.

Definition decodeProvenanceAuditRule (fields : list (string * json)) (ordinal : N) : err + (provenanceRuleLocation * json) :=
  match required_string fields "family" with
  | inl e => inl e
  | inr family =>
      match required_string fields "table" with
      | inl e => inl e
      | inr table =>
          match required_string fields "chain" with
          | inl e => inl e
          | inr chain =>
              match member "expr" fields with
              | None => inl (Errorf "missing expr" [])
              | Some expr =>
                  match decode_handle (member "handle" fields) with
                  | inl e => inl e
                  | inr handle => inr (mkLocation family table chain handle ordinal, expr)
                  end
              end
          end
      end
  end.

Definition decode_expressions (expr : json) : err + list json :=
  match expr with
  | JArr l => inr l
  | JNull => inl (Errorf "expr is not an array" [])
  | _ => inl json_error
  end.

(** ** The audit *)

Definition wrap_inl {A} (fmt : string) (args : list arg) (r : err + A) : err + A :=
  match r with inl e => inl (Wrapf fmt args e) | inr a => inr a end.

(** One entry of the [nftables] array: its kind and its body. *)
Definition decode_object (index : N) (object : json) : err + (string * list (string * json)) :=
  match wrap_inl "decode nftables object %d: %w" [ArgN index] (members object) with
  | inl e => inl e
  | inr [(kind, body)] =>
      if negb (listRulesetObjectKinds kind)
      then inl (Errorf "nftables object %d has unsupported list-ruleset kind %q" [ArgN index; ArgS kind])
      else
        match body with
        | JObj fields =>
            if String.eqb kind "metainfo" then
              match member "json_schema_version" fields with
              | None => inl (Errorf "nftables metainfo object %d has no json_schema_version" [ArgN index])
              | Some (JNum 1%Z) => inr (kind, fields)
              | Some _ => inl (Errorf "nftables metainfo object %d has unsupported json_schema_version" [ArgN index])
              end
            else inr (kind, fields)
        | JNull => inl (Wrapf "decode nftables %s object %d: %w" [ArgS kind; ArgN index] (Errorf "object body is not an object" []))
        | _ => inl (Wrapf "decode nftables %s object %d: %w" [ArgS kind; ArgN index] json_error)
        end
  | inr _ => inl (Errorf "nftables object %d must contain exactly one object kind" [ArgN index])
  end.

Fixpoint decode_objects (index : N) (objects : list json) : err + list (string * list (string * json)) :=
  match objects with
  | [] => inr []
  | x :: l =>
      match decode_object index x with
      | inl e => inl e
      | inr o => match decode_objects (index + 1) l with inl e => inl e | inr r => inr (o :: r) end
      end
  end.

Definition decode_document (doc : option json) : err + list (string * list (string * json)) :=
  match wrap_inl "decode nft ruleset JSON: %w" [] (match doc with Some j => members j | None => inl json_error end) with
  | inl e => inl e
  | inr [(name, value)] =>
      if negb (String.eqb name "nftables") then inl (Errorf "nft ruleset JSON has no nftables array" [])
      else match value with
           | JArr objects =>
               match decode_objects 0 objects with
               | inl e => inl e
               | inr decoded =>
                   let n := N.of_nat (List.length (List.filter (λ o, String.eqb o.1 "metainfo") decoded)) in
                   if n =? 1 then inr decoded
                   else inl (Errorf "nft ruleset JSON must contain exactly one schema-v1 metainfo object, got %d" [ArgN n])
               end
           | JNull => inl (Wrapf "decode nftables array: %w" [] (Errorf "nftables value is not an array" []))
           | _ => inl (Wrapf "decode nftables array: %w" [] json_error)
           end
  | inr _ => inl (Errorf "nft ruleset JSON must contain only the nftables document" [])
  end.

(** The state of the rule loop. *)
Record audit_state := mkAuditState {
  as_audit : ForeignProvenanceAudit; as_first : option provenanceCollision; as_nodes : N; as_ordinal : N
}.

Definition owned_key (family table : string) : string := family +:+ nul +:+ table.
Definition owned_keys (owned : list NftTable) : gset string :=
  list_to_set (map (λ t, owned_key (Family t) (TableName t)) owned).

(** One foreign rule that was scanned without an error. *)
Definition count_rule (st : audit_state) (nodes : N) (location : provenanceRuleLocation) (reason : string) : audit_state :=
  let a := as_audit st in
  if String.eqb reason "" then
    mkAuditState (mkAuditResult (ForeignRules a + 1) (OwnedRulesIgnored a) (CollidingRules a)) (as_first st) nodes (as_ordinal st)
  else
    mkAuditState (mkAuditResult (ForeignRules a + 1) (OwnedRulesIgnored a) (CollidingRules a + 1))
      (Some (default (mkCollision location reason) (as_first st))) nodes (as_ordinal st).

Definition audit_rule (ownedTables : gset string) (fields : list (string * json)) (st0 : audit_state) : err + audit_state :=
  let ordinal := as_ordinal st0 + 1 in
  let st := mkAuditState (as_audit st0) (as_first st0) (as_nodes st0) ordinal in
  match wrap_inl "decode nft rule %d: %w" [ArgN ordinal] (decodeProvenanceAuditRule fields ordinal) with
  | inl e => inl e
  | inr (location, expr) =>
      if bool_decide (owned_key (loc_family location) (loc_table location) ∈ ownedTables) then
        let a := as_audit st in
        inr (mkAuditState (mkAuditResult (ForeignRules a) (OwnedRulesIgnored a + 1) (CollidingRules a))
               (as_first st) (as_nodes st) ordinal)
      else
        match wrap_inl "%s has invalid expr: %w" [ArgS (location_String location)] (decode_expressions expr) with
        | inl e => inl e
        | inr expressions =>
            match inspect (S maxProvenanceAuditDepth) (JArr expressions) (as_nodes st) with
            | (_, inl e) => inl (Wrapf "inspect %s: %w" [ArgS (location_String location)] e)
            | (nodes, inr reason) => inr (count_rule st nodes location reason)
            end
        end
  end.

Fixpoint audit_rules (ownedTables : gset string) (decoded : list (string * list (string * json))) (st : audit_state) : err + audit_state :=
  match decoded with
  | [] => inr st
  | (kind, fields) :: l =>
      if negb (String.eqb kind "rule") then audit_rules ownedTables l st
      else match audit_rule ownedTables fields st with
           | inl e => inl e
           | inr st' => audit_rules ownedTables l st'
           end
  end.

(** [auditForeignProvenanceRulesetJSON]: [size] is the length of the text that [doc]
    decodes. *)
Definition auditForeignProvenanceRulesetJSON (size : N) (doc : option json) (owned : list NftTable)
    : err + (ForeignProvenanceAudit * option provenanceCollision) :=
  if maxNFTStdout <? size then inl (Errorf "nft ruleset JSON exceeds %d-byte safety limit" [ArgN maxNFTStdout])
  else
    match decode_document doc with
    | inl e => inl e
    | inr decoded =>
        match audit_rules (owned_keys owned) decoded (mkAuditState (mkAuditResult 0 0 0) None 0 0) with
        | inl e => inl e
        | inr st => inr (as_audit st, as_first st)
        end
    end.

Definition foreignProvenanceAuditFromJSON (size : N) (doc : option json) (owned : list NftTable) : err + ForeignProvenanceAudit :=
  match wrap_inl "foreign provenance audit scope=%s: %w" [ArgS ProvenanceCollisionScope]
          (auditForeignProvenanceRulesetJSON size doc owned) with
  | inl e => inl e
  | inr (audit, first) =>
      if CollidingRules audit =? 0 then inr audit
      else match first with
           | None =>
               inl (Errorf "foreign provenance audit scope=%s mask=0x%08x: collision count has no rule location"
                      [ArgS ProvenanceCollisionScope; ArgN Mask])
           | Some c =>
               inl (Errorf "foreign provenance audit scope=%s mask=0x%08x: %d foreign rule(s) collide; first %s: %s"
                      [ArgS ProvenanceCollisionScope; ArgN Mask; ArgN (CollidingRules audit);
                       ArgS (location_String (col_location c)); ArgS (col_reason c)])
           end
  end.

(** [Backend.AuditForeignProvenanceMask]; [listing_size] is the length of nft's listing. *)
Definition AuditForeignProvenanceMask {K} `{Nft K} (listing_size : K → N) : M (Host K) ForeignProvenanceAudit :=
  out <- catch (sys_read (EvNftRead "list ruleset")
                  (λ w, match nft_list_ruleset (w_kernel w) with
                        | Some out => Ret (out, listing_size (w_kernel w))
                        | None => Error ErrIO
                        end))
           (λ e, throw (Wrapf "foreign provenance audit scope=%s: list nft ruleset: %w" [ArgS ProvenanceCollisionScope] e)) ;;
  lift_check (foreignProvenanceAuditFromJSON out.2 out.1 OwnedTables).

(** ** What an accepted expression is *)

Definition is_mark (l : list (string * json)) : bool :=
  match ctMarkDescriptor l with inr (true, _) => true | _ => false end.
Definition disjoint_constant (v : json) : Prop := ∃ c, markUint32Constant v = Some c ∧ N.land c Mask = 0.

(** An expression that keeps clear of the reserved byte: no xtables statement, and
    the conntrack mark occurs only as the one operand of a bitwise and whose other
    operands are constants without a reserved bit. *)
Inductive mark_disjoint : json → Prop :=
  | md_leaf v : match v with JArr _ | JObj _ => False | _ => True end → mark_disjoint v
  | md_arr l : Forall mark_disjoint l → mark_disjoint (JArr l)
  | md_obj l : member "xt" l = None → is_mark l = false → Forall (λ m, mark_disjoint m.2) l → mark_disjoint (JObj l)
  | md_masked before m after : canonicalCTMarkRead m = inr true →
      Forall disjoint_constant (before ++ after)%list → after ≠ [] ∨ before ≠ [] →
      mark_disjoint (JObj [("&", JArr (before ++ m :: after)%list)]).

(** A scan is exact on a value when its reason is empty just for the values of [P]. *)
Definition exact {A} (P : A → Prop) (f : A → Scan) : Prop :=
  ∀ x n n' r, f x n = (n', inr r) → (r = "" ↔ P x).

(** ** Lemmas *)

Lemma inspect_all_exact {A} (P : A → Prop) f (l : list A) : exact P f →
  ∀ first n n' r, inspect_all f l first n = (n', inr r) → (r = "" ↔ first = "" ∧ Forall P l).
Proof.
  intros Hf. induction l as [|x l IH]; intros first n n' r; simpl.
  { intros [= <- <-]. split; [by split|naive_solver]. }
  destruct (f x n) as [n1 [e|reason]] eqn:E; [done|]. intros H. rewrite (IH _ _ _ _ H), Forall_cons, <-(Hf _ _ _ _ E).
  unfold first_reason. destruct (String.eqb_spec first ""); naive_solver.
Qed.

Lemma inspect_all_exact_nil {A} (P : A → Prop) f (l : list A) n n' r : exact P f →
  inspect_all f l "" n = (n', inr r) → (r = "" ↔ Forall P l).
Proof. intros Hf H. rewrite (inspect_all_exact P f l Hf _ _ _ _ H). naive_solver. Qed.

Lemma insert_member_perm m l : insert_member m l ≡ₚ m :: l.
Proof.
  induction l as [|x l IH]; [done|]. simpl. destruct (str_leb m.1 x.1); [done|]. rewrite IH. by constructor.
Qed.
Lemma sort_members_perm l : sort_members l ≡ₚ l.
Proof. induction l as [|m l IH]; [done|]. simpl. by rewrite insert_member_perm, IH. Qed.

Lemma canonical_is_mark v : canonicalCTMarkRead v = inr true → ∃ m, v = JObj [m] ∧ is_mark [m] = true.
Proof.
  destruct v as [| | | | |[|m [|]]]; try done. simpl. unfold is_mark.
  destruct (ctMarkDescriptor [m]) as [|[[]]] eqn:E; try done. intros _. exists m. by rewrite E.
Qed.

Lemma is_mark_member l : is_mark l = true → ∃ v, member "ct" l = Some v.
Proof. unfold is_mark, ctMarkDescriptor. destruct (member "ct" l); [eauto|done]. Qed.

Lemma is_mark_not_disjoint l : is_mark l = true → ¬ mark_disjoint (JObj l).
Proof.
  intros Hm Hd. inversion Hd as [v Hv| |l' _ Hn|]; subst; [done|congruence|].
  apply is_mark_member in Hm as [v Hv]. by vm_compute in Hv.
Qed.

Lemma canonical_not_disjoint v : canonicalCTMarkRead v = inr true → ¬ mark_disjoint v.
Proof. intros (m & -> & Hm)%canonical_is_mark. by apply is_mark_not_disjoint. Qed.

Lemma canonical_not_constant v : canonicalCTMarkRead v = inr true → ¬ disjoint_constant v.
Proof. intros (m & -> & _)%canonical_is_mark (c & Hc & _). done. Qed.

Lemma mask_reason_exact v : mask_reason v = "" ↔ disjoint_constant v.
Proof.
  unfold mask_reason, disjoint_constant. destruct (markUint32Constant v) as [c|]; [|naive_solver].
  destruct (N.eqb_spec (N.land c Mask) 0); naive_solver.
Qed.
Lemma masks_reason_exact l : masks_reason l = "" ↔ Forall disjoint_constant l.
Proof.
  induction l as [|x l IH]; simpl; [by split|]. rewrite Forall_cons, <-mask_reason_exact.
  destruct (String.eqb_spec (mask_reason x) ""); naive_solver.
Qed.

(** The operands split around the only canonical mark read. *)
Definition plain_operand (v : json) : Prop := canonicalCTMarkRead v = inr false.

Lemma mark_index_found l i k r : mark_index l i (Some k) = inr r →
  (r = inr (Some k) ∧ Forall plain_operand l) ∨
  (∃ reason x, r = inl reason ∧ reason ≠ "" ∧ x ∈ l ∧ canonicalCTMarkRead x = inr true).
Proof.
  revert i. induction l as [|x l IH]; intros i; simpl; [naive_solver|].
  destruct (canonicalCTMarkRead x) as [|[]] eqn:E; [done| |].
  - intros [= <-]. right. eexists _, x. split; [done|]. split; [done|]. split; [by left|done].
  - intros [[-> H]|(reason & y & -> & Hr & Hy & Hc)]%IH.
    + left. split; [done|by constructor].
    + right. exists reason, y. split; [done|]. split; [done|]. split; [by right|done].
Qed.

Lemma mark_index_spec l i r : mark_index l i None = inr r →
  (r = inr None ∧ Forall plain_operand l) ∨
  (∃ before m after, l = (before ++ m :: after)%list ∧ canonicalCTMarkRead m = inr true ∧
     ((r = inr (Some (i + List.length before)%nat)) ∨
      (∃ reason x, r = inl reason ∧ reason ≠ "" ∧ x ∈ after ∧ canonicalCTMarkRead x = inr true))).
Proof.
  revert i. induction l as [|x l IH]; intros i; simpl; [naive_solver|].
  destruct (canonicalCTMarkRead x) as [|[]] eqn:E; [done| |].
  - intros H. right. exists [], x, l. split; [done|]. split; [done|]. simpl. rewrite Nat.add_0_r.
    apply mark_index_found in H as [[-> _]|H]; [by left|by right].
  - intros [[-> H]|(before & m & after & -> & Hm & H)]%IH.
    + left. split; [done|by constructor].
    + right. exists (x :: before), m, after. split; [done|]. split; [done|]. simpl. by rewrite Nat.add_succ_r.
Qed.

(** The ways a bitwise and can be clear of the mark. *)
Lemma and_disjoint_inv body : mark_disjoint (JObj [("&", body)]) →
  mark_disjoint body ∨
  ∃ before m after, body = JArr (before ++ m :: after)%list ∧ canonicalCTMarkRead m = inr true ∧
    Forall disjoint_constant (before ++ after)%list ∧ (after ≠ [] ∨ before ≠ []).
Proof.
  intros H. inversion H as [v Hv| |l _ _ Hl|before m after Hm Hc Hne]; subst; [done| |].
  - left. by apply Forall_inv in Hl.
  - right. by exists before, m, after.
Qed.

Lemma and_disjoint_sub body : mark_disjoint body → mark_disjoint (JObj [("&", body)]).
Proof. intros H. apply md_obj; [done|done|]. constructor; [done|constructor]. Qed.

Lemma arr_disjoint l : mark_disjoint (JArr l) ↔ Forall mark_disjoint l.
Proof. split; [by inversion 1|by apply md_arr]. Qed.

(** The number of canonical mark reads among the operands. *)
Definition is_canonical (v : json) : bool := match canonicalCTMarkRead v with inr b => b | inl _ => false end.
Abbreviation marks l := (List.length (List.filter is_canonical l)).

Lemma marks_constant l : Forall disjoint_constant l → marks l = 0%nat.
Proof.
  induction 1 as [|x l Hx _ IH]; [done|]. simpl. unfold is_canonical at 1.
  destruct (canonicalCTMarkRead x) as [|[]] eqn:E; [done| |done]. by apply canonical_not_constant in E.
Qed.
Lemma marks_middle before m after : canonicalCTMarkRead m = inr true →
  marks (before ++ m :: after)%list = S (marks (before ++ after)%list).
Proof.
  intros Hm. assert (is_canonical m = true) as Hc by (unfold is_canonical; by rewrite Hm).
  rewrite !List.filter_app, !length_app. simpl. rewrite Hc. simpl. lia.
Qed.

Lemma no_second_mark before m after x : canonicalCTMarkRead m = inr true →
  canonicalCTMarkRead x = inr true → x ∈ after → ¬ mark_disjoint (JObj [("&", JArr (before ++ m :: after)%list)]).
Proof.
  intros Hm Hx Hin [H|(b & m' & a & [= E] & Hm' & Hc & _)]%and_disjoint_inv.
  { apply arr_disjoint, Forall_app in H as [_ H]. apply Forall_inv in H. by apply (canonical_not_disjoint m). }
  apply list_elem_of_split in Hin as (a1 & a2 & ->).
  apply (f_equal (λ l, marks l)) in E. rewrite !marks_middle in E by done.
  rewrite (app_assoc before a1), marks_middle, (marks_constant _ Hc) in E by done. lia.
Qed.

Lemma plain_not_masked l before m after : Forall plain_operand l → l = (before ++ m :: after)%list →
  canonicalCTMarkRead m = inr true → False.
Proof. intros Hl -> Hm. apply Forall_app in Hl as [_ Hl]. apply Forall_inv in Hl. unfold plain_operand in Hl. congruence. Qed.

Lemma masked_constants before m after : canonicalCTMarkRead m = inr true →
  mark_disjoint (JObj [("&", JArr (before ++ m :: after)%list)]) → Forall disjoint_constant (before ++ after)%list.
Proof.
  intros Hm [H|(b & m' & a & [= E] & Hm' & Hd & _)]%and_disjoint_inv.
  { apply arr_disjoint, Forall_app in H as [_ H]. apply Forall_inv in H. by apply (canonical_not_disjoint m) in H. }
  assert (Hp : m' :: (b ++ a)%list ≡ₚ m :: (before ++ after)%list) by (by rewrite !Permutation_middle, E).
  assert (m ∈ m' :: (b ++ a)%list) as [->|Hin]%elem_of_cons by (rewrite Hp; by left).
  - apply Permutation_cons_inv in Hp. by rewrite <-Hp.
  - rewrite Forall_forall in Hd. by apply Hd, canonical_not_constant in Hin.
Qed.

Lemma inspectAnd_exact scan : exact mark_disjoint scan →
  exact (λ body, mark_disjoint (JObj [("&", body)])) (inspectAnd scan).
Proof.
  intros Hscan body n n' r.
  assert (Hsub : ∀ n n' r, scan body n = (n', inr r) →
    (∀ before m after, body = JArr (before ++ m :: after)%list → before ≠ [] ∨ after ≠ [] → False) →
    (r = "" ↔ mark_disjoint (JObj [("&", body)]))).
  { intros k k' s Hs Hno. rewrite (Hscan _ _ _ _ Hs). split; [apply and_disjoint_sub|].
    intros [?|(b & m & a & Eb & _ & _ & Hne)]%and_disjoint_inv; [done|]. exfalso. eapply Hno; naive_solver. }
  destruct body as [| | | |l|]; try (intros H; apply (Hsub _ _ _ H); naive_solver).
  destruct l as [|x [|y l]].
  1: { intros H. apply (Hsub _ _ _ H). intros [] m a; naive_solver. }
  1: { intros H. apply (Hsub _ _ _ H). intros [|? []] m a; naive_solver. }
  unfold inspectAnd. destruct (mark_index (x :: y :: l) 0 None) as [e|ri] eqn:Ei; [done|].
  apply mark_index_spec in Ei as [[-> Hp]|(before & m & after & El & Hm & H)].
  - intros H. rewrite (inspect_all_exact_nil mark_disjoint _ _ _ _ _ Hscan H), <-arr_disjoint.
    split; [apply and_disjoint_sub|].
    intros [?|(b & m & a & [= Eb] & Hm & _)]%and_disjoint_inv; [done|].
    exfalso. by eapply plain_not_masked.
  - rewrite El. destruct H as [->|(reason & z & -> & Hr & Hz & Hc)].
    + simpl (0 + _)%nat. rewrite delete_middle. intros [= <- <-]. rewrite masks_reason_exact. split.
      * intros Hd. apply md_masked; [done|done|]. destruct before, after; naive_solver.
      * apply masked_constants, Hm.
    + intros [= <- <-]. split; [done|]. intros Hd. by apply (no_second_mark before m after z) in Hd.
Qed.

Lemma mangle_members (body : list (string * json)) key assigned :
  member "key" body = Some key → member "value" body = Some assigned → List.length body = 2%nat →
  body = [("key", key); ("value", assigned)] ∨ body = [("value", assigned); ("key", key)].
Proof.
  destruct body as [|[k1 v1] [|[k2 v2] [|]]]; try done. unfold member. simpl.
  destruct (String.eqb_spec k1 "key") as [->|]; simpl.
  - intros [= ->]. destruct (String.eqb_spec k2 "value") as [->|]; [|done]. intros [= ->]. by left.
  - destruct (String.eqb_spec k2 "key") as [->|]; [|done]. intros [= ->].
    destruct (String.eqb_spec k1 "value") as [->|]; [|done]. intros [= ->]. by right.
Qed.

Lemma mangle_disjoint (body : list (string * json)) key assigned :
  body = [("key", key); ("value", assigned)] ∨ body = [("value", assigned); ("key", key)] →
  (mark_disjoint (JObj body) ↔ mark_disjoint key ∧ mark_disjoint assigned).
Proof.
  intros Hb. split.
  - intros H. destruct Hb as [-> | ->]; inversion H as [? Hv| |? _ _ Hl|]; subst; try done;
      apply Forall_cons in Hl as [? [? _]%Forall_cons]; by split.
  - intros [Hk Ha]. destruct Hb as [-> | ->]; (apply md_obj; [done|done|]); by repeat (constructor; [done|]).
Qed.

Lemma inspectMangle_exact scan : exact mark_disjoint scan → exact mark_disjoint (inspectMangle scan).
Proof.
  intros Hscan v n n' r. destruct v as [| | | | |body]; try done. unfold inspectMangle.
  destruct (member "key" body) as [key|] eqn:Ek; [|done].
  destruct (member "value" body) as [assigned|] eqn:Ev; [|done].
  destruct (Nat.eqb_spec (List.length body) 2) as [El|]; [|done]. cbn [negb].
  rewrite (mangle_disjoint _ _ _ (mangle_members _ _ _ Ek Ev El)).
  destruct (ctMarkDescriptorValue key) as [|[isMark ?]] eqn:Ed; [done|].
  destruct isMark.
  - intros H. apply (inspect_all_exact mark_disjoint scan) in H; [|done]. rewrite H. split; [naive_solver|].
    intros [Hk _]. exfalso. destruct key as [| | | | |d]; try done.
    apply (is_mark_not_disjoint d); [|done]. unfold is_mark. simpl in Ed. by rewrite Ed.
  - destruct (scan key n) as [n1 [|first]] eqn:Es; [done|]. intros H.
    apply (inspect_all_exact mark_disjoint scan) in H; [|done]. rewrite H, (Hscan _ _ _ _ Es), Forall_singleton. done.
Qed.

Lemma and_body_Some l body : and_body l = Some body → l = [("&", body)].
Proof.
  destruct l as [|[k v] [|]]; try done. simpl. destruct (String.eqb_spec k "&") as [->|]; [|done]. by intros [= ->].
Qed.

Lemma obj_disjoint l : and_body l = None →
  (mark_disjoint (JObj l) ↔ member "xt" l = None ∧ is_mark l = false ∧ Forall (λ m, mark_disjoint m.2) l).
Proof.
  intros Ha. split.
  - intros H. inversion H as [? Hv| | |]; subst; [done|by split|done].
  - intros (? & ? & ?). by apply md_obj.
Qed.

Lemma inspect_exact room : exact mark_disjoint (inspect room).
Proof.
  induction room as [room IH] using (well_founded_induction lt_wf). intros v n n' r.
  destruct room as [|deeper]; simpl; (destruct (_ <? _); [done|]); [done|].
  assert (IH1 : exact mark_disjoint (inspect deeper)) by (apply IH; lia).
  assert (IH2 : exact mark_disjoint (inspect (Nat.pred deeper))) by (apply IH; lia).
  destruct v as [| | | |l|l]; try (intros [= <- <-]; split; [intros _; by apply md_leaf|done]).
  - intros H. rewrite (inspect_all_exact_nil mark_disjoint _ _ _ _ _ IH1 H). symmetry. apply arr_disjoint.
  - destruct (and_body l) as [body|] eqn:Ea.
    { apply and_body_Some in Ea as ->. by apply inspectAnd_exact. }
    rewrite (obj_disjoint l Ea). case_bool_decide as Hx.
    { destruct Hx as [x Hx]. intros [= <- <-]. rewrite Hx. split; [done|]. by intros [? _]. }
    apply eq_None_not_Some in Hx. unfold classifyCTMarkDescriptor, is_mark.
    destruct (ctMarkDescriptor l) as [|[[] body]]; [done| |].
    { intros [= <- <-]. split; [by case_bool_decide|]. by intros (_ & ? & _). }
    intros H. erewrite (inspect_all_exact_nil (λ m, mark_disjoint m.2)); [| |exact H].
    { rewrite (sort_members_perm l). naive_solver. }
    intros m k k' s. destruct (String.eqb m.1 "mangle"); [by apply inspectMangle_exact|by apply IH1].
Qed.

(** ** The rule loop *)

Definition rule_table (fields : list (string * json)) : option NftTable :=
  match member "family" fields, member "table" fields with
  | Some (JStr f), Some (JStr t) => Some (mkTable f t)
  | _, _ => None
  end.
Definition foreign_rule (fields : list (string * json)) : Prop := ∀ t, rule_table fields = Some t → t ∉ OwnedTables.
Definition clear_rule (fields : list (string * json)) : Prop :=
  ∃ exprs, member "expr" fields = Some (JArr exprs) ∧ Forall mark_disjoint exprs.

Definition has_nul (s : string) : bool := existsb (λ c, (code c =? 0)) (chars s).

Lemma nul_split a b a' b' : has_nul a = false → has_nul b = false →
  owned_key a' b' = owned_key a b → a' = a ∧ b' = b.
Proof.
  unfold owned_key, nul. intros Ha Hb. revert a'.
  induction a as [|c a IH]; intros [|c' a'] E; rewrite ?string_app_cons, ?string_app_nil in E.
  - by injection E as ->.
  - injection E as -> E. exfalso. subst b. unfold has_nul in Hb.
    clear -Hb. induction a' as [|x a' IH]; [done|]. apply IH.
    rewrite string_app_cons in Hb. by apply orb_false_iff in Hb as [_ Hb].
  - injection E as <- _. by apply orb_false_iff in Ha as [? _].
  - injection E as -> E. apply orb_false_iff in Ha as [_ Ha].
    by destruct (IH Ha a' E) as [-> ->].
Qed.

Lemma owned_key_spec f t : owned_key f t ∈ owned_keys OwnedTables ↔ mkTable f t ∈ OwnedTables.
Proof.
  unfold owned_keys. rewrite elem_of_list_to_set, list_elem_of_fmap. split.
  - intros ([f' t'] & E & Hin).
    assert (has_nul f' = false ∧ has_nul t' = false) as [Hf Ht].
    { unfold OwnedTables in Hin. rewrite !elem_of_cons, elem_of_nil in Hin. naive_solver. }
    apply (nul_split f' t' f t Hf Ht) in E as [-> ->]. done.
  - intros Hin. by exists (mkTable f t).
Qed.

Lemma required_string_inr fields name s : required_string fields name = inr s → member name fields = Some (JStr s).
Proof.
  unfold required_string. destruct (member name fields) as [[]|]; try done.
  by repeat (match goal with |- context [if ?b then _ else _] => destruct b end); intros [= ->].
Qed.

Lemma decode_rule_inr fields ordinal location expr : decodeProvenanceAuditRule fields ordinal = inr (location, expr) →
  rule_table fields = Some (mkTable (loc_family location) (loc_table location)) ∧ member "expr" fields = Some expr.
Proof.
  unfold decodeProvenanceAuditRule, rule_table.
  destruct (required_string fields "family") as [|f] eqn:Ef; [done|].
  destruct (required_string fields "table") as [|t] eqn:Et; [done|].
  destruct (required_string fields "chain") as [|c]; [done|].
  destruct (member "expr" fields); [|done]. destruct (decode_handle _); [done|]. intros [= <- <-].
  by rewrite (required_string_inr _ _ _ Ef), (required_string_inr _ _ _ Et).
Qed.

Lemma wrap_inl_inr {A} fmt args (r : err + A) a : wrap_inl fmt args r = inr a → r = inr a.
Proof. by destruct r. Qed.

Lemma audit_rule_exact fields st st' : audit_rule (owned_keys OwnedTables) fields st = inr st' →
  CollidingRules (as_audit st) <= CollidingRules (as_audit st') ∧
  (CollidingRules (as_audit st') = CollidingRules (as_audit st) ↔ (foreign_rule fields → clear_rule fields)).
Proof.
  unfold audit_rule. destruct (wrap_inl _ _ (decodeProvenanceAuditRule _ _)) as [|[location expr]] eqn:Ed; [done|].
  apply wrap_inl_inr, decode_rule_inr in Ed as [Ht He]. case_bool_decide as Hown.
  - intros [= <-]. simpl. split; [done|]. split; [|done]. intros _ Hf. by apply owned_key_spec, Hf in Hown.
  - destruct (wrap_inl _ _ (decode_expressions expr)) as [|exprs] eqn:Ex; [done|].
    apply wrap_inl_inr in Ex. assert (expr = JArr exprs) as -> by (destruct expr; simpl in Ex; congruence).
    destruct (inspect _ _ _) as [nodes [|reason]] eqn:Ei; [done|]. intros [= <-].
    apply inspect_exact in Ei. rewrite arr_disjoint in Ei.
    assert (Hfor : foreign_rule fields). { intros t. rewrite Ht. intros [= <-]. by rewrite <-owned_key_spec. }
    assert (Hcl : clear_rule fields ↔ reason = "").
    { rewrite Ei. unfold clear_rule. rewrite He. naive_solver. }
    unfold count_rule. destruct (String.eqb_spec reason ""); simpl; (split; [lia|]); [tauto|].
    split; [lia|]. intros H. by apply Hcl in H.
Qed.

Lemma audit_rules_exact decoded : ∀ st st', audit_rules (owned_keys OwnedTables) decoded st = inr st' →
  CollidingRules (as_audit st) <= CollidingRules (as_audit st') ∧
  (CollidingRules (as_audit st') = CollidingRules (as_audit st) ↔
   ∀ fields, ("rule", fields) ∈ decoded → foreign_rule fields → clear_rule fields).
Proof.
  induction decoded as [|[kind fields] l IH]; intros st st'; simpl.
  { intros [= <-]. split; [done|]. split; [|done]. intros _ f Hf. by apply elem_of_nil in Hf. }
  destruct (String.eqb_spec kind "rule") as [->|Hk]; simpl.
  - destruct (audit_rule _ _ _) as [|st1] eqn:E; [done|]. intros H. apply IH in H as [Hle Hiff].
    apply audit_rule_exact in E as [Hle1 Hiff1]. split; [lia|]. split.
    + intros Heq f [[= ->]|Hin]%elem_of_cons; [apply Hiff1; lia|apply Hiff; [lia|done]].
    + intros Hall. transitivity (CollidingRules (as_audit st1)).
      * apply Hiff. intros f Hf. apply Hall. by right.
      * apply Hiff1. apply Hall. by left.
  - intros H. apply IH in H as [Hle Hiff]. split; [done|]. rewrite Hiff. clear -Hk.
    setoid_rewrite elem_of_cons. naive_solver.
Qed.

Lemma decode_object_rule i x o fields : decode_object i x = inr o →
  o = ("rule", fields) ↔ x = JObj [("rule", JObj fields)].
Proof.
  unfold decode_object. destruct (wrap_inl _ _ (members x)) as [|l] eqn:Em; [done|]. apply wrap_inl_inr in Em.
  destruct l as [|[kind body] [|]]; try done. destruct (listRulesetObjectKinds kind); [|done]. simpl.
  assert (Hx : x = JObj [(kind, body)]) by (destruct x; simpl in Em; congruence). subst x.
  destruct body as [| | | | |f]; try done. destruct (String.eqb_spec kind "metainfo") as [->|].
  - destruct (member _ f) as [[| |[|[]|]| | |]|]; try done; intros [= <-]; naive_solver.
  - intros [= <-]. naive_solver.
Qed.

Lemma decode_objects_rules objects : ∀ i decoded, decode_objects i objects = inr decoded →
  ∀ fields, ("rule", fields) ∈ decoded ↔ JObj [("rule", JObj fields)] ∈ objects.
Proof.
  induction objects as [|x l IH]; intros i decoded; simpl.
  { intros [= <-] fields. split; by intros ?%elem_of_nil. }
  destruct (decode_object i x) as [|o] eqn:E; [done|].
  destruct (decode_objects (i + 1) l) as [|r] eqn:El; [done|]. intros [= <-] fields.
  rewrite !elem_of_cons, (IH _ _ El). pose proof (decode_object_rule _ _ _ fields E). naive_solver.
Qed.

(** ** The value of a masked read *)

Definition operand_value (mark : N) (v : json) : option N :=
  match canonicalCTMarkRead v with inr true => Some mark | _ => markUint32Constant v end.
Definition masked_value (mark : N) (operands : list json) : option N :=
  foldr (λ v acc, match operand_value mark v, acc with Some x, Some y => Some (N.land x y) | _, _ => None end)
    (Some 0xffffffff) operands.

Lemma land_swap x y z : N.land x (N.land y z) = N.land y (N.land x z).
Proof. by rewrite !N.land_assoc, (N.land_comm x). Qed.

Lemma constant_value mark v : disjoint_constant v → ∃ c, operand_value mark v = Some c ∧ N.land c Mask = 0 ∧ markUint32Constant v = Some c.
Proof.
  intros Hd. pose proof Hd as (c & Hc & Hm). exists c. split; [|done]. unfold operand_value.
  destruct (canonicalCTMarkRead v) as [|[]] eqn:E; [done| |done]. by apply canonical_not_constant in E.
Qed.

Lemma masked_constants_value l : Forall disjoint_constant l →
  ∃ k, (∀ mark, masked_value mark l = Some k) ∧ N.land k 0xffffffff = k ∧ (l ≠ [] → N.land k Mask = 0).
Proof.
  induction 1 as [|v l Hv _ (k & IH & Hw & _)].
  { exists 0xffffffff. by split. }
  destruct Hv as (c & Hc & Hm). exists (N.land c k). split; [|split].
  - intros mark. simpl. fold (masked_value mark l). rewrite IH.
    destruct (constant_value mark v) as (c' & -> & _ & Hc'); [by exists c|]. congruence.
  - by rewrite <-N.land_assoc, Hw.
  - intros _. by rewrite <-N.land_assoc, (N.land_comm k), N.land_assoc, Hm.
Qed.

Lemma masked_value_split mark before m after k : canonicalCTMarkRead m = inr true →
  masked_value mark (before ++ after)%list = Some k →
  masked_value mark (before ++ m :: after)%list = Some (N.land mark k).
Proof.
  intros Hm. revert k. induction before as [|v before IH]; intros k.
  - simpl. fold (masked_value mark after). intros ->. unfold operand_value. by rewrite Hm.
  - simpl. fold (masked_value mark (before ++ after)) (masked_value mark (before ++ m :: after)).
    destruct (operand_value mark v) as [x|]; [|done].
    destruct (masked_value mark (before ++ after)) as [y|]; [|done]. intros [= <-].
    by rewrite (IH y), land_swap.
Qed.

Lemma reserved_byte_invisible mark a k : N.land k 0xffffffff = k → N.land k Mask = 0 →
  N.land (N.lor (N.land mark KeepMask) (Encoded a)) k = N.land mark k.
Proof.
  intros Hw Hm. apply N.bits_inj. intros i. rewrite !N.land_spec, N.lor_spec, N.land_spec.
  destruct (N.testbit k i) eqn:Ek; [|by rewrite !andb_false_r]. rewrite !andb_true_r.
  assert (Hi : i < 24).
  { destruct (N.lt_ge_cases i 24) as [|Hge]; [done|]. exfalso.
    destruct (N.lt_ge_cases i 32) as [Hlt|Hge'].
    - apply (f_equal (λ x, N.testbit x i)) in Hm. rewrite N.land_spec, Ek, N.bits_0 in Hm.
      change Mask with (N.shiftl (N.ones 8) 24) in Hm.
      rewrite N.shiftl_spec_high', N.ones_spec_low in Hm by lia. done.
    - apply (f_equal (λ x, N.testbit x i)) in Hw. rewrite N.land_spec, Ek in Hw.
      change 0xffffffff with (N.ones 32) in Hw. by rewrite N.ones_spec_high in Hw by lia. }
  unfold Encoded. rewrite (N.shiftl_spec_low _ _ _ Hi), orb_false_r.
  change KeepMask with (N.ones 24). by rewrite N.ones_spec_low, andb_true_r by lia.
Qed.

Lemma decode_document_rules doc decoded : decode_document doc = inr decoded →
  ∃ objects, doc = Some (JObj [("nftables", JArr objects)]) ∧
    ∀ fields, ("rule", fields) ∈ decoded ↔ JObj [("rule", JObj fields)] ∈ objects.
Proof.
  unfold decode_document. destruct (wrap_inl _ _ _) as [|l] eqn:El; [done|]. apply wrap_inl_inr in El.
  destruct doc as [j|]; [|done]. destruct l as [|[name value] [|]]; try done.
  assert (j = JObj [(name, value)]) as -> by (destruct j; simpl in El; congruence).
  destruct (String.eqb_spec name "nftables") as [->|]; [|done]. simpl.
  destruct value as [| | | |objects|]; try done.
  destruct (decode_objects 0 objects) as [|d] eqn:Eo; [done|]. destruct (_ =? 1); [|done]. intros [= ->].
  exists objects. split; [done|]. by apply (decode_objects_rules _ _ _ Eo).
Qed.

Lemma audit_json_inr size doc audit first :
  auditForeignProvenanceRulesetJSON size doc OwnedTables = inr (audit, first) →
  ∃ decoded, decode_document doc = inr decoded ∧
    (CollidingRules audit = 0 ↔ ∀ fields, ("rule", fields) ∈ decoded → foreign_rule fields → clear_rule fields).
Proof.
  unfold auditForeignProvenanceRulesetJSON. destruct (_ <? size); [done|].
  destruct (decode_document doc) as [|decoded]; [done|].
  destruct (audit_rules _ _ _) as [|st] eqn:Er; [done|]. intros [= <- <-].
  exists decoded. split; [done|]. by apply audit_rules_exact in Er as [_ ->].
Qed.

(** ** Properties *)

(** C12: the audit is exact.  When it answers at all, the text was one ruleset document,
    and it counts no collision just when every rule of a table that is not the
    product's keeps clear of the reserved byte: its expressions contain no xtables
    statement and use the conntrack mark only below a bitwise and with constants
    that have no reserved bit. *)
Theorem foreign_audit_exact size doc audit first :
  auditForeignProvenanceRulesetJSON size doc OwnedTables = inr (audit, first) →
  ∃ objects, doc = Some (JObj [("nftables", JArr objects)]) ∧
    (CollidingRules audit = 0 ↔
     ∀ fields, JObj [("rule", JObj fields)] ∈ objects → foreign_rule fields → clear_rule fields).
Proof.
  intros (decoded & Hd & Hc)%audit_json_inr. apply decode_document_rules in Hd as (objects & -> & Hr).
  exists objects. split; [done|]. rewrite Hc. split; intros Hall fields Hin; apply Hall; by apply Hr.
Qed.

(** The audit the backend runs before a mutation is read-only and sound: when it
    succeeds, the ruleset nft listed has no rule of a foreign table that reads or
    writes the reserved byte, and the world is as it was. *)
Theorem AuditForeignProvenanceMask_sound {K} `{Nft K} (listing_size : K → N) o (h : Host K) audit :
  result (AuditForeignProvenanceMask listing_size o h) = Ret audit →
  h_world (final (AuditForeignProvenanceMask listing_size o h)) = h_world h ∧
  ∃ objects, nft_list_ruleset (w_kernel (h_world h)) = Some (Some (JObj [("nftables", JArr objects)])) ∧
    ∀ fields, JObj [("rule", JObj fields)] ∈ objects → foreign_rule fields → clear_rule fields.
Proof.
  intros Hr. match goal with |- _ ∧ ?Q =>
    enough (Hs : wsafe (λ w, w = h_world h) (AuditForeignProvenanceMask listing_size) (λ _ _, Q) (h_world h)) by
      (split; [apply (wsafe_final _ _ _ h o Hs)|apply (wsafe_ret_elim _ _ _ h o _ Hs Hr)]) end.
  unfold AuditForeignProvenanceMask. apply wsafe_bind.
  eapply wsafe_mono with (P := λ out w, nft_list_ruleset (w_kernel (h_world h)) = Some out.1).
  { eapply wsafe_catch with (J := λ w, w = h_world h); [done| |intros; by apply wsafe_throw].
    apply wsafe_sys_read; [done|]. intros out. destruct (nft_list_ruleset _); [|done]. by intros [= <-]. }
  intros [doc size] w -> Hl. simpl in *. unfold lift_check.
  destruct (foreignProvenanceAuditFromJSON size doc OwnedTables) as [|a] eqn:Ea; [by apply wsafe_throw|].
  apply wsafe_ret; [done|]. unfold foreignProvenanceAuditFromJSON in Ea.
  destruct (wrap_inl _ _ _) as [|[audit' first]] eqn:Ew in Ea; [done|]. apply wrap_inl_inr in Ew.
  apply audit_json_inr in Ew as (decoded & Hd & Hc).
  destruct (N.eqb_spec (CollidingRules audit') 0) as [Hz|]; [|by destruct first].
  apply decode_document_rules in Hd as (objects & -> & Hrules).
  exists objects. split; [done|]. intros fields Hin. apply (proj1 Hc Hz). by apply Hrules.
Qed.

(** An accepted masked read cannot see what the product writes.  Below a bitwise
    and that is clear of the mark, replacing the reserved byte of the mark by any
    provenance identity changes nothing: the expression has a value, and the same
    one. *)
Theorem masked_read_stable operands m mark a :
  mark_disjoint (JObj [("&", JArr operands)]) → m ∈ operands → canonicalCTMarkRead m = inr true →
  is_Some (masked_value mark operands) ∧
  masked_value (N.lor (N.land mark KeepMask) (Encoded a)) operands = masked_value mark operands.
Proof.
  intros [H|(before & m' & after & [= ->] & Hm' & Hd & Hne)]%and_disjoint_inv Hin Hm.
  { apply arr_disjoint in H. rewrite Forall_forall in H. by apply H, canonical_not_disjoint in Hin. }
  destruct (masked_constants_value _ Hd) as (k & Hk & Hw & Hmask).
  assert (N.land k Mask = 0) as Hz by (apply Hmask; destruct before, after; naive_solver).
  rewrite !(masked_value_split _ _ _ _ _ Hm' (Hk _)), reserved_byte_invisible by done. by split.
Qed.

(** ** Witnesses *)

(** A kernel that is its own listing. *)
#[local] Instance listing : Nft json := {|
  nft_check _ _ := true; nft_file _ _ := None; nft_list_tables k := Some (Some k);
  nft_list_table _ k := Some (Some k); nft_list_ruleset k := Some (Some k) |}.

Definition mark_read : json := JObj [("ct", JObj [("key", JStr "mark")])].
Definition masked_by (mask : json) : json := JObj [("&", JArr [mark_read; mask])].
Definition foreign_object (left : json) : json :=
  JObj [("rule", JObj [("family", JStr "inet"); ("table", JStr "other"); ("chain", JStr "input"); ("handle", JNum 4);
    ("expr", JArr [JObj [("match", JObj [("op", JStr "=="); ("left", left); ("right", JNum 5)])]])])].
Definition product_object : json :=
  JObj [("rule", JObj [("family", JStr "inet"); ("table", JStr FilterTable); ("chain", JStr "input");
    ("expr", JArr [JObj [("mangle", JObj [("key", mark_read); ("value", JNum 16777216)])]])])].
Definition listing_of (left : json) : json :=
  JObj [("nftables", JArr [JObj [("metainfo", JObj [("json_schema_version", JNum 1)])]; product_object; foreign_object left])].
Definition quiet_listing : json := listing_of (masked_by (JStr "0xff")).
Definition loud_listing : json := listing_of (masked_by (JNum 16777217)).

Definition listing_host (j : json) : Host json :=
  mkHost (mkWorld "/var/lib/nftfw" ∅ [] ∅ ∅ None None None false ∅ j false "" no_claims) [] [].

Lemma foreign_audit_exact_witness :
  auditForeignProvenanceRulesetJSON 900 (Some loud_listing) OwnedTables =
    inr (mkAuditResult 1 1 1, Some (mkCollision (mkLocation "inet" "other" "input" (Some 4) 2)
           "foreign expression mask overlaps the reserved conntrack-mark byte")) ∧
  ∃ objects, Some loud_listing = Some (JObj [("nftables", JArr objects)]) ∧
    (1 = 0 ↔ ∀ fields, JObj [("rule", JObj fields)] ∈ objects → foreign_rule fields → clear_rule fields).
Proof.
  assert (auditForeignProvenanceRulesetJSON 900 (Some loud_listing) OwnedTables =
    inr (mkAuditResult 1 1 1, Some (mkCollision (mkLocation "inet" "other" "input" (Some 4) 2)
           "foreign expression mask overlaps the reserved conntrack-mark byte"))) as E by (vm_compute; reflexivity).
  split; [exact E|]. apply (foreign_audit_exact _ _ _ _ E).
Defined.

Lemma AuditForeignProvenanceMask_sound_witness :
  result (AuditForeignProvenanceMask (λ _, 900) [] (listing_host quiet_listing)) = Ret (mkAuditResult 1 1 0) ∧
  h_world (final (AuditForeignProvenanceMask (λ _, 900) [] (listing_host quiet_listing))) = h_world (listing_host quiet_listing) ∧
  ∃ objects, Some (Some quiet_listing) = Some (Some (JObj [("nftables", JArr objects)])) ∧
    ∀ fields, JObj [("rule", JObj fields)] ∈ objects → foreign_rule fields → clear_rule fields.
Proof.
  assert (result (AuditForeignProvenanceMask (λ _, 900) [] (listing_host quiet_listing)) = Ret (mkAuditResult 1 1 0)) as E
    by (vm_compute; reflexivity).
  split; [exact E|]. exact (AuditForeignProvenanceMask_sound _ _ _ _ E).
Defined.

Lemma masked_read_stable_witness :
  is_Some (masked_value 0x2a000005 [mark_read; JStr "0xff"]) ∧
  masked_value (N.lor (N.land 0x2a000005 KeepMask) (Encoded lan)) [mark_read; JStr "0xff"] =
    masked_value 0x2a000005 [mark_read; JStr "0xff"].
Proof.
  apply (masked_read_stable _ mark_read).
  - apply (md_masked [] mark_read [JStr "0xff"]); [reflexivity| |left; discriminate].
    constructor; [|constructor]. exists 255. split; vm_compute; reflexivity.
  - left.
  - vm_compute. reflexivity.
Defined.
