(* ===== verification/Manager.v ===== *)
(** The reconciliation manager (internal/reconcile/manager.go): apply, commit,
    rollback and drift repair, every call in the code's order, over the store and
    the nft backend.  Go functions that return a value with an error are modelled
    as [ret (v, Some e)] when the value matters and as [throw e] when it is the
    zero value. *)

From S2P Require Import Prelude GoStrings GoTime Sha256 Json NftScript NftJson Ledger Snapshot Host Store Backend.
From Stdlib Require Import Ascii String.
Local Open Scope string_scope.
Local Open Scope N_scope.
Local Open Scope host_scope.

(** ** The emergency ruleset (internal/nft/fallback.go) *)

Definition quoted (s : string) : string := String NftScript.dquote (s +:+ String NftScript.dquote EmptyString).

Definition EmergencyDenyScript : string :=
  String.concat "" (map (λ l, l +:+ String lf EmptyString)
  ["table inet nftfw_filter {";
   "    chain input {";
   "        type filter hook input priority filter; policy drop;";
   "        iifname " +:+ quoted "lo" +:+ " accept comment " +:+ quoted "nftfw:emergency-loopback";
   "        counter drop comment " +:+ quoted "nftfw:input-default-deny";
   "    }";
   "    chain output {";
   "        type filter hook output priority filter; policy drop;";
   "        oifname " +:+ quoted "lo" +:+ " accept comment " +:+ quoted "nftfw:emergency-loopback";
   "        counter drop comment " +:+ quoted "nftfw:output-default-deny";
   "    }";
   "    chain forward {";
   "        type filter hook forward priority filter; policy drop;";
   "        counter drop comment " +:+ quoted "nftfw:forward-default-deny";
   "    }";
   "}";
   "table ip nftfw_nat {";
   "    chain prerouting {";
   "        type nat hook prerouting priority dstnat; policy accept;";
   "        counter comment " +:+ quoted "nftfw:dnat-chain";
   "    }";
   "    chain postrouting {";
   "        type nat hook postrouting priority srcnat; policy accept;";
   "        counter comment " +:+ quoted "nftfw:vpn-only-nat";
   "    }";
   "}";
   "table ip6 nftfw_filter6 {";
   "    chain input {";
   "        type filter hook input priority -300; policy drop;";
   "        iifname " +:+ quoted "lo" +:+ " accept comment " +:+ quoted "nftfw:ipv6-mode-disabled";
   "    }";
   "    chain output {";
   "        type filter hook output priority -300; policy drop;";
   "        oifname " +:+ quoted "lo" +:+ " accept comment " +:+ quoted "nftfw:ipv6-loopback";
   "    }";
   "    chain forward {";
   "        type filter hook forward priority -300; policy drop;";
   "        counter drop comment " +:+ quoted "nftfw:ipv6-emergency-deny";
   "    }";
   "}"]).

(** ** The manager *)

Section manager.
Context {K : Type} `{Nft K}.
Context (range : gset string → list string).
Abbreviation HM := (M (Host K)).

(** The injected callbacks: a guard reads the world and may refuse; [PostRestore]
    rewrites the runtime sets of the installed ruleset. *)
Record Manager := mkManager {
  m_SafeTTL : Z;
  m_HealthCheck : option (World K → option err);
  m_SafeGuard : option (World K → option err);
  m_SafeGuardLocked : option (World K → option err);
  m_ForeignMarkGuard : option (World K → option err);
  m_PostRestore : option (World K → err + K);
  m_MutationLockDir : string
}.

(** [compiler.Artifact], the fields [Apply] uses. *)
Record Artifact := mkArtifact {
  art_Generation : N; art_Checksum : string; art_Script : string; art_Provenance : list Assignment
}.

Record Result := mkResult {
  res_Generation : N; res_Checksum : string; res_Deadline : option time; res_Committed : bool
}.

Definition call_guard (what : string) (g : World K → option err) : HM unit :=
  sys_read (EvGuard what) (λ w, match g w with None => Ret tt | Some e => Error e end).

(** [err := m; _ = err] *)
Definition ignore {A} (m : HM A) : HM unit := try_ m ;; ret tt.

(** [if err := m; err != nil { return fmt.Errorf(fmt, err) }] *)
Definition wrapped {A} (fmt : string) (m : HM A) : HM A := catch m (λ e, throw (Wrapf fmt [] e)).

(** A query whose [sql.ErrNoRows] stands for "none". *)
Definition if_any {A} (m : HM A) : HM (option A) :=
  r <- try_ m ;;
  match r with
  | inr a => ret (Some a)
  | inl e => if is_no_rows e then ret None else throw e
  end.

Definition auditForeignMarkOwnership (m : Manager) : HM unit :=
  match m_ForeignMarkGuard m with
  | None => throw (Errorf "foreign conntrack-mark ownership guard is unavailable" [])
  | Some g => wrapped "foreign conntrack-mark ownership audit: %w" (call_guard "foreign mark" g)
  end.

Definition installOwnedGeneration (m : Manager) (c : Ctx) (script : string) : HM unit :=
  auditForeignMarkOwnership m ;; Apply c script.

Definition PreflightSafeApply (m : Manager) (c : Ctx) : HM Ctx :=
  match m_SafeGuard m, m_SafeGuardLocked m with
  | Some g, Some _ =>
      wrapped "safe apply refused: %w" (call_guard "safe apply" g) ;;
      ret (mkCtx (ctx_locked c) true)
  | _, _ => throw (Errorf "safe apply requires preflight and locked rollback-guard verification" [])
  end.

Definition requireNoPending : HM unit :=
  pending <- if_any Pending_ ;;
  match pending with
  | Some g => throw (Errorf "generation %d is still pending; commit or roll it back first" [ArgN (gen_ID g)])
  | None => ret tt
  end.

(** [acquireProcessLock] with its deferred release around the critical section. *)
Definition with_process_lock {A} (m : Manager) (c : Ctx) (body : Ctx → HM A) : HM A :=
  if ctx_locked c then body (WithMutationLock c)
  else
    require (negb (String.eqb (m_MutationLockDir m) ""))
      (Errorf "cross-process mutation lock directory is not configured" []) ;;
    sys_read EvLock (λ _, Ret tt) ;;
    finally (body (WithMutationLock c)) (sys_read EvUnlock (λ _, Ret tt)).

Definition recordFingerprint (id : N) : HM unit :=
  hash <- Fingerprint ;; SetObservedHash id hash.

Definition restoreRuntimeOrDeny (m : Manager) (c : Ctx) : HM unit :=
  match m_PostRestore m with
  | None => ret tt
  | Some f =>
      restored <- try_ (sys_write (EvGuard "post restore")
        (λ w, match f w with inl e => inl e | inr k => inr (tt, set_kernel k (w_first_use w) w) end)) ;;
      match restored with
      | inr _ => ret tt
      | inl e =>
          ignore (Audit "system" "runtime_state_restore_failed" "emergency default-deny policy requested") ;;
          denied <- try_ (Apply c EmergencyDenyScript) ;;
          match denied with
          | inl d => throw (Wrapf "restore runtime state: %w; emergency deny also failed: %v" [ArgS (err_text d)] e)
          | inr _ => throw (Wrapf "restore runtime state: %w; emergency default-deny policy installed" [] e)
          end
      end
  end.

Definition restore (m : Manager) (c : Ctx) (previous : option Generation) : HM unit :=
  match previous with
  | None => DestroyOwned c
  | Some g =>
      script <- ReadScript g ;;
      installOwnedGeneration m c script ;;
      recordFingerprint (gen_ID g) ;;
      restoreRuntimeOrDeny m c
  end.

Definition recoverPostApplyFailure {A} (m : Manager) (c : Ctx) (id : N) (previous : option Generation) (cause : err) : HM A :=
  catch (restore m c previous) (λ e, throw (Join cause (Wrapf "restore previous generation: %w" [] e))) ;;
  catch (MarkRolledBack id) (λ e, throw (Join cause (Wrapf "record confirmed rollback: %w" [] e))) ;;
  throw cause.

Definition recoverFirstApplyExecutionFailure {A} (id : N) (cause : err) : HM A :=
  existing <- catch ExistingOwned (λ e, throw (Join cause (Wrapf "inspect uncertain first apply: %w" [] e))) ;;
  if negb (bool_decide (existing = ∅))
  then throw (Join cause (Errorf "first apply left unverified product-named nft tables; refusing automatic deletion" []))
  else
    catch (MarkRolledBack id) (λ e, throw (Join cause (Wrapf "record confirmed empty first apply rollback: %w" [] e))) ;;
    throw cause.

(** ** Snapshot validation (internal/reconcile/recovery.go) *)

Definition prepared_tuple (g : Generation) (p : EnforcementPointer) : bool :=
  bool_decide (gen_PreparedPriorID g = Some (ptr_Generation p)) &&
  String.eqb (gen_PreparedPriorSum g) (ptr_PolicyChecksum p) &&
  String.eqb (gen_PreparedPriorSnapshotSum g) (ptr_SnapshotChecksum p).

Definition validateGenerationSnapshot (g : Generation) (s : GenerationSnapshot) (prepared : bool) : HM unit :=
  require ((gen_ID g =? snap_Generation s) && String.eqb (gen_Checksum g) (snap_Checksum s) &&
           String.eqb (gen_SnapshotChecksum g) (ptr_SnapshotChecksum (snap_Pointer s)) &&
           String.eqb (gen_BootID g) (snap_BootID s))
    (Errorf "generation database row does not match its immutable snapshot" []) ;;
  dir <- peek w_dir ;;
  require (String.eqb (gen_ScriptPath g) (script_path dir (gen_ID g)) &&
           String.eqb (gen_SnapshotPath g) (generationSnapshotPath dir (gen_ID g)))
    (Errorf "generation database paths do not name the immutable generation files" []) ;;
  script <- ReadScript g ;;
  require (String.eqb script (snap_Script s))
    (Errorf "generation script and immutable snapshot disagree" []) ;;
  match snap_Previous s with
  | None =>
      require (negb (bool_decide (is_Some (gen_PreviousID g)) ||
                     prepared && (bool_decide (is_Some (gen_PreparedPriorID g)) ||
                                  negb (String.eqb (gen_PreparedPriorSum g) "") ||
                                  negb (String.eqb (gen_PreparedPriorSnapshotSum g) ""))))
        (Errorf "first generation contains an unexpected predecessor" [])
  | Some p =>
      require (bool_decide (gen_PreviousID g = Some (ptr_Generation p)))
        (Errorf "generation predecessor id disagrees with immutable snapshot" []) ;;
      previous <- GenerationByID (ptr_Generation p) ;;
      require (String.eqb (gen_Checksum previous) (ptr_PolicyChecksum p) &&
               String.eqb (gen_SnapshotChecksum previous) (ptr_SnapshotChecksum p))
        (Errorf "generation predecessor checksum disagrees with immutable snapshot" []) ;;
      require (negb prepared || prepared_tuple g p)
        (Errorf "prepared predecessor tuple disagrees with immutable snapshot" [])
  end.

(** [pointerMatchesPrevious] *)
Definition pointerMatchesPrevious (previous observed : option EnforcementPointer) : bool :=
  match previous with
  | None => negb (bool_decide (is_Some observed))
  | Some p => ptr_Equal p observed
  end.

(** ** Rollback *)

Definition rollback_predecessor (g : Generation) (s : GenerationSnapshot) : HM (option string) :=
  match gen_PreviousID g with
  | None => ret None
  | Some previousID =>
      previous <- GenerationByID previousID ;;
      match snap_Previous s with
      | Some p =>
          require (has_status [Committed] previous)
            (Errorf "rollback predecessor is not the exact committed generation" []) ;;
          previousSnapshot <- wrapped "load durable rollback predecessor snapshot: %w"
                                (EnsurePublishedGenerationDurable p) ;;
          wrapped "validate rollback predecessor snapshot: %w"
            (validateGenerationSnapshot previous previousSnapshot false) ;;
          ret (Some (snap_Script previousSnapshot))
      | None => throw (Errorf "rollback predecessor is not the exact committed generation" [])
      end
  end.

Definition rollbackLocked (m : Manager) (c : Ctx) (id : N) : HM unit :=
  auditForeignMarkOwnership m ;;
  g <- GenerationByID id ;;
  match gen_Status g with
  | RolledBack => ret tt
  | Committed =>
      throw (Errorf "generation %d is committed; rollback is restricted to pending safe-apply generations" [ArgN id])
  | _ =>
      s <- wrapped "load verified rollback generation snapshot: %w" (LoadVerifiedGenerationSnapshot id) ;;
      wrapped "validate rollback generation snapshot: %w"
        (validateGenerationSnapshot g s (has_status [CommitPrepared] g)) ;;
      currentPointer <- ReadEnforcementPointer ;;
      if has_status [CommitPrepared] g && ptr_Equal (snap_Pointer s) currentPointer then
        catch (FinalizeCommit id)
          (λ e, throw (Wrapf "finalize already-published generation %d: %w" [ArgN id] e)) ;;
        throw (Errorf "generation %d commit pointer was already published" [ArgN id])
      else
        require (pointerMatchesPrevious (snap_Previous s) currentPointer)
          (Errorf "pending generation predecessor pointer is ambiguous" []) ;;
        let firstPendingWithoutEstablishedOwnership :=
          bool_decide (gen_PreviousID g = None) && has_status [Pending] g in
        (if firstPendingWithoutEstablishedOwnership then
           existing <- wrapped "inspect ambiguous first-generation pending ownership: %w" ExistingOwned ;;
           require (bool_decide (existing = ∅))
             (Errorf "first-generation pending state has unverified product-named nft tables; refusing automatic deletion" [])
         else ret tt) ;;
        previous <- rollback_predecessor g s ;;
        match previous with
        | Some script => installOwnedGeneration m c script ;; restoreRuntimeOrDeny m c
        | None => if firstPendingWithoutEstablishedOwnership then ret tt else DestroyOwned c
        end ;;
        MarkRolledBack id ;;
        match previous with
        | None => wrapped "clear active boot snapshot: %w" ClearActive
        | Some _ => ret tt
        end ;;
        Audit "system" "generation_rolled_back" (sprintf "generation=%d" [ArgN id])
  end.

Definition commitLocked (m : Manager) (c : Ctx) (id : N) : HM unit :=
  g <- GenerationByID id ;;
  require (has_status [Applied] g)
    (Errorf "generation %d status %s cannot be committed" [ArgN id; ArgS (status_name (gen_Status g))]) ;;
  s <- wrapped "read immutable generation snapshot: %w" (LoadGenerationSnapshot id) ;;
  current <- ReadEnforcementPointer ;;
  require (pointerMatchesPrevious (snap_Previous s) current)
    (Errorf "current enforcement pointer does not match generation's recorded predecessor" []) ;;
  auditForeignMarkOwnership m ;;
  wrapped "durably prepare generation commit: %w" (PrepareCommit id) ;;
  p <- wrapped "prepare enforcement pointer after durable commit state: %w"
         (PrepareEnforcementPointer (snap_Pointer s)) ;;
  finally
    (deadline <- wrapped "read final commit deadline: %w" (PreparedDeadline id) ;;
     late <- expired deadline ;;
     if late : bool then
       catch CancelPreparedPointer
         (λ e, throw (Wrapf "generation %d expired; cancel prepared pointer: %w" [ArgN id] e)) ;;
       catch (rollbackLocked m c id)
         (λ e, throw (Wrapf "generation %d expired and rollback failed: %w" [ArgN id] e)) ;;
       throw (Errorf "generation %d expired and was rolled back" [ArgN id])
     else
       wrapped "publish enforcement pointer: %w" (PublishPreparedPointer p) ;;
       wrapped "enforcement pointer published; generation finalization requires recovery: %w"
         (FinalizeCommit id))
    CancelPreparedPointer.

Definition Commit (m : Manager) (c : Ctx) (id : N) : HM unit :=
  with_process_lock m c (λ c,
    pending <- Pending_ ;;
    require (gen_ID pending =? id) (Errorf "generation %d is not pending" [ArgN id]) ;;
    require (has_status [Applied] pending)
      (Errorf "generation %d was persisted but not applied and cannot be committed" [ArgN id]) ;;
    late <- expired (gen_RollbackDeadline pending) ;;
    if late : bool then
      catch (rollbackLocked m c id)
        (λ e, throw (Wrapf "generation %d expired and rollback failed: %w" [ArgN id] e)) ;;
      throw (Errorf "generation %d expired and was rolled back" [ArgN id])
    else
      observedHash <- try_ Fingerprint ;;
      if match observedHash with
         | inl _ => true
         | inr h => String.eqb (gen_ObservedHash pending) "" || negb (String.eqb h (gen_ObservedHash pending))
         end
      then
        catch (rollbackLocked m c id)
          (λ e, throw (Errorf "generation %d integrity verification failed and rollback failed: %v"
                         [ArgN id; ArgS (err_text e)])) ;;
        throw (Errorf "generation %d integrity verification failed and was rolled back" [ArgN id])
      else commitLocked m c id).

Definition Rollback (m : Manager) (c : Ctx) (id : N) : HM unit :=
  with_process_lock m c (λ c, rollbackLocked m c id).

(** ** Apply *)

Definition apply_recovery {A} (m : Manager) (c : Ctx) (id : N) (previous : option Generation) (e : err) : HM A :=
  ignore (Audit "system" "generation_apply_failed"
            (sprintf "generation=%d error=%v" [ArgN id; ArgS (err_text e)])) ;;
  if MutationAttempted e then
    let cause := Wrapf "apply candidate generation %d: %w" [ArgN id] e in
    match previous with
    | None => recoverFirstApplyExecutionFailure id cause
    | Some _ => recoverPostApplyFailure m c id previous cause
    end
  else
    catch (MarkRolledBack id)
      (λ x, throw (Join e (Wrapf "record non-mutating apply rejection: %w" [] x))) ;;
    throw e.

(** What follows the candidate's installation. *)
Definition confirm_applied (m : Manager) (c : Ctx) (artifact : Artifact) (previous : option Generation)
    (deadline : option time) (safe : bool) : HM Result :=
  let id := art_Generation artifact in
  catch (MarkApplied id)
    (λ e, recoverPostApplyFailure m c id previous (Wrapf "mark generation applied: %w" [] e)) ;;
  catch (recordFingerprint id)
    (λ e, recoverPostApplyFailure m c id previous (Wrapf "record applied nftables fingerprint: %w" [] e)) ;;
  match m_HealthCheck m with
  | None => ret tt
  | Some g =>
      catch (call_guard "health check" g) (λ e,
        rolled <- try_ (rollbackLocked m c id) ;;
        ignore (Audit "system" "generation_health_failed" (sprintf "generation=%d" [ArgN id])) ;;
        match rolled with
        | inl r => throw (Wrapf "candidate health check failed: %w; rollback also failed: %v" [ArgS (err_text r)] e)
        | inr _ => throw (Wrapf "candidate health check failed and was rolled back: %w" [] e)
        end)
  end ;;
  (if safe then ret tt else commitLocked m c id) ;;
  ignore (Audit "system" "generation_applied" (sprintf "generation=%d safe=%t" [ArgN id; ArgB safe])) ;;
  ret (mkResult id (art_Checksum artifact) deadline (negb safe)).

Definition apply_locked (m : Manager) (artifact : Artifact) (safe : bool) (c : Ctx) : HM Result :=
  requireNoPending ;;
  (if safe then
     match m_SafeGuardLocked m with
     | None => throw (Errorf "safe apply requires locked rollback-guard verification" [])
     | Some g => wrapped "safe apply locked revalidation refused: %w" (call_guard "safe apply locked" g)
     end
   else ret tt) ;;
  auditForeignMarkOwnership m ;;
  previous <- if_any LastKnownGood ;;
  match previous with
  | Some _ => ret tt
  | None => wrapped "first-use ownership check: %w" ProtectFirstUse
  end ;;
  deadline <- (if safe then
                 now <- read_clock ;;
                 ret (Some (now + if (m_SafeTTL m <=? 0)%Z then 90 * second else m_SafeTTL m)%Z)
               else ret None) ;;
  bootID <- wrapped "read creating boot id: %w" CurrentBootID ;;
  wrapped "persist pending generation: %w"
    (SaveGenerationWithMetadata (art_Generation artifact) (art_Checksum artifact) (art_Script artifact)
       (gen_ID <$> previous) deadline (mkMetadata bootID (art_Provenance artifact))) ;;
  installed <- try_ (installOwnedGeneration m c (art_Script artifact)) ;;
  match installed with
  | inl e => apply_recovery m c (art_Generation artifact) previous e
  | inr _ => confirm_applied m c artifact previous deadline safe
  end.

Definition Apply (m : Manager) (c : Ctx) (artifact : Artifact) (safe : bool) : HM Result :=
  requireNoPending ;;
  c <- (if safe && negb (ctx_preflight c) then PreflightSafeApply m c else ret c) ;;
  with_process_lock m c (apply_locked m artifact safe).

(** ** Drift *)

Record Drift := mkDrift { OwnedTablesSeen : list NftTable; Missing : bool; Repaired : bool; Detail : string }.

Definition owned_count_detail (l : list NftTable) : string :=
  sprintf "owned table count %d/%d" [ArgN (N.of_nat (List.length l)); ArgN (N.of_nat (List.length OwnedTables))].

(** A failing step of [Reconcile] returns the drift found so far with the error. *)
Definition or_return {A} (d : Drift) (m : HM A) (k : A → HM (Drift * option err)) : HM (Drift * option err) :=
  r <- try_ m ;;
  match r with inl e => ret (d, Some e) | inr a => k a end.

Definition drift (tables : list NftTable) (detail : option string) : Drift :=
  match detail with
  | None => mkDrift tables false false ""
  | Some s => mkDrift tables true false s
  end.

Definition detect_tables (observed : list NftTable) : HM (option string) :=
  if negb (List.length observed =? List.length OwnedTables)%nat
  then ret (Some (owned_count_detail observed))
  else
    r <- Integrity range ;;
    ret (if (r : bool * string).1 then None else Some r.2).

Definition detect_fingerprint (expected : option Generation) (detail : option string) : HM (option string) :=
  match detail, expected with
  | None, Some g =>
      if String.eqb (gen_ObservedHash g) ""
      then ret (Some (sprintf "generation %d lacks an observed-state fingerprint" [ArgN (gen_ID g)]))
      else
        h <- Fingerprint ;;
        ret (if String.eqb h (gen_ObservedHash g) then None
             else Some (sprintf "owned nftables fingerprint differs from generation %d" [ArgN (gen_ID g)]))
  | _, _ => ret detail
  end.

Definition reinstall (m : Manager) (c : Ctx) (g : Generation) : HM unit :=
  script <- ReadScript g ;;
  installOwnedGeneration m c script ;;
  recordFingerprint (gen_ID g) ;;
  restoreRuntimeOrDeny m c.

(** Without an expected generation the last committed one is reinstalled; its
    absence ([sql.ErrNoRows]) is returned. *)
Definition repair_expected (m : Manager) (c : Ctx) (expected : option Generation)
    (tables : list NftTable) (detail : string) : HM (Drift * option err) :=
  let d := mkDrift tables true false detail in
  or_return d (match expected with Some g => ret g | None => LastKnownGood end) (λ g,
  or_return d (reinstall m c g) (λ _,
    ignore (Audit "system" "drift_repaired" detail) ;;
    ret (mkDrift tables true true detail, None))).

Definition repair_drift (m : Manager) (c : Ctx) (pending expected : option Generation)
    (tables : list NftTable) (detail : string) : HM (Drift * option err) :=
  let d := mkDrift tables true false detail in
  ignore (Audit "system" "drift_detected" detail) ;;
  match pending with
  | Some p =>
      if has_status [Applied] p then
        or_return d (rollbackLocked m c (gen_ID p)) (λ _,
          ret (mkDrift tables true true
                 (sprintf "pending generation %d lost integrity and was rolled back" [ArgN (gen_ID p)]), None))
      else repair_expected m c expected tables detail
  | None => repair_expected m c expected tables detail
  end.

(** [Reconcile] under the lock. *)
Definition reconcile_locked (m : Manager) (repair : bool) (c : Ctx) : HM (Drift * option err) :=
  pending <- if_any Pending_ ;;
  if match pending with Some p => has_status [Pending] p | None => false end
  then
    let id := match pending with Some p => gen_ID p | None => 0 end in
    let detail := sprintf "generation %d was not fully applied before process exit" [ArgN id] in
    if repair
    then or_return (mkDrift [] true false detail) (rollbackLocked m c id)
           (λ _, ret (mkDrift [] true true detail, None))
    else ret (mkDrift [] true false detail, None)
  else
    observed <- ListOwned ;;
    or_return (drift observed None) (detect_tables observed) (λ tables,
    or_return (drift observed tables) (if_any ExpectedGeneration) (λ expected,
    or_return (drift observed tables) (detect_fingerprint expected tables) (λ detail,
      match detail with
      | None => ret (drift observed None, None)
      | Some text =>
          if repair then repair_drift m c pending expected observed text
          else ignore (Audit "system" "drift_detected" text) ;; ret (drift observed detail, None)
      end))).

Definition Reconcile (m : Manager) (c : Ctx) (repair : bool) : HM (Drift * option err) :=
  with_process_lock m c (reconcile_locked m repair).
End manager.
Arguments Manager : clear implicits.
