(* ===== verification/ClaimRuntime.v ===== *)
(** The claim side of the application runtime (internal/app/runtime.go): the stored
    claims become the members of the kernel's sets.  Every change of a claim is
    published under the mutation lock, and taken back when publishing fails. *)

From S2P Require Import Prelude GoStrings GoTime Netip GoPath Claims Feeds Ledger Config PolicyModel Snapshot Host Store ClaimStore.
From S2P Require Import NftScript Json NftJson Backend SetUpdates Manager.
From Stdlib Require Import Ascii String.
Local Open Scope string_scope.
Local Open Scope Z_scope.
Local Open Scope host_scope.
Abbreviation length := List.length.
Abbreviation Join := Prelude.Join.

(** ** Claims as set members *)

(** [unique]: the first of each repetition, in order. *)
Fixpoint unique_go (seen : gset string) (l : list string) : list string :=
  match l with
  | [] => []
  | v :: l' => if bool_decide (v ∈ seen) then unique_go seen l' else v :: unique_go ({[v]} ∪ seen) l'
  end.
Definition unique : list string → list string := unique_go ∅.

Definition is_threat_claim (c : Claim) : bool := has_prefix (cl_Source c) "threatfeed/".
Definition threatFeedClaimAddresses (claims : list Claim) : list string :=
  unique (map cl_Address (List.filter is_threat_claim claims)).

(** The rounding up wraps in 64 bits. *)
Definition timeout_seconds (remaining : Z) : Z := Z.quot (wrap64 (remaining + second - 1)) second.

(** The loop over the claims: the latest expiry of each address. *)
Fixpoint lease_table (family : string) (claims : list Claim) (table : gmap string time) : err + gmap string time :=
  match claims with
  | [] => inr table
  | c :: claims' =>
      if negb (String.eqb (cl_Family c) family) || negb (isAllowSource (cl_Source c)) then lease_table family claims' table
      else match cl_ExpiresAt c with
           | None => inl (Errorf "temporary access claim %d has no expiry" [ArgZ (cl_ID c)])
           | Some t =>
               let current := default zero_time (table !! cl_Address c) in
               lease_table family claims' (<[cl_Address c := if current <? t then t else current]> table)
           end
  end.
Definition lease_element (now : time) (kv : string * time) : option TimedElement :=
  let remaining := duration_sub kv.2 now in
  if remaining <=? 0 then None else Some (mkTimed kv.1 (timeout_seconds remaining)).
Definition effectiveTrusted (claims : list Claim) (family : string) (now : time) : err + list TimedElement :=
  match lease_table family claims ∅ with
  | inl e => inl e
  | inr table => inr (sort_timed (omap (lease_element now) (map_to_list table)))
  end.

Record runtimeClaimSets := mkClaimSets {
  blockedV4 : list string; blockedV6 : list string;
  trustedV4 : list TimedElement; trustedV6 : list TimedElement
}.
Definition set_count (s : runtimeClaimSets) (name : string) : Z :=
  Z.of_nat (if String.eqb name "blocked_v4" then length (blockedV4 s)
            else if String.eqb name "blocked_v6" then length (blockedV6 s)
            else if String.eqb name "trusted_v4" then length (trustedV4 s) else length (trustedV6 s)).
Definition claim_set_names : list string := ["blocked_v4"; "blocked_v6"; "trusted_v4"; "trusted_v6"].

Section claims.
Context (c : Config).
(** The order in which Go ranges over the keys of a map. *)
Context (range : gset string → list string).

Definition configuredThreatFeedProtectedPrefixes : list string :=
  unique ((Zones c ≫= zone_Networks) ++ (Interfaces c ≫= in_CIDRs) ++ BootstrapIPs (WireGuard c) ++ BootstrapIPsV6 (WireGuard c) ++
          map (λ a, prefix_String (PrefixFrom a (BitLen a)))
            (omap ParseAddr (BootstrapHosts (WireGuard c) ++ [EndpointHost (WireGuard c)])%list))%list.

(** The safety check of the stored threat-feed claims. *)
Definition check_threats (claims : list Claim) (bootstrapProtected : list string) : option err :=
  match threatFeedClaimAddresses claims with
  | [] => None
  | addresses =>
      match Feeds.Validate addresses (unique (configuredThreatFeedProtectedPrefixes ++ bootstrapProtected)%list) with
      | Some e => Some (Wrapf "stored threat-feed claims failed safety validation: %w" [] e)
      | None => None
      end
  end.
Definition sets_of (claims : list Claim) (now : time) : err + runtimeClaimSets :=
  match effectiveTrusted claims "ipv4" now with
  | inl e => inl e
  | inr v4 =>
      match effectiveTrusted claims "ipv6" now with
      | inl e => inl e
      | inr v6 => inr (mkClaimSets (EffectiveAddresses claims "ipv4") (EffectiveAddresses claims "ipv6") v4 v6)
      end
  end.
Definition claimSets (claims : list Claim) (now : time) (bootstrapProtected : list string) : err + runtimeClaimSets :=
  match check_threats claims bootstrapProtected with
  | Some e => inl e
  | None =>
      match sets_of claims now with
      | inl e => inl e
      | inr sets =>
          match List.find (λ n, MaxSetMembers (Runtime c) <? set_count sets n) (range (list_to_set claim_set_names)) with
          | Some n => inl (Errorf "runtime set %s exceeds runtime.max_set_members (%d)" [ArgS n; ArgZ (MaxSetMembers (Runtime c))])
          | None => inr sets
          end
      end
  end.
End claims.

(** ** The runtime *)

Section runtime.
Context {K : Type} `{Nft K}.
Context (range : gset string → list string).
Abbreviation HM := (M (Host K)).

(** The runtime's configuration and the services it is wired to: the endpoint resolver
    (an answer with an error, as [wireguard.Resolver.Resolve] gives it). *)
Record Runtime := mkRuntime_ {
  rt_Config : Config;
  rt_Resolve : option (string → HM (list string * option err))
}.
Context (r : Runtime).
Let c : Config := rt_Config r.

(** [acquireClaimPublicationLock] is the one mutation lock; the release is deferred. *)
Definition with_publication_lock {A} (body : HM A) : HM A :=
  sys_read EvLock (λ _, Ret tt) ;;
  finally body (sys_read EvUnlock (λ _, Ret tt)).
(** [publicationContext]: a caller inside this package that already holds the lock
    ([held] is its marker) keeps it. *)
Definition publicationContext {A} (held : bool) (x : Ctx) (body : Ctx → HM A) : HM A :=
  if held && ctx_locked x then body x else with_publication_lock (body (WithMutationLock x)).

(** *** Endpoints *)

(** What the loop of [bootstrapEndpoints] accumulates. *)
Record endpoints := mkEndpoints { ep_v4 : list string; ep_v6 : list string; ep_preferred : string; ep_last : option err }.
Definition add_endpoint (e : endpoints) (raw : string) : endpoints :=
  match ParseAddr raw with
  | None => e
  | Some a =>
      if Is4 a then mkEndpoints (ep_v4 e ++ [addr_String a +:+ "/32"])%list (ep_v6 e) (ep_preferred e) (ep_last e)
      else mkEndpoints (ep_v4 e) (ep_v6 e ++ [addr_String a +:+ "/128"])%list (ep_preferred e) (ep_last e)
  end.
Fixpoint resolve_hosts (resolve : string → HM (list string * option err)) (hosts : list string) (e : endpoints) : HM endpoints :=
  match hosts with
  | [] => ret e
  | host :: hosts' =>
      answer <- resolve host ;;
      let last := match snd answer with Some x => Some x | None => ep_last e end in
      let preferred := match fst answer with
                       | a :: _ => if String.eqb host (EndpointHost (WireGuard c)) then a else ep_preferred e
                       | [] => ep_preferred e
                       end in
      resolve_hosts resolve hosts' (foldl add_endpoint (mkEndpoints (ep_v4 e) (ep_v6 e) preferred last) (fst answer))
  end.
Definition bootstrapEndpoints : HM (list string * list string * string) :=
  let w := WireGuard c in
  let hosts := unique (BootstrapHosts w ++ if String.eqb (EndpointHost w) "" then [] else [EndpointHost w])%list in
  match hosts with
  | [] => ret (BootstrapIPs w, BootstrapIPsV6 w, "")
  | _ =>
      match rt_Resolve r with
      | None => throw (Errorf "WireGuard endpoint resolver is unavailable" [])
      | Some resolve =>
          e <- resolve_hosts resolve hosts (mkEndpoints (BootstrapIPs w) (BootstrapIPsV6 w) "" None) ;;
          let v4 := unique (ep_v4 e) in
          let v6 := unique (ep_v6 e) in
          let n := (length v4 + length v6)%nat in
          if (n =? 0)%nat then
            throw (match ep_last e with
                   | Some x => Wrapf "WireGuard endpoints could not be resolved and no fresh cached/static address exists: %w" [] x
                   | None => Errorf "WireGuard endpoints could not be resolved and no fresh cached/static address exists: %w" []
                   end)
          else if (64 <? n)%nat then throw (Errorf "WireGuard endpoint set exceeds 64 addresses" [])
          else ret (v4, v6, ep_preferred e)
      end
  end.
Definition threatFeedProtectedPrefixes : HM (list string) :=
  e <- bootstrapEndpoints ;;
  ret (unique (configuredThreatFeedProtectedPrefixes c ++ e.1.1 ++ e.1.2)%list).

(** *** Publication *)

Definition filter_key : string := "inet/" +:+ FilterTable.
Definition refreshClaimSetsLocked (x : Ctx) : HM bool :=
  now <- read_clock ;;
  PurgeExpiredClaims now ;;
  revision <- wrapped "prepare runtime claim publication: %w" PrepareClaimPublication ;;
  now <- read_clock ;;
  found <- ClaimsWithPublication now ;;
  require (DesiredRevision found.2 =? revision)%N (Errorf "runtime claims changed before publication" []) ;;
  protected <- (match threatFeedClaimAddresses found.1 with
                | [] => ret []
                | _ => wrapped "resolve threat-feed protected prefixes: %w" threatFeedProtectedPrefixes
                end) ;;
  now <- read_clock ;;
  match claimSets c range found.1 now protected with
  | inl e => throw e
  | inr sets =>
      existing <- ExistingOwned ;;
      if negb (bool_decide (filter_key ∈ existing)) then ret false
      else
        ReplaceClaimSets x (blockedV4 sets) (blockedV6 sets) (trustedV4 sets) (trustedV6 sets) ;;
        wrapped "record runtime claim publication: %w" (MarkClaimsPublished revision (Z.of_nat (length found.1))) ;;
        ret true
  end.
Definition RefreshClaimSets (held : bool) (x : Ctx) : HM bool := publicationContext held x refreshClaimSetsLocked.

Definition compensation : string := "uid:0-compensation".
(** The claim is added by [add]; the compensation removes it and publishes again. *)
Definition addClaimAndPublishLocked (x : Ctx) (kind : string) (add : HM Z) : HM Z :=
  id <- add ;;
  catch (refreshClaimSetsLocked x ;; ret id)
    (λ publishErr,
       let recovery := WithMutationLock x in
       catch (if String.eqb kind "allow" then RemoveAllow id compensation else RemoveBlock id compensation)
         (λ compensateErr,
            throw (Join (Wrapf "claim %d publication failed and the durable add could not be reverted: %w" [ArgZ id] publishErr) compensateErr)) ;;
       catch (refreshClaimSetsLocked recovery ;; ret tt)
         (λ restoreErr,
            throw (Join (Join (Errorf "claim %d publication failed; durable add was reverted" [ArgZ id]) publishErr)
                     (Wrapf "restore prior runtime sets: %w" [] restoreErr))) ;;
       throw (Wrapf "claim %d publication failed and was reverted: %w" [ArgZ id] publishErr)).

Definition operatorClaimLocked (id : Z) (kind : string) : HM Claim :=
  now <- read_clock ;;
  claims <- Claims now ;;
  match List.find (λ k, cl_ID k =? id) claims with
  | None => throw ErrNoRows
  | Some k =>
      require (negb (String.eqb kind "allow" && negb (isAllowSource (cl_Source k)) ||
                     String.eqb kind "block" && negb (String.eqb (cl_Source k) "manual")))
        (Errorf "claim %d cannot be removed as %s" [ArgZ id; ArgS kind]) ;;
      ret k
  end.
Definition removeClaimAndPublishLocked (x : Ctx) (id : Z) (kind : string) : HM unit :=
  claim <- operatorClaimLocked id kind ;;
  (if String.eqb kind "allow" then RemoveAllow id "uid:0" else RemoveBlock id "uid:0") ;;
  catch (refreshClaimSetsLocked x ;; ret tt)
    (λ publishErr,
       let recovery := WithMutationLock x in
       catch (RestoreClaim claim compensation)
         (λ restoreErr,
            throw (Join (Wrapf "claim %d removal publication failed and the durable claim could not be restored: %w" [ArgZ id] publishErr) restoreErr)) ;;
       catch (refreshClaimSetsLocked recovery ;; ret tt)
         (λ restoreErr,
            throw (Join (Join (Errorf "claim %d removal publication failed; durable claim was restored" [ArgZ id]) publishErr)
                     (Wrapf "restore prior runtime sets: %w" [] restoreErr))) ;;
       throw (Wrapf "claim %d removal publication failed and was reverted: %w" [ArgZ id] publishErr)).

Definition max_expiry : Z := 365 * 24 * 60 * 60.
Definition claimExpiry (seconds : Z) : HM (option time) :=
  if (seconds <? 0) || (max_expiry <? seconds) then throw (Errorf "claim expiry must be between zero and one year" [])
  else if seconds =? 0 then ret None
  else now <- read_clock ;; ret (Some (now + seconds * second)).

(** *** Control requests about claims *)

Inductive claim_request :=
  | BlockAdd (address source reason : string) (seconds : Z)
  | AllowAdd (address reason : string) (seconds : Z)
  | BlockRemove (id : Z)
  | AllowRemove (id : Z).
Definition Control (x : Ctx) (q : claim_request) : HM (option Z) :=
  let max := MaxBlockClaims (Config.Runtime c) in
  let locked := WithMutationLock x in
  match q with
  | BlockAdd address source reason seconds =>
      expires <- claimExpiry seconds ;;
      with_publication_lock
        (id <- addClaimAndPublishLocked locked "block" (Add max address source reason "uid:0" expires) ;; ret (Some id))
  | AllowAdd address reason seconds =>
      match TrustedServices (Config.Runtime c) with
      | [] => throw (Errorf "temporary access is disabled because runtime.trusted_services is empty" [])
      | _ =>
          require (0 <? seconds) (Errorf "temporary access requires a positive expiry" []) ;;
          expires <- claimExpiry seconds ;;
          with_publication_lock
            (id <- addClaimAndPublishLocked locked "allow" (AddAllow max address reason "uid:0" expires) ;; ret (Some id))
      end
  | BlockRemove id => with_publication_lock (removeClaimAndPublishLocked locked id "block" ;; ret None)
  | AllowRemove id => with_publication_lock (removeClaimAndPublishLocked locked id "allow" ;; ret None)
  end.

(** *** Integrations *)

Record integrationRefreshCandidate := mkCandidate {
  cd_name : string; cd_displayName : string; cd_kind : string; cd_reason : string;
  cd_addresses : list string; cd_protected : list string; cd_refreshSeconds : Z; cd_err : option err
}.
Record refreshedIntegration := mkRefreshed { ri_name : string; ri_reason : string; ri_count : Z; ri_prior : list string }.

(** The due time compares a [Duration] of whole seconds; a refresh interval of 0 is an hour. *)
Definition integrationDue (name : string) (refreshSeconds : Z) : HM bool :=
  let seconds := if refreshSeconds =? 0 then 3600 else refreshSeconds in
  state <- try_ (IntegrationState_ name) ;;
  match state with
  | inl _ => ret true
  | inr s => now <- read_clock ;; ret (seconds * second <=? duration_sub now (st_UpdatedAt s))
  end.
Definition sourceClaimAddresses (source : string) : HM (list string) :=
  now <- read_clock ;;
  claims <- Claims now ;;
  ret (unique (map cl_Address (List.filter (λ k, String.eqb (cl_Source k) source) claims))).
Definition validateThreatFeedReplacement (source : string) (candidate protected : list string) : HM unit :=
  now <- read_clock ;;
  claims <- Claims now ;;
  throw_if (Feeds.Validate (unique (candidate ++
    map cl_Address (List.filter (λ k, negb (String.eqb (cl_Source k) source) && is_threat_claim k) claims))%list) protected).

(** What is fetched: the threat feeds over HTTPS and the country lists from files. *)
Context (fetch : string → Z → Z → HM (list string)) (read_list : string → HM string).

Definition or_default (n d : Z) : Z := if n =? 0 then d else n.
Definition enough (minimum : Z) (addresses : list string) : option err :=
  if Z.of_nat (length addresses) <? minimum
  then Some (Errorf "entry sanity threshold not met: got %d, require %d" [ArgZ (Z.of_nat (length addresses)); ArgZ minimum])
  else None.
Definition fetched (m : HM (list string)) (minimum : Z) : HM (list string * option err) :=
  answer <- try_ m ;;
  ret (match answer with inl e => ([], Some e) | inr l => (l, enough minimum l) end).
Definition feed_candidate (protected : err + list string) (f : ThreatFeedConfig) : HM integrationRefreshCandidate :=
  let candidate l keep e :=
    mkCandidate ("threatfeed/" +:+ tf_Name f) (tf_Name f) "threatfeed" "threat intelligence" l keep (tf_RefreshSeconds f) e in
  match protected with
  | inl e => ret (candidate [] [] (Some (Wrapf "resolve protected prefixes: %w" [] e)))
  | inr keep =>
      got <- fetched (fetch (tf_URL f) (or_default (tf_MaxEntries f) 10000) (or_default (tf_MaxBytes f) (8 * 2 ^ 20)))
               (or_default (tf_MinEntries f) 1) ;;
      ret (candidate (fst got) keep (snd got))
  end.
(** The protected prefixes are resolved for the first feed that is due. *)
Fixpoint feed_candidates (protected : option (err + list string)) (feeds : list ThreatFeedConfig) : HM (list integrationRefreshCandidate) :=
  match feeds with
  | [] => ret []
  | f :: feeds' =>
      due <- integrationDue ("threatfeed/" +:+ tf_Name f) (tf_RefreshSeconds f) ;;
      if (due : bool) then
        keep <- (match protected with Some p => ret p | None => try_ threatFeedProtectedPrefixes end) ;;
        candidate <- feed_candidate keep f ;;
        rest <- feed_candidates (Some keep) feeds' ;;
        ret (candidate :: rest)
      else feed_candidates protected feeds'
  end.
Definition geo_candidate (g : GeoSetConfig) : HM integrationRefreshCandidate :=
  got <- fetched (text <- read_list (geo_CIDRFile g) ;;
                  lift_check (LoadCIDRs text (or_default (geo_MaxEntries g) 100000)))
           (or_default (geo_MinEntries g) 1) ;;
  ret (mkCandidate ("geo/" +:+ geo_Name g) (geo_Name g) "geo" ("GeoIP " +:+ geo_Country g) (fst got) [] (geo_RefreshSeconds g) (snd got)).
Fixpoint geo_candidates (sets : list GeoSetConfig) : HM (list integrationRefreshCandidate) :=
  match sets with
  | [] => ret []
  | g :: sets' =>
      due <- integrationDue ("geo/" +:+ geo_Name g) (geo_RefreshSeconds g) ;;
      if (due : bool) then candidate <- geo_candidate g ;; rest <- geo_candidates sets' ;; ret (candidate :: rest)
      else geo_candidates sets'
  end.
Definition prepareIntegrationRefreshes : HM (list integrationRefreshCandidate) :=
  feeds <- (if ThreatFeed (Integrations c) then feed_candidates None (ThreatFeeds c) else ret []) ;;
  sets <- (if GeoIP (Integrations c) then geo_candidates (GeoSets c) else ret []) ;;
  ret (feeds ++ sets)%list.

(** [err := m] whose error joins the failures. *)
Definition noting (m : HM unit) (fmt : string) (args : list arg) : HM (list err) :=
  done_ <- try_ m ;;
  ret (match done_ with inl e => [Wrapf fmt args e] | inr _ => [] end).
Definition degrade (name : string) (count : Z) : HM (list err) :=
  noting (SetIntegrationState name "degraded" count false) "%s: record degraded integration state: %w" [ArgS name].
Definition old_count (name : string) : HM Z :=
  n <- try_ (SourceClaimCount name) ;; ret (match n with inl _ => 0 | inr n => n end).
Definition fail_candidate (d : integrationRefreshCandidate) (e : err) : HM (list refreshedIntegration * list err) :=
  count <- old_count (cd_name d) ;;
  more <- degrade (cd_name d) count ;;
  ret ([], e :: more).
(** The body of the loop of [refreshIntegrationsLocked]. *)
Definition refresh_candidate (d : integrationRefreshCandidate) : HM (list refreshedIntegration * list err) :=
  due <- integrationDue (cd_name d) (cd_refreshSeconds d) ;;
  if negb due then ret ([], [])
  else
    checked <- (match cd_err d with
                | Some e => ret (Some e)
                | None =>
                    if String.eqb (cd_kind d) "threatfeed" then
                      v <- try_ (validateThreatFeedReplacement (cd_name d) (cd_addresses d) (cd_protected d)) ;;
                      ret (match v with inl e => Some e | inr _ => None end)
                    else ret None
                end) ;;
    match checked with
    | Some e =>
        count <- old_count (cd_name d) ;;
        Manager.ignore (Audit "integration" (if String.eqb (cd_kind d) "threatfeed" then "threat_feed_failed" else "geoip_refresh_failed")
                  (sprintf "name=%s" [ArgS (cd_displayName d)])) ;;
        more <- degrade (cd_name d) count ;;
        ret ([], Wrapf "%s: %w" [ArgS (cd_name d)] e :: more)
    | None =>
        prior <- try_ (sourceClaimAddresses (cd_name d)) ;;
        match prior with
        | inl e => fail_candidate d (Wrapf "%s: snapshot prior claims: %w" [ArgS (cd_name d)] e)
        | inr prior =>
            replaced <- try_ (ReplaceSourceClaimsBounded (cd_name d) (cd_reason d) "integration" (cd_addresses d) (MaxBlockClaims (Config.Runtime c))) ;;
            match replaced with
            | inl e => fail_candidate d (Wrapf "%s: %w" [ArgS (cd_name d)] e)
            | inr count => ret ([mkRefreshed (cd_name d) (cd_reason d) count prior], [])
            end
        end
    end.
Fixpoint gather {A B} (f : A → HM (list B * list err)) (l : list A) : HM (list B * list err) :=
  match l with
  | [] => ret ([], [])
  | a :: l' => x <- f a ;; y <- gather f l' ;; ret ((fst x ++ fst y)%list, (snd x ++ snd y)%list)
  end.

(** Shrinking sources first, ties in their order. *)
Definition shrinking (a b : refreshedIntegration) : bool :=
  Z.of_nat (length (ri_prior a)) - ri_count a <=? Z.of_nat (length (ri_prior b)) - ri_count b.
Definition restore_source (i : refreshedIntegration) : HM (list unit * list err) :=
  e <- noting (ReplaceSourceClaimsBounded (ri_name i) (ri_reason i) "integration-rollback" (ri_prior i) (MaxBlockClaims (Config.Runtime c)) ;; ret tt)
         "%s: %w" [ArgS (ri_name i)] ;;
  ret ([], e).
Definition join_errors (l : list err) : option err :=
  match l with [] => None | e :: l' => Some (foldl Join e l') end.
Definition restoreIntegrationClaims (refreshed : list refreshedIntegration) : HM (option err) :=
  r <- gather restore_source (sort_by shrinking refreshed) ;; ret (join_errors (snd r)).

Definition degrade_refreshed (rolled_back : bool) (i : refreshedIntegration) : HM (list unit * list err) :=
  count <- (if rolled_back then ret (Z.of_nat (length (ri_prior i))) else old_count (ri_name i)) ;;
  e <- degrade (ri_name i) count ;; ret ([], e).
Definition record_healthy (i : refreshedIntegration) : HM (list unit * list err) :=
  e <- noting (SetIntegrationState (ri_name i) "healthy" (ri_count i) true) "%s: record healthy integration state: %w" [ArgS (ri_name i)] ;;
  ret ([], e).
(** Publishing failed: the sources get their prior claims back, and the sets are
    published once more. *)
Definition take_back (x : Ctx) (refreshed : list refreshedIntegration) : HM (list err) :=
  let recovery := WithMutationLock x in
  rolled <- restoreIntegrationClaims refreshed ;;
  live <- try_ (refreshClaimSetsLocked recovery) ;;
  let rollbackErr := join_errors (match rolled with Some e => [e] | None => [] end ++
    match live with inl e => [Wrapf "restore current durable claim sets: %w" [] e] | inr _ => [] end)%list in
  states <- gather (degrade_refreshed (match rollbackErr with None => true | Some _ => false end)) refreshed ;;
  match rollbackErr with
  | Some e => ret (snd states ++ [Wrapf "roll back integration claims: %w" [] e])%list
  | None =>
      Manager.ignore (Audit "integration" "integration_refresh_rolled_back" (sprintf "sources=%d" [ArgZ (Z.of_nat (length refreshed))])) ;;
      ret (snd states)
  end.
Definition refreshIntegrationsLocked (x : Ctx) (candidates : list integrationRefreshCandidate) : HM unit :=
  stored <- gather refresh_candidate candidates ;;
  let refreshed := fst stored in
  more <- (match refreshed with
           | [] => ret []
           | _ =>
               published <- try_ (refreshClaimSetsLocked x) ;;
               match published with
               | inl e => errors <- take_back x refreshed ;; ret (Wrapf "publish refreshed integration claims: %w" [] e :: errors)
               | inr _ => r <- gather record_healthy refreshed ;; ret (snd r)
               end
           end) ;;
  throw_if (join_errors (snd stored ++ more)%list).
Definition RefreshIntegrations (held : bool) (x : Ctx) : HM unit :=
  candidates <- prepareIntegrationRefreshes ;;
  publicationContext held x (λ x, refreshIntegrationsLocked x candidates).
End runtime.
