(* ===== verification/Compiler.v ===== *)
(** The policy compiler (internal/compiler/compiler.go): a validated configuration and
    the observed runtime addresses become the nft script of a generation.  Every emit
    function is the list of the lines it writes, in order. *)

From S2P Require Import Prelude GoStrings Netip GoPath Sha256 Ledger Config PolicyModel NftScript ScriptText Manager.
From Stdlib Require Import Ascii String.
Local Open Scope string_scope.
Local Open Scope Z_scope.
Local Open Scope check_scope.
Abbreviation length := List.length.
Abbreviation Assignment := Ledger.Assignment.

Record Input := mkInput {
  in_Policy : Effective;
  BlockedV4 : list string; BlockedV6 : list string;
  BootstrapV4 : list string; BootstrapV6 : list string;
  DockerNets : list string; DockerNets6 : list string
}.

(** ** Text *)

Definition dq : string := String dquote EmptyString.
Definition newline : string := String lf EmptyString.
(** A literal that the source writes between escaped quotes. *)
Definition quoted (s : string) : string := dq +:+ s +:+ dq.

(** [%08x] *)
Definition hex8 (n : N) : string :=
  of_chars (map (λ k, Netip.hex_digit (N.shiftr n (4 * k) mod 16)%N) [7; 6; 5; 4; 3; 2; 1; 0]%N).
Definition mark_mask : string := "0x" +:+ hex8 Mask.
Definition mark_keep : string := "0x" +:+ hex8 KeepMask.
(** [uint32(id) << 24] *)
Definition encoded (i : Interface) : string := "0x" +:+ hex8 (N.shiftl (in_ProvenanceID i) 24).

(** ** Order *)

Definition sortedInterfaces : list Interface → list Interface := sort_by (λ a b, str_leb (in_Name a) (in_Name b)).
(** [uniqueStrings]: sorted, adjacent repetitions dropped. *)
Fixpoint squeeze (l : list string) : list string :=
  match l with
  | [] => []
  | a :: l' => match squeeze l' with
               | b :: r => if String.eqb a b then b :: r else a :: b :: r
               | [] => [a]
               end
  end.
Definition uniqueStrings (l : list string) : list string := squeeze (sort_strings l).

(** ** Container bindings *)

Record containerBinding := mkBinding { cb_Interface : string; cb_Prefix : string; cb_Family : string }.
Definition binding_leb (a b : containerBinding) : bool :=
  if negb (String.eqb (cb_Interface a) (cb_Interface b)) then str_leb (cb_Interface a) (cb_Interface b)
  else if negb (String.eqb (cb_Family a) (cb_Family b)) then str_leb (cb_Family a) (cb_Family b)
  else str_leb (cb_Prefix a) (cb_Prefix b).
Definition bindings_of (i : Interface) : list containerBinding :=
  omap (λ raw,
    p ← ParsePrefix raw;
    Some (mkBinding (in_Name i) (prefix_String (Masked p)) (if Is4 (pfx_addr p) then "ip" else "ip6"))) (in_CIDRs i).
Definition containerBindings (c : Config) : list containerBinding :=
  sort_by binding_leb (List.filter (role_is "container") (Interfaces c) ≫= bindings_of).

(** The first interface of a role, quoted. *)
Definition quote_role (l : list Interface) (role : string) : string :=
  match List.find (role_is role) l with Some i => quote (in_Name i) | None => quote "" end.

(** ** Sets and provenance rules *)

Definition emitSet (name typ : string) (elems : list string) (timeout : bool) : list string :=
  [cat ["    set "; name; " {"];
   cat ["        type "; typ; "; flags "; if timeout then "interval, timeout" else "interval";
        "; comment "; quoted ("nftfw-owned:" +:+ name)]] ++
  (match elems with
   | [] => []
   | _ => [cat ["        elements = { "; join ", " (sort_strings elems); " }"]]
   end) ++
  ["    }"].

Definition tag_line (direction chain : string) (i : Interface) : string :=
  cat ["        "; direction; " "; quote (in_Name i); " ct direction original ct mark & "; mark_mask;
       " == 0x00000000 ct mark set (ct mark & "; mark_keep; ") | "; encoded i; " counter comment ";
       quote (cat ["nftfw:provenance-tag-"; chain; ":"; in_Name i])].
Definition emitProvenanceTags (interfaces : list Interface) (chain : string) : list string :=
  map (tag_line "iifname" chain) (sortedInterfaces interfaces).
Definition emitOutputProvenanceTags (interfaces : list Interface) : list string :=
  map (tag_line "oifname" "output") (sortedInterfaces interfaces).

Definition reply_line (direction comment : string) (i : Interface) : string :=
  cat ["        "; direction; " "; quote (in_Name i); " ct mark & "; mark_mask; " == "; encoded i;
       " ct direction reply ct state established,related accept comment "; quote comment].
Definition emitProvenanceReplies (interfaces : list Interface) (chain : string) : list string :=
  map (λ i, reply_line "oifname" (cat ["nftfw:provenance-reply-"; chain; ":"; in_Name i]) i) (sortedInterfaces interfaces).
Definition emitInputReplies (interfaces : list Interface) : list string :=
  map (reply_line "iifname" "nftfw:input-reply-only") (sortedInterfaces interfaces).

(** ** Container rules *)

Definition is_ip (b : containerBinding) : bool := String.eqb (cb_Family b) "ip".
Definition emitContainerPathErrors (c : Config) : list string :=
  map (λ b,
    if is_ip b then
      cat ["        oifname "; quote (cb_Interface b); " ip daddr "; cb_Prefix b;
           " meta l4proto icmp icmp type { destination-unreachable, time-exceeded, parameter-problem } accept comment ";
           quote ("nftfw:container-path-errors-v4:" +:+ cb_Interface b)]
    else
      cat ["        oifname "; quote (cb_Interface b); " ip6 daddr "; cb_Prefix b;
           " meta l4proto ipv6-icmp icmpv6 type { destination-unreachable, packet-too-big, time-exceeded, parameter-problem } accept comment ";
           quote ("nftfw:container-path-errors-v6:" +:+ cb_Interface b)]) (containerBindings c).

Definition familySuffix (b : containerBinding) : string := if String.eqb (cb_Family b) "ip6" then "v6" else "v4".
Definition emitContainerForwardGuards (c : Config) : list string :=
  let vpn := quote (wg_Interface (WireGuard c)) in
  let uplink := quote_role (Interfaces c) "uplink" in
  let mss := pretty (TCPMSS (WireGuard c)) in
  containerBindings c ≫= λ b,
    [cat ["        iifname "; quote (cb_Interface b); " "; cb_Family b; " saddr "; cb_Prefix b; " oifname "; vpn;
          " tcp flags syn tcp option maxseg size set "; mss; " comment ";
          quote (cat ["nftfw:container-vpn-mss-out-"; familySuffix b; ":"; cb_Interface b])];
     cat ["        iifname "; vpn; " oifname "; quote (cb_Interface b); " "; cb_Family b; " daddr "; cb_Prefix b;
          " tcp flags syn tcp option maxseg size set "; mss; " comment ";
          quote (cat ["nftfw:container-vpn-mss-in-"; familySuffix b; ":"; cb_Interface b])];
     cat ["        iifname "; quote (cb_Interface b); " "; cb_Family b; " saddr "; cb_Prefix b; " oifname "; uplink;
          " drop comment "; quote (cat ["nftfw:container-physical-deny-"; familySuffix b; ":"; cb_Interface b])]].
Definition emitContainerVPNMarkers (c : Config) : list string :=
  map (λ b,
    cat ["        iifname "; quote (cb_Interface b); " "; cb_Family b; " saddr "; cb_Prefix b; " oifname ";
         quote (wg_Interface (WireGuard c)); " counter comment ";
         quote (cat ["nftfw:container-vpn-egress-"; familySuffix b; ":"; cb_Interface b])]) (containerBindings c).

(** ** Policies *)

Record zoneSelector := mkSelector { Expression : string; sel_Family : string; RequiresVPN : bool }.

Definition familyExpr (prefix : string) : string := if contains_any prefix ":" then "ip6" else "ip".
Definition addressMatch (prefix direction : string) : string := cat [familyExpr prefix; " "; direction; " "; prefix].
Definition destinationRequiresVPN (raw : string) : bool :=
  match ParsePrefix raw with
  | None => true
  | Some p => negb (IsPrivate (pfx_addr p)) && negb (IsLinkLocalUnicast (pfx_addr p)) && negb (IsLoopback (pfx_addr p))
  end.

(** The interfaces of a zone, by either declaration. *)
Definition zone_members (e : Effective) (name : string) (z : Zone) : list string :=
  uniqueStrings (zone_Interfaces z ++ map in_Name (List.filter (λ i, String.eqb (in_Zone i) name) (Interfaces (eff_Config e)))).
Definition network_selector (addressDirection network : string) : zoneSelector :=
  mkSelector (addressMatch network addressDirection) (familyExpr network) (destinationRequiresVPN network).
Definition both_families (pre : string) : list zoneSelector :=
  [mkSelector (pre +:+ "meta nfproto ipv4") "ip" false; mkSelector (pre +:+ "meta nfproto ipv6") "ip6" false].

Definition zoneSelectors (name : string) (destination : bool) (e : Effective) : list zoneSelector :=
  if String.eqb name "host" then []
  else if String.eqb name "any" then both_families ""
  else
    let addressDirection := if destination then "daddr" else "saddr" in
    let interfaceDirection := if destination then "oifname" else "iifname" in
    match eff_Zones e !! name with
    | None => []
    | Some z =>
        let networks := map (network_selector addressDirection) (zone_Networks z) in
        let interfaces := zone_members e name z in
        match networks, interfaces with
        | _ :: _, _ :: _ =>
            networks ≫= λ s, map (λ i,
              mkSelector (cat [interfaceDirection; " "; quote i; " "; Expression s]) (sel_Family s) (RequiresVPN s)) interfaces
        | _ :: _, [] => networks
        | [], _ => interfaces ≫= λ i, both_families (cat [interfaceDirection; " "; quote i; " "])
        end
    end.

Definition port_list (ports : list Z) : string := cat ["{ "; join ", " (map pretty ports); " }"].
Definition serviceExpr (s : Service) (family : string) : string :=
  if String.eqb (svc_Protocol s) "any" then ""
  else if String.eqb (svc_Protocol s) "icmp" then
    if String.eqb family "ip6" then "meta l4proto ipv6-icmp" else "meta l4proto icmp"
  else cat [svc_Protocol s; " dport "; port_list (sort_by Z.leb (svc_Ports s))].

Definition trustedPorts (e : Effective) (protocol : string) : list string :=
  map pretty (sort_by Z.leb (remove_dups
    (TrustedServices (Runtime (eff_Config e)) ≫= λ name,
       match eff_Svcs e !! name with
       | Some s => if String.eqb (svc_Protocol s) protocol then svc_Ports s else []
       | None => []
       end))).

Definition policyAppliesToChain (p : Policy) (chain : string) : bool :=
  if String.eqb chain "input" then String.eqb (pol_To p) "host" && negb (String.eqb (pol_From p) "host")
  else if String.eqb chain "output" then is_one_of (pol_From p) ["host"; "any"] && negb (String.eqb (pol_To p) "host")
  else if String.eqb chain "forward" then negb (String.eqb (pol_From p) "host") && negb (String.eqb (pol_To p) "host")
  else false.

Definition to_vpn (e : Effective) : string := cat ["oifname "; quote (wg_Interface (WireGuard (eff_Config e))); " "].
Definition policy_tail (p : Policy) (svc : Service) (family : string) : string :=
  cat [serviceExpr svc family; " "; if String.eqb (pol_Action p) "allow" then "accept" else "drop"; " comment ";
       quote ("nftfw-policy:" +:+ pol_Name p)].
Definition output_rule (e : Effective) (p : Policy) (svc : Service) (dst : zoneSelector) : string :=
  cat ["        "; Expression dst; " "; if String.eqb (pol_To p) "any" || RequiresVPN dst then to_vpn e else "";
       policy_tail p svc (sel_Family dst)].
Definition pair_rule (e : Effective) (p : Policy) (svc : Service) (chain : string) (src dst : zoneSelector) : string :=
  cat ["        "; Expression src; " ";
       if String.eqb chain "input" then ""
       else cat [if String.eqb (Expression dst) "" then "" else Expression dst +:+ " ";
                 if String.eqb (pol_To p) "any" then to_vpn e else ""];
       policy_tail p svc (sel_Family src)].
Definition emitPolicyRules (p : Policy) (svc : Service) (e : Effective) (chain : string) : list string :=
  if String.eqb chain "output" then map (output_rule e p svc) (zoneSelectors (pol_To p) true e)
  else
    let dests := if String.eqb chain "input" && String.eqb (pol_To p) "host" then [mkSelector "" "" false]
                 else zoneSelectors (pol_To p) true e in
    zoneSelectors (pol_From p) false e ≫= λ src,
      map (pair_rule e p svc chain src)
        (List.filter (λ dst, String.eqb (sel_Family dst) "" || String.eqb (sel_Family src) (sel_Family dst)) dests).
Definition emitPolicies (e : Effective) (chain action : string) : list string :=
  List.filter (λ p, String.eqb (pol_Action p) action && policyAppliesToChain p chain) (SortedPolicies e) ≫= λ p,
    match eff_Svcs e !! pol_Service p with Some svc => emitPolicyRules p svc e chain | None => [] end.

(** ** The tables *)

Definition neighbor_discovery : string :=
  cat ["        ip6 hoplimit 255 meta l4proto ipv6-icmp icmpv6 type { nd-neighbor-solicit, nd-neighbor-advert, nd-router-solicit, nd-router-advert } accept comment ";
       quoted "nftfw:ipv6-neighbor-discovery"].
Definition ipv6_enabled (c : Config) : bool := negb (String.eqb (IPv6Mode (System c)) "disabled").
Definition commented (rule comment : string) : string := cat ["        "; rule; " comment "; quoted comment].
Definition trusted_lines (e : Effective) (protocol : string) : list string :=
  match trustedPorts e protocol with
  | [] => []
  | ports =>
      let dport := cat [" "; protocol; " dport { "; join ", " ports; " } accept"] in
      [commented ("ip saddr @trusted_v4" +:+ dport) ("nftfw:trusted-services-v4-" +:+ protocol);
       commented ("ip6 saddr @trusted_v6" +:+ dport) ("nftfw:trusted-services-v6-" +:+ protocol)]
  end.

Definition input_chain (e : Effective) : list string :=
  let c := eff_Config e in
  ["    chain input {"; "        type filter hook input priority filter; policy drop;";
   commented "ct state invalid drop" "nftfw:invalid";
   cat ["        iifname "; quoted "lo"; " accept comment "; quoted "nftfw:loopback"]] ++
  emitProvenanceTags (Interfaces c) "input" ++
  (if ipv6_enabled c then [neighbor_discovery] else []) ++
  trusted_lines e "tcp" ++ trusted_lines e "udp" ++
  emitPolicies e "input" "deny" ++
  emitInputReplies (Interfaces c) ++
  [commented "ip saddr @blocked_v4 drop" "nftfw:block-v4"; commented "ip6 saddr @blocked_v6 drop" "nftfw:block-v6"] ++
  emitPolicies e "input" "allow" ++
  [commented "counter drop" "nftfw:input-default-deny"; "    }"].

Definition bootstrap_line (c : Config) (family set comment : string) : string :=
  commented (cat ["oifname "; quote_role (Interfaces c) "uplink"; " meta mark "; Fwmark (WireGuard c); " "; family;
                  " daddr @"; set; " udp dport "; pretty (EndpointPort (WireGuard c)); " accept"]) comment.
Definition output_chain (e : Effective) : list string :=
  let c := eff_Config e in
  let uplink := quote_role (Interfaces c) "uplink" in
  ["    chain output {"; "        type filter hook output priority filter; policy drop;";
   commented "ct state invalid drop" "nftfw:invalid"] ++
  emitOutputProvenanceTags (Interfaces c) ++
  [cat ["        oifname "; quoted "lo"; " accept comment "; quoted "nftfw:loopback"]] ++
  emitProvenanceReplies (Interfaces c) "output" ++
  emitContainerPathErrors c ++
  (if ipv6_enabled c then
     [neighbor_discovery;
      commented (cat ["oifname "; uplink; " udp sport 546 udp dport 547 accept"]) "nftfw:dhcpv6-bootstrap"]
   else []) ++
  [commented (cat ["oifname "; uplink; " udp sport 68 udp dport 67 accept"]) "nftfw:dhcp-bootstrap"] ++
  (if 0 <? EndpointPort (WireGuard c) then
     [bootstrap_line c "ip" "wg_bootstrap_v4" "nftfw:wg-bootstrap-v4";
      bootstrap_line c "ip6" "wg_bootstrap_v6" "nftfw:wg-bootstrap-v6"]
   else []) ++
  [commented "ip daddr @blocked_v4 drop" "nftfw:block-v4"; commented "ip6 daddr @blocked_v6 drop" "nftfw:block-v6";
   commented (cat ["oifname "; quote (wg_Interface (WireGuard c)); " counter"]) "nftfw:vpn-only-egress"] ++
  emitPolicies e "output" "deny" ++
  emitPolicies e "output" "allow" ++
  [commented "counter drop" "nftfw:output-default-deny"; "    }"].

Definition forward_chain (e : Effective) : list string :=
  let c := eff_Config e in
  ["    chain forward {"; "        type filter hook forward priority filter; policy drop;";
   commented "ct state invalid drop" "nftfw:invalid"] ++
  emitProvenanceTags (Interfaces c) "forward" ++
  emitProvenanceReplies (Interfaces c) "forward" ++
  [commented "ip saddr @blocked_v4 drop" "nftfw:block-forward-source-v4";
   commented "ip daddr @blocked_v4 drop" "nftfw:block-forward-destination-v4";
   commented "ip6 saddr @blocked_v6 drop" "nftfw:block-forward-source-v6";
   commented "ip6 daddr @blocked_v6 drop" "nftfw:block-forward-destination-v6"] ++
  emitContainerForwardGuards c ++
  [commented (cat ["oifname "; quote_role (Interfaces c) "uplink"; " drop"]) "nftfw:forward-physical-deny"] ++
  emitPolicies e "forward" "deny" ++
  emitContainerVPNMarkers c ++
  emitPolicies e "forward" "allow" ++
  [commented "counter drop" "nftfw:forward-default-deny"; "    }"].

Definition emitFilter (i : Input) : list string :=
  [cat ["table inet "; FilterTable; " {"]] ++
  emitSet "blocked_v4" "ipv4_addr" (BlockedV4 i) false ++ emitSet "blocked_v6" "ipv6_addr" (BlockedV6 i) false ++
  emitSet "trusted_v4" "ipv4_addr" [] true ++ emitSet "trusted_v6" "ipv6_addr" [] true ++
  emitSet "wg_bootstrap_v4" "ipv4_addr" (BootstrapV4 i) false ++ emitSet "wg_bootstrap_v6" "ipv6_addr" (BootstrapV6 i) false ++
  emitSet "docker_nets" "ipv4_addr" (DockerNets i) false ++ emitSet "docker_nets6" "ipv6_addr" (DockerNets6 i) false ++
  input_chain (in_Policy i) ++ output_chain (in_Policy i) ++ forward_chain (in_Policy i) ++ ["}"].

(** *** NAT *)

Definition natSources (name : string) (e : Effective) : list string :=
  if String.eqb name "any" then [""]
  else match map Expression (List.filter (λ s, String.eqb (sel_Family s) "ip") (zoneSelectors name false e)) with
       | [] => [""]
       | sources => sort_strings sources
       end.
Definition nat_line (r : NATRule) (source : string) : string :=
  let external := "iifname " +:+ quote (nat_ExternalInterface r) in
  let prefix :=
    if String.eqb source "" then cat ["        "; external; " "]
    else if has_prefix source (external +:+ " ") then cat ["        "; source; " "]
    else cat ["        "; external; " "; source; " "] in
  cat [prefix; nat_Protocol r; " dport "; pretty (nat_ExternalPort r); " dnat to "; nat_Destination r; ":";
       pretty (nat_DestinationPort r); " comment "; quote ("nftfw-nat:" +:+ nat_Name r)].
Definition masquerade_line (c : Config) (b : containerBinding) : string :=
  cat ["        iifname "; quote (cb_Interface b); " ip saddr "; cb_Prefix b; " oifname "; quote (wg_Interface (WireGuard c));
       " masquerade comment "; quote ("nftfw:vpn-only-nat:" +:+ cb_Interface b)].
Definition emitNAT (i : Input) : list string :=
  let c := eff_Config (in_Policy i) in
  [cat ["table ip "; NATTable; " {"]] ++
  emitSet "docker_nets_nat" "ipv4_addr" (DockerNets i) false ++
  ["    chain prerouting {"; "        type nat hook prerouting priority dstnat; policy accept;";
   commented "counter" "nftfw:dnat-chain"] ++
  (sort_by (λ a b, str_leb (nat_Name a) (nat_Name b)) (NAT c) ≫= λ r, map (nat_line r) (natSources (nat_Source r) (in_Policy i))) ++
  ["    }"; "    chain postrouting {"; "        type nat hook postrouting priority srcnat; policy accept;"] ++
  map (masquerade_line c) (List.filter is_ip (containerBindings c)) ++
  ["    }"; "}"].

Definition validateNATTargets (rules : list NATRule) (networks : list string) : err + unit :=
  let prefixes := List.filter (λ p, Is4 (pfx_addr p)) (omap ParsePrefix networks) in
  each (λ r,
    fails (negb (match ParseAddr (nat_Destination r) with
                 | Some a => existsb (λ p, Contains p a) prefixes
                 | None => false
                 end))
      (Errorf "NAT rule %s destination is outside observed container networks" [ArgS (nat_Name r)])) rules.

(** *** Container topology *)

Definition observed_network (ipv4 : bool) (seen : gset string) (raw : string) : err + gset string :=
  match ParsePrefix raw with
  | None => inl (Errorf "invalid observed container network %q" [ArgS raw])
  | Some p =>
      fails ((pfx_bits p =? 0)%N || negb (Bool.eqb (Is4 (pfx_addr p)) ipv4))
        (Errorf "invalid observed container network %q" [ArgS raw]) then?
      fails (bool_decide (prefix_String (Masked p) ∈ seen))
        (Errorf "duplicate observed container network %q" [ArgS (prefix_String (Masked p))]) then?
      inr ({[prefix_String (Masked p)]} ∪ seen)
  end.
Definition samePrefixSet (left right : gset string) : bool := bool_decide (size left = size right ∧ left ⊆ right).
Definition expected_networks (ipv4 : bool) (c : Config) : gset string :=
  list_to_set (map cb_Prefix (List.filter (λ b, Bool.eqb (is_ip b) ipv4) (containerBindings c))).
Definition validateContainerTopology (c : Config) (observedV4 observedV6 : list string) : err + unit :=
  actualV4 <-? fold_err (observed_network true) ∅ observedV4 ;;
  actualV6 <-? fold_err (observed_network false) ∅ observedV6 ;;
  fails (negb (samePrefixSet (expected_networks true c) actualV4) || negb (samePrefixSet (expected_networks false c) actualV6))
    (Errorf "observed container subnets do not exactly match declared stable container interfaces" []).

(** *** The IPv6 table *)

Definition emitIPv6 (c : Config) : list string :=
  [cat ["table ip6 "; Filter6; " {"]] ++
  (if ipv6_enabled c then
     [cat ["    chain mode_marker { comment "; quote ("nftfw:ipv6-mode-" +:+ IPv6Mode (System c)); "; }"]; "}"]
   else
     ["    chain input { type filter hook input priority -300; policy drop;";
      cat ["        iifname "; quoted "lo"; " accept comment "; quoted "nftfw:ipv6-mode-disabled"]; "    }";
      "    chain output { type filter hook output priority -300; policy drop;";
      cat ["        oifname "; quoted "lo"; " accept comment "; quoted "nftfw:ipv6-loopback"]; "    }";
      "    chain forward { type filter hook forward priority -300; policy drop;";
      commented "ct state invalid drop" "nftfw:ipv6-invalid"; "    }"; "}"]).

(** ** Compile *)

Record runtime_set := mkRuntimeSet { rs_name : string; rs_ipv4 : bool; rs_hosts : bool; rs_values : list string }.
Definition runtime_sets (i : Input) : list runtime_set :=
  [mkRuntimeSet "blocked_v4" true false (BlockedV4 i); mkRuntimeSet "blocked_v6" false false (BlockedV6 i);
   mkRuntimeSet "wg_bootstrap_v4" true true (BootstrapV4 i); mkRuntimeSet "wg_bootstrap_v6" false true (BootstrapV6 i);
   mkRuntimeSet "docker_nets" true false (DockerNets i); mkRuntimeSet "docker_nets6" false false (DockerNets6 i)].
Definition check_runtime_prefix (s : runtime_set) (raw : string) : err + unit :=
  match ParsePrefix raw with
  | None => inl (Errorf "invalid runtime prefix %q" [ArgS raw])
  | Some p =>
      fails (pfx_bits p =? 0)%N (Errorf "runtime prefix %q is /0" [ArgS raw]) then?
      fails (negb (Bool.eqb (Is4 (pfx_addr p)) (rs_ipv4 s)))
        (Errorf "%s contains address from wrong family: %q" [ArgS (rs_name s); ArgS raw]) then?
      fails (rs_hosts s && negb (IsSingleIP p))
        (Errorf "%s contains non-host endpoint prefix: %q" [ArgS (rs_name s); ArgS raw])
  end.

Definition lines_text (l : list string) : string := cat (map (λ x, x +:+ newline) l).

Section compile.
(** [fmt.Sprintf] with the [%#v] verb on a configuration: Go tells nil from empty
    slices there, which the records do not. *)
Context (go_syntax : Config → string).

Definition policyChecksum (e : Effective) : string := sha256_hex (go_syntax (eff_Config e)).
Definition script_lines (i : Input) (generation : N) : list string :=
  ["#!/usr/sbin/nft -f"; "# nftfw transaction; owned tables only; global ruleset replacement omitted";
   "# generation: " +:+ pretty generation; "# policy checksum: " +:+ policyChecksum (in_Policy i); ""] ++
  emitFilter i ++ [""] ++ emitNAT i ++ [""] ++ emitIPv6 (eff_Config (in_Policy i)).
Definition Compile (i : Input) (generation : N) : err + Artifact :=
  let c := eff_Config (in_Policy i) in
  Validate c then?
  each (λ s, each (check_runtime_prefix s) (rs_values s)) (runtime_sets i) then?
  validateNATTargets (NAT c) (DockerNets i) then?
  validateContainerTopology c (DockerNets i) (DockerNets6 i) then?
  (let script := lines_text (script_lines i generation) in
   inr (mkArtifact generation (sha256_hex script) script (map assignment_of (sortedInterfaces (Interfaces c))))).
End compile.

(** ** A sample *)

Definition sample_input : Input :=
  mkInput (effective sample) ["198.51.100.0/24"; "192.0.2.7/32"] ["2001:db8::/48"] ["203.0.113.7/32"] [] ["172.30.0.0/24"] [].
Definition sample_compiled : err + Artifact := Compile (λ _, "sample") sample_input 7.
Example sample_compiles : match sample_compiled with inr a => validateScript (art_Script a) = None ∧ installs (art_Script a) = true | inl _ => False end.
Proof. vm_compute. done. Qed.
