(* ===== verification/Compiled.v ===== *)
(** What the compiler writes: every compiled script passes the guard of the nft backend
    and installs a complete ruleset. *)

From S2P Require Import Prelude GoStrings Netip GoPath Ledger Config PolicyModel NftScript ScriptText Manager Compiler.
From Stdlib Require Import Ascii String.
Local Open Scope string_scope.
Local Open Scope Z_scope.
Abbreviation length := List.length.

(** ** Words *)

Lemma plain_quotable : ∀ c, Config.plain_char c = true → quotable c = true.
Proof. apply class_impl. vm_compute. reflexivity. Qed.
Lemma alpha_plain : ∀ c, is_alpha c = true → Config.plain_char c = true.
Proof. apply class_impl. vm_compute. reflexivity. Qed.
Lemma addr_word : ∀ c, addr_char c = true → word_char c = true.
Proof. apply class_impl. vm_compute. reflexivity. Qed.
Lemma is_hex_word : ∀ c, is_hex c = true → word_char c = true.
Proof. apply class_impl. vm_compute. reflexivity. Qed.

Lemma head_tail_chars f r lo hi s : matches_head_tail f r lo hi s = true → (∀ c, f c = true → r c = true) → forallb r (chars s) = true.
Proof.
  unfold matches_head_tail. destruct (chars s) as [|c l]; [done|]. intros H Hi. rewrite !andb_true_iff in H. simpl.
  destruct H as [[[H1 H2] _] _]. by rewrite (Hi _ H1), H2.
Qed.
Lemma name_quotable s : namePattern s = true → forallb quotable (chars s) = true.
Proof. intros H. eapply forallb_impl; [apply plain_quotable|]. by eapply head_tail_chars; [exact H|apply alpha_plain]. Qed.
Lemma iface_quotable s : ifacePattern s = true → forallb quotable (chars s) = true.
Proof. intros H. eapply forallb_impl; [apply plain_quotable|]. by eapply head_tail_chars; [exact H|]. Qed.

Lemma prefix_String_odd p : prefix_ok p → odd_word (prefix_String p) = true.
Proof. intros H. eapply prefix_text_odd, ParsePrefix_String, H. Qed.
Lemma hex8_word n : forallb word_char (chars (hex8 n)) = true.
Proof.
  unfold hex8. rewrite chars_of_chars. apply forallb_forall. intros c (k & <- & _)%in_map_iff.
  assert (N.shiftr n (4 * k) mod 16 < 16)%N as H by (by apply N.mod_lt). revert H. generalize (N.shiftr n (4 * k) mod 16)%N as d.
  intros d H. apply addr_word, addr_char_hex. unfold hex_char. by rewrite hex_digit_ok.
Qed.
Lemma encoded_odd i : odd_word (encoded i) = true.
Proof. unfold encoded. apply odd_word_app; [done|]. apply hex8_word. Qed.
Lemma has_prefix_split s pre : has_prefix s pre = true → ∃ r, s = pre +:+ r.
Proof.
  unfold has_prefix. revert s. induction pre as [|a pre IH]; intros s; [by exists s|]. destruct s as [|b s]; [done|].
  cbn [String.prefix]. destruct (ascii_dec a b) as [->|]; [|done]. intros [r ->]%IH. by exists r.
Qed.
Lemma substring_all s : substring 0 (slen s) s = s.
Proof. induction s as [|a s IH]; [done|]. simpl. by rewrite IH. Qed.
Lemma substring_app pre r n : substring (slen pre) n (pre +:+ r) = substring 0 n r.
Proof. induction pre as [|a pre IH]; [done|]. rewrite string_app_cons. exact IH. Qed.
Lemma slen_app (a b : string) : slen (a +:+ b) = (slen a + slen b)%nat.
Proof. induction a as [|x a IH]; [done|]. rewrite string_app_cons. simpl. by rewrite IH. Qed.
Lemma trim_prefix_app pre r : has_prefix (pre +:+ r) pre = true → trim_prefix (pre +:+ r) pre = r.
Proof.
  intros H. unfold trim_prefix. rewrite H, substring_app, slen_app. replace (slen pre + slen r - slen pre)%nat with (slen r) by lia.
  apply substring_all.
Qed.
Lemma mark_odd s : fwmarkPattern s = true → odd_word s = true.
Proof.
  unfold fwmarkPattern, hex_digits, all_chars. intros [H|H]%orb_true_iff; rewrite !andb_true_iff in H.
  - destruct H as [H1 [[H2 _] _]]. destruct (has_prefix_split _ _ H1) as [r ->]. rewrite trim_prefix_app in H2 by done.
    apply odd_word_app; [done|]. by apply (forallb_impl _ _ _ is_hex_word).
  - destruct H as [[H1 H2] _]. unfold odd_word. destruct (digits_odd _ H1) as [-> ->]; [|done]. by destruct s.
Qed.

Lemma mark_mask_text : mark_mask = "0xff000000".
Proof. vm_compute. reflexivity. Qed.
Lemma mark_keep_text : mark_keep = "0x00ffffff".
Proof. vm_compute. reflexivity. Qed.
Lemma keep_paren r : "0x00ffffff" +:+ (") | " +:+ r) = "0x00ffffff) | " +:+ r.
Proof. reflexivity. Qed.

Lemma break_first_app a b : break_first a = true → break_first (a +:+ b) = true.
Proof. by destruct a. Qed.

Lemma squeeze_sub l x : x ∈ squeeze l → x ∈ l.
Proof.
  induction l as [|a l IH]; [done|]. simpl. destruct (squeeze l) as [|b r].
  - set_solver.
  - destruct (String.eqb a b); set_solver.
Qed.

(** ** Every line *)

Ltac quotable_text := cbn [cat fold_right]; rewrite ?chars_app, ?forallb_app, ?andb_true_iff; split_and?;
  match goal with |- forallb quotable (chars ?s) = true => lazymatch s with EmptyString => reflexivity | String _ _ => vm_compute; reflexivity | _ => assumption end | |- _ => idtac end.
Ltac good_names :=
  good_text; lazymatch goal with |- good (quote _) => apply good_quote; try quotable_text | |- _ => idtac end.

Definition clean_networks (c : Config) : Prop :=
  ∀ z n, z ∈ Zones c → n ∈ zone_Networks z → is_Some (ParsePrefix n).
Definition readable (l : list string) : Prop := Forall (λ s, is_Some (ParsePrefix s)) l.

Section lines.
Context (c : Config) (Hv : valid_config c) (Hclean : clean_networks c).
Let e : Effective := effective c.

Definition named (s : string) : Prop := forallb quotable (chars s) = true.

Lemma interface_named i : i ∈ Interfaces c → named (in_Name i).
Proof. intros Hi. pose proof (vc_interfaces _ Hv) as H. rewrite list.Forall_forall in H. by apply iface_quotable, H. Qed.
Lemma sorted_named i : i ∈ sortedInterfaces (Interfaces c) → named (in_Name i).
Proof. intros Hi%elem_of_sort_by. by apply interface_named. Qed.
Lemma vpn_named : named (wg_Interface (WireGuard c)).
Proof. destruct (vc_vpn _ Hv) as (i & Hi & <- & _). by apply interface_named. Qed.
Lemma role_good role : good (quote_role (Interfaces c) role).
Proof.
  unfold quote_role. destruct (List.find _ _) as [i|] eqn:E; [|by apply good_quoted_literal].
  apply find_some in E as [E _]. apply good_quote, interface_named. by apply list_elem_of_In.
Qed.
Lemma vpn_good : good (quote (wg_Interface (WireGuard c))).
Proof. apply good_quote, vpn_named. Qed.
Lemma mark_good : good (Fwmark (WireGuard c)).
Proof. apply good_odd, mark_odd. by destruct (vc_mark _ Hv). Qed.
Lemma port_good : good (pretty (EndpointPort (WireGuard c))).
Proof. apply good_odd, pretty_odd. destruct (vc_endpoint _ Hv). lia. Qed.
Lemma mss_good : good (pretty (TCPMSS (WireGuard c))).
Proof. apply good_odd, pretty_odd. destruct (vc_mss _ Hv). lia. Qed.

Lemma binding_good b : b ∈ containerBindings c → named (cb_Interface b) ∧ good (cb_Prefix b) ∧ (cb_Family b = "ip" ∨ cb_Family b = "ip6").
Proof.
  intros Hb%elem_of_sort_by. apply list_elem_of_bind in Hb as (i & Hb & Hi). apply list_elem_of_In, filter_In in Hi as [Hi _].
  apply list_elem_of_omap in Hb as (raw & _ & Hb). apply bind_Some in Hb as (p & Hp & [= <-]). simpl.
  split; [by apply interface_named, list_elem_of_In|]. split; [|destruct (Is4 _); auto].
  apply good_odd, prefix_String_odd, Masked_ok. by eapply ParsePrefix_ok.
Qed.

Lemma tag_good direction chain i : literal direction = true → named chain → named (in_Name i) →
  good (tag_line direction chain i).
Proof.
  intros Hd Hch Hi. unfold tag_line.
  rewrite mark_mask_text, mark_keep_text. cbn [cat fold_right]. rewrite keep_paren.
  good_names; [by apply good_literal|apply good_odd, encoded_odd].
Qed.
Lemma reply_good direction comment i : literal direction = true → named comment → named (in_Name i) →
  good (reply_line direction comment i).
Proof.
  intros Hd Hch Hi. unfold reply_line. rewrite mark_mask_text.
  good_names; [by apply good_literal|apply good_odd, encoded_odd].
Qed.

Lemma policy_named p : p ∈ SortedPolicies e → named (pol_Name p).
Proof.
  rewrite (SortedPolicies_perm e). intros Hp. pose proof (vc_policies _ Hv) as H. rewrite list.Forall_forall in H.
  by apply name_quotable, (po_name c), H.
Qed.

(** *** Selectors *)

Lemma member_named z n name : z ∈ Zones c → n ∈ zone_members e name z → named n.
Proof.
  intros Hz Hn%squeeze_sub. apply elem_of_sort_by in Hn. apply elem_of_app in Hn as [Hn|Hn].
  - pose proof (vc_zones _ Hv) as H. rewrite list.Forall_forall in H. destruct (H z Hz) as (_ & _ & Hin).
    apply Hin in Hn. apply list_elem_of_fmap in Hn as (i & -> & Hi). by apply interface_named.
  - apply list_elem_of_fmap in Hn as (i & -> & Hi). apply list_elem_of_In, filter_In in Hi as [Hi _].
    by apply interface_named, list_elem_of_In.
Qed.
Lemma network_good z n dir : z ∈ Zones c → n ∈ zone_Networks z → good (addressMatch n (if dir : bool then "daddr" else "saddr")).
Proof.
  intros Hz Hn. destruct (Hclean z n Hz Hn) as [p Hp]. unfold addressMatch, familyExpr.
  destruct (contains_any n ":"), dir; good_text; apply good_odd; by eapply prefix_text_odd.
Qed.
Lemma selector_good name dir s : s ∈ zoneSelectors name dir e → good (Expression s).
Proof.
  unfold zoneSelectors. destruct (String.eqb name "host"); [set_solver|]. destruct (String.eqb name "any").
  { intros [->|[->|?%not_elem_of_nil]%elem_of_cons]%elem_of_cons; [..|done]; by apply good_quoted_literal. }
  destruct (eff_Zones e !! name) as [z|] eqn:Ez; [|set_solver]. change (eff_Zones e) with (zone_map (Zones c)) in Ez.
  apply zone_map_lookup in Ez as [Hz _]; [|apply (vc_zone_names _ Hv)].
  assert (∀ s, s ∈ map (network_selector (if dir then "daddr" else "saddr")) (zone_Networks z) → good (Expression s)) as Hnet.
  { intros x (n & -> & Hn)%list_elem_of_fmap. by eapply network_good. }
  assert (∀ i r, i ∈ zone_members e name z → good r → good (cat [if dir then "oifname" else "iifname"; " "; quote i; " "; r])) as Hif.
  { intros i r Hi Hr. pose proof (member_named _ _ _ Hz Hi). destruct dir; good_names; done. }
  destruct (map _ (zone_Networks z)) as [|x l] eqn:El.
  - intros (i & Hs & Hi)%list_elem_of_bind.
    assert (∀ r, cat [if dir then "oifname" else "iifname"; " "; quote i; " "] +:+ r = cat [if dir then "oifname" else "iifname"; " "; quote i; " "; r]) as Hc.
    { intros r. rewrite cat_app. unfold cat. cbn [fold_right]. by rewrite (string_app_nil_r r). }
    unfold both_families in Hs. rewrite !Hc in Hs.
    apply elem_of_cons in Hs as [->|[->|?%not_elem_of_nil]%elem_of_cons]; [..|done]; apply Hif; try done; by apply good_quoted_literal.
  - destruct (zone_members e name z) as [|i0 l0] eqn:Ei; [by intros Hs; apply Hnet|].
    intros (y & Hs & Hy)%list_elem_of_bind. apply list_elem_of_fmap in Hs as (i & -> & Hi). cbn [Expression].
    apply Hif; [done|by apply Hnet].
Qed.

(** *** Services and policies *)

Lemma ports_good l : Forall port_ok l → good (join ", " (map pretty l)).
Proof.
  intros H. apply good_join. apply list.Forall_forall. intros w (x & -> & Hx)%list_elem_of_fmap.
  rewrite list.Forall_forall in H. destruct (H x Hx). apply pretty_odd. lia.
Qed.
Lemma service_of n s : eff_Svcs e !! n = Some s → service_ok s.
Proof.
  intros H. change (eff_Svcs e) with (service_map (Services c)) in H. apply service_map_lookup in H as [H _]; [|apply (vc_service_names _ Hv)].
  pose proof (vc_services _ Hv) as Ha. rewrite list.Forall_forall in Ha. by apply Ha.
Qed.
Lemma service_good n s family : eff_Svcs e !! n = Some s → good (serviceExpr s family).
Proof.
  intros (_ & Hp & _ & Hports & _)%service_of. unfold serviceExpr, port_list.
  destruct (String.eqb (svc_Protocol s) "any"); [apply good_empty|].
  destruct (String.eqb (svc_Protocol s) "icmp"); [destruct (String.eqb family "ip6"); by apply good_quoted_literal|].
  good_text.
  - rewrite !elem_of_cons, elem_of_nil in Hp. destruct Hp as [Hp|[Hp|[Hp|[Hp|[]]]]]; rewrite Hp; by apply good_quoted_literal.
  - apply ports_good. by rewrite (sort_by_perm Z.leb).
Qed.
Lemma trusted_good protocol : good (join ", " (trustedPorts e protocol)).
Proof.
  apply ports_good. rewrite (sort_by_perm Z.leb). apply list.Forall_forall. intros x Hx. rewrite elem_of_remove_dups in Hx.
  apply list_elem_of_bind in Hx as (n & Hx & _). destruct (eff_Svcs e !! n) as [s|] eqn:E; [|set_solver].
  apply service_of in E as (_ & _ & _ & H & _). rewrite list.Forall_forall in H.
  destruct (String.eqb _ _); [by apply H|set_solver].
Qed.

Lemma policy_tail_good p n s family : p ∈ SortedPolicies e → eff_Svcs e !! n = Some s → good (policy_tail p s family).
Proof.
  intros Hp%policy_named Hs. unfold policy_tail.
  destruct (String.eqb (pol_Action p) "allow"); good_names; by eapply service_good.
Qed.
Lemma policies_good chain action : Forall good (emitPolicies e chain action).
Proof.
  apply list.Forall_forall. intros l (p & Hl & Hp)%list_elem_of_bind. apply list_elem_of_In, filter_In in Hp as [Hp _].
  apply list_elem_of_In in Hp. destruct (eff_Svcs e !! pol_Service p) as [svc|] eqn:Es; [|set_solver].
  assert (∀ family, good (policy_tail p svc family)) as Ht by (intros; by eapply policy_tail_good).
  pose proof vpn_good as Hvpn.
  assert (∀ r, good r → good (to_vpn e +:+ r)) as Hto by (intros; unfold to_vpn; good_text; done).
  unfold emitPolicyRules in Hl. destruct (String.eqb chain "output").
  - apply list_elem_of_fmap in Hl as (dst & -> & Hd%selector_good). unfold output_rule.
    destruct (_ || _); unfold cat; cbn [fold_right]; rewrite (string_app_nil_r (policy_tail _ _ _)); good_text; auto.
  - apply list_elem_of_bind in Hl as (src & Hl & Hsrc%selector_good). apply list_elem_of_fmap in Hl as (dst & -> & Hd).
    apply list_elem_of_In, filter_In in Hd as [Hd _]. apply list_elem_of_In in Hd.
    assert (good (Expression dst)) as Hdst.
    { destruct (_ && _); [|by eapply selector_good]. apply list_elem_of_singleton in Hd as ->. apply good_empty. }
    unfold pair_rule. destruct (String.eqb chain "input"); unfold cat; cbn [fold_right]; rewrite (string_app_nil_r (policy_tail _ _ _)).
    + good_text; auto.
    + destruct (String.eqb (Expression dst) ""), (String.eqb (pol_To p) "any"); good_text; auto.
Qed.

(** *** Sets *)

Lemma set_good name typ elems timeout :
  line_ok (cat ["    set "; name; " {"]) →
  line_ok (cat ["        type "; typ; "; flags "; if timeout : bool then "interval, timeout" else "interval"; "; comment "; quoted ("nftfw-owned:" +:+ name)]) →
  readable elems → Forall line_ok (emitSet name typ elems timeout).
Proof.
  intros H1 H2 H3. unfold emitSet. repeat (apply Forall_app; split).
  - by repeat constructor.
  - destruct elems as [|x l] eqn:El; [constructor|]. rewrite <-El in *. constructor; [|constructor]. apply good_line.
    good_text. apply good_join. apply list.Forall_forall. intros w Hw%elem_of_sort_by. unfold readable in H3. rewrite list.Forall_forall in H3.
    destruct (H3 w Hw) as [p Hp]. by eapply prefix_text_odd.
  - constructor; [|constructor]. by apply plain_line_ok.
Qed.

(** *** Chains *)

Ltac goods := repeat first [apply Forall_app_2 | apply list.Forall_cons_2 | apply list.Forall_nil_2].
Ltac literal_now := apply good_quoted_literal; vm_compute; reflexivity.
Ltac literal_line :=
  lazymatch goal with
  | |- good (String _ _) => idtac
  | |- good neighbor_discovery => idtac
  | |- good (quoted (String _ _)) => idtac
  | |- good (commented (String _ _) (String _ _)) => idtac
  | |- good (cat [String _ _; quoted (String _ _); String _ _; quoted (String _ _)]) => idtac
  end;
  apply good_quoted_literal; vm_compute; reflexivity.

Lemma tags_good direction chain : literal direction = true → named chain → Forall good (map (tag_line direction chain) (sortedInterfaces (Interfaces c))).
Proof.
  intros Hd Hc. apply list.Forall_forall. intros l (i & -> & Hi%sorted_named)%list_elem_of_fmap. by apply tag_good.
Qed.
Lemma replies_good chain : named chain → Forall good (emitProvenanceReplies (Interfaces c) chain).
Proof.
  intros Hc. apply list.Forall_forall. intros l (i & -> & Hi%sorted_named)%list_elem_of_fmap. apply reply_good; [done| |done].
  unfold named in *. quotable_text.
Qed.
Lemma input_replies_good : Forall good (emitInputReplies (Interfaces c)).
Proof. apply list.Forall_forall. intros l (i & -> & Hi%sorted_named)%list_elem_of_fmap. by apply reply_good. Qed.
Lemma trusted_lines_good protocol : protocol ∈ ["tcp"; "udp"] → Forall good (trusted_lines e protocol).
Proof.
  intros Hp. unfold trusted_lines. destruct (trustedPorts e protocol) as [|x l] eqn:E; [constructor|]. rewrite <-E. cbv zeta.
  pose proof (trusted_good protocol). apply elem_of_cons in Hp as [->|[->|?%not_elem_of_nil]%elem_of_cons]; [..|done];
    goods; unfold commented; good_text; done || literal_now.
Qed.
Lemma input_good : Forall good (input_chain e).
Proof.
  unfold input_chain. cbv zeta. goods; try literal_line; try apply policies_good.
  - by apply tags_good.
  - destruct (ipv6_enabled _); goods. literal_line.
  - apply trusted_lines_good. set_solver.
  - apply trusted_lines_good. set_solver.
  - apply input_replies_good.
Qed.

Lemma path_errors_good : Forall good (emitContainerPathErrors c).
Proof.
  apply list.Forall_forall. intros l (b & -> & (H1 & H2 & H3)%binding_good)%list_elem_of_fmap.
  destruct (is_ip b); good_names; done.
Qed.
Lemma bootstrap_good_4 : good (bootstrap_line c "ip" "wg_bootstrap_v4" "nftfw:wg-bootstrap-v4").
Proof.
  pose proof (role_good "uplink"). pose proof mark_good. pose proof port_good.
  replace (bootstrap_line c "ip" "wg_bootstrap_v4" "nftfw:wg-bootstrap-v4") with
    (cat ["        oifname "; quote_role (Interfaces c) "uplink"; " meta mark "; Fwmark (WireGuard c); " ip daddr @wg_bootstrap_v4 udp dport ";
          pretty (EndpointPort (WireGuard c)); " accept comment "; quoted "nftfw:wg-bootstrap-v4"]).
  - good_text; done || literal_now.
  - unfold bootstrap_line, commented, cat. cbn [fold_right]. by rewrite <-!string_app_assoc.
Qed.
Lemma bootstrap_good_6 : good (bootstrap_line c "ip6" "wg_bootstrap_v6" "nftfw:wg-bootstrap-v6").
Proof.
  pose proof (role_good "uplink"). pose proof mark_good. pose proof port_good.
  replace (bootstrap_line c "ip6" "wg_bootstrap_v6" "nftfw:wg-bootstrap-v6") with
    (cat ["        oifname "; quote_role (Interfaces c) "uplink"; " meta mark "; Fwmark (WireGuard c); " ip6 daddr @wg_bootstrap_v6 udp dport ";
          pretty (EndpointPort (WireGuard c)); " accept comment "; quoted "nftfw:wg-bootstrap-v6"]).
  - good_text; done || literal_now.
  - unfold bootstrap_line, commented, cat. cbn [fold_right]. by rewrite <-!string_app_assoc.
Qed.
Lemma uplink_rule_good rule comment : literal rule = true → break_first rule = true → quoted_literal (quoted comment) = true →
  good (commented (cat ["oifname "; quote_role (Interfaces c) "uplink"; rule]) comment).
Proof.
  intros H1 H2 H3. pose proof (role_good "uplink"). unfold commented. good_text.
  rewrite (string_app_nil_r rule). apply good_app_r; [done|by apply break_first_app|].
  apply good_app_r; [by apply good_literal|done|]. good_text. by apply good_quoted_literal.
Qed.
Lemma output_good : Forall good (output_chain e).
Proof.
  pose proof vpn_good. unfold output_chain. cbv zeta. change (eff_Config e) with c. goods; try literal_line; try apply policies_good.
  - by apply tags_good.
  - by apply replies_good.
  - apply path_errors_good.
  - destruct (ipv6_enabled _); goods; [literal_line|by apply uplink_rule_good].
  - by apply uplink_rule_good.
  - destruct (0 <? _); goods; [apply bootstrap_good_4|apply bootstrap_good_6].
  - unfold commented. good_text; done || literal_now.
Qed.

Lemma suffix_text b : familySuffix b = "v4" ∨ familySuffix b = "v6".
Proof. unfold familySuffix. destruct (String.eqb _ _); auto. Qed.
Lemma guards_good : Forall good (emitContainerForwardGuards c).
Proof.
  pose proof vpn_good. pose proof (role_good "uplink"). pose proof mss_good. pose proof vpn_named.
  apply list.Forall_forall. intros l (b & Hl & (H1' & H2' & H3')%binding_good)%list_elem_of_bind. cbv zeta in Hl.
  destruct H3' as [Ef|Ef], (suffix_text b) as [Es|Es]; rewrite Ef, Es in Hl; rewrite !elem_of_cons, elem_of_nil in Hl; destruct Hl as [->|[->|[->|[]]]];
    good_names; done.
Qed.
Lemma markers_good : Forall good (emitContainerVPNMarkers c).
Proof.
  pose proof vpn_good. pose proof vpn_named. apply list.Forall_forall. intros l (b & -> & (H1' & H2' & H3')%binding_good)%list_elem_of_fmap.
  destruct H3' as [Ef|Ef], (suffix_text b) as [Es|Es]; rewrite Ef, Es; good_names; done.
Qed.
Lemma forward_good : Forall good (forward_chain e).
Proof.
  unfold forward_chain. cbv zeta. change (eff_Config e) with c. goods; try literal_line; try apply policies_good.
  - by apply tags_good.
  - by apply replies_good.
  - apply guards_good.
  - by apply uplink_rule_good.
  - apply markers_good.
Qed.

(** *** NAT *)

Lemma nat_source_good name s : s ∈ natSources name e → good s.
Proof.
  unfold natSources. destruct (String.eqb name "any"); [intros ->%list_elem_of_singleton; apply good_empty|].
  destruct (map _ _) as [|x l] eqn:E; [intros ->%list_elem_of_singleton; apply good_empty|].
  intros Hs%elem_of_sort_by. rewrite <-E in Hs. apply list_elem_of_fmap in Hs as (y & -> & Hy).
  apply list_elem_of_In, filter_In in Hy as [Hy _]. apply list_elem_of_In in Hy. by eapply selector_good.
Qed.
Lemma nat_good r s : r ∈ NAT c → good s → good (nat_line r s).
Proof.
  intros Hr Hs. pose proof (vc_nat _ Hv) as Hn. rewrite list.Forall_forall in Hn. destruct (Hn r Hr) as [N1 _ N3 N4 [N5 N6] N7].
  apply name_quotable in N1. destruct N3 as (i & Hi & Hname & _). apply interface_named in Hi. rewrite Hname in Hi.
  destruct N7 as (n & Hd & _). apply ParseAddr_v4_chars in Hd.
  assert (good (nat_Protocol r)) as Hp.
  { rewrite !elem_of_cons, elem_of_nil in N4. destruct N4 as [->|[->|[]]]; by apply good_quoted_literal. }
  assert (good (pretty (nat_ExternalPort r))) by (apply good_odd, pretty_odd; destruct N5; lia).
  assert (good (nat_Destination r +:+ (":" +:+ pretty (nat_DestinationPort r)))) as Hdest.
  { apply good_odd. unfold odd_word. rewrite !chars_app, !forallb_app, !existsb_app, (forallb_impl _ _ _ addr_word Hd).
    assert (odd_word (pretty (nat_DestinationPort r)) = true) as [Hw _]%andb_true_iff by (apply pretty_odd; destruct N6; lia).
    rewrite Hw. simpl. by rewrite orb_true_r. }
  assert (good (quote ("nftfw-nat:" +:+ nat_Name r))) as Hq by (apply good_quote; quotable_text).
  assert (good (quote (nat_ExternalInterface r))) by by apply good_quote.
  assert (∀ x, good (cat [nat_Protocol r; " dport "; pretty (nat_ExternalPort r); " dnat to "; x; " comment "; quote ("nftfw-nat:" +:+ nat_Name r)]) →
    x = nat_Destination r +:+ (":" +:+ pretty (nat_DestinationPort r)) →
    good (cat [nat_Protocol r; " dport "; pretty (nat_ExternalPort r); " dnat to "; nat_Destination r; ":";
     pretty (nat_DestinationPort r); " comment "; quote ("nftfw-nat:" +:+ nat_Name r)])) as Hx.
  { intros x Hx ->. unfold cat in *. cbn [fold_right] in *. by rewrite <-!string_app_assoc in Hx. }
  assert (good (cat [nat_Protocol r; " dport "; pretty (nat_ExternalPort r); " dnat to "; nat_Destination r; ":";
     pretty (nat_DestinationPort r); " comment "; quote ("nftfw-nat:" +:+ nat_Name r)])) as Ht.
  { eapply Hx; [|done]. generalize dependent (nat_Destination r +:+ (":" +:+ pretty (nat_DestinationPort r))). intros x Hg _.
    good_text; done. }
  unfold nat_line. cbv zeta.
  replace (cat [if String.eqb s "" then cat ["        "; "iifname " +:+ quote (nat_ExternalInterface r); " "]
       else if has_prefix s (("iifname " +:+ quote (nat_ExternalInterface r)) +:+ " ") then cat ["        "; s; " "]
       else cat ["        "; "iifname " +:+ quote (nat_ExternalInterface r); " "; s; " "];
     nat_Protocol r; " dport "; pretty (nat_ExternalPort r); " dnat to "; nat_Destination r; ":";
     pretty (nat_DestinationPort r); " comment "; quote ("nftfw-nat:" +:+ nat_Name r)]) with
    ((if String.eqb s "" then cat ["        "; "iifname " +:+ quote (nat_ExternalInterface r); " "]
       else if has_prefix s (("iifname " +:+ quote (nat_ExternalInterface r)) +:+ " ") then cat ["        "; s; " "]
       else cat ["        "; "iifname " +:+ quote (nat_ExternalInterface r); " "; s; " "]) +:+
     cat [nat_Protocol r; " dport "; pretty (nat_ExternalPort r); " dnat to "; nat_Destination r; ":";
     pretty (nat_DestinationPort r); " comment "; quote ("nftfw-nat:" +:+ nat_Name r)]) by done.
  revert Ht. generalize (cat [nat_Protocol r; " dport "; pretty (nat_ExternalPort r); " dnat to "; nat_Destination r; ":";
     pretty (nat_DestinationPort r); " comment "; quote ("nftfw-nat:" +:+ nat_Name r)]). intros t Ht.
  destruct (String.eqb s ""); [good_text; done|]. destruct (has_prefix _ _); good_text; done.
Qed.

(** *** Tables *)

Lemma sources_readable i : each (λ s, each (check_runtime_prefix s) (rs_values s)) (runtime_sets i) = inr tt →
  Forall readable [BlockedV4 i; BlockedV6 i; BootstrapV4 i; BootstrapV6 i; DockerNets i; DockerNets6 i].
Proof.
  intros H%each_ok. unfold runtime_sets in H. rewrite !list.Forall_cons in H.
  assert (∀ s, each (check_runtime_prefix s) (rs_values s) = inr tt → readable (rs_values s)) as Hr.
  { intros s Hs%each_ok. eapply Forall_impl; [exact Hs|]. intros raw. unfold check_runtime_prefix. by destruct (ParsePrefix raw). }
  destruct H as (H1 & H2 & H3 & H4 & H5 & H6 & _). repeat constructor; by apply Hr in H1, H2, H3, H4, H5, H6.
Qed.

Lemma good_lines l : Forall good l → Forall line_ok l.
Proof. intros H. eapply Forall_impl; [exact H|apply good_line]. Qed.
Ltac static := first [apply plain_line_ok; vm_compute; reflexivity | apply good_line, good_quoted_literal; vm_compute; reflexivity].
Lemma filter_lines i : in_Policy i = e → Forall readable [BlockedV4 i; BlockedV6 i; BootstrapV4 i; BootstrapV6 i; DockerNets i; DockerNets6 i] →
  Forall line_ok (emitFilter i).
Proof.
  intros Ei H. rewrite !list.Forall_cons in H. destruct H as (H1 & H2 & H3 & H4 & H5 & H6 & _). unfold emitFilter. rewrite Ei.
  repeat match goal with |- Forall _ (_ ++ _)%list => apply Forall_app_2 end; try (apply set_good; [static|static|done || constructor]).
  - constructor; [static|constructor].
  - apply good_lines, input_good.
  - apply good_lines, output_good.
  - apply good_lines, forward_good.
  - constructor; [static|constructor].
Qed.
Lemma nat_lines i : in_Policy i = e → readable (DockerNets i) → Forall line_ok (emitNAT i).
Proof.
  intros Ei H. pose proof vpn_good. pose proof vpn_named. unfold emitNAT. rewrite Ei. cbv zeta. change (eff_Config e) with c.
  repeat match goal with |- Forall _ (_ ++ _)%list => apply Forall_app_2 end; try (apply set_good; [static|static|done]); try (repeat constructor; static).
  - apply good_lines, list.Forall_forall. intros l (r & Hl & Hr%elem_of_sort_by)%list_elem_of_bind.
    apply list_elem_of_fmap in Hl as (s & -> & Hs%nat_source_good). by apply nat_good.
  - apply good_lines, list.Forall_forall. intros l (b & -> & Hb)%list_elem_of_fmap. apply list_elem_of_In, filter_In in Hb as [Hb _].
    apply list_elem_of_In in Hb. apply binding_good in Hb as (H1' & H2' & _). unfold masquerade_line. good_names; done.
Qed.
Lemma ipv6_lines : Forall line_ok (emitIPv6 c).
Proof.
  unfold emitIPv6. apply Forall_app_2; [constructor; [static|constructor]|]. destruct (ipv6_enabled c) eqn:E; [|repeat constructor; static].
  pose proof (vc_mode _ Hv) as Hm. unfold ipv6_enabled in E. rewrite !elem_of_cons, elem_of_nil in Hm.
  destruct Hm as [Hm|[Hm|[Hm|[]]]]; rewrite Hm in E |- *; [done|..]; repeat constructor; static.
Qed.
End lines.

(** ** The script *)

Lemma ValidateActive_perm l k : l ≡ₚ k → ValidateActive k = None → ValidateActive l = None.
Proof.
  intros Hp. rewrite !ValidateActive_None. unfold active_ok. intros (H1 & H2 & H3 & H4 & H5).
  pose proof (Permutation_map Name Hp) as Hn. pose proof (Permutation_map ID Hp) as Hi.
  split; [intros ->; by apply Permutation_nil_l in Hp|]. split; [by rewrite (Permutation_length Hp)|].
  split; [by rewrite Hp|]. split; [by rewrite Hn|by rewrite Hi].
Qed.

Lemma lines_text_unlines l : lines_text l = unlines l.
Proof.
  unfold lines_text. induction l as [|x l IH]; [done|]. cbn [map cat fold_right unlines]. fold (cat (map (λ x, x +:+ newline) l)).
  by rewrite IH, <-string_app_assoc.
Qed.
Lemma hex_encode_chars l : forallb (λ x, negb (Ascii.eqb x lf)) (chars (Sha256.hex_encode l)) = true.
Proof.
  assert (∀ n, (N.land n 15 < 16)%N) as Hl by (intros n; change 15%N with (N.ones 4); rewrite N.land_ones; by apply N.mod_lt).
  assert (∀ d, (d < 16)%N → Ascii.eqb (Sha256.hex_digit d) lf = false) as Hd.
  { intros d H. assert (d = 0 ∨ d = 1 ∨ d = 2 ∨ d = 3 ∨ d = 4 ∨ d = 5 ∨ d = 6 ∨ d = 7 ∨ d = 8 ∨ d = 9 ∨ d = 10 ∨ d = 11 ∨ d = 12 ∨ d = 13 ∨ d = 14 ∨ d = 15)%N as Hc by lia.
    by destruct_or! Hc; subst. }
  induction l as [|b l IH]; [done|]. cbn [Sha256.hex_encode]. change (chars (String ?a (String ?b ?s))) with (a :: b :: chars s).
  cbn [forallb]. by rewrite !Hd, IH by apply Hl.
Qed.
Lemma comment_append (lit s : string) : comment_text lit = true → forallb (λ x, negb (Ascii.eqb x lf)) (chars s) = true → comment_text (lit +:+ s) = true.
Proof.
  destruct lit as [|x lit]; [done|]. rewrite string_app_cons. simpl. intros [-> H1]%andb_true_iff H2. rewrite chars_app, forallb_app. by rewrite H1, H2.
Qed.

Section script.
Context (go_syntax : Config → string).

Lemma script_lines_ok c i g : valid_config c → clean_networks c → in_Policy i = effective c →
  Forall readable [BlockedV4 i; BlockedV6 i; BootstrapV4 i; BootstrapV6 i; DockerNets i; DockerNets6 i] →
  Forall line_ok (script_lines go_syntax i g).
Proof.
  intros Hv Hc Ei Hr. unfold script_lines. apply Forall_app_2; [|apply Forall_app_2; [|apply Forall_app_2; [|apply Forall_app_2; [|apply Forall_app_2]]]].
  - repeat apply list.Forall_cons_2; [..|apply list.Forall_nil_2].
    + by apply comment_line.
    + by apply comment_line.
    + apply comment_line, comment_append; [done|]. eapply forallb_impl; [|apply pretty_N_digits].
      apply class_impl. vm_compute. reflexivity.
    + apply comment_line, comment_append; [done|apply hex_encode_chars].
    + by apply plain_line_ok.
  - by eapply filter_lines.
  - constructor; [by apply plain_line_ok|constructor].
  - rewrite !list.Forall_cons in Hr. destruct Hr as (_ & _ & _ & _ & Hd & _). by eapply nat_lines.
  - constructor; [by apply plain_line_ok|constructor].
  - rewrite Ei. by apply ipv6_lines.
Qed.

Lemma opens_owned i g t : in_Policy i = effective (eff_Config (in_Policy i)) → t ∈ OwnedTables → ∃ l s,
  l ∈ script_lines go_syntax i g ∧ forallb bare_char (chars l) = true ∧ s ∈ statements l ∧ opens_table t s = true.
Proof.
  intros _ Ht. unfold OwnedTables in Ht. rewrite !elem_of_cons, elem_of_nil in Ht.
  assert (∀ l : string, l ∈ emitFilter i ∨ l ∈ emitNAT i ∨ l ∈ emitIPv6 (eff_Config (in_Policy i)) → l ∈ script_lines go_syntax i g) as Hin.
  { intros l. unfold script_lines. rewrite !elem_of_app. tauto. }
  destruct Ht as [->|[->|[->|[]]]].
  - exists "table inet nftfw_filter {", "table inet nftfw_filter {". split; [|split; [done|split; [by left|done]]].
    apply Hin. left. unfold emitFilter. rewrite elem_of_app. left. by left.
  - exists "table ip nftfw_nat {", "table ip nftfw_nat {". split; [|split; [done|split; [by left|done]]].
    apply Hin. right. left. unfold emitNAT. cbv zeta. rewrite elem_of_app. left. by left.
  - exists "table ip6 nftfw_filter6 {", "table ip6 nftfw_filter6 {". split; [|split; [done|split; [by left|done]]].
    apply Hin. right. right. unfold emitIPv6. rewrite elem_of_app. left. by left.
Qed.

Lemma Compile_ok i g a : Compile go_syntax i g = inr a →
  let c := eff_Config (in_Policy i) in
  Validate c = inr tt ∧ each (λ s, each (check_runtime_prefix s) (rs_values s)) (runtime_sets i) = inr tt ∧
  validateNATTargets (NAT c) (DockerNets i) = inr tt ∧ validateContainerTopology c (DockerNets i) (DockerNets6 i) = inr tt ∧
  a = mkArtifact g (Sha256.sha256_hex (lines_text (script_lines go_syntax i g))) (lines_text (script_lines go_syntax i g))
        (map assignment_of (sortedInterfaces (Interfaces c))).
Proof.
  unfold Compile. intros H. apply err_bind_ok in H as ([] & H1 & H). apply err_bind_ok in H as ([] & H2 & H).
  apply err_bind_ok in H as ([] & H3 & H). apply err_bind_ok in H as ([] & H4 & H). injection H as <-. done.
Qed.

Lemma compiled_script c i g a : in_Policy i = effective c → clean_networks c → Compile go_syntax i g = inr a →
  validateScript (art_Script a) = None ∧ installs (art_Script a) = true.
Proof.
  intros Ei Hc Ha%Compile_ok. cbv zeta in Ha. rewrite Ei in Ha. change (eff_Config (effective c)) with c in Ha.
  destruct Ha as (Hv%Validate_valid & Hr & _ & _ & ->). cbn [art_Script].
  pose proof (script_lines_ok c i g Hv Hc Ei (sources_readable i Hr)) as Hl. rewrite lines_text_unlines.
  split; [apply script_valid; [done|]|apply script_installs; [done|]].
  - unfold script_lines. simpl. rewrite fields_line. done.
  - intros t Ht. apply opens_owned; [by rewrite Ei|done].
Qed.

End script.

Lemma sample_clean : clean_networks sample.
Proof.
  intros z n Hz Hn. simpl in Hz. rewrite !elem_of_cons, elem_of_nil in Hz.
  destruct Hz as [->|[->|[]]]; simpl in Hn; rewrite !elem_of_cons, elem_of_nil in Hn; destruct Hn as [->|[]]; vm_compute; eauto.
Qed.
Definition compiled_sample : Artifact := Eval vm_compute in match sample_compiled with inr a => a | inl _ => mkArtifact 0 "" "" [] end.
Lemma compiled_sample_eq : Compile (λ _, "sample") sample_input 7 = inr compiled_sample.
Proof. vm_compute. reflexivity. Qed.

(** ** The order of the observed addresses *)

Definition network_ok (ipv4 : bool) (raw : string) : Prop :=
  ∃ p, ParsePrefix raw = Some p ∧ (pfx_bits p =? 0)%N = false ∧ Is4 (pfx_addr p) = ipv4.
Definition network_text (raw : string) : string := match ParsePrefix raw with Some p => prefix_String (Masked p) | None => "" end.
Lemma observed_step ipv4 s raw s' : observed_network ipv4 s raw = inr s' ↔
  network_ok ipv4 raw ∧ network_text raw ∉ s ∧ s' = {[network_text raw]} ∪ s.
Proof.
  unfold observed_network, network_ok, network_text. destruct (ParsePrefix raw) as [p|]; [|naive_solver].
  split.
  - intros H. invert_checks. subst. split; [|done]. exists p. split; [done|]. split; [done|]. by apply Bool.eqb_prop.
  - intros ((q & [= <-] & H1 & H2) & H3 & ->). rewrite H1, H2, Bool.eqb_reflx. simpl.
    by rewrite bool_decide_eq_false_2.
Qed.
Lemma observed_fold ipv4 l : ∀ s s', fold_err (observed_network ipv4) s l = inr s' ↔
  Forall (network_ok ipv4) l ∧ NoDup (map network_text l) ∧ (∀ x, x ∈ map network_text l → x ∉ s) ∧ s' = list_to_set (map network_text l) ∪ s.
Proof.
  induction l as [|a l IH]; intros s s'; simpl.
  - split; [intros [= <-]; split; [constructor|]; split; [constructor|]; set_solver|]. intros (_ & _ & _ & ->). f_equal. set_solver.
  - rewrite list.Forall_cons, NoDup_cons. destruct (observed_network ipv4 s a) as [|s1] eqn:E.
    + split; [done|]. intros ([Ha Hl] & [Hn1 Hn2] & Hf & ->).
      assert (observed_network ipv4 s a = inr ({[network_text a]} ∪ s)) as E2 by (apply observed_step; split; [done|]; split; [apply Hf; by left|done]).
      congruence.
    + apply observed_step in E as (Ha & Hf & ->). rewrite IH. split.
      * intros (H1 & H2 & H3 & ->). split; [done|]. split; [split; [|done]; intros Hin; specialize (H3 _ Hin); set_solver|].
        split; [|set_solver]. intros x [->|Hx]%elem_of_cons; [done|]. specialize (H3 _ Hx). set_solver.
      * intros ([_ H1] & [H2 H3] & H4 & ->). split; [done|]. split; [done|]. split; [|set_solver].
        intros x Hx [->%elem_of_singleton|Hs]%elem_of_union; [done|]. apply (H4 x); [by right|done].
Qed.
Lemma observed_perm ipv4 l k s : l ≡ₚ k → fold_err (observed_network ipv4) ∅ l = inr s → fold_err (observed_network ipv4) ∅ k = inr s.
Proof.
  intros Hp. rewrite !observed_fold. pose proof (Permutation_map network_text Hp) as Hm. intros (H1 & H2 & H3 & ->).
  split; [by rewrite <-Hp|]. split; [by rewrite <-Hm|]. split; [intros x; rewrite <-Hm; apply H3|].
  f_equal. apply leibniz_equiv, list_to_set_perm, Hm.
Qed.

Lemma existsb_perm {A} (p : A → bool) l k : l ≡ₚ k → existsb p l = existsb p k.
Proof.
  intros H. apply eq_true_iff_eq. rewrite !existsb_exists. setoid_rewrite <-list_elem_of_In. by setoid_rewrite H.
Qed.
Lemma filter_perm {A} (p : A → bool) l k : l ≡ₚ k → List.filter p l ≡ₚ List.filter p k.
Proof. induction 1; simpl; [done| | |by etrans]. - destruct (p x); by rewrite ?IHPermutation. - destruct (p x), (p y); try done. apply Permutation_swap. Qed.
Lemma sort_strings_perm_eq l k : l ≡ₚ k → sort_strings l = sort_strings k.
Proof.
  intros H. apply (sorted_unique str_leb); try apply sort_strings_sorted; [intros x y; apply str_leb_total|intros x y z; apply str_leb_trans|intros x y; apply str_leb_antisym|].
  by rewrite !sort_strings_perm.
Qed.
Lemma emitSet_perm name typ l k timeout : l ≡ₚ k → emitSet name typ l timeout = emitSet name typ k timeout.
Proof.
  intros H. unfold emitSet. rewrite (sort_strings_perm_eq l k H). destruct l as [|x l], k as [|y k]; try done.
  - by apply Permutation_nil_l in H. - by apply Permutation_nil_r in H.
Qed.

Definition same_observations (i j : Input) : Prop :=
  in_Policy i = in_Policy j ∧ BlockedV4 i ≡ₚ BlockedV4 j ∧ BlockedV6 i ≡ₚ BlockedV6 j ∧ BootstrapV4 i ≡ₚ BootstrapV4 j ∧
  BootstrapV6 i ≡ₚ BootstrapV6 j ∧ DockerNets i ≡ₚ DockerNets j ∧ DockerNets6 i ≡ₚ DockerNets6 j.

(** C23: The compiler is deterministic in what it observes: listing the blocked,
    bootstrap and container addresses in another order compiles to the same artifact,
    byte for byte. *)
Theorem observation_order_irrelevant go_syntax i j g a : same_observations i j →
  Compile go_syntax i g = inr a → Compile go_syntax j g = inr a.
Proof.
  intros (Hp & H1 & H2 & H3 & H4 & H5 & H6) Ha%Compile_ok. cbv zeta in Ha. rewrite Hp in Ha. destruct Ha as (Hv & Hr & Hn & Ht & ->).
  unfold Compile. rewrite Hv. cbn [err_bind].
  assert (each (λ s, each (check_runtime_prefix s) (rs_values s)) (runtime_sets j) = inr tt) as ->.
  { apply each_ok. apply each_ok in Hr. unfold runtime_sets in *. rewrite !list.Forall_cons in *. cbn [rs_values] in *.
    setoid_rewrite each_ok in Hr. setoid_rewrite each_ok. unfold check_runtime_prefix in *. cbn [rs_ipv4 rs_name rs_hosts rs_values] in *.
    by rewrite <-H1, <-H2, <-H3, <-H4, <-H5, <-H6. }
  cbn [err_bind].
  assert (validateNATTargets (NAT (eff_Config (in_Policy j))) (DockerNets j) = inr tt) as ->.
  { unfold validateNATTargets in *. cbv zeta in *. apply each_ok. apply each_ok in Hn. eapply Forall_impl; [exact Hn|]. intros r Hr'. cbn beta in Hr' |- *.
    rewrite <-Hr'. f_equal. f_equal. destruct (ParseAddr _); [|done]. apply existsb_perm, filter_perm. by rewrite H5. }
  cbn [err_bind].
  assert (validateContainerTopology (eff_Config (in_Policy j)) (DockerNets j) (DockerNets6 j) = inr tt) as ->.
  { unfold validateContainerTopology in *. apply err_bind_ok in Ht as (v4 & E4 & Ht). apply err_bind_ok in Ht as (v6 & E6 & Ht).
    by rewrite (observed_perm _ _ _ _ H5 E4), (observed_perm _ _ _ _ H6 E6). }
  cbn [err_bind]. f_equal.
  assert (script_lines go_syntax i g = script_lines go_syntax j g) as ->; [|done].
  unfold script_lines, emitFilter, emitNAT. rewrite Hp.
  by rewrite (emitSet_perm "blocked_v4" _ _ _ false H1), (emitSet_perm "blocked_v6" _ _ _ false H2), (emitSet_perm "wg_bootstrap_v4" _ _ _ false H3),
    (emitSet_perm "wg_bootstrap_v6" _ _ _ false H4), (emitSet_perm "docker_nets" _ _ _ false H5), (emitSet_perm "docker_nets6" _ _ _ false H6),
    (emitSet_perm "docker_nets_nat" _ _ _ false H5).
Qed.
Definition sample_reordered : Input :=
  mkInput (effective sample) ["192.0.2.7/32"; "198.51.100.0/24"] ["2001:db8::/48"] ["203.0.113.7/32"] [] ["172.30.0.0/24"] [].
Lemma sample_reordered_same : same_observations sample_input sample_reordered.
Proof. unfold same_observations. simpl. split; [done|]. split; [apply Permutation_swap|]. done. Qed.
Lemma observation_order_irrelevant_witness :
  sample_reordered ≠ sample_input ∧ Compile (λ _, "sample") sample_reordered 7 = inr compiled_sample.
Proof.
  split; [intros E; injection E; discriminate|].
  exact (observation_order_irrelevant (λ _, "sample") sample_input sample_reordered 7 compiled_sample sample_reordered_same compiled_sample_eq).
Defined.

(** ** Where the host may send *)

Definition mentions (line fragment : string) : Prop := ∃ a b, line = a +:+ fragment +:+ b.
Lemma mentions_cat l fragment : fragment ∈ l → mentions (cat l) fragment.
Proof.
  intros H. apply list_elem_of_split in H as (l1 & l2 & ->). exists (cat l1), (cat l2). by rewrite cat_app; unfold cat; rewrite fold_right_app.
Qed.
Lemma mentions_trans a b d : mentions a b → mentions b d → mentions a d.
Proof.
  intros (x & y & ->) (u & v & ->). exists (x +:+ u), (v +:+ y). by rewrite <-!string_app_assoc.
Qed.
Definition leaves_by (interface : string) : string := "oifname " +:+ quote interface.

Section egress.
Context (c : Config) (Hv : valid_config c).
Let e : Effective := effective c.

(** A destination selector without the tunnel names an interface of the zone, or one
    of its networks that starts in local address space. *)
Lemma unpinned_selector z s : z ∈ Zones c → zone_Name z ≠ "any" → s ∈ zoneSelectors (zone_Name z) true e → RequiresVPN s = false →
  (∃ i, i ∈ Interfaces c ∧ member i z ∧ mentions (Expression s) (leaves_by (in_Name i))) ∨
  (∃ n, n ∈ zone_Networks z ∧ destinationRequiresVPN n = false ∧ mentions (Expression s) (addressMatch n "daddr")).
Proof.
  intros Hz Hany. unfold zoneSelectors. destruct (String.eqb _ "host"); [set_solver|]. destruct (String.eqb_spec (zone_Name z) "any") as [|_]; [done|].
  change (eff_Zones e) with (zone_map (Zones c)). rewrite (proj2 (zone_map_lookup _ _ z (vc_zone_names _ Hv)) (conj Hz eq_refl)).
  assert (∀ n, n ∈ zone_members e (zone_Name z) z → ∃ i, i ∈ Interfaces c ∧ member i z ∧ in_Name i = n) as Hm.
  { intros n Hn%squeeze_sub. apply elem_of_sort_by in Hn. apply elem_of_app in Hn as [Hn|Hn].
    - pose proof (vc_zones _ Hv) as H. rewrite list.Forall_forall in H. destruct (H z Hz) as (_ & _ & Hin).
      pose proof Hn as Hn'. apply Hin in Hn. apply list_elem_of_fmap in Hn as (i & -> & Hi). exists i. split; [done|]. split; [by right|done].
    - apply list_elem_of_fmap in Hn as (i & -> & Hi). apply list_elem_of_In, filter_In in Hi as [Hi Hin]. exists i.
      split; [by apply list_elem_of_In|]. split; [left; by apply String.eqb_eq|done]. }
  assert (∀ s, s ∈ map (network_selector "daddr") (zone_Networks z) → RequiresVPN s = false →
    ∃ n, n ∈ zone_Networks z ∧ destinationRequiresVPN n = false ∧ Expression s = addressMatch n "daddr") as Hnet.
  { intros x (n & -> & Hn)%list_elem_of_fmap Hr. by exists n. }
  destruct (map _ (zone_Networks z)) as [|x l] eqn:El.
  - intros (n & Hs & (i & Hi & Hmi & <-)%Hm)%list_elem_of_bind _. left. exists i. split; [done|]. split; [done|].
    unfold both_families in Hs. rewrite !elem_of_cons, elem_of_nil in Hs.
    destruct Hs as [->|[->|[]]]; cbn [Expression]; rewrite cat_app; cbn [fold_right];
      [exists "", (" " +:+ "meta nfproto ipv4")|exists "", (" " +:+ "meta nfproto ipv6")]; unfold leaves_by; by rewrite <-string_app_assoc.
  - destruct (zone_members e (zone_Name z) z) as [|i0 l0] eqn:Ei.
    + intros Hs Hr. right. destruct (Hnet _ Hs Hr) as (n & Hn & Hd & ->). exists n. split; [done|]. split; [done|]. exists "", "".
      by rewrite (string_app_nil_r (addressMatch n "daddr")).
    + intros (y & Hs & Hy)%list_elem_of_bind Hr. apply list_elem_of_fmap in Hs as (n & -> & Hn). cbn [RequiresVPN Expression] in *.
      right. destruct (Hnet _ Hy Hr) as (m & Hm' & Hd & ->). exists m. split; [done|]. split; [done|]. apply mentions_cat. set_solver.
Qed.

(** C22: The host's traffic and the tunnel.  Every rule an allow policy adds to the
    output chain leaves by the WireGuard interface, or names an interface that is not
    the physical uplink, or is confined to a declared network whose first address is
    private, link-local or loopback. *)
Theorem output_pinned line : line ∈ emitPolicies e "output" "allow" →
  mentions line (leaves_by (wg_Interface (WireGuard c))) ∨
  (∃ i, i ∈ Interfaces c ∧ in_Role i ≠ "uplink" ∧ mentions line (leaves_by (in_Name i))) ∨
  (∃ z n p, z ∈ Zones c ∧ n ∈ zone_Networks z ∧ ParsePrefix n = Some p ∧
     (IsPrivate (pfx_addr p) || IsLinkLocalUnicast (pfx_addr p) || IsLoopback (pfx_addr p)) = true ∧
     mentions line (addressMatch n "daddr")).
Proof.
  intros (p & Hl & Hp)%list_elem_of_bind. apply list_elem_of_In, filter_In in Hp as [Hp Happ]. apply list_elem_of_In in Hp.
  apply elem_of_sort_by in Hp. change (Policies (eff_Config e)) with (Policies c) in Hp.
  apply andb_true_iff in Happ as [_ Happ]. change (policyAppliesToChain p "output") with (is_one_of (pol_From p) ["host"; "any"] && negb (String.eqb (pol_To p) "host")) in Happ. apply andb_true_iff in Happ as [Hfrom Hto%negb_true_iff].
  apply is_one_of_spec in Hfrom. apply String.eqb_neq in Hto.
  destruct (eff_Svcs e !! pol_Service p) as [svc|]; [|set_solver]. change (line ∈ map (output_rule e p svc) (zoneSelectors (pol_To p) true e)) in Hl.
  apply list_elem_of_fmap in Hl as (dst & -> & Hd). unfold output_rule.
  destruct (String.eqb (pol_To p) "any" || RequiresVPN dst) eqn:Epin.
  { left. eapply mentions_trans; [apply (mentions_cat _ (to_vpn e)); set_solver|]. exists "", " ". unfold to_vpn, leaves_by, cat. cbn [fold_right].
    by rewrite <-string_app_assoc. }
  apply orb_false_iff in Epin as [Hany%String.eqb_neq Hr].
  pose proof (vc_policies _ Hv) as Hps. rewrite list.Forall_forall in Hps. specialize (Hps p Hp).
  destruct (po_to _ _ Hps) as [Hin|Hin]; [set_solver|]. apply list_elem_of_fmap in Hin as (z & Ez & Hz). rewrite Ez in Hd.
  destruct (unpinned_selector z dst Hz ltac:(congruence) Hd Hr) as [(i & Hi & Hm & Hment)|(n & Hn & Hdr & Hment)].
  - right. left. exists i. split; [done|]. split.
    + eapply (po_uplink _ _ Hps); [done| |done|done|done|done]. set_solver.
    + eapply mentions_trans; [apply (mentions_cat _ (Expression dst)); set_solver|done].
  - right. right. unfold destinationRequiresVPN in Hdr. destruct (ParsePrefix n) as [q|] eqn:Eq; [|done]. exists z, n, q.
    split; [done|]. split; [done|]. split; [done|]. split.
    + destruct (IsPrivate _), (IsLinkLocalUnicast _), (IsLoopback _); done.
    + eapply mentions_trans; [apply (mentions_cat _ (Expression dst)); set_solver|done].
Qed.
End egress.
Definition host_out_line : string :=
  cat ["        meta nfproto ipv4 oifname "; quoted "wg0"; "  accept comment "; quoted "nftfw-policy:host-out"].
Lemma host_out_emitted : host_out_line ∈ emitPolicies (effective sample) "output" "allow".
Proof. apply list_elem_of_In. vm_compute. left. reflexivity. Qed.
Lemma output_pinned_witness :
  host_out_line ∈ emitPolicies (effective sample) "output" "allow" ∧
  (mentions host_out_line (leaves_by "wg0") ∨
   (∃ i, i ∈ Interfaces sample ∧ in_Role i ≠ "uplink" ∧ mentions host_out_line (leaves_by (in_Name i))) ∨
   (∃ z n p, z ∈ Zones sample ∧ n ∈ zone_Networks z ∧ ParsePrefix n = Some p ∧
      (IsPrivate (pfx_addr p) || IsLinkLocalUnicast (pfx_addr p) || IsLoopback (pfx_addr p)) = true ∧
      mentions host_out_line (addressMatch n "daddr"))).
Proof.
  split; [exact host_out_emitted|].
  exact (output_pinned sample (Validate_valid sample sample_valid) host_out_line host_out_emitted).
Defined.

(** ** What the compiler does with the networks it is given *)

Definition with_lan (network : string) (p : Policy) : Config :=
  mkConfig (System sample) sample_interfaces [mkZone "lan" [network] ["lan0"]; mkZone "web" ["172.30.0.0/24"] []] (Services sample) [p]
    (Config.NAT sample) (WireGuard sample) (Runtime sample) (State sample) (Integrations sample) (DockerNetworks sample)
    (ThreatFeeds sample) (GeoSets sample).
Definition observed (c : Config) : Input := mkInput (effective c) [] [] ["203.0.113.7/32"] [] ["172.30.0.0/24"] [].

(** A network is validated with its surrounding space trimmed and compiled as it is
    written.  A trailing newline therefore ends the rule early: the script of an accepted
    configuration opens a service to every source where the policy names one network,
    and the guard of the nft backend accepts it. *)
Theorem newline_opens_service :
  match Compile (λ _, "sample") (observed (with_lan ("192.168.10.0/24" +:+ newline) (mkPolicy "lan-ssh" "lan" "host" "ssh" "allow"))) 7 with
  | inr a => validateScript (art_Script a) = None ∧
             cat [" tcp dport { 22 } accept comment "; quoted "nftfw-policy:lan-ssh"] ∈ split_string lf (art_Script a)
  | inl _ => False
  end.
Proof. vm_compute. split; [reflexivity|]. repeat first [left; reflexivity|right]. Qed.

(** Whether a destination needs the tunnel is decided by the first address of its
    network alone: a zone that covers public addresses, behind an interface that is not
    the physical uplink, is reached from the host without the WireGuard interface. *)
Theorem wide_network_unpinned :
  let c := with_lan "10.0.0.0/5" (mkPolicy "host-lan" "host" "lan" "ssh" "allow") in
  Validate c = inr tt ∧ network_contains "10.0.0.0/5" (V4 134744072) = true ∧ IsPrivate (V4 134744072) = false ∧
  emitPolicies (effective c) "output" "allow" =
    [cat ["        oifname "; quoted "lan0"; " ip daddr 10.0.0.0/5 tcp dport { 22 } accept comment "; quoted "nftfw-policy:host-lan"]].
Proof. vm_compute. done. Qed.

Definition precedes (a b : string) (l : list string) : Prop := ∃ l1 l2 l3, l = (l1 ++ a :: l2 ++ b :: l3)%list.

(** In every compiled input chain the temporary leases come before the block sets, as
    the documentation says; explain answers the other way round and names the block
    for a source that holds a lease. *)
Theorem lease_before_block :
  (∀ e protocol line, protocol ∈ ["tcp"; "udp"] → line ∈ trusted_lines e protocol →
     precedes line (commented "ip saddr @blocked_v4 drop" "nftfw:block-v4") (input_chain e)) ∧
  let d := ExplainEffective (effective sample) (mkQuery "198.51.100.9" "host" "tcp" 22)
             (mkContext ["198.51.100.0/24"] ["198.51.100.9/32"]) in
  d_Action d = "deny" ∧ d_Rule d = "nftfw:block-source".
Proof.
  split; [|vm_compute; done]. intros e protocol line Hp Hl.
  assert (line ∈ (trusted_lines e "tcp" ++ trusted_lines e "udp")%list) as (l1 & l2 & E)%list_elem_of_split by set_solver.
  unfold input_chain. cbv zeta. generalize (commented "ip saddr @blocked_v4 drop" "nftfw:block-v4"). intros b.
  rewrite (app_assoc (trusted_lines e "tcp")), E. rewrite !(app_assoc _ _ ((l1 ++ line :: l2) ++ _)). rewrite <-!(app_assoc l1).
  match goal with |- precedes _ _ (?x ++ l1 ++ (line :: l2) ++ ?y ++ ?z ++ [b; ?d] ++ ?t)%list =>
    generalize x y z d t end. intros x y z d t.
  exists (x ++ l1)%list, (l2 ++ y ++ z)%list, (d :: t). by simplify_list_eq.
Qed.

(** A policy to any destination is compiled for the forward and output chains only,
    while explain applies it to the host as well: no policy to "any" puts a rule into an
    input chain, and explain allows a flow to the host that every chain drops. *)
Theorem any_destination_skips_host :
  (∀ p, pol_To p = "any" → policyAppliesToChain p "input" = false) ∧
  let c := with_lan "192.168.10.0/24" (mkPolicy "lan-any" "lan" "any" "ssh" "allow") in
  Validate c = inr tt ∧ emitPolicies (effective c) "input" "allow" = [] ∧
  d_Rule (Explain (effective c) (mkQuery "192.168.10.9" "host" "tcp" 22)) = "nftfw-policy:lan-any".
Proof. split; [|vm_compute; done]. intros p E. unfold policyAppliesToChain. by rewrite E. Qed.
