(* ===== verification/Intent.v ===== *)
(** The managed intent (internal/intent/intent.go): the small desired state of managed
    setup, its validation and edits, and the advanced configuration it expands into. The
    TOML encoder and decoder are parameters; the file checks of Load are I/O. *)

From S2P Require Import Prelude GoStrings Netip GoPath Config Discovery WgConfig Compiled.
From S2P Require PolicyModel Compiler NftScript Manager.
From Stdlib Require Import Ascii String.
Local Open Scope string_scope.
Local Open Scope Z_scope.
Local Open Scope check_scope.
Abbreviation length := List.length.
Abbreviation Cfg := Config.Config.

Definition Schema : string := "nftfw.intent.v1".
Definition VPNInterface : string := "nftfw0".
Definition VPNFwmark : string := "0xca6c".
Definition VPNConfig : string := "/etc/wireguard/nftfw0.conf".
Definition v4_prefix (a b c d : N) (bits : N) : Prefix := mkPrefix (V4 (of_bytes [a; b; c; d])) bits.
Definition managedDockerReservedIPv4 : list Prefix :=
  [v4_prefix 0 0 0 0 8; v4_prefix 127 0 0 0 8; v4_prefix 169 254 0 0 16; v4_prefix 224 0 0 0 4; v4_prefix 240 0 0 0 4].

Record Intent := mkIntent {
  i_Schema : string; i_Managed : bool; i_Uplink : string; i_VPNInterface : string;
  i_LANNetworks : list string; i_ManagementTCP : list Z; i_LANAllowTCP : list Z; i_LANAllowUDP : list Z;
  i_PublicTCP : list Z; i_PublicUDP : list Z; i_VPNAddresses : list string;
  i_EndpointHost : string; i_EndpointPort : Z; i_BootstrapIPv4 : list string; i_DNS : list string; i_MTU : Z;
  i_ResolverMode : string; i_DisableIPv6 : bool; i_DockerEnabled : bool; i_DockerNetworks : list DockerNetwork
}.
Definition intent_error (code : string) : err := Errorf code [].

(** ** Lists *)

Fixpoint valid_ports (seen : gset Z) (ports : list Z) : bool :=
  match ports with
  | [] => true
  | p :: ports' => if (p <? 1) || (65535 <? p) || bool_decide (p ∈ seen) then false else valid_ports ({[p]} ∪ seen) ports'
  end.
Definition validPorts (ports : list Z) : bool := valid_ports ∅ ports.
Fixpoint keep_ports (seen : gset Z) (values : list Z) : list Z :=
  match values with
  | [] => []
  | v :: values' =>
      if (1 <=? v) && (v <=? 65535) && negb (bool_decide (v ∈ seen)) then v :: keep_ports ({[v]} ∪ seen) values'
      else keep_ports seen values'
  end.
Definition uniquePorts (values : list Z) : list Z := sort_by Z.leb (keep_ports ∅ values).
Definition removePorts (current remove : list Z) : list Z :=
  uniquePorts (List.filter (λ v, negb (existsb (Z.eqb v) remove)) current).
(** The texts are sorted before they are trimmed: only equal neighbours are dropped. *)
Definition keep_string (result : list string) (value : string) : list string :=
  let v := trim_space value in
  if negb (String.eqb v "") && match last result with Some w => negb (String.eqb w v) | None => true end then (result ++ [v])%list else result.
Definition uniqueStrings (values : list string) : list string := foldl keep_string [] (sort_strings values).

Definition set_pairs (n : DockerNetwork) (pairs : list (string * string)) : DockerNetwork :=
  mkDocker (dn_Name n) (dn_Driver n) (dn_BridgeInterface n) (dn_DynamicBridge n) (map fst pairs) (map snd pairs).
Definition canonicalizeDockerIPAM (n : DockerNetwork) : DockerNetwork :=
  if negb (length (dn_Subnets n) =? length (dn_Gateways n))%nat then n
  else set_pairs n (sort_by (λ x y, str_leb x.1 y.1) (zip (map trim_space (dn_Subnets n)) (map trim_space (dn_Gateways n)))).
Definition canonicalize (i : Intent) : Intent :=
  mkIntent (i_Schema i) (i_Managed i) (i_Uplink i) (i_VPNInterface i) (uniqueStrings (i_LANNetworks i))
    (uniquePorts (i_ManagementTCP i)) (uniquePorts (i_LANAllowTCP i)) (uniquePorts (i_LANAllowUDP i))
    (uniquePorts (i_PublicTCP i)) (uniquePorts (i_PublicUDP i)) (uniqueStrings (i_VPNAddresses i))
    (i_EndpointHost i) (i_EndpointPort i) (uniqueStrings (i_BootstrapIPv4 i)) (uniqueStrings (i_DNS i)) (i_MTU i)
    (i_ResolverMode i) (i_DisableIPv6 i) (i_DockerEnabled i)
    (map canonicalizeDockerIPAM (sort_by (λ x y, str_leb (dn_Name x) (dn_Name y)) (i_DockerNetworks i))).

(** ** Validate *)

(** [sanitizeIntentCode] of an ASCII name: at most 32 characters of the code alphabet. *)
Definition to_upper_char (c : ascii) : ascii := if is_lower c then ascii_of_N (code c - 32) else c.
Definition code_char (c : ascii) : ascii := if is_upper c || is_digit c then c else "_"%char.
Definition sanitizeIntentCode (value : string) : string :=
  let l := take 32 (map (λ c, code_char (to_upper_char c)) (chars value)) in
  match l with [] => "UNKNOWN" | _ => of_chars l end.

Definition masked_prefixes (l : list string) : list Prefix := omap (λ raw, Masked <$> ParsePrefix raw) l.
Definition overlaps_any (p : Prefix) (l : list Prefix) : bool := existsb (Overlaps p) l.
Definition check_docker_subnet (lan vpn bootstrap : list Prefix) (name : string) (docker : list (string * Prefix)) (raw : string)
    : err + list (string * Prefix) :=
  p <-? of_option (ParsePrefix (trim_space raw)) (intent_error "INTENT_DOCKER_SUBNET_INVALID") ;;
  fails (negb (Is4 (pfx_addr p)) || (pfx_bits p =? 0)%N || negb (String.eqb (prefix_String p) (prefix_String (Masked p))))
    (intent_error "INTENT_DOCKER_SUBNET_INVALID") then?
  let prefix := Masked p in
  fails (overlaps_any prefix managedDockerReservedIPv4) (intent_error "INTENT_DOCKER_SUBNET_OVERLAPS_RESERVED") then?
  fails (overlaps_any prefix lan) (intent_error "INTENT_DOCKER_SUBNET_OVERLAPS_LAN") then?
  fails (overlaps_any prefix vpn) (intent_error "INTENT_DOCKER_SUBNET_OVERLAPS_VPN") then?
  fails (overlaps_any prefix bootstrap) (intent_error "INTENT_DOCKER_SUBNET_OVERLAPS_BOOTSTRAP") then?
  match List.find (λ existing, Overlaps prefix existing.2) docker with
  | Some existing => inl (Errorf "INTENT_DOCKER_SUBNET_OVERLAP_%s_%s" [ArgS (sanitizeIntentCode existing.1); ArgS (sanitizeIntentCode name)])
  | None => inr (docker ++ [(name, prefix)])%list
  end.
Definition docker_subnets (l : list DockerNetwork) : list (string * string) := l ≫= λ n, map (pair (dn_Name n)) (dn_Subnets n).
Definition validateManagedDockerIsolation (i : Intent) : err + unit :=
  fold_err (λ docker s, check_docker_subnet (masked_prefixes (i_LANNetworks i)) (masked_prefixes (i_VPNAddresses i))
                          (masked_prefixes (i_BootstrapIPv4 i)) s.1 docker s.2) [] (docker_subnets (i_DockerNetworks i)) then?
  inr tt.

Definition each_prefix (bad : Prefix → bool) (code : string) (l : list string) : err + unit :=
  each (λ raw, fails (match ParsePrefix raw with Some p => bad p | None => true end) (intent_error code)) l.
Definition port_lists (i : Intent) : list (list Z) := [i_ManagementTCP i; i_LANAllowTCP i; i_LANAllowUDP i; i_PublicTCP i; i_PublicUDP i].
Definition Validate (i : Intent) : err + unit :=
  fails (negb (String.eqb (i_Schema i) Schema) || negb (i_Managed i)) (intent_error "INTENT_SCHEMA_INVALID") then?
  fails (String.eqb (i_Uplink i) "" || negb (String.eqb (i_VPNInterface i) VPNInterface) || String.eqb (i_Uplink i) (i_VPNInterface i))
    (intent_error "INTENT_INTERFACE_INVALID") then?
  fails (negb (nonempty (i_LANNetworks i)) || negb (nonempty (i_VPNAddresses i)) || negb (nonempty (i_BootstrapIPv4 i)) ||
         String.eqb (i_EndpointHost i) "" || (i_EndpointPort i <? 1) || (65535 <? i_EndpointPort i))
    (intent_error "INTENT_REQUIRED_FIELD_MISSING") then?
  each_prefix (λ p, negb (Is4 (pfx_addr p)) || negb (IsPrivate (pfx_addr p)) || negb (String.eqb (prefix_String p) (prefix_String (Masked p))))
    "INTENT_LAN_NETWORK_INVALID" (i_LANNetworks i) then?
  each_prefix (λ p, negb (Is4 (pfx_addr p)) || (pfx_bits p =? 0)%N) "INTENT_VPN_ADDRESS_INVALID" (i_VPNAddresses i) then?
  each_prefix (λ p, negb (Is4 (pfx_addr p)) || negb (pfx_bits p =? 32)%N) "INTENT_BOOTSTRAP_INVALID" (i_BootstrapIPv4 i) then?
  each (λ ports, fails (negb (validPorts ports)) (intent_error "INTENT_PORT_INVALID")) (port_lists i) then?
  fails (negb (i_DisableIPv6 i)) (intent_error "INTENT_IPV6_MODE_UNSUPPORTED") then?
  fails (negb (is_one_of (i_ResolverMode i) [""; "none"; "resolvectl"; "resolvconf"])) (intent_error "INTENT_RESOLVER_INVALID") then?
  fails (negb (Bool.eqb (i_DockerEnabled i) (nonempty (i_DockerNetworks i)))) (intent_error "INTENT_DOCKER_STATE_INVALID") then?
  validateManagedDockerIsolation i.

(** ** New *)

Fixpoint bootstrap_prefixes (seen : gset string) (l : list Addr) : option (list string) :=
  match l with
  | [] => Some []
  | a :: l' =>
      if negb (Is4 a) || negb (usableAddress a) then None
      else let value := prefix_String (PrefixFrom a 32) in
           if bool_decide (value ∈ seen) then bootstrap_prefixes seen l'
           else rest ← bootstrap_prefixes ({[value]} ∪ seen) l'; Some (value :: rest)
  end.
Definition New (snapshot : Snapshot) (profile : Profile) (bootstrap : list Addr) : err + Intent :=
  ValidateCleanHost snapshot then?
  fails ((length bootstrap =? 0)%nat || (16 <? length bootstrap)%nat) (intent_error "INTENT_VPN_ENDPOINT_SET_INVALID") then?
  hosts <-? of_option (bootstrap_prefixes ∅ bootstrap) (intent_error "INTENT_VPN_ENDPOINT_SET_INVALID") ;;
  let i := canonicalize (mkIntent Schema true (Uplink snapshot) VPNInterface
    (map (λ p, prefix_String (Masked p)) (LANNetworks snapshot)) (uniquePorts (ManagementTCP snapshot)) [] [] [] []
    (map prefix_String (prof_Addresses profile)) (peer_EndpointHost (prof_Peer profile)) (Z.of_N (peer_EndpointPort (prof_Peer profile)))
    hosts (map addr_String (prof_DNS profile)) (prof_MTU profile) "" true
    (DockerPresent snapshot && nonempty (snap_DockerNetworks snapshot)) (snap_DockerNetworks snapshot)) in
  Validate i then? inr i.

(** ** The configuration *)

Definition tcpMSS (mtu : Z) : Z :=
  if mtu =? 0 then 1360 else let v := mtu - 60 in if v <? 536 then 536 else if 8960 <? v then 8960 else v.
Definition service_of (name protocol : string) (ports : list Z) : list Service :=
  if nonempty ports then [mkService name protocol ports] else [].
Definition policy_of (ports : list Z) (policyName from to name : string) : list Policy :=
  if nonempty ports then [mkPolicy policyName from to name "allow"] else [].
(** The calls of [addServicePolicy]. *)
Definition intent_services (i : Intent) : list Service :=
  ([mkService "all-outbound" "any" []] ++ service_of "management-tcp" "tcp" (i_ManagementTCP i) ++ service_of "lan-allow-tcp" "tcp" (i_LANAllowTCP i) ++
   service_of "lan-allow-udp" "udp" (i_LANAllowUDP i) ++ service_of "public-tcp" "tcp" (i_PublicTCP i) ++ service_of "public-udp" "udp" (i_PublicUDP i))%list.
Definition intent_policies (i : Intent) : list Policy :=
  ([mkPolicy "host-all-outbound" "host" "any" "all-outbound" "allow"] ++
   policy_of (i_ManagementTCP i) "lan-management" "lan" "host" "management-tcp" ++ policy_of (i_LANAllowTCP i) "lan-allow-tcp" "lan" "host" "lan-allow-tcp" ++
   policy_of (i_LANAllowUDP i) "lan-allow-udp" "lan" "host" "lan-allow-udp" ++ policy_of (i_PublicTCP i) "public-tcp" "public-vpn" "host" "public-tcp" ++
   policy_of (i_PublicUDP i) "public-udp" "public-vpn" "host" "public-udp" ++
   (if i_DockerEnabled i then [mkPolicy "containers-all-outbound" "containers" "any" "all-outbound" "allow"] else []))%list.
Definition docker_interface (index : nat) (n : DockerNetwork) : Interface :=
  mkInterface (dn_BridgeInterface n) "container" "containers" (dn_Subnets n) ("docker:" +:+ dn_Name n) (N.of_nat (index + 3)).
Definition intent_interfaces (i : Intent) : list Interface :=
  ([mkInterface (i_Uplink i) "uplink" "uplink" [] "" 1; mkInterface (i_VPNInterface i) "vpn" "public-vpn" (i_VPNAddresses i) "" 2] ++
   (if i_DockerEnabled i then imap docker_interface (i_DockerNetworks i) else []))%list.
Definition intent_zones (i : Intent) : list Zone :=
  ([mkZone "uplink" [] [i_Uplink i]; mkZone "lan" (i_LANNetworks i) []; mkZone "public-vpn" [] [i_VPNInterface i]] ++
   (if i_DockerEnabled i
    then [mkZone "containers" (uniqueStrings (i_DockerNetworks i ≫= dn_Subnets)) (uniqueStrings (map dn_BridgeInterface (i_DockerNetworks i)))] else []))%list.
Definition generated (i : Intent) : Cfg :=
  let d := Defaults in let w := WireGuard d in let r := Runtime d in let g := Integrations d in
  mkConfig (mkSystem "disabled" true) (intent_interfaces i) (intent_zones i) (intent_services i) (intent_policies i) (NAT d)
    (mkWireGuard (i_VPNInterface i) (i_EndpointHost i) (i_EndpointPort i) VPNFwmark (i_BootstrapIPv4 i) [] [] (KeepRecent w)
       (tcpMSS (i_MTU i)) VPNConfig (HandshakeSecond w))
    (mkRuntime (MaxBlockClaims r) (MaxSetMembers r) (SafeApplySeconds r)
       (if nonempty (i_ManagementTCP i) then ["management-tcp"] else TrustedServices r))
    (State d) (mkIntegrations (i_DockerEnabled i || DockerEnabled g) (ThreatFeed g) (GeoIP g) (Notifications g))
    (if i_DockerEnabled i then i_DockerNetworks i else DockerNetworks d) (ThreatFeeds d) (GeoSets d).
Definition Config (i : Intent) : err + Cfg :=
  let i := canonicalize i in
  Validate i then?
  fails (i_DockerEnabled i && (251 <? length (i_DockerNetworks i) - 1)%nat) (intent_error "INTENT_DOCKER_NETWORK_LIMIT") then?
  wrap_err "generated managed configuration: %w" [] (Config.Validate (generated i)) then?
  inr (generated i).

(** ** Reading and writing *)

Definition line (s : string) : string := s +:+ of_chars [ascii_of_nat 10].
Definition Render (encode : Intent → err + string) (i : Intent) : err + string :=
  let i := canonicalize i in
  Validate i then?
  text <-? wrap_err "encode managed intent: %w" [] (encode i) ;;
  inr (line "# Managed by NFT Firewall V2. Use nftfw commands; do not edit directly." +:+ text).
Definition RenderConfig (encode : Cfg → err + string) (c : Cfg) : err + string :=
  Config.Validate c then?
  text <-? wrap_err "encode generated configuration: %w" [] (encode c) ;;
  inr (line "# Generated by NFT Firewall V2 managed setup." +:+
       line "# Use nftfw expose/lan commands or switch explicitly to advanced mode." +:+ text).
Definition Decode (decode : string → option (Intent * list string)) (data : string) : err + Intent :=
  r <-? of_option (decode data) (intent_error "INTENT_DECODE_FAILED") ;;
  fails (nonempty r.2) (intent_error "INTENT_FIELD_UNSUPPORTED") then?
  let i := canonicalize r.1 in
  Validate i then? inr i.

(** ** Edits: the receiver is changed even when the error is not nil *)

Definition set_public_tcp (v : list Z) (i : Intent) : Intent :=
  mkIntent (i_Schema i) (i_Managed i) (i_Uplink i) (i_VPNInterface i) (i_LANNetworks i) (i_ManagementTCP i) (i_LANAllowTCP i) (i_LANAllowUDP i)
    v (i_PublicUDP i) (i_VPNAddresses i) (i_EndpointHost i) (i_EndpointPort i) (i_BootstrapIPv4 i) (i_DNS i) (i_MTU i)
    (i_ResolverMode i) (i_DisableIPv6 i) (i_DockerEnabled i) (i_DockerNetworks i).
Definition set_public_udp (v : list Z) (i : Intent) : Intent :=
  mkIntent (i_Schema i) (i_Managed i) (i_Uplink i) (i_VPNInterface i) (i_LANNetworks i) (i_ManagementTCP i) (i_LANAllowTCP i) (i_LANAllowUDP i)
    (i_PublicTCP i) v (i_VPNAddresses i) (i_EndpointHost i) (i_EndpointPort i) (i_BootstrapIPv4 i) (i_DNS i) (i_MTU i)
    (i_ResolverMode i) (i_DisableIPv6 i) (i_DockerEnabled i) (i_DockerNetworks i).
Definition set_lan_tcp (v : list Z) (i : Intent) : Intent :=
  mkIntent (i_Schema i) (i_Managed i) (i_Uplink i) (i_VPNInterface i) (i_LANNetworks i) (i_ManagementTCP i) v (i_LANAllowUDP i)
    (i_PublicTCP i) (i_PublicUDP i) (i_VPNAddresses i) (i_EndpointHost i) (i_EndpointPort i) (i_BootstrapIPv4 i) (i_DNS i) (i_MTU i)
    (i_ResolverMode i) (i_DisableIPv6 i) (i_DockerEnabled i) (i_DockerNetworks i).
Definition set_lan_udp (v : list Z) (i : Intent) : Intent :=
  mkIntent (i_Schema i) (i_Managed i) (i_Uplink i) (i_VPNInterface i) (i_LANNetworks i) (i_ManagementTCP i) (i_LANAllowTCP i) v
    (i_PublicTCP i) (i_PublicUDP i) (i_VPNAddresses i) (i_EndpointHost i) (i_EndpointPort i) (i_BootstrapIPv4 i) (i_DNS i) (i_MTU i)
    (i_ResolverMode i) (i_DisableIPv6 i) (i_DockerEnabled i) (i_DockerNetworks i).
Definition checked (i : Intent) : Intent * (err + unit) := (i, Validate i).
Definition AddExposure (protocol : string) (ports : list Z) (i : Intent) : Intent * (err + unit) :=
  if negb (is_one_of protocol ["tcp"; "udp"]) then (i, inl (intent_error "INTENT_PROTOCOL_INVALID"))
  else if negb (validPorts ports) then (i, inl (intent_error "INTENT_PORT_INVALID"))
  else checked (if String.eqb protocol "tcp" then set_public_tcp (uniquePorts (i_PublicTCP i ++ ports)) i
                else set_public_udp (uniquePorts (i_PublicUDP i ++ ports)) i).
Definition edit_error (protocol : string) (ports : list Z) : bool := negb (is_one_of protocol ["tcp"; "udp"]) || negb (validPorts ports).
Definition RemoveExposure (protocol : string) (ports : list Z) (i : Intent) : Intent * (err + unit) :=
  if edit_error protocol ports then (i, inl (intent_error "INTENT_PORT_INVALID"))
  else checked (if String.eqb protocol "tcp" then set_public_tcp (removePorts (i_PublicTCP i) ports) i
                else set_public_udp (removePorts (i_PublicUDP i) ports) i).
Definition AddLAN (protocol : string) (ports : list Z) (i : Intent) : Intent * (err + unit) :=
  if edit_error protocol ports then (i, inl (intent_error "INTENT_PORT_INVALID"))
  else checked (if String.eqb protocol "tcp" then set_lan_tcp (uniquePorts (i_LANAllowTCP i ++ ports)) i
                else set_lan_udp (uniquePorts (i_LANAllowUDP i ++ ports)) i).
Definition RemoveLAN (protocol : string) (ports : list Z) (i : Intent) : Intent * (err + unit) :=
  if edit_error protocol ports then (i, inl (intent_error "INTENT_PORT_INVALID"))
  else checked (if String.eqb protocol "tcp" then set_lan_tcp (removePorts (i_LANAllowTCP i) ports) i
                else set_lan_udp (removePorts (i_LANAllowUDP i) ports) i).

(** ** What the ports lists hold *)

Lemma elem_of_keep_ports seen l p : p ∈ keep_ports seen l ↔ p ∈ l ∧ p ∉ seen ∧ port_ok p.
Proof.
  unfold port_ok. revert seen. induction l as [|v l IH]; intros seen; cbn [keep_ports]; [set_solver|].
  destruct (_ && _) eqn:E.
  - apply andb_true_iff in E as [[E1 E2]%andb_true_iff E3%negb_true_iff%bool_decide_eq_false]. rewrite !elem_of_cons, IH, not_elem_of_union, not_elem_of_singleton.
    destruct (decide (p = v)) as [->|]; [|naive_solver]. split; [intros _|by left]. split; [by left|]. split; [done|lia].
  - rewrite IH, elem_of_cons. split; [naive_solver|]. intros ([->|H1] & H2 & H3); [|done]. exfalso.
    rewrite (proj2 (Z.leb_le _ _)), (proj2 (Z.leb_le _ _)), bool_decide_eq_false_2 in E by (done || lia). done.
Qed.
Lemma elem_of_uniquePorts l p : p ∈ uniquePorts l ↔ p ∈ l ∧ port_ok p.
Proof. unfold uniquePorts. rewrite elem_of_sort_by, elem_of_keep_ports. set_solver. Qed.
Lemma elem_of_removePorts l r p : p ∈ removePorts l r ↔ p ∈ l ∧ p ∉ r ∧ port_ok p.
Proof.
  unfold removePorts. rewrite elem_of_uniquePorts, !list_elem_of_In, filter_In, negb_true_iff, <-not_true_iff_false, existsb_exists. setoid_rewrite <-list_elem_of_In.
  assert ((∃ x, x ∈ r ∧ (p =? x) = true) ↔ p ∈ r) as ->; [|naive_solver]. split; [intros (x & Hx & ->%Z.eqb_eq); done|].
  intros H. exists p. split; [done|]. by apply Z.eqb_eq.
Qed.
Lemma valid_ports_ok seen l : valid_ports seen l = true → Forall port_ok l.
Proof.
  unfold port_ok. revert seen. induction l as [|v l IH]; intros seen; cbn [valid_ports]; [constructor|]. destruct (_ || _) eqn:E; [done|]. intros H.
  apply orb_false_iff in E as [[E1 E2]%orb_false_iff _]. constructor; [lia|by eapply IH].
Qed.
Lemma elem_of_keep_string acc v x : x ∈ keep_string acc v ↔ x ∈ acc ∨ (x = trim_space v ∧ x ≠ "" ∧ keep_string acc v ≠ acc).
Proof.
  unfold keep_string. cbv zeta. destruct (_ && _) eqn:E; [|naive_solver]. apply andb_true_iff in E as [E%negb_true_iff%String.eqb_neq _].
  rewrite elem_of_app, list_elem_of_singleton. split; [|naive_solver]. intros [H| ->]; [by left|right]. split; [done|]. split; [done|].
  intros H%(f_equal length). rewrite length_app in H. simpl in H. lia.
Qed.
Lemma uniqueStrings_trimmed l x : x ∈ uniqueStrings l → ∃ y, y ∈ l ∧ x = trim_space y.
Proof.
  unfold uniqueStrings. assert (∀ k acc, x ∈ foldl keep_string acc k → x ∈ acc ∨ ∃ y, y ∈ k ∧ x = trim_space y) as H.
  { induction k as [|v k IH]; intros acc; simpl; [by left|]. intros [[H|(-> & _ & _)]%elem_of_keep_string|(y & Hy & ->)]%IH; [by left| |].
    - right. exists v. split; [by left|done]. - right. exists y. split; [by right|done]. }
  intros [[]%elem_of_nil|(y & Hy & ->)]%H. exists y. split; [|done]. by apply (elem_of_sort_by str_leb).
Qed.

(** ** The generated configuration *)

Lemma Config_ok i c : Config i = inr c → c = generated (canonicalize i) ∧ Validate (canonicalize i) = inr tt ∧ Config.Validate c = inr tt.
Proof.
  unfold Config. cbv zeta. intros H. apply err_bind_ok in H as ([] & H1 & H). apply err_bind_ok in H as (? & _ & H).
  apply err_bind_ok in H as ([] & H2 & [= <-]). by apply wrap_err_ok in H2.
Qed.

(** What the intent lets a host-bound flow do, by the zone of its source. *)
Definition granted (j : Intent) (zone protocol : string) (port : Z) : Prop :=
  zone = "host" ∨
  zone = "lan" ∧ (protocol = "tcp" ∧ port ∈ i_ManagementTCP j ∨ protocol = "tcp" ∧ port ∈ i_LANAllowTCP j ∨ protocol = "udp" ∧ port ∈ i_LANAllowUDP j) ∨
  zone = "public-vpn" ∧ (protocol = "tcp" ∧ port ∈ i_PublicTCP j ∨ protocol = "udp" ∧ port ∈ i_PublicUDP j) ∨
  zone = "containers" ∧ i_DockerEnabled j = true.
Definition source_is (q : PolicyModel.Query) (p : Addr → bool) : Prop := ∃ a, ParseAddr (PolicyModel.q_From q) = Some a ∧ p a = true.

Lemma exists_app {A} (P : A → Prop) l k : (∃ p, p ∈ (l ++ k)%list ∧ P p) ↔ (∃ p, p ∈ l ∧ P p) ∨ (∃ p, p ∈ k ∧ P p).
Proof. setoid_rewrite elem_of_app. naive_solver. Qed.
Lemma exists_one {A} (P : A → Prop) x : (∃ p, p ∈ [x] ∧ P p) ↔ P x.
Proof. setoid_rewrite list_elem_of_singleton. naive_solver. Qed.
Lemma nonempty_true {A} (l : list A) : nonempty l = true ↔ l ≠ [].
Proof. by destruct l. Qed.

Ltac listed := repeat (first [by left | right]).

Section access.
Context (j : Intent) (Hv : valid_config (generated j)).
Abbreviation c := (generated j).
Abbreviation e := (PolicyModel.effective c).

Lemma service_found name protocol ports : mkService name protocol ports ∈ intent_services j →
    PolicyModel.eff_Svcs e !! name = Some (mkService name protocol ports).
  Proof using Hv. intros H. apply PolicyModel.service_map_lookup; [apply (vc_service_names _ Hv)|done]. Qed.
Lemma in_service_of name protocol ports : ports ≠ [] → mkService name protocol ports ∈ service_of name protocol ports.
  Proof. intros H. unfold service_of. rewrite (proj2 (nonempty_true _) H). by left. Qed.
Lemma intent_service name protocol ports : (name, protocol, ports) ∈
      [("management-tcp", "tcp", i_ManagementTCP j); ("lan-allow-tcp", "tcp", i_LANAllowTCP j); ("lan-allow-udp", "udp", i_LANAllowUDP j);
       ("public-tcp", "tcp", i_PublicTCP j); ("public-udp", "udp", i_PublicUDP j)] → ports ≠ [] →
    PolicyModel.eff_Svcs e !! name = Some (mkService name protocol ports).
Proof using Hv.
    intros H Hp. apply service_found. unfold intent_services. rewrite !elem_of_app. right. rewrite !elem_of_cons, elem_of_nil in H.
    destruct_or! H; try done; injection H as -> -> ->; auto 10 using in_service_of.
Qed.

Lemma policy_grants q zone name protocol ports policyName from : (name, protocol, ports) ∈
      [("management-tcp", "tcp", i_ManagementTCP j); ("lan-allow-tcp", "tcp", i_LANAllowTCP j); ("lan-allow-udp", "udp", i_LANAllowUDP j);
       ("public-tcp", "tcp", i_PublicTCP j); ("public-udp", "udp", i_PublicUDP j)] →
    from ∈ ["lan"; "public-vpn"] → PolicyModel.q_To q = "host" →
    (∃ p, p ∈ policy_of ports policyName from "host" name ∧ PolicyModel.policy_matches e q zone p = true) ↔
    zone = from ∧ PolicyModel.q_Protocol q = protocol ∧ PolicyModel.q_Port q ∈ ports.
Proof using Hv.
    intros Hin Hf Hto. unfold policy_of. destruct (decide (ports = [])) as [->|Hp].
    { simpl. setoid_rewrite elem_of_nil. naive_solver. }
    rewrite (proj2 (nonempty_true _) Hp). pose proof (intent_service _ _ _ Hin Hp) as Hs. rewrite exists_one.
    assert (protocol ∈ ["tcp"; "udp"]) as Hproto.
    { rewrite !elem_of_cons, elem_of_nil in Hin. destruct_or! Hin; try done; injection Hin as _ -> _; [by left|by left|by right; left|by left|by right; left]. }
    unfold PolicyModel.policy_matches, PolicyModel.service_matches, PolicyModel.zoneMatches, PolicyModel.destMatches. cbn [pol_Action pol_From pol_To pol_Service].
    rewrite Hs, Hto. cbn [svc_Protocol svc_Ports]. change (is_one_of "allow" ["allow"; "deny"]) with true. change (String.eqb "host" "host") with true.
    rewrite orb_true_r, !orb_true_l, andb_true_r.
    assert (String.eqb from "any" = false ∧ String.eqb from "host" = false) as [-> ->].
    { rewrite !elem_of_cons, elem_of_nil in Hf. by destruct_or! Hf; subst. }
    assert (String.eqb protocol "any" = false ∧ String.eqb protocol "icmp" = false) as [-> ->].
    { rewrite !elem_of_cons, elem_of_nil in Hproto. by destruct_or! Hproto; subst. }
    cbn [orb andb]. rewrite orb_false_r, !andb_true_iff, !String.eqb_eq. unfold PolicyModel.containsPort. rewrite existsb_exists.
    setoid_rewrite <-list_elem_of_In. setoid_rewrite Z.eqb_eq. naive_solver.
Qed.
Lemma outbound_grants q zone name from : from ∈ ["host"; "containers"] → zone = PolicyModel.sourceZone e (PolicyModel.q_From q) →
    PolicyModel.policy_matches e q zone (mkPolicy name from "any" "all-outbound" "allow") = true ↔ zone = from.
Proof using Hv.
    intros Hf Hz. pose proof (service_found "all-outbound" "any" []) as Hs. unfold PolicyModel.policy_matches, PolicyModel.service_matches, PolicyModel.zoneMatches, PolicyModel.destMatches.
    cbn [pol_Action pol_From pol_To pol_Service]. rewrite Hs by by left. cbn [svc_Protocol]. change (is_one_of "allow" ["allow"; "deny"]) with true.
    change (String.eqb "any" "any") with true. rewrite !orb_true_l, !andb_true_r. rewrite !elem_of_cons, elem_of_nil in Hf. cbn [andb].
    destruct_or! Hf; subst from.
    - change (String.eqb "host" "any") with false. change (String.eqb "host" "host") with true. cbn [orb andb].
      rewrite orb_true_iff, String.eqb_eq. split; [|naive_solver]. intros [H|H]; [done|]. subst zone. unfold PolicyModel.sourceZone. by rewrite H.
    - change (String.eqb "containers" "any") with false. change (String.eqb "containers" "host") with false. cbn [orb andb].
      rewrite orb_false_r, String.eqb_eq. naive_solver.
Qed.

Lemma intent_grants q : PolicyModel.q_To q = "host" →
    (∃ p, p ∈ intent_policies j ∧ PolicyModel.policy_matches e q (PolicyModel.sourceZone e (PolicyModel.q_From q)) p = true) ↔
    granted j (PolicyModel.sourceZone e (PolicyModel.q_From q)) (PolicyModel.q_Protocol q) (PolicyModel.q_Port q).
Proof using Hv.
    intros Hto. set (zone := PolicyModel.sourceZone e (PolicyModel.q_From q)). unfold intent_policies. rewrite !exists_app, exists_one.
    rewrite (policy_grants q zone "management-tcp" "tcp"), (policy_grants q zone "lan-allow-tcp" "tcp"), (policy_grants q zone "lan-allow-udp" "udp"),
      (policy_grants q zone "public-tcp" "tcp"), (policy_grants q zone "public-udp" "udp"), outbound_grants by (done || listed).
    assert ((∃ p, p ∈ (if i_DockerEnabled j then [mkPolicy "containers-all-outbound" "containers" "any" "all-outbound" "allow"] else []) ∧
      PolicyModel.policy_matches e q zone p = true) ↔ zone = "containers" ∧ i_DockerEnabled j = true) as ->.
    { destruct (i_DockerEnabled j); [rewrite exists_one, outbound_grants by (done || listed); naive_solver|]. setoid_rewrite elem_of_nil. naive_solver. }
    unfold granted. naive_solver.
Qed.
Lemma no_denies p : p ∈ Policies c → pol_Action p = "allow".
Proof using Hv.
    change (Policies c) with (intent_policies j). unfold intent_policies, policy_of. rewrite !elem_of_app.
    repeat match goal with |- context [if ?b then _ else _] => destruct b end; set_solver.
Qed.
Lemma trusted_management protocol port : PolicyModel.isTrustedService e protocol port = true ↔ protocol = "tcp" ∧ port ∈ i_ManagementTCP j.
Proof using Hv.
    unfold PolicyModel.isTrustedService. change (TrustedServices (Runtime (PolicyModel.eff_Config e))) with (if nonempty (i_ManagementTCP j) then ["management-tcp"] else []).
    destruct (decide (i_ManagementTCP j = [])) as [E|E]; [rewrite E; simpl; set_solver|]. rewrite (proj2 (nonempty_true _) E).
    cbn [existsb]. rewrite (intent_service "management-tcp" "tcp" (i_ManagementTCP j)) by (done || by left). cbn [svc_Protocol svc_Ports].
    rewrite orb_false_r, andb_true_iff, orb_true_iff, !String.eqb_eq. unfold PolicyModel.containsPort. rewrite existsb_exists.
    setoid_rewrite <-list_elem_of_In. setoid_rewrite Z.eqb_eq. naive_solver.
Qed.
Lemma access_allows q rt : PolicyModel.q_To q = "host" →
    let source := source_is q in
    PolicyModel.d_Action (PolicyModel.ExplainEffective e q rt) = "allow" ↔
    source IsLoopback ∨ (¬ source Is6 ∧ ¬ source (λ a, PolicyModel.addressInPrefixes a (PolicyModel.BlockedPrefixes rt)) ∧
      (source (λ a, PolicyModel.addressInPrefixes a (PolicyModel.TrustedPrefixes rt)) ∧ PolicyModel.q_Protocol q = "tcp" ∧ PolicyModel.q_Port q ∈ i_ManagementTCP j ∨
       granted j (PolicyModel.sourceZone e (PolicyModel.q_From q)) (PolicyModel.q_Protocol q) (PolicyModel.q_Port q))).
Proof using Hv.
    intros Hto. cbv zeta. rewrite (PolicyModel.explain_allows c q rt Hv). unfold PolicyModel.loopback, PolicyModel.ipv6_off, PolicyModel.blocked, PolicyModel.leased.
    rewrite !PolicyModel.when_true, Hto. change (ParseAddr "host") with (@None Addr). rewrite <-intent_grants by done. rewrite trusted_management.
    assert (∀ P : Addr → bool, (∃ a, None = Some a ∧ P a = true) ↔ False) as Hnone by naive_solver. rewrite !Hnone.
    set (zone := PolicyModel.sourceZone e (PolicyModel.q_From q)). change (Policies c) with (intent_policies j) in *.
    assert ((∃ p, (p ∈ intent_policies j ∧ PolicyModel.policy_matches e q zone p = true) ∧ pol_Action p = "allow") ↔
      ∃ p, p ∈ intent_policies j ∧ PolicyModel.policy_matches e q zone p = true) as ->.
    { split; [naive_solver|]. intros (p & Hp & Hm). exists p. split; [done|]. by apply no_denies. }
    assert ((∃ p, (p ∈ intent_policies j ∧ PolicyModel.policy_matches e q zone p = true) ∧ pol_Action p = "deny") ↔ False) as ->.
    { split; [|done]. intros (p & (Hp & _) & Hd). apply no_denies in Hp. congruence. }
    change (IPv6Mode (System c)) with "disabled". unfold source_is. generalize (∃ p, p ∈ intent_policies j ∧ PolicyModel.policy_matches e q zone p = true).
    intros M. tauto.
Qed.
End access.

Lemma intent_zone_names j z : z ∈ intent_zones j → zone_Name z ∈ ["uplink"; "lan"; "public-vpn"; "containers"].
Proof. unfold intent_zones. destruct (i_DockerEnabled j); simpl; rewrite ?elem_of_cons, elem_of_nil; intros H; destruct_or! H; subst; simpl; listed. Qed.
Lemma intent_interface_zone j x : x ∈ intent_interfaces j → in_Zone x ∈ ["uplink"; "public-vpn"; "containers"].
Proof.
  unfold intent_interfaces. rewrite !elem_of_app, !elem_of_cons, elem_of_nil. intros [H|H]; [destruct_or! H; subst; simpl; listed|].
  destruct (i_DockerEnabled j); [|by apply elem_of_nil in H]. apply elem_of_lookup_imap in H as (k & n & -> & _). simpl. listed.
Qed.
(** The addresses of the LAN zone are those of the LAN networks. *)
Lemma lan_source j q a : valid_config (generated j) → ParseAddr (PolicyModel.q_From q) = Some a →
  PolicyModel.sourceZone (PolicyModel.effective (generated j)) (PolicyModel.q_From q) = "lan" ↔
  PolicyModel.addressInPrefixes a (i_LANNetworks j) = true.
Proof.
  intros Hv Ha. unfold PolicyModel.sourceZone. set (raw := PolicyModel.q_From q) in *.
  assert (PolicyModel.is_host raw = false) as ->.
  { unfold PolicyModel.is_host. apply orb_false_iff. split; apply String.eqb_neq; intros E; by rewrite E in Ha. }
  rewrite bool_decide_eq_false_2.
  2:{ intros [z [Hz E]%PolicyModel.zone_map_lookup]; [|apply (vc_zone_names _ Hv)]. apply intent_zone_names in Hz. rewrite E in Hz.
      rewrite !elem_of_cons, elem_of_nil in Hz. destruct_or! Hz; by rewrite Hz in Ha. }
  rewrite Ha. change (Zones (PolicyModel.eff_Config (PolicyModel.effective (generated j)))) with (intent_zones j).
  change (Interfaces (PolicyModel.eff_Config (PolicyModel.effective (generated j)))) with (intent_interfaces j).
  unfold intent_zones. cbn [app List.find zone_Networks PolicyModel.addressInPrefixes existsb].
  fold (PolicyModel.addressInPrefixes a (i_LANNetworks j)). destruct (PolicyModel.addressInPrefixes a (i_LANNetworks j)); [done|]. split; [|done].
  destruct (List.find _ (if i_DockerEnabled j then _ else _)) as [z|] eqn:E.
  - destruct (i_DockerEnabled j); [|done]. simpl in E. destruct (PolicyModel.addressInPrefixes _ _); [|done]. by injection E as <-.
  - destruct (List.find _ (intent_interfaces j)) as [x|] eqn:Ei; [|done]. apply find_some in Ei as [Ei _]. apply list_elem_of_In, intent_interface_zone in Ei.
    intros E'. rewrite E' in Ei. rewrite !elem_of_cons, elem_of_nil in Ei. by destruct_or! Ei.
Qed.


(** ** Exposures *)

Definition source_zone (j : Intent) (raw : string) : string := PolicyModel.sourceZone (PolicyModel.effective (generated j)) raw.
Lemma AddExposure_ok protocol ports i i' : AddExposure protocol ports i = (i', inr tt) →
  (protocol = "tcp" ∨ protocol = "udp") ∧ Forall port_ok ports ∧ Forall port_ok (i_PublicTCP i') ∧ Forall port_ok (i_PublicUDP i') ∧
  i' = if String.eqb protocol "tcp" then set_public_tcp (uniquePorts (i_PublicTCP i ++ ports)) i else set_public_udp (uniquePorts (i_PublicUDP i ++ ports)) i.
Proof.
  unfold AddExposure. destruct (is_one_of protocol ["tcp"; "udp"]) eqn:Ep; [|done]. destruct (validPorts ports) eqn:Ev; [|done]. cbn [negb]. unfold checked.
  intros [= <- Hval]. split; [apply is_one_of_spec in Ep; set_solver|]. split; [by eapply valid_ports_ok|].
  unfold Validate in Hval. do 6 apply err_bind_ok in Hval as (? & _ & Hval). apply err_bind_ok in Hval as (? & Hports & _). apply each_ok in Hports.
  unfold port_lists in Hports. rewrite !Forall_cons in Hports. destruct Hports as (_ & _ & _ & H1 & H2 & _). apply fails_ok, negb_false_iff in H1, H2.
  split; [by eapply valid_ports_ok|]. by split; [eapply valid_ports_ok|].
Qed.
Lemma granted_canonical j zone protocol port : granted (canonicalize j) zone protocol port ↔
  zone = "host" ∨
  zone = "lan" ∧ (protocol = "tcp" ∧ port ∈ i_ManagementTCP j ∧ port_ok port ∨ protocol = "tcp" ∧ port ∈ i_LANAllowTCP j ∧ port_ok port ∨
                  protocol = "udp" ∧ port ∈ i_LANAllowUDP j ∧ port_ok port) ∨
  zone = "public-vpn" ∧ (protocol = "tcp" ∧ port ∈ i_PublicTCP j ∧ port_ok port ∨ protocol = "udp" ∧ port ∈ i_PublicUDP j ∧ port_ok port) ∨
  zone = "containers" ∧ i_DockerEnabled j = true.
Proof. unfold granted. cbn [canonicalize i_ManagementTCP i_LANAllowTCP i_LANAllowUDP i_PublicTCP i_PublicUDP i_DockerEnabled]. by rewrite !elem_of_uniquePorts. Qed.
Lemma same_sources i i' raw : (∃ v, i' = set_public_tcp v i ∨ i' = set_public_udp v i) →
  source_zone (canonicalize i') raw = source_zone (canonicalize i) raw.
Proof. intros [v [-> | ->]]; reflexivity. Qed.

Definition exposed (protocol : string) (i : Intent) : list Z := if String.eqb protocol "tcp" then i_PublicTCP i else i_PublicUDP i.
Definition with_exposed (protocol : string) (v : list Z) (i : Intent) : Intent := if String.eqb protocol "tcp" then set_public_tcp v i else set_public_udp v i.
Lemma granted_with_exposed protocol v i zone proto port : protocol = "tcp" ∨ protocol = "udp" →
  granted (canonicalize (with_exposed protocol v i)) zone proto port ↔
  if decide (zone = "public-vpn" ∧ proto = protocol) then port ∈ v ∧ port_ok port else granted (canonicalize i) zone proto port.
Proof.
  intros Hp. rewrite (granted_canonical (with_exposed _ _ _)). case_decide as Hd.
  - destruct Hd as [-> ->]. destruct Hp as [-> | ->]; cbn; naive_solver.
  - rewrite (granted_canonical i). destruct Hp as [-> | ->]; cbn; naive_solver.
Qed.
Lemma same_exposed protocol v i : protocol = "tcp" ∨ protocol = "udp" → exposed protocol (with_exposed protocol v i) = v.
Proof. by intros [-> | ->]. Qed.

Definition allows (c : Cfg) (q : PolicyModel.Query) (rt : PolicyModel.RuntimeContext) : Prop :=
  PolicyModel.d_Action (PolicyModel.ExplainEffective (PolicyModel.effective c) q rt) = "allow".
Lemma allows_with_exposed protocol v i c c' q rt : protocol = "tcp" ∨ protocol = "udp" → Config i = inr c → Config (with_exposed protocol v i) = inr c' →
  PolicyModel.q_To q = "host" → let zone := PolicyModel.sourceZone (PolicyModel.effective c) (PolicyModel.q_From q) in
  (zone = "public-vpn" → PolicyModel.q_Protocol q = protocol → (PolicyModel.q_Port q ∈ v ∧ port_ok (PolicyModel.q_Port q) ↔
     PolicyModel.q_Port q ∈ exposed protocol i ∧ port_ok (PolicyModel.q_Port q))) → allows c' q rt ↔ allows c q rt.
Proof.
  intros Hp (-> & _ & Hv%Validate_valid)%Config_ok (-> & _ & Hv'%Validate_valid)%Config_ok Hto zone Hsame. unfold allows. rewrite !access_allows by done. cbv zeta.
  assert (i_ManagementTCP (canonicalize (with_exposed protocol v i)) = i_ManagementTCP (canonicalize i)) as -> by by destruct Hp as [-> | ->].
  fold (source_zone (canonicalize (with_exposed protocol v i)) (PolicyModel.q_From q)). rewrite (same_sources i).
  2:{ exists v. unfold with_exposed. destruct (String.eqb protocol "tcp"); auto. }
  change (source_zone (canonicalize i) (PolicyModel.q_From q)) with zone. fold zone. rewrite granted_with_exposed by done.
  case_decide as Hd; [|done]. destruct Hd as [Hz Hpr]. rewrite (Hsame Hz Hpr), Hz, Hpr.
  assert (granted (canonicalize i) "public-vpn" protocol (PolicyModel.q_Port q) ↔ PolicyModel.q_Port q ∈ exposed protocol i ∧ port_ok (PolicyModel.q_Port q)) as ->; [|done].
  rewrite granted_canonical. destruct Hp as [-> | ->]; cbn; naive_solver.
Qed.


(** ** What a generated configuration is *)

(** A Docker subnet that keeps clear of the other networks of the host. *)
Definition isolated (j : Intent) (raw : string) : Prop :=
  ∃ p, ParsePrefix (trim_space raw) = Some p ∧ Is4 (pfx_addr p) = true ∧ Masked p = p ∧
    Forall (λ r, Overlaps p r = false) (managedDockerReservedIPv4 ++ masked_prefixes (i_LANNetworks j) ++
                                        masked_prefixes (i_VPNAddresses j) ++ masked_prefixes (i_BootstrapIPv4 j)).
Lemma overlaps_none p l : overlaps_any p l = false → Forall (λ r, Overlaps p r = false) l.
Proof.
  unfold overlaps_any. induction l as [|r l IH]; [constructor|]. cbn [existsb]. intros [H1 H2]%orb_false_iff. constructor; [done|by apply IH].
Qed.
Lemma check_docker_subnet_ok j name docker raw docker' :
  check_docker_subnet (masked_prefixes (i_LANNetworks j)) (masked_prefixes (i_VPNAddresses j)) (masked_prefixes (i_BootstrapIPv4 j)) name docker raw = inr docker' →
  isolated j raw.
Proof.
  unfold check_docker_subnet. cbv zeta. intros H. apply err_bind_ok in H as (p & Hp & H). apply of_option_ok in Hp.
  do 5 (let E := fresh in apply err_bind_ok in H as (? & E & H); apply fails_ok in E). rewrite !orb_false_iff, !negb_false_iff in H0. destruct H0 as [[H0 _] Hm%String.eqb_eq].
  pose proof (ParsePrefix_ok _ _ Hp) as Hok. assert (Masked p = p) as Em.
  { apply (f_equal ParsePrefix) in Hm. rewrite !ParsePrefix_String in Hm by auto using Masked_ok. congruence. }
  rewrite Em in *. exists p. split; [done|]. split; [done|]. split; [done|]. repeat apply Forall_app_2; by apply overlaps_none.
Qed.
Lemma isolation_ok j : validateManagedDockerIsolation j = inr tt → ∀ n raw, n ∈ i_DockerNetworks j → raw ∈ dn_Subnets n → isolated j raw.
Proof.
  unfold validateManagedDockerIsolation. intros H n raw Hn Hraw. apply err_bind_ok in H as (d & H & _).
  assert (Forall (λ s, isolated j s.2) (docker_subnets (i_DockerNetworks j))) as Hall.
  { apply (fold_err_inv _ (λ pre _, Forall (λ s, isolated j s.2) pre)) in H; [done| |constructor].
    intros pre s t t' _ Hpre Hs%check_docker_subnet_ok. by apply Forall_app_2; [|constructor]. }
  rewrite list.Forall_forall in Hall. apply (Hall (dn_Name n, raw)). unfold docker_subnets. apply list_elem_of_bind. exists n. split; [|done].
  by apply (list_elem_of_fmap_2 (pair (dn_Name n))).
Qed.
Lemma Validate_isolation j : Validate j = inr tt → validateManagedDockerIsolation j = inr tt ∧ Forall (λ raw, is_Some (ParsePrefix raw)) (i_LANNetworks j).
Proof.
  unfold Validate. intros H. do 3 apply err_bind_ok in H as (? & _ & H). apply err_bind_ok in H as (? & Hlan & H). do 6 apply err_bind_ok in H as (? & _ & H). split; [done|].
  unfold each_prefix in Hlan. apply each_ok in Hlan. eapply Forall_impl; [exact Hlan|]. intros raw Hraw%fails_ok. destruct (ParsePrefix raw); [by eexists|done].
Qed.
Lemma generated_clean j : Validate j = inr tt → clean_networks (generated j).
Proof.
  intros [Hiso Hlan]%Validate_isolation z n Hz Hn. change (Zones (generated j)) with (intent_zones j) in Hz. unfold intent_zones in Hz.
  rewrite elem_of_app, !elem_of_cons, elem_of_nil in Hz. destruct Hz as [[-> |[-> |[-> |[]]]]|Hz]; [by apply elem_of_nil in Hn| |by apply elem_of_nil in Hn|].
  - rewrite list.Forall_forall in Hlan. by apply Hlan.
  - destruct (i_DockerEnabled j); [|by apply elem_of_nil in Hz]. apply list_elem_of_singleton in Hz as ->. cbn [zone_Networks] in Hn.
    apply uniqueStrings_trimmed in Hn as (raw & (d & Hraw & Hd)%list_elem_of_bind & ->). destruct (isolation_ok j Hiso d raw Hd Hraw) as (p & -> & _). by eexists.
Qed.

(** C35. A generated configuration needs no further care.  It is well formed, each of its
    Docker subnets keeps clear of the reserved ranges, of the LAN, of the tunnel's addresses
    and of the bootstrap endpoints, and on readable observations that match its containers it
    compiles to a script that the nft backend accepts and that installs every owned table. *)
Theorem managed_sound go_syntax i c : Config i = inr c →
  valid_config c ∧ valid_docker c ∧
  (∀ n raw, n ∈ Config.DockerNetworks c → raw ∈ dn_Subnets n → isolated (canonicalize i) raw) ∧
  (∀ inp g, Compiler.in_Policy inp = PolicyModel.effective c →
     each (λ s, each (Compiler.check_runtime_prefix s) (Compiler.rs_values s)) (Compiler.runtime_sets inp) = inr tt →
     Compiler.validateContainerTopology c (Compiler.DockerNets inp) (Compiler.DockerNets6 inp) = inr tt →
     ∃ a, Compiler.Compile go_syntax inp g = inr a ∧ NftScript.validateScript (Manager.art_Script a) = None ∧ NftScript.installs (Manager.art_Script a) = true).
Proof.
  intros (-> & Hj & Hval)%Config_ok. set (j := canonicalize i) in *. split; [by apply Validate_valid|]. split; [by apply Validate_docker|]. split.
  - intros n raw Hn. change (Config.DockerNetworks (generated j)) with (if i_DockerEnabled j then i_DockerNetworks j else []) in Hn.
    destruct (i_DockerEnabled j); [|by apply elem_of_nil in Hn]. apply isolation_ok; [|done]. by apply Validate_isolation.
  - intros inp g Ein Hr Ht. assert (∃ a, Compiler.Compile go_syntax inp g = inr a) as [a Ha].
    { unfold Compiler.Compile. cbv zeta. rewrite Ein. change (PolicyModel.eff_Config (PolicyModel.effective (generated j))) with (generated j).
      rewrite Hval, Hr, Ht. by eexists. }
    exists a. split; [done|]. by eapply compiled_script; [exact Ein|apply generated_clean|exact Ha].
Qed.

(** ** A managed host *)

Module Sample.
Definition host : Snapshot :=
  mkSnapshot "debian" "13" "amd64" "eth0" (Some (V4 (of_bytes [192; 168; 10; 1]%N))) ["docker0"; "eth0"]
    [v4_prefix 192 168 10 5 24] [22; 22] false [] false false false true true
    [mkDocker "web" "bridge" "br-web" false ["172.31.0.0/24"; " 172.30.0.0/24"] ["172.31.0.1"; "172.30.0.1"]].
Definition managed : Intent :=
  mkIntent Schema true "eth0" "nftfw0" ["192.168.10.0/24"] [22] [] [] [] [] ["10.2.0.2/32"; "10.9.0.2/32"] "vpn.example.test" 51820
    ["203.0.113.7/32"] ["1.1.1.1"] 1420 "" true true
    [mkDocker "web" "bridge" "br-web" false ["172.30.0.0/24"; "172.31.0.0/24"] ["172.30.0.1"; "172.31.0.1"]].
Example managed_new : New host WgConfig.Sample.read [V4 (of_bytes [203; 0; 113; 7]%N); V4 (of_bytes [203; 0; 113; 7]%N)] = inr managed.
Proof. vm_compute. reflexivity. Qed.
Example overlapping : Validate (mkIntent Schema true "eth0" "nftfw0" ["172.16.0.0/12"] [22] [] [] [] [] ["10.2.0.2/32"] "vpn.example.test" 51820
    ["203.0.113.7/32"] [] 0 "" true true [mkDocker "web" "bridge" "br-web" false ["172.30.0.0/24"] ["172.30.0.1"]]) =
  inl (intent_error "INTENT_DOCKER_SUBNET_OVERLAPS_LAN").
Proof. vm_compute. reflexivity. Qed.
(** Sorting comes before trimming: the strings kept need not be unique. *)
Example not_unique : uniqueStrings ["b"; " b"; "a"] = ["b"; "a"; "b"]. Proof. vm_compute. reflexivity. Qed.

Definition exposing : Intent := Eval vm_compute in (AddExposure "tcp" [8443; 443] managed).1.
Definition hidden : Intent := Eval vm_compute in (RemoveExposure "tcp" [8443; 443] exposing).1.
Definition config : Cfg := Eval vm_compute in generated (canonicalize managed).
Definition exposed_config : Cfg := Eval vm_compute in generated (canonicalize exposing).
Lemma config_eq : Config managed = inr config. Proof. vm_compute. reflexivity. Qed.
Lemma exposed_config_eq : Config exposing = inr exposed_config. Proof. vm_compute. reflexivity. Qed.
Lemma exposing_eq : AddExposure "tcp" [8443; 443] managed = (exposing, inr tt). Proof. vm_compute. reflexivity. Qed.
Lemma hidden_eq : RemoveExposure "tcp" [8443; 443] exposing = (hidden, inr tt). Proof. vm_compute. reflexivity. Qed.
Lemma hidden_config_eq : Config hidden = inr config. Proof. vm_compute. reflexivity. Qed.

Definition from_lan : PolicyModel.Query := PolicyModel.mkQuery "192.168.10.9" "host" "tcp" 22.
Definition from_tunnel : PolicyModel.Query := PolicyModel.mkQuery "public-vpn" "host" "tcp" 443.
Definition quiet : PolicyModel.RuntimeContext := PolicyModel.mkContext [] [].
Lemma managed_sound_witness : Config managed = inr config ∧ valid_docker config.
Proof. split; [exact config_eq|]. exact (proj1 (proj2 (managed_sound (λ _, "sample") managed config config_eq))). Defined.
End Sample.
