(* ===== verification/Docker.v ===== *)
(** The Docker bridges of the host (internal/containers): what docker lists is read
    against the networks the configuration declares, a declared dynamic network is
    rebound to the bridge it has now, and the networks of a host are discovered for
    setup.  The docker and ip commands are parameters; the checks of daemon.json and of
    the socket drop-in inspect files and are not modelled. *)

From S2P Require Import Prelude GoStrings GoText Netip GoPath Feeds Ledger Config Json Intent.
From Stdlib Require Import Ascii String.
Local Open Scope string_scope.
Local Open Scope Z_scope.
Local Open Scope check_scope.
Abbreviation length := List.length.
Abbreviation Config := Config.Config.

Record Network := mkNetwork {
  nw_ID : string; nw_Name : string; nw_Driver : string; nw_BridgeInterface : string; nw_CIDR : string; nw_Gateway : string
}.
Record networkSummary := mkSummary { sm_ID : string; sm_Name : string; sm_Driver : string }.
Record inspectedNetwork := mkInspected {
  it_ID : string; it_Name : string; it_Driver : string; it_Internal : option bool; it_EnableIPv6 : option bool;
  it_Options : list (string * json); it_IPAM : list (string * string)
}.

(** [^[A-Za-z0-9][A-Za-z0-9_.-]{0,127}$], [^[a-f0-9]{64}$], [^[A-Za-z0-9_.-]{1,15}$] *)
Definition dockerName : string → bool := matches_head_tail is_alnum plain_char 0 127.
Definition dockerID : string → bool := matches_head_tail lower_hex lower_hex 63 63.
Definition linuxInterfaceName : string → bool := matches_head_tail plain_char plain_char 0 14.

Definition tab : ascii := ascii_of_nat 9.
Definition splitLines (s : string) : list string :=
  List.filter (λ l, negb (String.eqb l "")) (map trim_space (split_string lf s)).

(** At most 48 characters of an ASCII name. *)
Definition sanitizeErrorName (value : string) : string :=
  match take 48 (map (λ c, code_char (to_upper_char c)) (chars value)) with
  | [] => "UNKNOWN"
  | l => of_chars l
  end.

(** *** Decoding what docker network inspect prints

    No object gives a field twice, in whatever case. *)

Definition bool_field (name : string) (l : list (string * json)) : err + option bool :=
  match snd <$> List.find (λ m, names_field name m.1) l with
  | None | Some JNull => inr None
  | Some (JBool b) => inr (Some b)
  | Some _ => inl json_error
  end.
(** A slice of structures or the members of a structure; absent and [null] are empty. *)
Definition list_field (name : string) (l : list (string * json)) : err + list json :=
  match snd <$> List.find (λ m, names_field name m.1) l with
  | None | Some JNull => inr []
  | Some (JArr a) => inr a
  | Some _ => inl json_error
  end.
Definition object_field (name : string) (l : list (string * json)) : err + list (string * json) :=
  match snd <$> List.find (λ m, names_field name m.1) l with
  | None => inr []
  | Some j => members j
  end.
(** The values of a [map[string]string]. *)
Definition text_value (m : string * json) : err + unit :=
  match m.2 with JStr _ | JNull => inr tt | _ => inl json_error end.
Definition decode_ipam (j : json) : err + (string * string) :=
  l <-? members j ;; subnet <-? string_field "subnet" l ;; gateway <-? string_field "gateway" l ;; inr (subnet, gateway).
Definition decode_inspected (j : json) : err + inspectedNetwork :=
  l <-? members j ;;
  id <-? string_field "id" l ;; name <-? string_field "name" l ;; driver <-? string_field "driver" l ;;
  internal <-? bool_field "internal" l ;; ipv6 <-? bool_field "enableipv6" l ;;
  options <-? object_field "options" l ;; each text_value options then?
  ipam <-? object_field "ipam" l ;; config <-? list_field "config" ipam ;; pairs <-? collect decode_ipam config ;;
  inr (mkInspected id name driver internal ipv6 options pairs).
(** [json.Unmarshal] into [[]inspectedNetwork]; [None] is text that is not JSON. *)
Definition decode_networks (doc : option json) : err + list inspectedNetwork :=
  match doc with
  | None => inl json_error
  | Some JNull => inr []
  | Some (JArr l) => collect decode_inspected l
  | Some _ => inl json_error
  end.

Definition option_text (name : string) (l : list (string * json)) : string :=
  match member name l with Some (JStr s) => s | _ => "" end.
Definition observedBridgeName (id name : string) (options : list (string * json)) : string :=
  let configured := option_text "com.docker.network.bridge.name" options in
  if negb (String.eqb configured "") then configured
  else if String.eqb name "bridge" then "docker0"
  else if (12 <=? slen id)%nat then "br-" +:+ substring 0 12 id else "".

(** *** Subnets and gateways *)

Definition ipam_pair (subnet gateway : string) : option (string * string) :=
  match ParsePrefix subnet, ParseAddr gateway with
  | Some p, Some g =>
      if (pfx_bits p =? 0)%N || negb (Contains p g) || negb (Bool.eqb (Is4 g) (Is4 (pfx_addr p))) then None
      else Some (prefix_String (Masked p), addr_String g)
  | _, _ => None
  end.
Definition add_pair (invalid : err) (duplicate : string → err) (m : gmap string string) (pair : string * string) : err + gmap string string :=
  x <-? of_option (ipam_pair pair.1 pair.2) invalid ;;
  fails (bool_decide (is_Some (m !! x.1))) (duplicate x.1) then?
  inr (<[x.1 := x.2]> m).
Definition canonicalIPAM (subnets gateways : list string) : err + gmap string string :=
  fails ((length subnets =? 0)%nat || negb (length subnets =? length gateways)%nat)
    (Errorf "one explicit gateway is required for every subnet" []) then?
  fold_err (add_pair (Errorf "invalid subnet/gateway pair" []) (λ _, Errorf "duplicate subnet" [])) ∅ (zip subnets gateways).
Definition sameIPAM (expected observed : gmap string string) : bool :=
  (size expected =? size observed)%nat && forallb (λ p, bool_decide (observed !! p.1 = Some p.2)) (map_to_list expected).

(** ** Observation *)

Section observer.
(** The order in which Go ranges over the keys of a map. *)
Context (range : gset string → list string).

(** What [docker network ls], [docker network inspect] of some identifiers and
    [ip link show] of a bridge answer during one observation. *)
Record Commands := mkCommands {
  network_ls : err + string;
  network_inspect : list string → err + option json;
  link_show : string → bool
}.
Context (o : Commands).

Definition expect_network (m : gmap string DockerNetwork) (n : DockerNetwork) : err + gmap string DockerNetwork :=
  fails (negb (dockerName (dn_Name n)) || negb (String.eqb (dn_Driver n) "bridge") || negb (dockerName (dn_BridgeInterface n)) ||
         (15 <? slen (dn_BridgeInterface n))%nat || (length (dn_Subnets n) =? 0)%nat ||
         negb (length (dn_Subnets n) =? length (dn_Gateways n))%nat)
    (Errorf "invalid expected Docker network tuple %q" [ArgS (dn_Name n)]) then?
  fails (bool_decide (is_Some (m !! dn_Name n))) (Errorf "duplicate expected Docker network %q" [ArgS (dn_Name n)]) then?
  inr (<[dn_Name n := n]> m).

Record listing := mkListing { ls_ids : gset string; ls_names : gset string; ls_authorized : list (networkSummary * DockerNetwork) }.
Definition read_summary (line : string) : option networkSummary :=
  match split_string tab line with [id; name; driver] => Some (mkSummary id name driver) | _ => None end.
Definition list_summary (expected : gmap string DockerNetwork) (s : listing) (line : string) : err + listing :=
  x <-? of_option (read_summary line) (Errorf "docker returned a malformed network summary" []) ;;
  let name := sm_Name x in
  fails (negb (dockerID (sm_ID x)) || bool_decide (sm_ID x ∈ ls_ids s))
    (Errorf "docker returned an invalid or duplicate full network ID" []) then?
  fails (negb (dockerName name)) (Errorf "docker returned unsafe network name %q" [ArgS name]) then?
  fails (bool_decide (name ∈ ls_names s)) (Errorf "docker returned duplicate network name %q" [ArgS name]) then?
  let seen := mkListing ({[sm_ID x]} ∪ ls_ids s) ({[name]} ∪ ls_names s) in
  if negb (String.eqb (sm_Driver x) "bridge") then
    fails (bool_decide (is_Some (expected !! name)))
      (Errorf "docker network %s driver drifted from bridge to %s" [ArgS name; ArgS (sm_Driver x)]) then?
    inr (seen (ls_authorized s))
  else
    wanted <-? of_option (expected !! name) (Errorf "undeclared routed Docker bridge %q" [ArgS name]) ;;
    inr (seen (ls_authorized s ++ [(x, wanted)])%list).

Definition index_inspected (m : gmap string inspectedNetwork) (i : inspectedNetwork) : err + gmap string inspectedNetwork :=
  fails (negb (dockerID (it_ID i))) (Errorf "docker network inspection returned an invalid full network ID" []) then?
  fails (bool_decide (is_Some (m !! it_ID i))) (Errorf "docker network inspection returned a duplicate network ID" []) then?
  inr (<[it_ID i := i]> m).

Definition is_v6_prefix (s : string) : bool := match ParsePrefix s with Some p => Is6 (pfx_addr p) | None => false end.
Definition unstable (x : networkSummary) (wanted : DockerNetwork) (i : inspectedNetwork) (bridge : string) : bool :=
  negb (String.eqb (it_ID i) (sm_ID x)) || negb (String.eqb (it_Name i) (sm_Name x)) || negb (String.eqb (it_Driver i) (sm_Driver x)) ||
  negb (String.eqb (it_Driver i) (dn_Driver wanted)) || negb (linuxInterfaceName bridge) ||
  negb (dn_DynamicBridge wanted) && negb (String.eqb bridge (dn_BridgeInterface wanted)) ||
  match it_Internal i, it_EnableIPv6 i with
  | Some internal, Some ipv6 => internal || negb (Bool.eqb ipv6 (existsb is_v6_prefix (dn_Subnets wanted)))
  | _, _ => true
  end.

Record observation := mkObservation { ob_bridges : gmap string string; ob_networks : list Network }.
Definition observe_network (byID : gmap string inspectedNetwork) (s : observation) (a : networkSummary * DockerNetwork) : err + observation :=
  let '(x, wanted) := a in
  let name := sm_Name x in
  i <-? of_option (byID !! sm_ID x) (Errorf "docker network %s changed during batched inspection" [ArgS name]) ;;
  let bridge := observedBridgeName (it_ID i) (it_Name i) (it_Options i) in
  fails (unstable x wanted i bridge)
    (Errorf "docker network %s changed during inspection or its stable identity drifted" [ArgS name]) then?
  fails (match ob_bridges s !! bridge with Some prior => negb (String.eqb prior name) | None => false end)
    (Errorf "docker bridge interface %s is shared by networks %s and %s" [ArgS bridge; ArgS (default "" (ob_bridges s !! bridge)); ArgS name]) then?
  fails (negb (link_show o bridge)) (Errorf "docker network %s bridge interface %s is absent" [ArgS name; ArgS bridge]) then?
  expectedIPAM <-? wrap_err "expected docker network %s: %w" [ArgS name] (canonicalIPAM (dn_Subnets wanted) (dn_Gateways wanted)) ;;
  observedIPAM <-? fold_err (add_pair (Errorf "docker network %s returned invalid subnet/gateway" [ArgS name])
                      (λ subnet, Errorf "docker network %s returned duplicate subnet %s" [ArgS name; ArgS subnet])) ∅ (it_IPAM i) ;;
  fails (negb (sameIPAM expectedIPAM observedIPAM)) (Errorf "docker network %s subnet/gateway tuple drifted" [ArgS name]) then?
  inr (mkObservation (<[bridge := name]> (ob_bridges s))
         (ob_networks s ++ map (λ p, mkNetwork (sm_ID x) name (sm_Driver x) bridge p.1 p.2) (map_to_list observedIPAM))%list).

Definition network_leb (a b : Network) : bool :=
  if negb (String.eqb (nw_Name a) (nw_Name b)) then str_leb (nw_Name a) (nw_Name b) else str_leb (nw_CIDR a) (nw_CIDR b).
Definition Networks (declared : list DockerNetwork) : err + list Network :=
  fails ((length declared =? 0)%nat || (62 <? length declared)%nat)
    (Errorf "docker observation requires an explicit stable network authorization" []) then?
  expected <-? fold_err expect_network ∅ declared ;;
  out <-? network_ls o ;;
  let lines := splitLines out in
  fails (1024 <? length lines)%nat (Errorf "docker network count exceeds 1024" []) then?
  listed <-? fold_err (list_summary expected) (mkListing ∅ ∅ []) lines ;;
  match List.find (λ n, negb (bool_decide (n ∈ ls_names listed))) (range (dom expected)) with
  | Some n => inl (Errorf "configured Docker network %q is absent" [ArgS n])
  | None =>
      let authorized := ls_authorized listed in
      fails (negb (length authorized =? size expected)%nat) (Errorf "docker authorized bridge observation is incomplete" []) then?
      raw <-? wrap_err "inspect docker networks by immutable observation IDs: %w" []
                (network_inspect o (map (λ a, sm_ID a.1) authorized)) ;;
      inspected <-? wrap_err "decode docker network inspection: %w" [] (decode_networks raw) ;;
      fails (negb (length inspected =? length authorized)%nat)
        (Errorf "decode docker network inspection: expected %d objects, got %d"
           [ArgZ (Z.of_nat (length authorized)); ArgZ (Z.of_nat (length inspected))]) then?
      byID <-? fold_err index_inspected ∅ inspected ;;
      s <-? fold_err (observe_network byID) (mkObservation ∅ []) authorized ;;
      inr (sort_by network_leb (ob_networks s))
  end.

(** *** The networks of a host, for setup *)

(** [listNetworks]; every refusal of a line is the same error. *)
Definition list_line (s : gset string * gset string * list networkSummary) (line : string)
    : err + (gset string * gset string * list networkSummary) :=
  let invalid := Errorf "DOCKER_NETWORK_LIST_INVALID" [] in
  x <-? of_option (read_summary line) invalid ;;
  fails (negb (dockerID (sm_ID x)) || negb (dockerName (sm_Name x)) || bool_decide (sm_ID x ∈ s.1.1) || bool_decide (sm_Name x ∈ s.1.2)) invalid then?
  inr ({[sm_ID x]} ∪ s.1.1, {[sm_Name x]} ∪ s.1.2, (s.2 ++ [x])%list).
Definition listNetworks : err + list networkSummary :=
  match network_ls o with
  | inl _ => inl (Errorf "DOCKER_NETWORK_LIST_FAILED" [])
  | inr out =>
      let lines := splitLines out in
      fails ((length lines =? 0)%nat || (1024 <? length lines)%nat) (Errorf "DOCKER_NETWORK_LIST_INVALID" []) then?
      s <-? fold_err list_line (∅, ∅, []) lines ;; inr s.2
  end.
Definition inspectNetwork (x : networkSummary) : err + inspectedNetwork :=
  match network_inspect o [sm_ID x] with
  | inl _ => inl (Errorf "DOCKER_NETWORK_INSPECT_FAILED" [])
  | inr raw =>
      match decode_networks raw with
      | inr [i] =>
          fails (negb (String.eqb (it_ID i) (sm_ID x)) || negb (String.eqb (it_Name i) (sm_Name x)) || negb (String.eqb (it_Driver i) (sm_Driver x)))
            (Errorf "DOCKER_NETWORK_CHANGED_DURING_READ" []) then?
          inr i
      | _ => inl (Errorf "DOCKER_NETWORK_INSPECT_INVALID" [])
      end
  end.

Definition lastIPv4Address (p : Prefix) : Addr :=
  let bits := N.sub 32 (pfx_bits p) in
  map_num (λ n, N.lor n (N.shiftl 1 bits - 1)) (pfx_addr (Masked p)).
Definition add_ipv4 (pairs : list (string * string)) (value : string * string) : err + list (string * string) :=
  let invalid := Errorf "invalid IPv4 IPAM" [] in
  match ParsePrefix (trim_space value.1), ParseAddr (trim_space value.2) with
  | Some p, Some g =>
      fails (negb (Is4 (pfx_addr p)) || negb (Is4 g) || (pfx_bits p =? 0)%N || (30 <? pfx_bits p)%N || negb (Contains p g) ||
             bool_decide (g = pfx_addr (Masked p)) || bool_decide (g = lastIPv4Address p)) invalid then?
      fails (bool_decide (prefix_String (Masked p) ∈ map fst pairs)) (Errorf "duplicate IPv4 IPAM" []) then?
      inr (pairs ++ [(prefix_String (Masked p), addr_String g)])%list
  | _, _ => inl invalid
  end.
Definition dockerIPv4IPAM (i : inspectedNetwork) : err + (list string * list string) :=
  pairs <-? fold_err add_ipv4 [] (it_IPAM i) ;;
  fails ((length pairs =? 0)%nat || (16 <? length pairs)%nat) (Errorf "unsupported IPv4 IPAM count" []) then?
  (let sorted := sort_by (λ a b, str_leb a.1 b.1) pairs in inr (map fst sorted, map snd sorted)).

Definition discover_network (s : gmap string string * list DockerNetwork) (x : networkSummary) : err + (gmap string string * list DockerNetwork) :=
  let name := sm_Name x in
  let code kind := Errorf (kind +:+ "%s") [ArgS (sanitizeErrorName name)] in
  if String.eqb name "host" then
    fails (negb (String.eqb (sm_Driver x) "host")) (Errorf "DOCKER_NETWORK_BUILTIN_HOST_INVALID" []) then? inr s
  else if String.eqb name "none" then
    fails (negb (String.eqb (sm_Driver x) "null")) (Errorf "DOCKER_NETWORK_BUILTIN_NONE_INVALID" []) then? inr s
  else
    fails (negb (String.eqb (sm_Driver x) "bridge")) (code "DOCKER_NETWORK_DRIVER_UNSUPPORTED_") then?
    i <-? inspectNetwork x ;;
    match it_Internal i, it_EnableIPv6 i with
    | Some internal, Some ipv6 =>
        fails (internal || ipv6) (code "DOCKER_NETWORK_MODE_UNSUPPORTED_") then?
        (let bridge := observedBridgeName (it_ID i) (it_Name i) (it_Options i) in
         fails (negb (linuxInterfaceName bridge)) (code "DOCKER_NETWORK_BRIDGE_INVALID_") then?
         match s.1 !! bridge with
         | Some prior => inl (Errorf "DOCKER_NETWORK_BRIDGE_SHARED_%s_%s" [ArgS (sanitizeErrorName prior); ArgS (sanitizeErrorName name)])
         | None =>
             fails (negb (link_show o bridge)) (code "DOCKER_NETWORK_BRIDGE_MISSING_") then?
             match dockerIPv4IPAM i with
             | inl _ => inl (code "DOCKER_NETWORK_IPAM_INVALID_")
             | inr ipam => inr (<[bridge := name]> s.1, (s.2 ++ [mkDocker name "bridge" bridge true ipam.1 ipam.2])%list)
             end
         end)
    | _, _ => inl (code "DOCKER_NETWORK_INSPECT_INCOMPLETE_")
    end.
Definition DiscoverNetworks : err + list DockerNetwork :=
  summaries <-? listNetworks ;;
  s <-? fold_err discover_network (∅, []) summaries ;;
  (let result := sort_by (λ a b, str_leb (dn_Name a) (dn_Name b)) s.2 in
   fails ((length result =? 0)%nat || (62 <? length result)%nat) (Errorf "DOCKER_NETWORK_COUNT_UNSUPPORTED" []) then?
   inr result).
End observer.

Definition ValidateDestination (ip : string) (nets : list Network) : err + unit :=
  match ParseAddr ip with
  | None => inl (Wrapf "invalid container address: %w" [] (Errorf "ParseAddr" []))
  | Some a =>
      fails (negb (existsb (λ n, match ParsePrefix (nw_CIDR n) with Some p => Contains p a | None => false end) nets))
        (Errorf "container destination is outside observed Docker networks" [])
  end.

(** ** Projection *)

Record projection := mkProjection { pr_bridge : string; pr_driver : string; pr_ipam : gmap string string }.
Definition docker_code (kind name : string) : err := Errorf (kind +:+ "%s") [ArgS (sanitizeErrorName name)].

Definition project_observed (authorized : gset string) (byName : gmap string projection) (n : Network) : err + gmap string projection :=
  let name := nw_Name n in
  fails (negb (bool_decide (name ∈ authorized))) (docker_code "DOCKER_NETWORK_UNAUTHORIZED_" name) then?
  fails (negb (String.eqb (nw_Driver n) "bridge") || negb (linuxInterfaceName (nw_BridgeInterface n)))
    (docker_code "DOCKER_NETWORK_OBSERVATION_INVALID_" name) then?
  match canonicalIPAM [nw_CIDR n] [nw_Gateway n] with
  | inl _ => inl (docker_code "DOCKER_NETWORK_IPAM_INVALID_" name)
  | inr observed =>
      let current := default (mkProjection "" "" ∅) (byName !! name) in
      fails (negb (String.eqb (pr_bridge current) "") && negb (String.eqb (pr_bridge current) (nw_BridgeInterface n)))
        (Errorf "DOCKER_NETWORK_BRIDGE_AMBIGUOUS" []) then?
      fails (negb (String.eqb (pr_driver current) "") && negb (String.eqb (pr_driver current) (nw_Driver n)))
        (Errorf "DOCKER_NETWORK_DRIVER_AMBIGUOUS" []) then?
      ipam <-? fold_err (λ m p, fails (bool_decide (is_Some (m !! p.1))) (docker_code "DOCKER_NETWORK_IPAM_AMBIGUOUS_" name) then?
                                inr (<[p.1 := p.2]> m)) (pr_ipam current) (map_to_list observed) ;;
      inr (<[name := mkProjection (nw_BridgeInterface n) (nw_Driver n) ipam]> byName)
  end.

Fixpoint interfaceByName (l : list Interface) (name : string) : option Interface :=
  match l with
  | [] => None
  | i :: l' => if String.eqb (in_Name i) name then Some i else interfaceByName l' name
  end.
Definition rebound (bridge : string) (subnets : list string) (i : Interface) : Interface :=
  mkInterface bridge (in_Role i) (in_Zone i) subnets (in_ProvenanceName i) (in_ProvenanceID i).
(** The first interface of the identity takes the bridge; [None] is no such interface. *)
Fixpoint rebind_interface (identity bridge : string) (subnets : list string) (l : list Interface) : err + option (list Interface) :=
  match l with
  | [] => inr None
  | i :: l' =>
      if String.eqb (InterfaceProvenanceName i) identity then
        fails (negb (role_is "container" i)) (Errorf "DOCKER_PROVENANCE_ROLE_INVALID" []) then?
        inr (Some (rebound bridge subnets i :: l'))
      else r <-? rebind_interface identity bridge subnets l' ;; inr (cons i <$> r)
  end.

Record projected := mkProjected { pj_networks : list DockerNetwork; pj_interfaces : list Interface; pj_replacements : gmap string string }.
Definition project_static (s : projected) (n : DockerNetwork) (bridge : string) : err + projected :=
  let name := dn_Name n in
  fails (negb (String.eqb (dn_BridgeInterface n) bridge)) (docker_code "DOCKER_NETWORK_BRIDGE_DRIFT_" name) then?
  i <-? of_option (interfaceByName (pj_interfaces s) (dn_BridgeInterface n)) (docker_code "DOCKER_PROVENANCE_INTERFACE_MISSING_" name) ;;
  fails (negb (role_is "container" i)) (Errorf "DOCKER_PROVENANCE_ROLE_INVALID" []) then?
  fails (negb (String.eqb (InterfaceProvenanceName i) (dn_BridgeInterface n)) && negb (String.eqb (InterfaceProvenanceName i) ("docker:" +:+ name)))
    (docker_code "DOCKER_STATIC_PROVENANCE_INVALID_" name) then?
  inr (mkProjected (pj_networks s ++ [n])%list (pj_interfaces s) (pj_replacements s)).
Definition project_dynamic (s : projected) (n : DockerNetwork) (current : projection) : err + projected :=
  let name := dn_Name n in
  let subnets := sort_strings (map fst (map_to_list (pr_ipam current))) in
  let gateways := map (λ subnet, default "" (pr_ipam current !! subnet)) subnets in
  r <-? rebind_interface ("docker:" +:+ name) (pr_bridge current) subnets (pj_interfaces s) ;;
  interfaces <-? of_option r (docker_code "DOCKER_PROVENANCE_INTERFACE_MISSING_" name) ;;
  inr (mkProjected (pj_networks s ++ [mkDocker name (dn_Driver n) (pr_bridge current) (dn_DynamicBridge n) subnets gateways])%list
         interfaces (<[dn_BridgeInterface n := pr_bridge current]> (pj_replacements s))).
Definition project_network (byName : gmap string projection) (s : projected) (n : DockerNetwork) : err + projected :=
  let name := dn_Name n in
  current <-? of_option (byName !! name) (docker_code "DOCKER_NETWORK_ABSENT_" name) ;;
  fails (negb (linuxInterfaceName (pr_bridge current))) (docker_code "DOCKER_NETWORK_ABSENT_" name) then?
  fails (negb (String.eqb (pr_driver current) (dn_Driver n))) (docker_code "DOCKER_NETWORK_DRIVER_DRIFT_" name) then?
  match canonicalIPAM (dn_Subnets n) (dn_Gateways n) with
  | inl _ => inl (docker_code "DOCKER_NETWORK_IPAM_DRIFT_" name)
  | inr expected =>
      fails (negb (sameIPAM expected (pr_ipam current))) (docker_code "DOCKER_NETWORK_IPAM_DRIFT_" name) then?
      if negb (dn_DynamicBridge n) then project_static s n (pr_bridge current) else project_dynamic s n current
  end.

Definition replaced (m : gmap string string) (name : string) : string :=
  match m !! name with Some r => if String.eqb r "" then name else r | None => name end.
Definition project_zone (m : gmap string string) (z : Zone) : Zone :=
  mkZone (zone_Name z) (zone_Networks z) (sort_strings (map (replaced m) (zone_Interfaces z))).
Definition with_bindings (c : Config) (interfaces : list Interface) (zones : list Zone) (networks : list DockerNetwork) : Config :=
  mkConfig (System c) interfaces zones (Services c) (Policies c) (NAT c) (WireGuard c) (Runtime c) (State c) (Integrations c)
    networks (ThreatFeeds c) (GeoSets c).
Definition ProjectObservedConfig (c : Config) (observed : list Network) : err + Config :=
  if negb (DockerEnabled (Integrations c)) then inr c
  else
    byName <-? fold_err (project_observed (list_to_set (map dn_Name (DockerNetworks c)))) ∅ observed ;;
    s <-? fold_err (project_network byName) (mkProjected [] (Interfaces c) ∅) (DockerNetworks c) ;;
    (let result := with_bindings c (pj_interfaces s) (map (project_zone (pj_replacements s)) (Zones c)) (pj_networks s) in
     wrap_err "project observed Docker bindings: %w" [] (Config.Validate result) then?
     inr result).

(** [dockerBridgeBindingsChanged] (internal/app/runtime.go) *)
Definition bindings_table (c : Config) : gmap string string :=
  foldl (λ m n, <[dn_Name n := dn_BridgeInterface n]> m) ∅ (DockerNetworks c).
Definition dockerBridgeBindingsChanged (before after : Config) : bool :=
  DockerEnabled (Integrations before) && DockerEnabled (Integrations after) &&
  (negb (size (bindings_table before) =? length (DockerNetworks after))%nat ||
   existsb (λ n, negb (String.eqb (default "" (bindings_table before !! dn_Name n)) (dn_BridgeInterface n))) (DockerNetworks after)).

Lemma expect_network_ok m n m' : expect_network m n = inr m' → m !! dn_Name n = None ∧ m' = <[dn_Name n := n]> m ∧ dn_Driver n = "bridge".
Proof.
  unfold expect_network. intros H. invert_checks. rewrite <-eq_None_not_Some in *.
  repeat match goal with H : _ = false |- _ => apply orb_false_iff in H as [? ?] end. invert_checks. done.
Qed.
Lemma expected_table declared m : fold_err expect_network ∅ declared = inr m →
  NoDup (map dn_Name declared) ∧ (∀ k d, m !! k = Some d ↔ d ∈ declared ∧ dn_Name d = k) ∧ Forall (λ d, dn_Driver d = "bridge") declared.
Proof.
  intros H. destruct (fold_err_unique expect_network (λ m n, is_Some (m !! n)) dn_Name (λ d, dn_Driver d = "bridge") declared ∅ m) as (Hn & _ & _ & Ha); [|done|].
  { intros s a s' (Hs & -> & Hd)%expect_network_ok. split; [rewrite Hs; by intros [? ?]|]. split; [|done]. intros k.
    rewrite lookup_insert_is_Some. destruct (decide (dn_Name a = k)); naive_solver. }
  split; [done|]. split; [|done]. intros k d.
  rewrite (fold_err_table expect_network id dn_Name id declared ∅ m); [|by intros s a s' (? & -> & ?)%expect_network_ok|done].
  unfold id. rewrite lookup_empty. naive_solver.
Qed.

(** What a line of the listing adds. *)
Lemma list_summary_ok expected s line s' : list_summary expected s line = inr s' → ∃ x, read_summary line = Some x ∧
  sm_Name x ∉ ls_names s ∧ ls_names s' = {[sm_Name x]} ∪ ls_names s ∧
  ((sm_Driver x ≠ "bridge" ∧ expected !! sm_Name x = None ∧ ls_authorized s' = ls_authorized s) ∨
   (∃ d, sm_Driver x = "bridge" ∧ expected !! sm_Name x = Some d ∧ ls_authorized s' = ls_authorized s ++ [(x, d)])%list).
Proof.
  unfold list_summary. intros H. apply err_bind_ok in H as (x & Hx & H). apply of_option_ok in Hx.
  apply err_bind_ok in H as ([] & _ & H). apply err_bind_ok in H as ([] & _ & H). apply err_bind_ok in H as ([] & Hn & H).
  exists x. split; [done|]. apply fails_ok, bool_decide_eq_false in Hn. split; [done|].
  destruct (negb (String.eqb (sm_Driver x) "bridge")) eqn:E; invert_checks; subst s'; (split; [done|]).
  - left. rewrite <-eq_None_not_Some in *. done.
  - right. eauto.
Qed.
Definition listed_ok (expected : gmap string DockerNetwork) (lines : list string) (s : listing) : Prop :=
  NoDup (map (λ a, sm_Name a.1) (ls_authorized s)) ∧
  (∀ a, a ∈ ls_authorized s → sm_Name a.1 ∈ ls_names s ∧ sm_Driver a.1 = "bridge" ∧ expected !! sm_Name a.1 = Some a.2) ∧
  (∀ line x, line ∈ lines → read_summary line = Some x → sm_Driver x = "bridge" → is_Some (expected !! sm_Name x)).
Lemma listing_ok expected lines s : fold_err (list_summary expected) (mkListing ∅ ∅ []) lines = inr s → listed_ok expected lines s.
Proof.
  apply (fold_err_inv (list_summary expected) (listed_ok expected)).
  - intros pre line t t' _ (H1 & H2 & H3) (x & Hx & Hnew & Hnames & Hc)%list_summary_ok.
    assert (∀ a, a ∈ ls_authorized t → sm_Name a.1 ≠ sm_Name x) as Hne by (intros a Ha He; apply Hnew; rewrite <-He; by apply H2).
    unfold listed_ok. rewrite Hnames. destruct Hc as [(Hd & He & ->)|(d & Hd & He & ->)].
    + split; [done|]. split; [intros a Ha; destruct (H2 a Ha); set_solver|].
      intros l y [Hl|Hl%list_elem_of_singleton]%elem_of_app Hy Hb; [by eapply H3|]. subst l. congruence.
    + rewrite map_app. split; [|split].
      * apply NoDup_app. split; [done|]. split; [|apply NoDup_singleton].
        intros n (a & -> & Ha)%list_elem_of_fmap Hn%list_elem_of_singleton. by eapply Hne.
      * intros a [Ha|Ha%list_elem_of_singleton]%elem_of_app; [destruct (H2 a Ha); set_solver|]. subst a. set_solver.
      * intros l y [Hl|Hl%list_elem_of_singleton]%elem_of_app Hy Hb; [by eapply H3|]. subst l. assert (y = x) as -> by congruence. eauto.
  - split; [constructor|]. split; intros; set_solver.
Qed.

(** As many distinct authorized bridges as declarations: each declaration is listed. *)
Lemma authorized_all expected lines s d n : listed_ok expected lines s → length (ls_authorized s) = size expected →
  expected !! n = Some d → ∃ x, (x, d) ∈ ls_authorized s ∧ sm_Name x = n.
Proof.
  intros (H1 & H2 & _) Hlen Hd. set (names := map (λ a, sm_Name a.1) (ls_authorized s)) in *.
  assert ((list_to_set names : gset string) = dom expected) as Heq.
  { apply set_subseteq_size_eq.
    - intros k. rewrite elem_of_list_to_set, elem_of_dom. unfold names. intros (a & -> & Ha)%list_elem_of_fmap. destruct (H2 a Ha) as (_ & _ & ?). eauto.
    - rewrite size_dom, size_list_to_set by done. unfold names. rewrite length_map. lia. }
  assert (n ∈ (list_to_set names : gset string)) as Hn by (rewrite Heq; by apply elem_of_dom_2 in Hd).
  rewrite elem_of_list_to_set in Hn. apply list_elem_of_fmap in Hn as ([x d'] & -> & Ha). destruct (H2 _ Ha) as (_ & _ & He). simpl in *.
  exists x. split; [|done]. congruence.
Qed.

Lemma sameIPAM_eq m m' : sameIPAM m m' = true → m' = m.
Proof.
  unfold sameIPAM. intros [Hs%Nat.eqb_eq Hf]%andb_true_iff. symmetry. apply map_subseteq_size_eq; [|lia].
  apply map_subseteq_spec. intros k v Hk%elem_of_map_to_list. rewrite forallb_forall in Hf.
  specialize (Hf (k, v)). apply (bool_decide_eq_true_1 _), Hf. by apply list_elem_of_In.
Qed.

Section observed.
Context (range : gset string → list string) (o : Commands).

(** What the observation has established of a declared network. *)
Definition bound (d : DockerNetwork) (bridge : string) (ipam : gmap string string) : Prop :=
  linuxInterfaceName bridge = true ∧ link_show o bridge = true ∧ (dn_DynamicBridge d = false → bridge = dn_BridgeInterface d) ∧
  canonicalIPAM (dn_Subnets d) (dn_Gateways d) = inr ipam.

Lemma observe_network_ok byID s x d s' : observe_network o byID s (x, d) = inr s' → ∃ bridge ipam, bound d bridge ipam ∧
  (∀ prior, ob_bridges s !! bridge = Some prior → prior = sm_Name x) ∧ ob_bridges s' = <[bridge := sm_Name x]> (ob_bridges s) ∧
  ob_networks s' = (ob_networks s ++ map (λ p, mkNetwork (sm_ID x) (sm_Name x) (sm_Driver x) bridge p.1 p.2) (map_to_list ipam))%list.
Proof.
  unfold observe_network. intros H. apply err_bind_ok in H as (i & _ & H). apply err_bind_ok in H as ([] & Hu & H).
  set (bridge := observedBridgeName _ _ _) in *. apply err_bind_ok in H as ([] & Hb & H). apply err_bind_ok in H as ([] & Hl & H).
  apply err_bind_ok in H as (ipam & Hi & H). apply wrap_err_ok in Hi. apply err_bind_ok in H as (got & _ & H).
  apply err_bind_ok in H as ([] & Hsame & H). apply fails_ok, negb_false_iff, sameIPAM_eq in Hsame. subst got. injection H as <-.
  exists bridge, ipam. apply fails_ok in Hu, Hb, Hl. apply negb_false_iff in Hl. unfold unstable in Hu.
  repeat (apply orb_false_iff in Hu as [Hu ?]). invert_checks. split; [|split; [|split; [done|done]]].
  - split; [done|]. split; [done|]. split; [|done]. intros Hd. rewrite Hd in *. simpl in *. by invert_checks.
  - intros prior Hp. rewrite Hp in Hb. by invert_checks.
Qed.

Definition rows (x : networkSummary) (bridge : string) (ipam : gmap string string) (w : Network) : Prop :=
  ∃ subnet gateway, ipam !! subnet = Some gateway ∧ w = mkNetwork (sm_ID x) (sm_Name x) (sm_Driver x) bridge subnet gateway.
Definition observed_ok (l : list (networkSummary * DockerNetwork)) (s : observation) : Prop :=
  (∀ x d, (x, d) ∈ l → ∃ bridge ipam, bound d bridge ipam ∧ ob_bridges s !! bridge = Some (sm_Name x) ∧
     ∀ w, w ∈ ob_networks s ∧ nw_Name w = sm_Name x ↔ rows x bridge ipam w) ∧
  (∀ w, w ∈ ob_networks s → nw_Name w ∈ map (λ a, sm_Name a.1) l ∧ ob_bridges s !! nw_BridgeInterface w = Some (nw_Name w)).
Lemma observation_ok byID l s : NoDup (map (λ a, sm_Name a.1) l) → fold_err (observe_network o byID) (mkObservation ∅ []) l = inr s → observed_ok l s.
Proof.
  revert s. induction l as [|[x d] l IH] using rev_ind; intros s Hn H.
  { injection H as <-. split; [set_solver|]. intros w Hw. by apply elem_of_nil in Hw. }
  rewrite fold_err_app in H. apply err_bind_ok in H as (t & Ht & H). cbn [fold_err] in H.
  destruct (observe_network o byID t (x, d)) as [|u] eqn:Hu; [done|]. injection H as ->.
  rewrite map_app in Hn. apply NoDup_app in Hn as (Hn & Hfresh & _). destruct (IH t Hn Ht) as [H1 H2].
  apply observe_network_ok in Hu as (bridge & ipam & Hb & Hprior & Hbr & Hnet). clear IH Ht.
  assert (∀ w, w ∈ ob_networks t → nw_Name w ≠ sm_Name x) as Hold.
  { intros w [Hw _]%H2 He. rewrite He in Hw. by eapply Hfresh; [|left]. }
  assert (∀ w, w ∈ ob_networks s ↔ w ∈ ob_networks t ∨ rows x bridge ipam w) as Hin.
  { intros w. rewrite Hnet, elem_of_app, list_elem_of_fmap. apply or_iff_compat_l. split.
    - intros ([k g] & -> & Hp%elem_of_map_to_list). by exists k, g.
    - intros (k & g & Hk & ->). exists (k, g). split; [done|]. by apply elem_of_map_to_list. }
  assert (∀ k n, ob_bridges t !! k = Some n → n ≠ sm_Name x → ob_bridges s !! k = Some n) as Hkeep.
  { intros k n Hk Hne. rewrite Hbr, lookup_insert_ne; [done|]. intros <-. by apply Hprior in Hk. }
  split.
  - intros y e [Hy|Hy%list_elem_of_singleton]%elem_of_app.
    + assert (sm_Name y ≠ sm_Name x) as Hne.
      { intros He. eapply Hfresh; [|by left]. simpl. rewrite <-He. apply (list_elem_of_fmap_2 (λ a, sm_Name a.1) _ _ Hy). }
      destruct (H1 y e Hy) as (b & m & Hbm & Hk & Hw). exists b, m. split; [done|]. split; [by apply Hkeep|].
      intros w. rewrite Hin, <-Hw. split; [|naive_solver]. intros [[?|(k & g & _ & ->)] He]; [done|]. by simpl in He.
    + injection Hy as -> ->. exists bridge, ipam. split; [done|]. split; [by rewrite Hbr, lookup_insert_eq|].
      intros w. rewrite Hin. split; [|intros Hr; split; [by right|by destruct Hr as (? & ? & _ & ->)]].
      intros [[Hw|?] He]; [|done]. by apply Hold in Hw.
  - intros w. rewrite Hin, map_app, elem_of_app. intros [Hw|(k & g & _ & ->)].
    + pose proof (Hold w Hw). destruct (H2 w Hw) as [? ?]. split; [by left|]. by apply Hkeep.
    + simpl. split; [right; by left|]. by rewrite Hbr, lookup_insert_eq.
Qed.

Lemma Networks_ok declared l : Networks range o declared = inr l → ∃ expected out listed byID s,
  fold_err expect_network ∅ declared = inr expected ∧ network_ls o = inr out ∧
  fold_err (list_summary expected) (mkListing ∅ ∅ []) (splitLines out) = inr listed ∧
  length (ls_authorized listed) = size expected ∧
  fold_err (observe_network o byID) (mkObservation ∅ []) (ls_authorized listed) = inr s ∧ l = sort_by network_leb (ob_networks s).
Proof.
  unfold Networks. intros H. apply err_bind_ok in H as ([] & _ & H). apply err_bind_ok in H as (expected & He & H).
  apply err_bind_ok in H as (out & Ho & H). cbv zeta in H. apply err_bind_ok in H as ([] & _ & H). apply err_bind_ok in H as (listed & Hl & H).
  destruct (List.find _ _); [done|]. apply err_bind_ok in H as ([] & Hn & H). apply err_bind_ok in H as (raw & _ & H).
  apply err_bind_ok in H as (ins & _ & H). apply err_bind_ok in H as ([] & _ & H). apply err_bind_ok in H as (byID & _ & H).
  apply err_bind_ok in H as (s & Hs & H). injection H as <-. apply fails_ok, negb_false_iff, Nat.eqb_eq in Hn. by eauto 15.
Qed.

(** C37: An accepted observation shows every declared network exactly as declared: its
    rows are its canonical subnets with their gateways on one existing bridge, the
    declared one unless the bridge is dynamic.  Nothing else is shown, no two networks
    share a bridge, and no bridge network that docker lists is undeclared. *)
Theorem Networks_exact declared l : Networks range o declared = inr l →
  (∀ d, d ∈ declared → ∃ bridge ipam id, bound d bridge ipam ∧
     ∀ w, w ∈ l ∧ nw_Name w = dn_Name d ↔ ∃ subnet gateway, ipam !! subnet = Some gateway ∧
       w = mkNetwork id (dn_Name d) "bridge" bridge subnet gateway) ∧
  (∀ w, w ∈ l → nw_Name w ∈ map dn_Name declared) ∧
  (∀ v w, v ∈ l → w ∈ l → nw_BridgeInterface v = nw_BridgeInterface w → nw_Name v = nw_Name w) ∧
  (∀ out line x, network_ls o = inr out → line ∈ splitLines out → read_summary line = Some x → sm_Driver x = "bridge" →
     sm_Name x ∈ map dn_Name declared).
Proof.
  intros (expected & out & listed & byID & s & He & Ho & Hl & Hlen & Hs & ->)%Networks_ok.
  apply expected_table in He as (_ & Hexp & _). apply listing_ok in Hl. destruct (Hl) as (Hn & Ha & Hb).
  apply observation_ok in Hs as [Hobs Hrow]; [|done]. assert (∀ k, is_Some (expected !! k) → k ∈ map dn_Name declared) as Hdecl.
  { intros k [d [Hd <-]%Hexp]. by apply list_elem_of_fmap_2. }
  split; [|split; [|split]].
  - intros d Hd. destruct (authorized_all expected _ listed d (dn_Name d) Hl Hlen) as (x & Hx & Hname); [by apply Hexp|].
    destruct (Hobs x d Hx) as (bridge & ipam & Hbd & _ & Hw). exists bridge, ipam, (sm_ID x). split; [done|].
    intros w. rewrite elem_of_sort_by, <-Hname, Hw. unfold rows. destruct (Ha _ Hx) as (_ & Hdr & _). simpl in Hdr. by rewrite Hdr.
  - intros w [Hw _]%elem_of_sort_by%Hrow. apply list_elem_of_fmap in Hw as (a & -> & Hin). destruct (Ha _ Hin) as (_ & _ & ?). eauto.
  - intros v w [_ Hv]%elem_of_sort_by%Hrow [_ Hw]%elem_of_sort_by%Hrow E. rewrite E in Hv. congruence.
  - intros out' line x Ho' Hline Hx Hd. rewrite Ho in Ho'. injection Ho' as <-. eapply Hdecl, Hb; done.
Qed.
End observed.

(** ** The projection keeps what the ledger and the policies depend on *)

Lemma ipam_pair_canonical s t x : ipam_pair s t = Some x → ipam_pair x.1 x.2 = Some x.
Proof.
  unfold ipam_pair. intros H. destruct (ParsePrefix s) as [p|] eqn:Ep; [|done]. destruct (ParseAddr t) as [g|] eqn:Eg; [|done].
  destruct (_ || _ || _) eqn:E; [done|]. injection H as <-. cbn [fst snd].
  apply orb_false_iff in E as [E E3]. apply orb_false_iff in E as [E1 E2]. apply negb_false_iff in E2.
  apply ParsePrefix_ok in Ep. apply ParseAddr_ok in Eg.
  rewrite ParsePrefix_String by by apply Masked_ok. rewrite ParseAddr_String; [|done|].
  - by rewrite Masked_bits, Masked_Is4, Masked_idem, Feeds.Contains_Masked, E1, E2, E3.
  - unfold Contains in E2. apply andb_true_iff in E2 as [[E2 _]%andb_true_iff _]. by apply negb_true_iff.
Qed.
Definition canonical_ipam (m : gmap string string) : Prop := ∀ k g, m !! k = Some g → ipam_pair k g = Some (k, g).
Lemma add_pair_ok invalid dup m p m' : add_pair invalid dup m p = inr m' → ∃ x, ipam_pair p.1 p.2 = Some x ∧ m !! x.1 = None ∧ m' = <[x.1 := x.2]> m.
Proof.
  unfold add_pair. intros H. apply err_bind_ok in H as (x & Hx & H). apply of_option_ok in Hx. apply err_bind_ok in H as ([] & Hn & H).
  injection H as <-. apply fails_ok, bool_decide_eq_false in Hn. rewrite <-eq_None_not_Some in Hn. by exists x.
Qed.
Lemma add_pairs_canonical invalid dup l m : fold_err (add_pair invalid dup) ∅ l = inr m → canonical_ipam m ∧ size m = length l.
Proof.
  apply (fold_err_inv (add_pair invalid dup) (λ pre m, canonical_ipam m ∧ size m = length pre)).
  - intros pre p m1 m2 _ [Hc Hs] (x & Hx & Hn & ->)%add_pair_ok. split.
    + intros k g [[<- <-]|[_ Hk]]%lookup_insert_Some; [|by apply Hc]. destruct x. by apply ipam_pair_canonical in Hx.
    + rewrite map_size_insert_None, length_app by done. simpl. lia.
  - split; [intros k g; by rewrite lookup_empty|done].
Qed.
Lemma zip_map {A B} (f : A → B) l : zip l (map f l) = map (λ x, (x, f x)) l.
Proof. induction l as [|x l IH]; simpl; [done|]. by rewrite IH. Qed.
Lemma add_pairs_known invalid dup m l m0 : canonical_ipam m → NoDup l → (∀ k, k ∈ l → is_Some (m !! k) ∧ m0 !! k = None) →
  ∃ m', fold_err (add_pair invalid dup) m0 (map (λ k, (k, default "" (m !! k))) l) = inr m' ∧
    ∀ k, m' !! k = if bool_decide (k ∈ l) then m !! k else m0 !! k.
Proof.
  intros Hc. revert m0. induction l as [|k l IH]; intros m0 Hn Hl; simpl; [by exists m0|].
  apply NoDup_cons in Hn as [Hk Hn]. destruct (Hl k) as [[g Hg] H0]; [by left|]. rewrite Hg. simpl.
  assert (add_pair invalid dup m0 (k, g) = inr (<[k := g]> m0)) as ->.
  { unfold add_pair. cbn [fst snd]. rewrite (Hc _ _ Hg). simpl. by rewrite bool_decide_eq_false_2 by (rewrite H0; by intros [? ?]). }
  destruct (IH (<[k := g]> m0)) as (m' & Hm' & Heq); [done|..].
  { intros j Hj. destruct (Hl j) as [? ?]; [by right|]. split; [done|]. rewrite lookup_insert_ne; [done|]. by intros ->. }
  exists m'. split; [done|]. intros j. rewrite Heq. destruct (decide (j = k)) as [->|Hne].
  - rewrite (bool_decide_eq_true_2 (k ∈ k :: l)) by by left. rewrite bool_decide_eq_false_2, lookup_insert_eq by done. done.
  - rewrite lookup_insert_ne by done. destruct (decide (j ∈ l)); [rewrite !bool_decide_eq_true_2 by (done || by right); done|].
    rewrite !bool_decide_eq_false_2; [done|set_solver..].
Qed.
(** The sorted canonical pairs are read back as they are. *)
Lemma canonicalIPAM_sorted m : canonical_ipam m → (0 < size m)%nat →
  let subnets := sort_strings (map fst (map_to_list m)) in canonicalIPAM subnets (map (λ k, default "" (m !! k)) subnets) = inr m.
Proof.
  intros Hc Hs subnets. assert (subnets ≡ₚ map fst (map_to_list m)) as Hp by apply sort_strings_perm.
  assert (length subnets = size m) as Hlen by (by rewrite Hp, length_map, length_map_to_list).
  unfold canonicalIPAM. rewrite length_map, Hlen, Nat.eqb_refl. destruct (Nat.eqb_spec (size m) 0); [lia|]. cbn [orb negb fails err_bind].
  rewrite zip_map. destruct (add_pairs_known (Errorf "invalid subnet/gateway pair" []) (λ _, Errorf "duplicate subnet" []) m subnets ∅) as (m' & -> & Heq); [done|..].
  - rewrite Hp. apply NoDup_fst_map_to_list.
  - intros k. rewrite Hp. intros ([j g] & -> & Hj%elem_of_map_to_list)%list_elem_of_fmap. rewrite lookup_empty. simpl. eauto.
  - f_equal. apply map_eq. intros k. rewrite Heq. case_bool_decide as Hk; [done|]. rewrite lookup_empty. symmetry. apply eq_None_not_Some.
    intros [g Hg]. apply Hk. rewrite Hp. apply elem_of_map_to_list in Hg. apply (list_elem_of_fmap_2 fst _ _ Hg).
Qed.

(** What rebinding keeps of an interface: its identity and provenance, its role, its
    zone, and everything unless it is a container bridge. *)
Definition kept_interface (i i' : Interface) : Prop :=
  assignment_of i' = assignment_of i ∧ in_Role i' = in_Role i ∧ in_Zone i' = in_Zone i ∧ (in_Role i ≠ "container" → i' = i).
#[export] Instance kept_interface_preorder : PreOrder kept_interface.
Proof.
  split; [done|]. intros i j k (A1 & A2 & A3 & A4) (B1 & B2 & B3 & B4). split; [congruence|]. split; [congruence|]. split; [congruence|].
  intros Hr. rewrite B4, A4; [done..|]. congruence.
Qed.
Lemma docker_identity name : linuxInterfaceName ("docker:" +:+ name) = false.
Proof. done. Qed.
Lemma rebind_kept name bridge subnets l l' : linuxInterfaceName bridge = true → Forall (λ i, linuxInterfaceName (in_Name i) = true) l →
  rebind_interface ("docker:" +:+ name) bridge subnets l = inr (Some l') →
  Forall2 kept_interface l l' ∧ Forall (λ i, linuxInterfaceName (in_Name i) = true) l'.
Proof.
  intros Hb. revert l'. induction l as [|i l IH]; intros l' Hl H; [done|]. apply Forall_cons in Hl as [Hi Hl]. simpl in H.
  destruct (String.eqb _ _) eqn:E.
  - apply err_bind_ok in H as ([] & Hr & H). injection H as <-. apply fails_ok, negb_false_iff, String.eqb_eq in Hr. apply String.eqb_eq in E.
    split; [|by constructor]. constructor; [|done]. unfold kept_interface, assignment_of, InterfaceProvenanceName in *. simpl.
    destruct (String.eqb (in_ProvenanceName i) "") eqn:Ep.
    + rewrite E, docker_identity in Hi. done.
    + split; [done|]. split; [done|]. split; [done|]. congruence.
  - apply err_bind_ok in H as (r & Hr & H). destruct r as [l1|]; [|done]. injection H as <-. destruct (IH l1 Hl Hr).
    split; by constructor.
Qed.

Section projected.
Context (observed : list Network).

Definition shown (name bridge : string) : Prop := ∃ w, w ∈ observed ∧ nw_Name w = name ∧ nw_BridgeInterface w = bridge.
(** The declaration after rebinding: a static one is untouched, and the tuple of a
    dynamic one is the same on the observed bridge. *)
Definition rebinding (n n' : DockerNetwork) : Prop :=
  dn_Name n' = dn_Name n ∧ dn_Driver n' = dn_Driver n ∧ dn_DynamicBridge n' = dn_DynamicBridge n ∧ (dn_DynamicBridge n = false → n' = n) ∧
  shown (dn_Name n) (dn_BridgeInterface n') ∧
  ∃ ipam, canonicalIPAM (dn_Subnets n) (dn_Gateways n) = inr ipam ∧ canonicalIPAM (dn_Subnets n') (dn_Gateways n') = inr ipam.

Lemma project_observed_shown authorized l byName : (∀ w, w ∈ l → w ∈ observed) → fold_err (project_observed authorized) ∅ l = inr byName →
  ∀ k p, byName !! k = Some p → shown k (pr_bridge p).
Proof.
  intros Hl. apply (fold_err_inv (project_observed authorized) (λ _ m, ∀ k p, m !! k = Some p → shown k (pr_bridge p))).
  - intros pre w m m' Hw Hm H k p. unfold project_observed in H. apply err_bind_ok in H as ([] & _ & H). apply err_bind_ok in H as ([] & _ & H).
    destruct (canonicalIPAM _ _); [done|]. cbv zeta in H. apply err_bind_ok in H as ([] & _ & H). apply err_bind_ok in H as ([] & _ & H).
    apply err_bind_ok in H as (ipam & _ & H). injection H as <-. intros [[<- <-]|[_ Hk]]%lookup_insert_Some; [|by apply Hm].
    exists w. split; [by apply Hl|done].
  - intros k p. by rewrite lookup_empty.
Qed.

Lemma canonicalIPAM_ok subnets gateways m : canonicalIPAM subnets gateways = inr m → canonical_ipam m ∧ (0 < size m)%nat.
Proof.
  unfold canonicalIPAM. intros H. apply err_bind_ok in H as ([] & Hn & H). apply fails_ok, orb_false_iff in Hn as [Hn Hl].
  apply negb_false_iff, Nat.eqb_eq in Hl. apply Nat.eqb_neq in Hn. apply add_pairs_canonical in H as [Hc ->]. split; [done|].
  rewrite length_zip. lia.
Qed.

Definition projected_ok (l : list Interface) (pre : list DockerNetwork) (s : projected) : Prop :=
  Forall2 rebinding pre (pj_networks s) ∧ Forall2 kept_interface l (pj_interfaces s) ∧
  Forall (λ i, linuxInterfaceName (in_Name i) = true) (pj_interfaces s).
Lemma project_network_ok byName l pre n s s' : (∀ k p, byName !! k = Some p → shown k (pr_bridge p)) →
  projected_ok l pre s → project_network byName s n = inr s' → projected_ok l (pre ++ [n]) s'.
Proof.
  intros Hshown (H1 & H2 & H3) H. unfold project_network in H. apply err_bind_ok in H as (cur & Hcur & H). apply of_option_ok in Hcur.
  apply err_bind_ok in H as ([] & Hb & H). apply fails_ok, negb_false_iff in Hb. apply err_bind_ok in H as ([] & _ & H).
  destruct (canonicalIPAM (dn_Subnets n) (dn_Gateways n)) as [|ipam] eqn:Ei; [done|]. apply err_bind_ok in H as ([] & Hsame & H).
  apply fails_ok, negb_false_iff, sameIPAM_eq in Hsame. apply Hshown in Hcur. destruct (dn_DynamicBridge n) eqn:Ed; simpl in H.
  - unfold project_dynamic in H. apply err_bind_ok in H as (r & Hr & H). apply err_bind_ok in H as (ports & Hi & H). apply of_option_ok in Hi.
    injection H as <-. subst r. apply rebind_kept in Hr as [Hk Hn]; [|done..]. split; [|split; [by transitivity (pj_interfaces s)|done]]. cbn [pj_networks].
    apply Forall2_app; [done|]. constructor; [|done]. split; [done|]. split; [done|]. split; [done|]. split; [congruence|].
    split; [done|]. exists ipam. split; [done|]. apply canonicalIPAM_ok in Ei as [Hc Hs]. rewrite Hsame. by apply canonicalIPAM_sorted.
  - unfold project_static in H. apply err_bind_ok in H as ([] & He & H). apply fails_ok, negb_false_iff, String.eqb_eq in He.
    apply err_bind_ok in H as (i & _ & H). apply err_bind_ok in H as ([] & _ & H). apply err_bind_ok in H as ([] & _ & H). injection H as <-.
    split; [|done]. apply Forall2_app; [done|]. constructor; [|done]. do 3 (split; [done|]). split; [done|]. split; [by rewrite He|]. by exists ipam.
Qed.

Lemma ProjectObservedConfig_zones c c' : ProjectObservedConfig c observed = inr c' →
  Forall2 (λ z z', zone_Name z' = zone_Name z ∧ zone_Networks z' = zone_Networks z) (Zones c) (Zones c').
Proof.
  intros H. unfold ProjectObservedConfig in H. destruct (negb _).
  - injection H as <-. apply Forall_Forall2_diag, Forall_true. done.
  - apply err_bind_ok in H as (byName & _ & H). apply err_bind_ok in H as (s & _ & H). cbv zeta in H. apply err_bind_ok in H as ([] & _ & H).
    injection H as <-. cbn. apply Forall2_fmap_r, Forall_Forall2_diag, Forall_true. done.
Qed.

(** A configuration rebound to the bridges Docker has now still validates and
    differs only there: policies, services, NAT and every other section are the same,
    each interface keeps its provenance identity and number, its role and its zone, each
    zone its networks, only container interfaces change at all, static networks do not,
    and a dynamic one keeps its tuple on a bridge that was observed for it. *)
Theorem ProjectObservedConfig_keeps c c' : Config.Validate c = inr tt → ProjectObservedConfig c observed = inr c' →
  Config.Validate c' = inr tt ∧ c' = with_bindings c (Interfaces c') (Zones c') (DockerNetworks c') ∧
  map assignment_of (Interfaces c') = map assignment_of (Interfaces c) ∧
  Forall2 kept_interface (Interfaces c) (Interfaces c') ∧
  Forall2 (λ z z', zone_Name z' = zone_Name z ∧ zone_Networks z' = zone_Networks z) (Zones c) (Zones c') ∧
  (DockerEnabled (Integrations c) = true → Forall2 rebinding (DockerNetworks c) (DockerNetworks c')).
Proof.
  intros Hv H. pose proof (ProjectObservedConfig_zones c c' H) as Hz. unfold ProjectObservedConfig in H. destruct (DockerEnabled (Integrations c)) eqn:Ed; simpl in H.
  - apply err_bind_ok in H as (byName & Hb & H). apply err_bind_ok in H as (s & Hs & H). cbv zeta in H. apply err_bind_ok in H as ([] & Hv' & H).
    apply wrap_err_ok in Hv'. injection H as <-. pose proof (project_observed_shown _ observed byName (λ _ Hw, Hw) Hb) as Hshown.
    apply (fold_err_inv (project_network byName) (projected_ok (Interfaces c))) in Hs as (H1 & H2 & _).
    + split; [done|]. split; [done|]. cbn. split; [|split; [done|split; [|done]]].
      * clear Hv'. induction H2 as [|i i' l l' (Hi & _) _ IH]; simpl; [done|]. by rewrite Hi, IH.
      * exact Hz.
    + intros pre n s1 s2 _. by apply project_network_ok.
    + split; [constructor|]. split; [done|]. cbn. eapply Forall_impl; [apply (vc_interfaces _ (Validate_valid _ Hv))|]. by intros i [? _].
  - injection H as <-. split; [done|]. split; [by destruct c|]. split; [done|]. split; [done|]. split; [exact Hz|done].
Qed.
End projected.

(** ** A sample: the network of the sample configuration, recreated on another bridge *)

Definition sample_id (c : ascii) : string := of_chars (replicate 64 c).
Definition sample_line (id name driver : string) : string := id +:+ of_chars [tab] +:+ name +:+ of_chars [tab] +:+ driver +:+ of_chars [lf].
Definition sample_inspect : json :=
  JArr [JObj [("Name", JStr "web"); ("Id", JStr (sample_id "a")); ("Driver", JStr "bridge"); ("Internal", JBool false); ("EnableIPv6", JBool false);
              ("Options", JObj [("com.docker.network.bridge.name", JStr "br-next")]);
              ("IPAM", JObj [("Driver", JStr "default"); ("Config", JArr [JObj [("Subnet", JStr "172.30.0.0/24"); ("Gateway", JStr "172.30.0.1")]])])]].
Definition sample_commands : Commands :=
  mkCommands (inr (sample_line (sample_id "a") "web" "bridge" +:+ sample_line (sample_id "b") "host" "host"))
    (λ ids, if bool_decide (ids = [sample_id "a"]) then inr (Some sample_inspect) else inl (Errorf "no such network" [])) (String.eqb "br-next").
Definition sample_network : Network := mkNetwork (sample_id "a") "web" "bridge" "br-next" "172.30.0.0/24" "172.30.0.1".
Example sample_observed : Networks elements sample_commands (DockerNetworks sample) = inr [sample_network].
Proof. vm_compute. reflexivity. Qed.
Example sample_discovered : DiscoverNetworks sample_commands = inr [mkDocker "web" "bridge" "br-next" true ["172.30.0.0/24"] ["172.30.0.1"]].
Proof. vm_compute. reflexivity. Qed.
Definition sample_projected : Config :=
  with_bindings sample
    [mkInterface "eth0" "uplink" "" [] "" 10; mkInterface "wg0" "vpn" "" [] "" 20; mkInterface "lan0" "lan" "lan" ["192.168.10.0/24"] "" 30;
     mkInterface "br-next" "container" "web" ["172.30.0.0/24"] "docker:web" 40]
    (Zones sample) [mkDocker "web" "bridge" "br-next" true ["172.30.0.0/24"] ["172.30.0.1"]].
Example sample_rebound : ProjectObservedConfig sample [sample_network] = inr sample_projected ∧ dockerBridgeBindingsChanged sample sample_projected = true.
Proof. vm_compute. done. Qed.

Lemma Networks_exact_witness : (∀ w, w ∈ [sample_network] → nw_Name w ∈ map dn_Name (DockerNetworks sample)) ∧
  ∃ d, d ∈ DockerNetworks sample ∧ ∃ bridge ipam, bound sample_commands d bridge ipam.
Proof.
  destruct (Networks_exact elements sample_commands (DockerNetworks sample) [sample_network]) as (H1 & H2 & _); [vm_compute; reflexivity|].
  split; [exact H2|]. eexists. split; [left|]. edestruct H1 as (bridge & ipam & _ & Hb & _); [left|]. by exists bridge, ipam.
Defined.
Lemma ProjectObservedConfig_keeps_witness : Config.Validate sample_projected = inr tt ∧
  map assignment_of (Interfaces sample_projected) = map assignment_of (Interfaces sample).
Proof.
  destruct (ProjectObservedConfig_keeps [sample_network] sample sample_projected) as (H1 & _ & H2 & _); [vm_compute; reflexivity..|]. by split.
Defined.
(** A bridge whose name starts with an underscore is a valid declaration that the
    observation refuses. *)
Definition underscored : DockerNetwork := mkDocker "web" "bridge" "_br" true ["172.30.0.0/24"] ["172.30.0.1"].
Example underscored_bridge :
  Config.Validate (with_bindings sample
    [mkInterface "eth0" "uplink" "" [] "" 10; mkInterface "wg0" "vpn" "" [] "" 20; mkInterface "lan0" "lan" "lan" ["192.168.10.0/24"] "" 30;
     mkInterface "_br" "container" "web" ["172.30.0.0/24"] "docker:web" 40] (Zones sample) [underscored]) = inr tt ∧
  Networks elements sample_commands [underscored] = inl (Errorf "invalid expected Docker network tuple %q" [ArgS "web"]).
Proof. vm_compute. done. Qed.
