(* ===== verification/Recovery.v ===== *)
(** Boot recovery and the independent verifier (internal/reconcile/recovery.go,
    manager.go [RollbackExpired], verifier_evidence.go). *)

From S2P Require Import Prelude GoStrings GoTime Sha256 Json NftScript NftJson Ledger Snapshot Host Store Backend Manager.
From Stdlib Require Import Ascii String.
Local Open Scope string_scope.
Local Open Scope N_scope.
Local Open Scope host_scope.

Record RecoveryResult := mkRecovery { rec_Generation : N; rec_Action : string; rec_Ready : bool }.

Section recovery.
Context {K : Type} `{Nft K}.
Context (range : gset string → list string).
Abbreviation HM := (M (Host K)).
Implicit Types (m : Manager K) (c : Ctx).

(** A Go [(RecoveryResult, error)] whose value matters together with an error. *)
Abbreviation Recovered := (HM (RecoveryResult * option err)).
Definition ready (id : N) (action : string) : Recovered := ret (mkRecovery id action true, None).

(** ** Establishing a generation in the kernel *)

(** [if ok, _, err := Integrity(); err == nil && ok { if fp, e := Fingerprint(); e == nil && fp == hash ...]} *)
Definition already_established (hash : string) : HM bool :=
  ok <- try_ (Integrity range) ;;
  match ok with
  | inr (true, _) =>
      fp <- try_ Fingerprint ;;
      match fp with inr h => ret (String.eqb h hash) | inl _ => ret false end
  | _ => ret false
  end.

Definition establishAndVerify m c (g : Generation) (s : GenerationSnapshot) : HM unit :=
  auditForeignMarkOwnership m ;;
  require (negb (String.eqb (gen_ObservedHash g) ""))
    (Errorf "generation has no persisted observed-state fingerprint" []) ;;
  established <- already_established (gen_ObservedHash g) ;;
  if established : bool then ret tt
  else
    installOwnedGeneration m c (snap_Script s) ;;
    ok <- Integrity range ;;
    require (ok : bool * string).1 (Errorf "owned nftables integrity failed: %s" [ArgS ok.2]) ;;
    fp <- Fingerprint ;;
    require (String.eqb fp (gen_ObservedHash g))
      (Errorf "restored nftables fingerprint does not match durable generation" []).

Definition requirePointer (expected : EnforcementPointer) : HM unit :=
  pointer <- ReadEnforcementPointer ;;
  require (ptr_Equal expected pointer)
    (Errorf "authoritative enforcement pointer changed during recovery" []).

(** ** Resolving a candidate *)

Definition pendingIsStale (g : Generation) : HM bool :=
  bootID <- wrapped "read current boot id: %w" CurrentBootID ;;
  require (negb (String.eqb (gen_BootID g) "")) (Errorf "pending generation has no creating boot id" []) ;;
  if negb (String.eqb (gen_BootID g) bootID) then ret true else expired (gen_RollbackDeadline g).

Definition rollbackFirstGenerationAtBoot c (candidate : Generation) : Recovered :=
  existing <- wrapped "inspect first-generation recovery state: %w" ExistingOwned ;;
  (if bool_decide (existing = ∅) then ret tt
   else
     require ((size existing =? List.length OwnedTables)%nat && negb (String.eqb (gen_ObservedHash candidate) ""))
       (Errorf "first pending generation left ambiguous product-named nftables state" []) ;;
     ok <- Integrity range ;;
     require (ok : bool * string).1
       (Errorf "first pending generation cannot be safely removed: %s" [ArgS ok.2]) ;;
     fp <- Fingerprint ;;
     require (String.eqb fp (gen_ObservedHash candidate))
       (Errorf "first pending generation fingerprint is ambiguous" []) ;;
     wrapped "remove verified first pending generation: %w" (DestroyOwned c) ;;
     remaining <- ExistingOwned ;;
     require (bool_decide (remaining = ∅))
       (Errorf "verified first pending generation remained after removal" [])) ;;
  FinalizeRecoveryRollback (gen_ID candidate)
    (sprintf "generation=%d predecessor=ABSENT" [ArgN (gen_ID candidate)]) ;;
  ret (mkRecovery (gen_ID candidate) "rolled_back_first_generation" false,
       Some (Errorf "first pending generation was rolled back without a committed predecessor; readiness remains blocked" [])).

Definition restorePredecessorAndRollback m c (candidate : Generation) (s : GenerationSnapshot) : Recovered :=
  match snap_Previous s with
  | None => rollbackFirstGenerationAtBoot c candidate
  | Some p =>
      previous <- wrapped "resolve pending predecessor generation: %w" (GenerationByID (ptr_Generation p)) ;;
      require (has_status [Committed] previous && String.eqb (gen_Checksum previous) (ptr_PolicyChecksum p) &&
               String.eqb (gen_SnapshotChecksum previous) (ptr_SnapshotChecksum p))
        (Errorf "pending predecessor is not the exact committed generation" []) ;;
      previousSnapshot <- EnsurePublishedGenerationDurable p ;;
      validateGenerationSnapshot previous previousSnapshot false ;;
      catch (establishAndVerify m c previous previousSnapshot)
        (λ e, throw (Wrapf "restore predecessor generation %d: %w" [ArgN (gen_ID previous)] e)) ;;
      wrapped "restore predecessor runtime state: %w" (restoreRuntimeOrDeny m c) ;;
      requirePointer p ;;
      FinalizeRecoveryRollback (gen_ID candidate)
        (sprintf "generation=%d predecessor=%d" [ArgN (gen_ID candidate); ArgN (gen_ID previous)]) ;;
      ready (gen_ID previous) "rolled_back_to_predecessor"
  end.

Definition recoverPendingAtBoot m c (pending : Generation) (pointer : option EnforcementPointer) : Recovered :=
  s <- wrapped "load pending immutable snapshot: %w" (LoadVerifiedGenerationSnapshot (gen_ID pending)) ;;
  validateGenerationSnapshot pending s (has_status [CommitPrepared] pending) ;;
  let newPointer := snap_Pointer s in
  match gen_Status pending with
  | CommitPrepared =>
      if ptr_Equal newPointer pointer then
        durableSnapshot <- EnsurePublishedGenerationDurable newPointer ;;
        catch (establishAndVerify m c pending durableSnapshot)
          (λ e, throw (Wrapf "restore published prepared generation %d: %w" [ArgN (gen_ID pending)] e)) ;;
        requirePointer newPointer ;;
        wrapped "finalize recovered commit: %w" (FinalizeCommit (gen_ID pending)) ;;
        ready (gen_ID pending) "finalized_prepared_commit"
      else
        require (pointerMatchesPrevious (snap_Previous s) pointer)
          (Errorf "prepared generation observed an ambiguous third pointer state" []) ;;
        restorePredecessorAndRollback m c pending s
  | Pending | Applied =>
      require (pointerMatchesPrevious (snap_Previous s) pointer)
        (Errorf "ordinary pending generation does not match its exact predecessor pointer" []) ;;
      stale <- pendingIsStale pending ;;
      require (stale : bool)
        (Errorf "generation %d is still live on its creating boot and before its deadline" [ArgN (gen_ID pending)]) ;;
      restorePredecessorAndRollback m c pending s
  | _ => throw (Errorf "unsupported pending recovery status %s" [ArgS (status_name (gen_Status pending))])
  end.

(** ** Boot recovery *)

Definition recoverAtBootLocked m c : Recovered :=
  auditForeignMarkOwnership m ;;
  pointer <- wrapped "read authoritative enforcement pointer: %w" ReadEnforcementPointer ;;
  pending <- if_any Pending_ ;;
  match pending with
  | Some g => recoverPendingAtBoot m c g pointer
  | None =>
      match pointer with
      | None => throw (Errorf "no committed enforcement pointer exists" [])
      | Some p =>
          generation <- wrapped "resolve committed pointer generation: %w" (GenerationByID (ptr_Generation p)) ;;
          require (has_status [Committed] generation)
            (Errorf "enforcement pointer references generation %d with status %s"
               [ArgN (gen_ID generation); ArgS (status_name (gen_Status generation))]) ;;
          latest <- LastKnownGood ;;
          require (gen_ID latest =? gen_ID generation)
            (Errorf "enforcement pointer is not the latest committed generation" []) ;;
          s <- EnsurePublishedGenerationDurable p ;;
          validateGenerationSnapshot generation s false ;;
          catch (establishAndVerify m c generation s)
            (λ e, throw (Wrapf "restore committed generation %d: %w" [ArgN (gen_ID generation)] e)) ;;
          requirePointer p ;;
          AuditDurable "system" "generation_boot_restored" (sprintf "generation=%d" [ArgN (gen_ID generation)]) ;;
          ready (gen_ID generation) "restored_committed"
      end
  end.

Definition RecoverAtBoot m c : Recovered := with_process_lock m c (recoverAtBootLocked m).

(** ** The rollback timer (manager.go) *)

Definition rolled_back_action (r : RecoveryResult) : bool :=
  String.eqb (rec_Action r) "rolled_back_to_predecessor" || String.eqb (rec_Action r) "rolled_back_first_generation".

(** A recovery error carries the zero result. *)
Definition expire_candidate m c (g : Generation) : HM (bool * option err) :=
  pointer <- ReadEnforcementPointer ;;
  r <- recoverPendingAtBoot m c g pointer ;;
  match (r : RecoveryResult * option err) with
  | (res, Some e) => ret (rolled_back_action res, Some e)
  | (res, None) =>
      ret (if String.eqb (rec_Action res) "finalized_prepared_commit" then false else rolled_back_action res, None)
  end.

Definition rollback_expired_locked m c : HM (bool * option err) :=
  auditForeignMarkOwnership m ;;
  pending <- if_any Pending_ ;;
  match pending with
  | None => ret (false, None)
  | Some g =>
      if has_status [CommitPrepared] g then expire_candidate m c g
      else
        stale <- pendingIsStale g ;;
        if stale : bool then expire_candidate m c g else ret (false, None)
  end.

Definition RollbackExpired m c : HM (bool * option err) := with_process_lock m c (rollback_expired_locked m).
End recovery.
