(* ===== verification/Invariant.v ===== *)
(** The durable-state invariant of the commit protocol: the generation rows, the
    immutable files they name and the enforcement pointer, live and on stable
    storage. *)

From S2P Require Import Prelude GoStrings GoTime Sha256 Json NftScript NftJson Ledger Snapshot Claims Host Store.
From Stdlib Require Import Ascii String.
Local Open Scope string_scope.
Local Open Scope N_scope.
Local Open Scope host_scope.

Abbreviation Gens := (gmap N Generation).

(** ** The latest row of a kind *)

Definition keyed (m : Gens) : Prop := ∀ id g, m !! id = Some g → gen_ID g = id.

Definition is_latest (p : Generation → bool) (m : Gens) (g : Generation) : Prop :=
  m !! gen_ID g = Some g ∧ p g = true ∧
  ∀ id g', m !! id = Some g' → p g' = true → gen_ID g' ≤ gen_ID g.

Lemma foldr_pick_latest p (l : list (N * Generation)) :
  match foldr (pick_latest p) None l with
  | None => ∀ r, r ∈ l → p r.2 = false
  | Some g => (∃ id, (id, g) ∈ l) ∧ p g = true ∧ ∀ r, r ∈ l → p r.2 = true → gen_ID r.2 ≤ gen_ID g
  end.
Proof.
  induction l as [|r l IH]; simpl; [set_solver|].
  unfold pick_latest at 1. destruct (p r.2) eqn:Hp.
  - destruct (foldr (pick_latest p) None l) as [b|].
    + destruct IH as ((id & Hin) & Hb & Hmax). destruct (N.ltb_spec (gen_ID b) (gen_ID r.2)).
      * split; [exists r.1; destruct r; set_solver|]. split; [done|].
        intros r' [->|Hr']%elem_of_cons Hp'; [done|]. specialize (Hmax r' Hr' Hp'). lia.
      * split; [exists id; set_solver|]. split; [done|].
        intros r' [->|Hr']%elem_of_cons Hp'; [done|]. eauto.
    + split; [exists r.1; destruct r; set_solver|]. split; [done|].
      intros r' [->|Hr']%elem_of_cons Hp'; [done|]. rewrite IH in Hp'; done.
  - destruct (foldr (pick_latest p) None l) as [b|].
    + destruct IH as ((id & Hin) & Hb & Hmax). split; [exists id; set_solver|]. split; [done|].
      intros r' [->|Hr']%elem_of_cons Hp'; [congruence|]. eauto.
    + intros r' [->|Hr']%elem_of_cons; [done|]. eauto.
Qed.

Lemma select_latest_Some p m g : keyed m → select_latest p m = Some g ↔ is_latest p m g.
Proof.
  intros Hk. unfold select_latest. pose proof (foldr_pick_latest p (map_to_list m)) as H.
  unfold is_latest. split.
  - intros E. rewrite E in H. destruct H as ((id & Hin%elem_of_map_to_list) & Hp & Hmax).
    pose proof (Hk _ _ Hin) as <-. split; [done|]. split; [done|]. intros id g' Hg' Hp'.
    by apply (Hmax (id, g')); [apply elem_of_map_to_list|].
  - intros (Hg & Hp & Hmax).
    destruct (foldr (pick_latest p) None (map_to_list m)) as [b|].
    + destruct H as ((id & Hin%elem_of_map_to_list) & Hpb & Hmaxb). f_equal.
      assert (gen_ID b = gen_ID g) as E.
      { apply N.le_antisymm; [by apply (Hmax id)|].
        by apply (Hmaxb (gen_ID g, g)); [apply elem_of_map_to_list|]. }
      pose proof (Hk _ _ Hin) as <-. rewrite E in Hin. congruence.
    + pose proof (H (gen_ID g, g) ltac:(by apply elem_of_map_to_list)) as E. simpl in E. congruence.
Qed.

Lemma select_latest_None p m : select_latest p m = None ↔ ∀ id g, m !! id = Some g → p g = false.
Proof.
  unfold select_latest. pose proof (foldr_pick_latest p (map_to_list m)) as H. split.
  - intros E. rewrite E in H. intros id g Hg. by apply (H (id, g)), elem_of_map_to_list.
  - intros Hn. destruct (foldr _ _ _) as [b|]; [|done].
    destruct H as ((id & Hin%elem_of_map_to_list) & Hp & _). apply Hn in Hin. congruence.
Qed.

(** ** Committed generations and their pointer *)

Definition committed (g : Generation) : bool := bool_decide (gen_Status g = Committed).
Definition flying (g : Generation) : bool := in_flight (gen_Status g).

(** The pointer of the latest committed generation. *)
Definition lkp (m : Gens) : option EnforcementPointer := row_pointer <$> select_latest committed m.

Definition has_committed (m : Gens) : Prop := ∃ id g, m !! id = Some g ∧ committed g = true.

Lemma lkp_None m : lkp m = None ↔ ¬ has_committed m.
Proof.
  unfold lkp, has_committed. rewrite fmap_None, select_latest_None. split.
  - intros H (id & g & Hg & Hc). rewrite (H id g Hg) in Hc. done.
  - intros H id g Hg. destruct (committed g) eqn:E; [|done]. exfalso. eauto.
Qed.

Lemma lkp_Some m p : keyed m → lkp m = Some p → ∃ g, is_latest committed m g ∧ p = row_pointer g.
Proof.
  intros Hk. unfold lkp. rewrite fmap_Some. intros (g & Hg & ->). exists g.
  by rewrite select_latest_Some in Hg.
Qed.

Lemma lkp_latest m g : keyed m → is_latest committed m g → lkp m = Some (row_pointer g).
Proof. intros Hk Hg. unfold lkp. apply fmap_Some. exists g. by rewrite select_latest_Some. Qed.

(** Every committed row of [m] is a committed row of [m'] with the same pointer. *)
Definition committed_le (m m' : Gens) : Prop := ∀ id g,
  m !! id = Some g → committed g = true →
  ∃ g', m' !! id = Some g' ∧ committed g' = true ∧ row_pointer g' = row_pointer g.

#[export] Instance committed_le_preorder : PreOrder committed_le.
Proof.
  split; [by intros m id g ? ?; exists g|].
  intros m1 m2 m3 H12 H23 id g Hg Hc.
  destruct (H12 id g Hg Hc) as (g2 & Hg2 & Hc2 & E2).
  destruct (H23 id g2 Hg2 Hc2) as (g3 & Hg3 & Hc3 & E3). exists g3. by rewrite E3.
Qed.

Lemma has_committed_le m m' : committed_le m m' → has_committed m → has_committed m'.
Proof. intros H (id & g & Hg & Hc). destruct (H id g Hg Hc) as (g' & ? & ? & _). by exists id, g'. Qed.

Lemma lkp_same m m' : keyed m → keyed m' → committed_le m m' → committed_le m' m → lkp m = lkp m'.
Proof.
  intros Hk Hk' Hle Hle'. destruct (lkp m) as [p|] eqn:E.
  - apply (lkp_Some _ _ Hk) in E as (g & (Hg & Hc & Hmax) & ->). symmetry.
    destruct (Hle _ _ Hg Hc) as (g' & Hg' & Hc' & <-). apply lkp_latest; [done|].
    pose proof (Hk' _ _ Hg') as Eid. split; [by rewrite Eid|]. split; [done|].
    intros id g2 Hg2 Hc2. destruct (Hle' _ _ Hg2 Hc2) as (g3 & Hg3 & Hc3 & E3).
    rewrite Eid, (Hk' _ _ Hg2), <-(Hk _ _ Hg3). eauto.
  - symmetry. rewrite lkp_None in *. intros H. by apply E, (has_committed_le m').
Qed.

(** ** The invariant *)

Section invariant.
Context {K : Type}.
Implicit Types (w : World K).

(** A row and the snapshot file it names agree. *)
Record snapshot_matches (g : Generation) (s : GenerationSnapshot) : Prop := {
  sm_valid : validateSnapshot s = None;
  sm_id : snap_Generation s = gen_ID g;
  sm_pointer : snap_Pointer s = row_pointer g;
  sm_previous : gen_PreviousID g = ptr_Generation <$> snap_Previous s;
  sm_boot : gen_BootID g = snap_BootID s;
  sm_size : (N.of_nat (slen (snap_Script s)) <=? maxActiveSnapshot) = true;
  sm_installs : installs (snap_Script s) = true
}.

(** The tuple [PrepareCommit] records. *)
Definition tuple_matches (g : Generation) (p : option EnforcementPointer) : Prop :=
  gen_PreparedPriorID g = ptr_Generation <$> p ∧
  gen_PreparedPriorSum g = match p with Some p => ptr_PolicyChecksum p | None => "" end ∧
  gen_PreparedPriorSnapshotSum g = match p with Some p => ptr_SnapshotChecksum p | None => "" end.

(** The recorded predecessor is a committed generation. *)
Definition prior_known (m : Gens) (p : option EnforcementPointer) : Prop :=
  match p with
  | None => True
  | Some p => ∃ g, m !! ptr_Generation p = Some g ∧ committed g = true ∧ row_pointer g = p
  end.

Record row_ok w (id : N) (g : Generation) : Prop := {
  ro_id : gen_ID g = id;
  ro_script_path : gen_ScriptPath g = script_path (w_dir w) id;
  ro_snapshot_path : gen_SnapshotPath g = generationSnapshotPath (w_dir w) id;
  ro_files : ∃ s, w_snapshots w !! id = Some s ∧ w_scripts w !! id = Some (snap_Script s) ∧
    snapshot_matches g s ∧ prior_known (w_gens w) (snap_Previous s) ∧
    (flying g = true → snap_Previous s = lkp (w_gens w)) ∧
    (gen_Status g = CommitPrepared → tuple_matches g (snap_Previous s))
}.

(** The pointer of a prepared candidate: not yet published, published, or published
    and not yet on stable storage. *)
Definition prepared_pointer w (g : Generation) : Prop :=
  (w_pointer w = lkp (w_gens w) ∧ w_durable w = lkp (w_gens w)) ∨
  (w_pointer w = Some (row_pointer g) ∧
   (w_durable w = Some (row_pointer g) ∨ w_durable w = lkp (w_gens w))).

Definition settled w : Prop := w_pointer w = lkp (w_gens w) ∧ w_durable w = lkp (w_gens w).

Definition no_prepared (m : Gens) : Prop := ∀ id g, m !! id = Some g → gen_Status g ≠ CommitPrepared.

Record Inv w : Prop := {
  inv_rows : ∀ id g, w_gens w !! id = Some g → row_ok w id g;
  inv_one : ∀ id id' g g', w_gens w !! id = Some g → w_gens w !! id' = Some g' →
    flying g = true → flying g' = true → id = id';
  inv_above : ∀ id id' g g', w_gens w !! id = Some g → w_gens w !! id' = Some g' →
    flying g = true → committed g' = true → id' < id;
  inv_prepared : ∀ id g, w_gens w !! id = Some g → gen_Status g = CommitPrepared → prepared_pointer w g;
  inv_settled : no_prepared (w_gens w) → settled w
}.

Lemma Inv_keyed w : Inv w → keyed (w_gens w).
Proof. intros HI id g Hg. by apply (inv_rows _ HI). Qed.

(** ** Calm changes

    What neither the transitions of the table nor the pointer's rename do: the
    kernel, the audit log, temporary files, observed fingerprints, and a directory
    sync that makes the live pointer durable. *)

Definition same_rows (m m' : Gens) : Prop := ∀ id, with_hash "" <$> m !! id = with_hash "" <$> m' !! id.

Record calm w w' : Prop := {
  calm_dir : w_dir w' = w_dir w;
  calm_gens : same_rows (w_gens w) (w_gens w');
  calm_scripts : w_scripts w' = w_scripts w;
  calm_snapshots : w_snapshots w' = w_snapshots w;
  calm_pointer : w_pointer w' = w_pointer w;
  calm_durable : w_durable w' = w_durable w ∨ w_durable w' = w_pointer w
}.

#[export] Instance calm_preorder : PreOrder calm.
Proof.
  split.
  - intros w. by split; auto.
  - intros w1 w2 w3 [A1 A2 A3 A4 A5 A6] [B1 B2 B3 B4 B5 B6].
    split; [congruence| |congruence..|].
    + intros id. by rewrite (A2 id), (B2 id).
    + destruct A6 as [A6|A6], B6 as [B6|B6]; rewrite B6, ?A6, ?A5; auto.
Qed.

Lemma same_rows_sym m m' : same_rows m m' → same_rows m' m.
Proof. intros H id. by rewrite H. Qed.

Lemma same_rows_lookup m m' id g : same_rows m m' → m !! id = Some g →
  ∃ g', m' !! id = Some g' ∧ with_hash "" g' = with_hash "" g.
Proof. intros H Hg. specialize (H id). rewrite Hg in H. destruct (m' !! id) as [g'|]; [|done].
  exists g'. split; [done|]. simpl in H. congruence.
Qed.

(** What a row says apart from its fingerprint. *)
Lemma with_hash_eq g g' : with_hash "" g = with_hash "" g' →
  gen_ID g = gen_ID g' ∧ gen_Status g = gen_Status g' ∧ row_pointer g = row_pointer g' ∧
  gen_PreviousID g = gen_PreviousID g' ∧ gen_BootID g = gen_BootID g' ∧
  gen_ScriptPath g = gen_ScriptPath g' ∧ gen_SnapshotPath g = gen_SnapshotPath g' ∧
  gen_RollbackDeadline g = gen_RollbackDeadline g' ∧ gen_PreparedPriorID g = gen_PreparedPriorID g' ∧
  gen_PreparedPriorSum g = gen_PreparedPriorSum g' ∧ gen_PreparedPriorSnapshotSum g = gen_PreparedPriorSnapshotSum g'.
Proof.
  destruct g, g'. unfold with_hash, row_pointer. simpl. intros E. injection E as -> -> -> -> -> -> -> -> -> -> -> -> -> ->.
  repeat split.
Qed.

Lemma same_rows_committed m m' : same_rows m m' → committed_le m m'.
Proof.
  intros H id g Hg Hc. destruct (same_rows_lookup _ _ _ _ H Hg) as (g' & Hg' & E%with_hash_eq).
  exists g'. unfold committed in *. destruct E as (_ & -> & -> & _). done.
Qed.

Lemma same_rows_keyed m m' : same_rows m m' → keyed m → keyed m'.
Proof.
  intros H Hk id g' Hg'. destruct (same_rows_lookup _ _ _ _ (same_rows_sym _ _ H) Hg') as (g & Hg & E%with_hash_eq).
  destruct E as (<- & _). by apply Hk.
Qed.

Lemma same_rows_lkp m m' : keyed m → same_rows m m' → lkp m' = lkp m.
Proof.
  intros Hk H. symmetry. apply lkp_same; [done|by eapply same_rows_keyed| |];
    apply same_rows_committed; [done|by apply same_rows_sym].
Qed.

Lemma prior_known_le m m' p : committed_le m m' → prior_known m p → prior_known m' p.
Proof.
  destruct p as [p|]; [|done]. intros H (g & Hg & Hc & E).
  destruct (H _ _ Hg Hc) as (g' & ? & ? & E'). exists g'. by rewrite E'.
Qed.

Lemma calm_Inv w w' : Inv w → calm w w' → Inv w'.
Proof.
  intros HI [Hdir Hg Hs Hn Hp Hd]. pose proof (Inv_keyed _ HI) as Hk.
  pose proof (same_rows_lkp _ _ Hk Hg) as Elkp.
  assert (Hback : ∀ id g', w_gens w' !! id = Some g' → ∃ g, w_gens w !! id = Some g ∧ with_hash "" g = with_hash "" g').
  { intros id g'. by apply same_rows_lookup, same_rows_sym. }
  split.
  - intros id g' Hg'. destruct (Hback _ _ Hg') as (g & Hg0 & E%with_hash_eq).
    destruct E as (E1 & E2 & E3 & E4 & E5 & E6 & E7 & _ & E8 & E9 & E10).
    destruct (inv_rows _ HI _ _ Hg0) as [R1 R2 R3 (s & Hsn & Hsc & M & Hpk & Hfl & Htu)].
    split; [congruence|congruence|congruence|].
    exists s. rewrite Hn, Hs, Elkp. split; [done|]. split; [done|]. split.
    { destruct M. split; try congruence. }
    split; [eapply prior_known_le; [by apply same_rows_committed|done]|].
    unfold flying, tuple_matches in *. by rewrite <-E2, <-E8, <-E9, <-E10.
  - intros id id' g1 g2 H1 H2. destruct (Hback _ _ H1) as (h1 & Hh1 & (_ & F1 & _)%with_hash_eq).
    destruct (Hback _ _ H2) as (h2 & Hh2 & (_ & F2 & _)%with_hash_eq).
    unfold flying. rewrite <-F1, <-F2. by apply (inv_one _ HI).
  - intros id id' g1 g2 H1 H2. destruct (Hback _ _ H1) as (h1 & Hh1 & (_ & F1 & _)%with_hash_eq).
    destruct (Hback _ _ H2) as (h2 & Hh2 & (_ & F2 & _)%with_hash_eq).
    unfold flying, committed. rewrite <-F1, <-F2. by apply (inv_above _ HI).
  - intros id g' Hg'. destruct (Hback _ _ Hg') as (g & Hg0 & (_ & F & P & _)%with_hash_eq).
    rewrite <-F. intros Hst. unfold prepared_pointer. rewrite Hp, Elkp, <-P.
    destruct (inv_prepared _ HI _ _ Hg0 Hst) as [[Ha Hb]|[Ha Hb]]; destruct Hd as [Hd|Hd]; rewrite Hd.
    + by left. + by left. + by right. + right. split; [done|]. by left.
  - intros Hno. unfold settled. rewrite Hp, Elkp.
    destruct (inv_settled _ HI) as [Ha Hb].
    { intros id g Hg0. destruct (same_rows_lookup _ _ _ _ Hg Hg0) as (g' & Hg' & (_ & F & _)%with_hash_eq).
      rewrite <-F. by apply (Hno id). }
    destruct Hd as [-> | ->]; auto.
Qed.

(** ** The candidate *)

Lemma flying_committed g : flying g = true → committed g = false.
Proof. unfold flying, committed. by destruct (gen_Status g). Qed.

Lemma prepared_flying g : gen_Status g = CommitPrepared → flying g = true.
Proof. unfold flying. by intros ->. Qed.

(** The pointer of a candidate is never the committed one. *)
Lemma candidate_pointer w id g : Inv w → w_gens w !! id = Some g → flying g = true →
  lkp (w_gens w) ≠ Some (row_pointer g).
Proof.
  intros HI Hg Hf E. apply (lkp_Some _ _ (Inv_keyed _ HI)) in E as (c & (Hc & Hcc & _) & E).
  pose proof (inv_above _ HI _ _ _ _ Hg Hc Hf Hcc). pose proof (Inv_keyed _ HI _ _ Hg).
  apply (f_equal ptr_Generation) in E. simpl in E. lia.
Qed.

Lemma other_not_flying w id id' g g' : Inv w → w_gens w !! id = Some g → flying g = true →
  w_gens w !! id' = Some g' → id' ≠ id → flying g' = false.
Proof.
  intros HI Hg Hf Hg' Hne. destruct (flying g') eqn:E; [|done].
  destruct Hne. by apply (inv_one _ HI id' id g' g).
Qed.

(** Before the rename the pointers are those of the committed generation. *)
Lemma unprepared_settled w id g : Inv w → w_gens w !! id = Some g → flying g = true →
  gen_Status g ≠ CommitPrepared → settled w.
Proof.
  intros HI Hg Hf Hst. apply (inv_settled _ HI). intros id' g' Hg' Hp.
  destruct (decide (id' = id)) as [->|Hne]; [congruence|].
  pose proof (other_not_flying _ _ _ _ _ HI Hg Hf Hg' Hne). pose proof (prepared_flying _ Hp). congruence.
Qed.

Lemma candidate_settled w id g : Inv w → w_gens w !! id = Some g → flying g = true →
  w_pointer w = lkp (w_gens w) → settled w.
Proof.
  intros HI Hg Hf Hp. destruct (decide (gen_Status g = CommitPrepared)) as [E|E].
  - destruct (inv_prepared _ HI _ _ Hg E) as [H|[H _]]; [done|].
    destruct (candidate_pointer _ _ _ HI Hg Hf). congruence.
  - by eapply unprepared_settled.
Qed.

(** ** Changing the candidate's row *)

Record same_identity (g g' : Generation) : Prop := {
  si_id : gen_ID g' = gen_ID g;
  si_script : gen_ScriptPath g' = gen_ScriptPath g;
  si_snapshot : gen_SnapshotPath g' = gen_SnapshotPath g;
  si_pointer : row_pointer g' = row_pointer g;
  si_previous : gen_PreviousID g' = gen_PreviousID g;
  si_boot : gen_BootID g' = gen_BootID g
}.

Record same_files w w' : Prop := {
  sf_dir : w_dir w' = w_dir w;
  sf_scripts : w_scripts w' = w_scripts w;
  sf_snapshots : w_snapshots w' = w_snapshots w
}.

Lemma committed_le_insert m id g g' : m !! id = Some g → row_pointer g' = row_pointer g →
  (committed g = true → committed g' = true) → committed_le m (<[id := g']> m).
Proof.
  intros Hg Hp Hc id' h Hh Hch. destruct (decide (id' = id)) as [->|Hne].
  - exists g'. rewrite lookup_insert_eq. rewrite Hg in Hh. injection Hh as <-. auto.
  - exists h. by rewrite lookup_insert_ne.
Qed.

Lemma keyed_insert m id g g' : keyed m → m !! id = Some g → gen_ID g' = gen_ID g → keyed (<[id := g']> m).
Proof.
  intros Hk Hg E id' h. rewrite lookup_insert_Some. intros [[<- <-]|[_ Hh]]; [|by apply Hk].
  rewrite E. by apply Hk.
Qed.

Lemma lkp_insert m id g g' : keyed m → m !! id = Some g → gen_ID g' = gen_ID g →
  row_pointer g' = row_pointer g → committed g' = committed g → lkp (<[id := g']> m) = lkp m.
Proof.
  intros Hk Hg E Hp Hc. symmetry. apply lkp_same; [done|by eapply keyed_insert| |].
  - apply committed_le_insert with g; congruence.
  - intros id' h. rewrite lookup_insert_Some. intros [[<- <-]|[_ Hh]] Hch; [exists g|exists h]; auto.
    split; [done|]. split; congruence.
Qed.

(** Rows other than the changed one keep what they say. *)
Lemma row_ok_other w w' id h : same_files w w' → committed_le (w_gens w) (w_gens w') →
  (flying h = true → lkp (w_gens w') = lkp (w_gens w)) → row_ok w id h → row_ok w' id h.
Proof.
  intros [D S N] Hle Hl [R1 R2 R3 (s & Hsn & Hsc & M & Hpk & Hfl & Htu)].
  split; [done|congruence|congruence|]. exists s. rewrite N, S.
  split; [done|]. split; [done|]. split; [done|]. split; [by eapply prior_known_le|].
  split; [|done]. intros Hf. rewrite Hl by done. auto.
Qed.

Lemma Inv_update w w' id g g' : Inv w → w_gens w !! id = Some g → flying g = true →
  same_files w w' → w_gens w' = <[id := g']> (w_gens w) → same_identity g g' → committed g' = false →
  (gen_Status g' = CommitPrepared → ∀ s, w_snapshots w !! id = Some s → tuple_matches g' (snap_Previous s)) →
  (gen_Status g' = CommitPrepared → prepared_pointer w' g') →
  (gen_Status g' ≠ CommitPrepared → settled w') → Inv w'.
Proof.
  intros HI Hg Hf SF Eg SI Hc' Htu Hpp Hset. pose proof (Inv_keyed _ HI) as Hk.
  assert (El : lkp (w_gens w') = lkp (w_gens w)).
  { rewrite Eg. apply lkp_insert with g; [done|done|apply SI..|]. by rewrite Hc', (flying_committed g). }
  assert (Hle : committed_le (w_gens w) (w_gens w')).
  { rewrite Eg. apply committed_le_insert with g; [done|apply SI|]. by rewrite (flying_committed g). }
  assert (Hl : ∀ id' h, w_gens w' !! id' = Some h → (id' = id ∧ h = g') ∨ (id' ≠ id ∧ w_gens w !! id' = Some h)).
  { intros id' h. rewrite Eg, lookup_insert_Some. naive_solver. }
  assert (Hnf : ∀ id' h, w_gens w !! id' = Some h → id' ≠ id → flying h = false).
  { intros id' h Hh Hne. by apply (other_not_flying w id id' g h). }
  split.
  - intros id' h Hh. destruct (Hl _ _ Hh) as [[-> ->]|[Hne Hh0]].
    + destruct (inv_rows _ HI _ _ Hg) as [R1 R2 R3 (s & Hsn & Hsc & M & Hpk & Hfl & _)].
      destruct SF as [D S N], SI as [I1 I2 I3 I4 I5 I6].
      split; [congruence|congruence|congruence|]. exists s. rewrite N, S, El.
      split; [done|]. split; [done|]. split; [destruct M; split; congruence|].
      split; [by eapply prior_known_le|]. split; [auto|]. intros E. by apply Htu.
    + eapply row_ok_other; [done|done| |by apply (inv_rows _ HI)]. intros _. done.
  - intros i1 i2 g1 g2 H1 H2 F1 F2.
    destruct (Hl _ _ H1) as [[-> ->]|[N1 H1']], (Hl _ _ H2) as [[-> ->]|[N2 H2']]; [done|..];
      [rewrite (Hnf _ _ H2' N2) in F2 | rewrite (Hnf _ _ H1' N1) in F1 | rewrite (Hnf _ _ H1' N1) in F1]; done.
  - intros i1 i2 g1 g2 H1 H2 F1 C2.
    destruct (Hl _ _ H1) as [[-> ->]|[N1 H1']]; [|by rewrite (Hnf _ _ H1' N1) in F1].
    destruct (Hl _ _ H2) as [[-> ->]|[N2 H2']]; [congruence|]. by apply (inv_above _ HI _ _ g g2).
  - intros i1 g1 H1 E1. destruct (Hl _ _ H1) as [[-> ->]|[N1 H1']]; [auto|].
    pose proof (Hnf _ _ H1' N1) as Hn. by rewrite (prepared_flying _ E1) in Hn.
  - intros Hno. apply Hset. apply (Hno id). by rewrite Eg, lookup_insert_eq.
Qed.

(** ** Completing the commit *)

Lemma Inv_finalize w w' id g g' : Inv w → w_gens w !! id = Some g → flying g = true →
  same_files w w' → w_gens w' = <[id := g']> (w_gens w) → same_identity g g' → committed g' = true →
  w_pointer w' = Some (row_pointer g) → w_durable w' = Some (row_pointer g) → Inv w'.
Proof.
  intros HI Hg Hf SF Eg SI Hc' Hp Hd. pose proof (Inv_keyed _ HI) as Hk.
  assert (Hl : ∀ id' h, w_gens w' !! id' = Some h → (id' = id ∧ h = g') ∨ (id' ≠ id ∧ w_gens w !! id' = Some h)).
  { intros id' h. rewrite Eg, lookup_insert_Some. naive_solver. }
  assert (Hle : committed_le (w_gens w) (w_gens w')).
  { rewrite Eg. apply committed_le_insert with g; [done|apply SI|done]. }
  assert (Hk' : keyed (w_gens w')) by (rewrite Eg; eapply keyed_insert; [done|done|apply SI]).
  assert (El : lkp (w_gens w') = Some (row_pointer g)).
  { replace (row_pointer g) with (row_pointer g') by apply SI. apply lkp_latest; [done|].
    assert (gen_ID g' = id) as E by (rewrite (si_id _ _ SI); by apply Hk). split; [by rewrite E, Eg, lookup_insert_eq|].
    split; [done|]. intros id' h Hh Hch. rewrite E. destruct (Hl _ _ Hh) as [[-> ->]|[Hne Hh0]].
    - by rewrite E. - rewrite (Hk _ _ Hh0). pose proof (inv_above _ HI _ _ _ _ Hg Hh0 Hf Hch). lia. }
  assert (Hnf : ∀ id' h, w_gens w' !! id' = Some h → flying h = false).
  { intros id' h Hh. destruct (Hl _ _ Hh) as [[-> ->]|[Hne Hh0]].
    - destruct (flying g') eqn:E; [|done]. apply flying_committed in E. congruence.
    - by apply (other_not_flying w id id' g h). }
  split.
  - intros id' h Hh. destruct (Hl _ _ Hh) as [[-> ->]|[Hne Hh0]].
    + destruct (inv_rows _ HI _ _ Hg) as [R1 R2 R3 (s & Hsn & Hsc & M & Hpk & Hfl & _)].
      pose proof (Hnf _ _ Hh) as Hn'. destruct SF as [D S N], SI as [I1 I2 I3 I4 I5 I6].
      split; [congruence|congruence|congruence|]. exists s. rewrite N, S.
      split; [done|]. split; [done|]. split; [destruct M; split; congruence|].
      split; [by eapply prior_known_le|]. split; [congruence|].
      intros E. apply prepared_flying in E. congruence.
    + eapply row_ok_other; [done|done| |by apply (inv_rows _ HI)]. intros F.
      by rewrite (Hnf _ _ Hh) in F.
  - intros i1 i2 g1 g2 H1 H2 F1. by rewrite (Hnf _ _ H1) in F1.
  - intros i1 i2 g1 g2 H1 H2 F1. by rewrite (Hnf _ _ H1) in F1.
  - intros i1 g1 H1 E1. apply prepared_flying in E1. by rewrite (Hnf _ _ H1) in E1.
  - intros _. split; congruence.
Qed.

(** ** The transitions the store performs *)

Definition set_row (id : N) (g : Generation) (a : list AuditRow) w : World K :=
  set_audit a (set_gens (<[id := g]> (w_gens w)) w).

Lemma set_row_le w id g g' a : w_gens w !! id = Some g → same_identity g g' →
  (committed g = true → committed g' = true) → committed_le (w_gens w) (w_gens (set_row id g' a w)).
Proof. intros Hg SI Hc. apply committed_le_insert with g; [done|apply SI|done]. Qed.

Lemma set_row_lkp w id g g' a : Inv w → w_gens w !! id = Some g → same_identity g g' →
  committed g' = committed g → lkp (w_gens (set_row id g' a w)) = lkp (w_gens w).
Proof. intros HI Hg SI Hc. apply lkp_insert with g; [by apply Inv_keyed|done|apply SI|apply SI|done]. Qed.

Lemma Inv_rolled w id g a : Inv w → w_gens w !! id = Some g → flying g = true →
  w_pointer w = lkp (w_gens w) → Inv (set_row id (unprepared RolledBack g) a w).
Proof.
  intros HI Hg Hf Hp. pose proof (candidate_settled _ _ _ HI Hg Hf Hp) as [Hs1 Hs2].
  eapply Inv_update; [done|done|done|done|done|done|done|done|done|]. intros _.
  unfold settled. rewrite (set_row_lkp w id g) by (done || by rewrite (flying_committed g)). done.
Qed.

Lemma Inv_applied w id g a : Inv w → w_gens w !! id = Some g → gen_Status g = Pending →
  Inv (set_row id (with_status Applied g) a w).
Proof.
  intros HI Hg Hst. assert (Hf : flying g = true) by (unfold flying; by rewrite Hst).
  assert (Hs : settled w) by (eapply unprepared_settled; [done|done|done|congruence]).
  eapply Inv_update; [done|done|done|done|done|done|done|done|done|]. intros _.
  unfold settled. rewrite (set_row_lkp w id g) by (done || by rewrite (flying_committed g)). done.
Qed.

Lemma Inv_commit_prepared w id g s now a : Inv w → w_gens w !! id = Some g → gen_Status g = Applied →
  w_snapshots w !! id = Some s → Inv (set_row id (prepared now (snap_Previous s) g) a w).
Proof.
  intros HI Hg Hst Hs. assert (Hf : flying g = true) by (unfold flying; by rewrite Hst).
  assert (settled w) as [H1 H2] by (eapply unprepared_settled; [done|done|done|congruence]).
  eapply Inv_update; [done|done|done|done|done|done|done| | |done].
  - intros _ s' Hs'. simplify_eq. done.
  - intros _. left. rewrite (set_row_lkp w id g) by (done || by rewrite (flying_committed g)). done.
Qed.

Lemma supersede_alone w id g : Inv w → w_gens w !! id = Some g → flying g = true →
  supersede id (w_gens w) = w_gens w.
Proof.
  intros HI Hg Hf. apply map_eq. intros k. unfold supersede. rewrite map_lookup_imap.
  destruct (w_gens w !! k) as [h|] eqn:Hh; [|done]. simpl.
  destruct (N.eqb_spec k id) as [->|Hne]; [by rewrite andb_false_r|].
  pose proof (other_not_flying _ _ _ _ _ HI Hg Hf Hh Hne) as Hn. unfold flying in Hn.
  unfold has_status. rewrite bool_decide_eq_false_2; [done|].
  destruct (gen_Status h); simpl in Hn; set_solver.
Qed.

Lemma Inv_finalized w id g a : Inv w → w_gens w !! id = Some g → gen_Status g = CommitPrepared →
  w_pointer w = Some (row_pointer g) → w_durable w = Some (row_pointer g) →
  Inv (set_row id (finalized g) a w).
Proof.
  intros HI Hg Hst Hp Hd. eapply Inv_finalize; [done|done|by apply prepared_flying|done..].
Qed.

Lemma Inv_renamed w id g tmp : Inv w → w_gens w !! id = Some g → gen_Status g = CommitPrepared →
  Inv (set_pointers (Some (row_pointer g)) (w_durable w) tmp w).
Proof.
  intros HI Hg Hst. split.
  - intros i h Hh. by destruct (inv_rows _ HI _ _ Hh).
  - apply (inv_one _ HI).
  - apply (inv_above _ HI).
  - intros i h Hh Hsth. simpl in Hh.
    assert (i = id) as -> by (apply (inv_one _ HI i id h g); [done|done|by apply prepared_flying..]).
    simplify_eq. right. split; [done|].
    destruct (inv_prepared _ HI _ _ Hg Hst) as [[_ H]|[_ H]]; [by right|done].
  - intros Hno. by destruct (Hno id g).
Qed.

(** Generation files are written before their row exists. *)
Lemma Inv_script_written w id script : Inv w → w_scripts w !! id = None →
  Inv (set_scripts (<[id := script]> (w_scripts w)) w).
Proof.
  intros HI Hn. split; [|apply HI..].
  intros i h Hh. destruct (inv_rows _ HI _ _ Hh) as [R1 R2 R3 (s & Hsn & Hsc & R)].
  split; [done..|]. exists s. split; [done|]. split; [|done]. simpl.
  rewrite lookup_insert_ne; [done|]. intros ->. congruence.
Qed.

Lemma Inv_snapshot_written w id s : Inv w → w_snapshots w !! id = None →
  Inv (set_snapshots (<[id := s]> (w_snapshots w)) w).
Proof.
  intros HI Hn. split; [|apply HI..].
  intros i h Hh. destruct (inv_rows _ HI _ _ Hh) as [R1 R2 R3 (s' & Hsn & R)].
  split; [done..|]. exists s'. split; [|done]. simpl.
  rewrite lookup_insert_ne; [done|]. intros ->. congruence.
Qed.

Lemma Inv_inserted w g : Inv w → w_gens w !! gen_ID g = None →
  (∀ id h, w_gens w !! id = Some h → flying h = false ∧ id < gen_ID g) →
  gen_Status g = Pending → row_ok w (gen_ID g) g →
  Inv (set_gens (<[gen_ID g := g]> (w_gens w)) w).
Proof.
  intros HI Hn Hfl Hst Hok. pose proof (Inv_keyed _ HI) as Hk. set (id := gen_ID g) in *.
  assert (Hk' : keyed (<[id := g]> (w_gens w))).
  { intros i h. rewrite lookup_insert_Some. intros [[<- <-]|[_ Hh]]; [done|by apply Hk]. }
  assert (Hc : committed g = false) by (unfold committed; by rewrite Hst).
  assert (Hle : committed_le (w_gens w) (<[id := g]> (w_gens w))).
  { intros i h Hh Hch. exists h. rewrite lookup_insert_ne; [done|]. intros ->. congruence. }
  assert (El : lkp (<[id := g]> (w_gens w)) = lkp (w_gens w)).
  { symmetry. apply lkp_same; [done|done|done|]. intros i h. rewrite lookup_insert_Some.
    intros [[_ <-]|[_ Hh]] Hch; [congruence|by exists h]. }
  assert (Hset : settled w).
  { apply (inv_settled _ HI). intros i h Hh E. apply prepared_flying in E.
    destruct (Hfl _ _ Hh). congruence. }
  assert (Hl : ∀ i h, <[id := g]> (w_gens w) !! i = Some h → flying h = true → i = id ∧ h = g).
  { intros i h. rewrite lookup_insert_Some. intros [[<- <-]|[_ Hh]]; [done|].
    destruct (Hfl _ _ Hh). congruence. }
  split; simpl.
  - intros i h. rewrite lookup_insert_Some. intros [[<- <-]|[_ Hh]].
    + destruct Hok as [R1 R2 R3 (s & Hs & Hsc & M & Hpk & Hf & Htu)].
      split; [done..|]. exists s. simpl. rewrite El. split; [done|]. split; [done|]. split; [done|].
      split; [by eapply prior_known_le|]. done.
    + apply (row_ok_other w); [done|done|done|by apply (inv_rows _ HI)].
  - intros i1 i2 g1 g2 H1 H2 F1 F2. destruct (Hl _ _ H1 F1) as [-> _], (Hl _ _ H2 F2) as [-> _]. done.
  - intros i1 i2 g1 g2 H1 H2 F1 C2. destruct (Hl _ _ H1 F1) as [-> _]. revert H2.
    rewrite lookup_insert_Some. intros [[_ <-]|[_ Hh]]; [congruence|]. by apply (Hfl _ _ Hh).
  - intros i h Hh E. destruct (Hl _ _ Hh (prepared_flying _ E)) as [_ ->]. congruence.
  - intros _. unfold settled. simpl. by rewrite El.
Qed.
End invariant.
