(* ===== verification/Reads.v ===== *)
(** What the read-only computations of the store, the backend and the manager
    learn: under every fault they leave the world alone, and a value they return
    is the one the world holds. *)

From S2P Require Import Prelude GoStrings GoTime Sha256 Json NftScript NftJson.
From S2P Require Import Ledger Snapshot Claims Host Store Backend Manager Recovery Invariant.
From Stdlib Require Import Ascii String.
Local Open Scope string_scope.
Local Open Scope N_scope.
Local Open Scope host_scope.

Section reading.
Context {K : Type}.
Abbreviation HM := (M (Host K)).
Implicit Types (w : World K).

(** ** Read-only computations *)

Definition reads {A} (m : HM A) (Q : A → Prop) w : Prop :=
  ∀ I : World K → Prop, I w → wsafe I m (λ a w', w' = w ∧ Q a) w.

Lemma reads_mono {A} (m : HM A) (Q R : A → Prop) w : reads m Q w → (∀ a, Q a → R a) → reads m R w.
Proof. intros Hm HQ I HI. eapply wsafe_mono; [by apply Hm|]. intros a w' _ [-> ?]. auto. Qed.
Lemma reads_ret {A} (a : A) (Q : A → Prop) w : Q a → reads (ret a) Q w.
Proof. intros HQ I HI. by apply wsafe_ret. Qed.
Lemma reads_throw {A} e (Q : A → Prop) w : reads (throw e) Q w.
Proof. intros I HI. by apply wsafe_throw. Qed.
Lemma reads_bind {A B} (m : HM A) (f : A → HM B) Q R w :
  reads m Q w → (∀ a, Q a → reads (f a) R w) → reads (bind m f) R w.
Proof.
  intros Hm Hf I HI. apply wsafe_bind. eapply wsafe_mono; [by apply Hm|].
  intros a w' HI' [-> HQ]. by apply Hf.
Qed.
Lemma reads_sys {A} ev (f : World K → outcome A) w : reads (sys_read ev f) (λ a, f w = Ret a) w.
Proof. intros I HI. by apply wsafe_sys_read. Qed.
Lemma reads_peek {A} (f : World K → A) w : reads (peek f) (λ a, a = f w) w.
Proof. intros I HI. by apply wsafe_peek. Qed.
Lemma reads_clock w : reads read_clock (λ _, True) w.
Proof. intros I HI. by apply wsafe_read_clock. Qed.
Lemma reads_require b e w : reads (require b e) (λ _, b = true) w.
Proof. intros I HI. by apply wsafe_require. Qed.
Lemma reads_catch {A} (m : HM A) h (Q : A → Prop) w :
  reads m Q w → (∀ e, reads (h e) Q w) → reads (catch m h) Q w.
Proof.
  intros Hm Hh I HI. apply wsafe_catch with (J := λ w', w' = w ∧ I w'); [by intros ? [-> ?]|by apply Hm|].
  intros e w' [-> _]. by apply Hh.
Qed.
Lemma reads_try {A} (m : HM A) (Q : A → Prop) w :
  reads m Q w → reads (try_ m) (λ r, match r with inr a => Q a | inl _ => True end) w.
Proof.
  intros Hm I HI. apply wsafe_try with (J := λ w', w' = w ∧ I w') (Q := λ a _, Q a); [by intros ? [-> ?]|..].
  - eapply wsafe_mono; [by apply Hm|]. by intros a w' _ [_ ?].
  - by intros a w' [-> _].
  - by intros e w' [-> _].
Qed.
Lemma reads_throw_if e w : reads (throw_if e) (λ _, e = None) w.
Proof. intros I HI. destruct e; simpl; [by apply wsafe_throw|by apply wsafe_ret]. Qed.
Lemma reads_lift_check {A} (r : err + A) w : reads (lift_check r) (λ a, r = inr a) w.
Proof. intros I HI. destruct r; simpl; [by apply wsafe_throw|by apply wsafe_ret]. Qed.
Lemma reads_throw_err {A} e (k : HM A) Q w : reads k Q w → reads (throw_err e k) Q w.
Proof. intros Hk I HI. destruct e; simpl; [by apply wsafe_throw|by apply Hk]. Qed.
Lemma reads_True {A} (m : HM A) Q w : reads m Q w → reads m (λ _, True) w.
Proof. intros Hm. by eapply reads_mono. Qed.

Lemma reads_wrapped {A} fmt (m : HM A) Q w : reads m Q w → reads (wrapped fmt m) Q w.
Proof. intros Hm. apply reads_catch; [done|]. intros e. apply reads_throw. Qed.

(** A query that distinguishes "no rows". *)
Lemma reads_if_any {A} ev (f : World K → outcome A) w :
  reads (if_any (sys_read ev f))
    (λ o, match o with Some a => f w = Ret a | None => ∃ e, f w = Error e ∧ is_no_rows e = true end) w.
Proof.
  intros I HI c tr o. unfold if_any, try_, sys_read, io_write, bind, ret, throw, result, final. simpl.
  destruct (draw o) as [[] o']; simpl; try done.
  destruct (f w) as [a|e|] eqn:E; simpl; try done.
  destruct (is_no_rows e) eqn:En; simpl; [|done]. split; [done|]. split; [done|]. by exists e.
Qed.
End reading.

(** Symbolic reading: one step of a [reads] goal along the program. *)
Ltac rstep :=
  cbn beta in *;
  lazymatch goal with
  | |- reads (bind _ _) _ _ => eapply reads_bind; [|let a := fresh "a" in let H := fresh "Hq" in intros a H]
  | |- reads (ret _) _ _ => apply reads_ret
  | |- reads (throw _) _ _ => apply reads_throw
  | |- reads (sys_read _ _) _ _ => first [apply reads_sys | eapply reads_mono; [apply reads_sys|]]
  | |- reads (peek _) _ _ => first [apply reads_peek | eapply reads_mono; [apply reads_peek|]]
  | |- reads read_clock _ _ => first [apply reads_clock | eapply reads_mono; [apply reads_clock|]]
  | |- reads (require _ _) _ _ => first [apply reads_require | eapply reads_mono; [apply reads_require|]]
  | |- reads (wrapped _ _) _ _ => apply reads_wrapped
  | |- reads (wrap_no_rows _ _) _ _ => unfold wrap_no_rows
  | |- reads (throw_if ?x) _ _ => first [apply reads_throw_if | eapply reads_mono; [apply reads_throw_if|]]
  | |- reads (throw_err ?x _) _ _ => apply reads_throw_err
  | |- reads (lift_check ?x) _ _ => first [apply reads_lift_check | eapply reads_mono; [apply reads_lift_check|]]
  | |- reads (catch _ _) _ _ => eapply reads_catch; [|intros ?; apply reads_throw]
  | |- reads (try_ _) _ _ => first [eapply reads_try | eapply reads_mono; [eapply reads_try|]]
  | |- reads (match ?x with _ => _ end) _ _ => destruct x eqn:?
  end.

Section store_reads.
Context {K : Type}.
Abbreviation HM := (M (Host K)).
Implicit Types (w : World K).

Lemma scan_row_Ret o g : scan_row o = Ret g ↔ o = Some g ∧ scanGeneration g = Ret g.
Proof.
  destruct o as [g'|]; simpl; [|naive_solver]. split.
  - unfold scanGeneration. repeat case_bool_decide; naive_solver.
  - by intros [[= ->] ?].
Qed.
Lemma scan_row_no_rows o e : scan_row o = Error e → is_no_rows e = true → o = None.
Proof.
  destruct o as [g|]; simpl; [|done]. unfold scanGeneration. repeat case_bool_decide; intros [= <-]; done.
Qed.

Lemma reads_Pending w : reads Pending_ (λ g, select_latest flying (w_gens w) = Some g) w.
Proof. unfold Pending_. rstep. intros g Hg%scan_row_Ret. apply Hg. Qed.
Lemma reads_LastKnownGood w : reads LastKnownGood (λ g, select_latest committed (w_gens w) = Some g) w.
Proof. unfold LastKnownGood. rstep. intros g Hg%scan_row_Ret. apply Hg. Qed.
Lemma reads_any_Pending w : reads (if_any Pending_) (λ o, select_latest flying (w_gens w) = o) w.
Proof.
  eapply reads_mono; [apply reads_if_any|]. simpl. intros [g|]; [by intros [? _]%scan_row_Ret|].
  intros (e & He & Hn). by eapply scan_row_no_rows.
Qed.
Lemma reads_any_LastKnownGood w : reads (if_any LastKnownGood) (λ o, select_latest committed (w_gens w) = o) w.
Proof.
  eapply reads_mono; [apply reads_if_any|]. simpl. intros [g|]; [by intros [? _]%scan_row_Ret|].
  intros (e & He & Hn). by eapply scan_row_no_rows.
Qed.
Lemma reads_GenerationByID id w : reads (GenerationByID id) (λ g, w_gens w !! id = Some g) w.
Proof. unfold GenerationByID. rstep. intros g Hg%scan_row_Ret. apply Hg. Qed.

Definition loaded (id : N) w (s : GenerationSnapshot) : Prop :=
  w_snapshots w !! id = Some s ∧ validateSnapshot s = None ∧ snap_Generation s = id.

Lemma reads_LoadGenerationSnapshot id w : reads (LoadGenerationSnapshot id) (loaded id w) w.
Proof.
  unfold LoadGenerationSnapshot, secureActiveDirectory, secureGenerationsDirectory, read_snapshot_file.
  repeat rstep. cbn beta in *. destruct (w_snapshots w !! id) eqn:E; [|done]. injection Hq2 as ->.
  split; [done|]. split; [done|]. by apply N.eqb_eq.
Qed.

Lemma reads_LoadVerified id w : reads (LoadVerifiedGenerationSnapshot id) (loaded id w) w.
Proof.
  unfold LoadVerifiedGenerationSnapshot. eapply reads_bind; [apply reads_LoadGenerationSnapshot|].
  intros s Hs. unfold validateSnapshotProvenance. eapply reads_bind with (Q := λ _, True); [|intros _ _; by rstep].
  rstep; [rstep|]. by rstep; rstep.
Qed.

Lemma reads_ReadEnforcementPointer w : reads ReadEnforcementPointer (λ o, o = w_pointer w) w.
Proof.
  unfold ReadEnforcementPointer, secureActiveDirectory. rstep; [rstep|]. rstep; [rstep|].
  cbn beta in *. injection Hq0 as <-.
  destruct (w_pointer w) as [p|]; [by repeat rstep|by rstep].
Qed.

Lemma reads_PreparedDeadline id w : reads (PreparedDeadline id)
  (λ _, ∃ g, w_gens w !! id = Some g ∧ gen_Status g = CommitPrepared) w.
Proof.
  unfold PreparedDeadline. rstep. intros d Hd. cbn beta in Hd.
  destruct (w_gens w !! id) as [g|] eqn:Eg; [|done]. unfold has_status in Hd. case_bool_decide as E; [|done]. exists g. set_solver.
Qed.

Lemma reads_expired d w : reads (expired d) (λ _, True) w.
Proof. unfold expired. rstep; [rstep; rstep; done|by rstep]. Qed.

Lemma reads_ReadScript g w : reads (ReadScript g) (λ s, w_scripts w !! gen_ID g = Some s) w.
Proof.
  unfold ReadScript, secureGenerationsDirectory, read_script_file. repeat rstep.
  cbn beta in *. destruct (w_scripts w !! gen_ID g); [|done]. by injection Hq2 as ->.
Qed.

Lemma reads_validateGenerationSnapshot g s p w : reads (validateGenerationSnapshot g s p) (λ _, True) w.
Proof.
  unfold validateGenerationSnapshot.
  rstep; [rstep|]. rstep; [rstep|]. rstep; [rstep|]. rstep; [apply reads_ReadScript|]. rstep; [rstep|].
  rstep; [|by eapply reads_True; rstep].
  rstep; [rstep|]. rstep; [apply reads_GenerationByID|]. rstep; [rstep|]. eapply reads_True. rstep.
Qed.

Lemma reads_CurrentBootID w : reads CurrentBootID (λ _, True) w.
Proof. unfold CurrentBootID. eapply reads_True. rstep. Qed.

Lemma reads_syncDatabase w : reads syncDatabase (λ _, True) w.
Proof. unfold syncDatabase. eapply reads_True. rstep. Qed.
End store_reads.

Section backend_reads.
Context {K : Type} `{Nft K}.
Context (range : gset string → list string).
Abbreviation HM := (M (Host K)).
Implicit Types (w : World K).

(** ** What inspection learns *)

(** The owned tables nft lists. *)
Definition listed (k : K) : gset string :=
  match nft_list_tables k with
  | Some out => match listed_owned OwnedTables out with inr l => list_to_set (map table_key l) | inl _ => ∅ end
  | None => ∅
  end.
Definition present (k : K) : Prop := ∀ t, t ∈ OwnedTables → table_key t ∈ listed k.

(** The digest of the owned tables' canonical form. *)
Fixpoint canonical_text (k : K) (l : list NftTable) : option string :=
  match l with
  | [] => Some ""
  | t :: l' =>
      match nft_list_table t k with
      | Some out =>
          match canonicalOwnedJSON out t, canonical_text k l' with
          | inr c, Some rest => Some (c +:+ rest)
          | _, _ => None
          end
      | None => None
      end
  end.
Definition fingerprint (k : K) : option string := sha256_hex <$> canonical_text k OwnedTables.

(** Every owned table is present and carries its structural markers. *)
Definition intact (k : K) : Prop :=
  present k ∧ ∀ t, t ∈ OwnedTables →
    ∃ out d, nft_list_table t k = Some out ∧ validateOwnedTableJSON range out t = inr (true, d).

Lemma run_json_Ret {A} (f : K → option A) w out :
  match f (w_kernel w) with Some out => Ret out | None => Error ErrIO end = Ret out → f (w_kernel w) = Some out.
Proof. destruct (f (w_kernel w)); naive_solver. Qed.

Lemma reads_run_json what f w : reads (run_json what f) (λ out, f (w_kernel w) = Some out) w.
Proof. unfold run_json. rstep. intros out. apply run_json_Ret. Qed.

Lemma reads_ListOwned w : reads ListOwned (λ l, list_to_set (map table_key l) = listed (w_kernel w)) w.
Proof.
  unfold ListOwned. rstep; [rstep; apply reads_run_json|]. rstep. intros l Hl.
  unfold listed. by rewrite Hq, Hl.
Qed.

Lemma reads_ExistingOwned w : reads ExistingOwned (λ e, e = listed (w_kernel w)) w.
Proof. unfold ExistingOwned. rstep; [apply reads_ListOwned|]. by rstep. Qed.

Lemma reads_integrity_tables l w : reads (integrity_tables range l)
  (λ r, r.1 = true → ∀ t, t ∈ l → ∃ out d, nft_list_table t (w_kernel w) = Some out ∧
     validateOwnedTableJSON range out t = inr (true, d)) w.
Proof.
  induction l as [|t l IH]; simpl; [rstep; set_solver|].
  rstep; [apply reads_run_json|]. rstep; [rstep|]. destruct a0 as [[] d]; simpl.
  - eapply reads_mono; [apply IH|]. intros r Hr Hok t' [->|Ht']%elem_of_cons; [by exists a, d|]. auto.
  - by rstep.
Qed.

Lemma reads_Integrity w : reads (Integrity range) (λ r, r.1 = true → intact (w_kernel w)) w.
Proof.
  unfold Integrity. rstep; [apply reads_ExistingOwned|].
  destruct (List.filter _ OwnedTables) as [|t l] eqn:E; [|by rstep].
  eapply reads_mono; [apply reads_integrity_tables|]. intros r Hr Hok. split; [|by apply Hr].
  intros t Ht. destruct (decide (table_key t ∈ listed (w_kernel w))) as [|Hn]; [done|].
  assert (Hin : In t (List.filter (λ t, negb (bool_decide (table_key t ∈ a))) OwnedTables)).
  { rewrite filter_In. split; [by apply list_elem_of_In|]. by rewrite Hq, bool_decide_eq_false_2. }
  by rewrite E in Hin.
Qed.

Lemma reads_Fingerprint w : reads Fingerprint (λ h, fingerprint (w_kernel w) = Some h) w.
Proof.
  unfold Fingerprint, fingerprint. eapply reads_bind with (Q := λ c, canonical_text (w_kernel w) OwnedTables = Some c).
  - induction OwnedTables as [|t l IH]; simpl; [by rstep|].
    rstep; [rstep; apply reads_run_json|]. rstep; [rstep|]. rstep; [apply IH|]. rstep. by rewrite Hq, Hq0, Hq1.
  - intros c Hc. rstep. by rewrite Hc.
Qed.

Lemma reads_tempScript w : reads tempScript (λ _, True) w.
Proof. unfold tempScript. eapply reads_True. rstep. Qed.

Lemma reads_Check script w : reads (Check script) (λ _, True) w.
Proof. unfold Check. rstep. rstep; [apply reads_tempScript|]. eapply reads_True. rstep. rstep. Qed.

Lemma reads_prepare_transaction script w : reads (prepare_transaction script)
  (λ tx, tx = prependDestroy script (listed (w_kernel w)) OwnedTables) w.
Proof.
  unfold prepare_transaction. rstep. rstep; [rstep; apply reads_ExistingOwned|]. rstep; [rstep|].
  rstep. rstep. rstep; [apply reads_Check|]. rstep. by rewrite Hq.
Qed.

Lemma reads_call_guard what g w : reads (call_guard what g) (λ _, g w = None) w.
Proof. unfold call_guard. rstep. intros ? Hg. cbn beta in Hg. by destruct (g w). Qed.

Lemma reads_audit (m : Manager K) w : reads (auditForeignMarkOwnership m)
  (λ _, ∃ g, m_ForeignMarkGuard m = Some g ∧ g w = None) w.
Proof.
  unfold auditForeignMarkOwnership. rstep; [|rstep]. rstep.
  eapply reads_mono; [apply reads_call_guard|]. eauto.
Qed.
End backend_reads.
