(* ===== verification/Safety.v ===== *)
(** What every operation of the manager keeps, under every fault: the durable-state
    invariant, the committed generations, and the presence of the owned tables in
    the kernel. *)

From S2P Require Import Prelude GoStrings GoTime Sha256 Json NftScript NftJson Ledger.
From S2P Require Import Snapshot Claims Host Store Backend Manager Recovery Invariant Reads.
From Stdlib Require Import Ascii String.
Local Open Scope string_scope.
Local Open Scope N_scope.
Local Open Scope host_scope.

(** nft executes a batch atomically; after a batch that opens every owned table and
    removes none of its own, the owned tables are listed. *)
Class NftLaws (K : Type) `{Nft K} := {
  nft_file_installs : ∀ script existing k k', installs script = true →
    nft_file (prependDestroy script existing OwnedTables) k = Some k' → present k'
}.

Lemma emergency_installs : installs EmergencyDenyScript = true.
Proof. by vm_compute. Qed.

Section calm.
Context {K : Type} `{NftLaws K}.
Context (range : gset string → list string).
Abbreviation HM := (M (Host K)).
Implicit Types (w : World K) (m : Manager K) (c : Ctx).

(** The runtime restore rewrites sets of the installed ruleset; it removes no table. *)
Definition restores_sets m : Prop := ∀ f w k,
  m_PostRestore m = Some f → f w = inr k → present (w_kernel w) → present k.

(** ** Calm computations

    An invariant is closed when calm changes that keep present tables present keep
    it; a calm computation keeps every closed invariant and changes the world only
    calmly, on success and on failure. *)

Definition closed (I : World K → Prop) : Prop := ∀ w w',
  I w → calm w w' → (present (w_kernel w) → present (w_kernel w')) → I w'.

Definition Calm {A} (p : HM A) (Q : A → World K → Prop) w : Prop :=
  ∀ I, closed I → I w → wsafe I p (λ a w', calm w w' ∧ (present (w_kernel w) → present (w_kernel w')) ∧ Q a w') w.

Definition evolved w0 w : Prop := calm w0 w ∧ (present (w_kernel w0) → present (w_kernel w)).

Lemma closed_evolved I w0 : closed I → closed (λ w, I w ∧ evolved w0 w).
Proof.
  intros HI w w' [HIw [Hc Hp]] Hc' Hp'. split; [by eapply HI|].
  split; [by transitivity w|auto].
Qed.

Lemma Calm_mono {A} (p : HM A) (Q R : A → World K → Prop) w :
  Calm p Q w → (∀ a w', evolved w w' → Q a w' → R a w') → Calm p R w.
Proof.
  intros Hp HQ I HI HIw. eapply wsafe_mono; [by apply Hp|]. intros a w' _ (Hc & Hpr & Hq).
  split; [done|]. split; [done|]. by apply HQ.
Qed.

Lemma Calm_reads {A} (p : HM A) (Q : A → Prop) w : reads p Q w → Calm p (λ a w', w' = w ∧ Q a) w.
Proof. intros Hp I HI HIw. eapply wsafe_mono; [by apply Hp|]. by intros a w' _ [-> ?]. Qed.

Lemma Calm_ret {A} (a : A) (Q : A → World K → Prop) w : Q a w → Calm (ret a) Q w.
Proof. intros HQ I HI HIw. by apply wsafe_ret. Qed.
Lemma Calm_throw {A} e (Q : A → World K → Prop) w : Calm (throw e) Q w.
Proof. intros I HI HIw. by apply wsafe_throw. Qed.

Lemma Calm_bind {A B} (p : HM A) (k : A → HM B) Q R w :
  Calm p Q w → (∀ a w', evolved w w' → Q a w' → Calm (k a) R w') → Calm (bind p k) R w.
Proof.
  intros Hp Hk I HI HIw. apply wsafe_bind. eapply wsafe_mono; [by apply Hp|].
  intros a w' HI' (Hc & Hpr & Hq). eapply wsafe_mono; [by apply Hk|].
  intros b w'' HI'' (Hc' & Hpr' & Hq'). split; [by transitivity w'|]. auto.
Qed.

Lemma Calm_catch {A} (p : HM A) h (Q : A → World K → Prop) w :
  Calm p Q w → (∀ e w', evolved w w' → Calm (h e) Q w') → Calm (catch p h) Q w.
Proof.
  intros Hp Hh I HI HIw. apply wsafe_catch with (J := λ w', I w' ∧ evolved w w'); [tauto|..].
  - apply Hp; [by apply closed_evolved|]. split; [done|]. by split.
  - intros e w' [HI' Hev]. eapply wsafe_mono; [by apply Hh|].
    intros a w'' HI'' (Hc' & Hpr' & Hq'). destruct Hev as [Hc Hpr]. split; [by transitivity w'|]. auto.
Qed.

Lemma Calm_wrap {A} (p : HM A) h (Q : A → World K → Prop) w :
  Calm p Q w → Calm (catch p (λ e, throw (h e))) Q w.
Proof. intros Hp. apply Calm_catch; [done|]. intros. apply Calm_throw. Qed.

Lemma Calm_try {A} (p : HM A) (Q : A → World K → Prop) w :
  Calm p Q w → Calm (try_ p) (λ r w', match r with inr a => Q a w' | inl _ => True end) w.
Proof.
  intros Hp I HI HIw.
  apply wsafe_try with (J := λ w', I w' ∧ evolved w w') (Q := λ a w', Q a w'); [tauto|..].
  - eapply wsafe_mono; [apply Hp; [by apply closed_evolved|]; split; [done|by split]|].
    intros a w' _ (_ & _ & Hq). done.
  - intros a w' [_ [? ?]] Hq. done.
  - intros e w' [_ [? ?]]. done.
Qed.

(** A system call that changes the world calmly. *)
Lemma Calm_sys_write {A} ev (f : World K → err + (A * World K)) (Q : A → World K → Prop) w :
  (∀ a w', f w = inr (a, w') → evolved w w' ∧ Q a w') → Calm (sys_write ev f) Q w.
Proof.
  intros Hf I HI HIw. apply wsafe_sys_write; [done|]. intros a w' E.
  destruct (Hf a w' E) as [[Hc Hpr] Hq]. split; [by eapply HI|]. done.
Qed.

Lemma Calm_modify f (Q : unit → World K → Prop) w :
  evolved w (f w) → Q tt (f w) → Calm (modify (on_world f)) Q w.
Proof. intros [Hc Hpr] Hq I HI HIw. apply wsafe_modify; [by eapply HI|]. done. Qed.

Lemma evolved_quiet w w' : w_dir w' = w_dir w → w_gens w' = w_gens w → w_scripts w' = w_scripts w →
  w_snapshots w' = w_snapshots w → w_pointer w' = w_pointer w →
  (w_durable w' = w_durable w ∨ w_durable w' = w_pointer w) →
  (present (w_kernel w) → present (w_kernel w')) → evolved w w'.
Proof. intros H1 H2 H3 H4 H5 H6 H7. split; [|done]. split; try done. intros id. by rewrite H2. Qed.

Lemma evolved_trans w1 w2 w3 : evolved w1 w2 → evolved w2 w3 → evolved w1 w3.
Proof. intros [] []. split; [by etransitivity|auto]. Qed.
Lemma evolved_refl w : evolved w w.
Proof. by split. Qed.

(** ** The calm operations *)

Lemma Calm_syncRoot w : Calm syncRoot (λ _ w', w_durable w' = w_pointer w') w.
Proof.
  apply Calm_sys_write. intros [] w' [= <-]. split; [|done]. apply evolved_quiet; auto.
Qed.

Lemma Calm_remove_tmp w : Calm remove_tmp (λ _ _, True) w.
Proof.
  apply Calm_sys_write. intros [] w'. destruct (w_tmp w); [|done]. intros [= <-].
  split; [|done]. apply evolved_quiet; auto.
Qed.

Lemma Calm_write_audit actor event detail w :
  Calm (write_audit actor event detail) (λ _ w', ∃ a, w' = set_audit a w) w.
Proof.
  apply Calm_sys_write. intros [] w' [= <-]. split; [|by eexists]. apply evolved_quiet; auto.
Qed.

Lemma Calm_Audit actor event detail w : Calm (Audit actor event detail) (λ _ w', ∃ a, w' = set_audit a w) w.
Proof. unfold Audit. destruct (validateAuditRecord _ _ _); [apply Calm_throw|apply Calm_write_audit]. Qed.

Lemma Calm_AuditDurable actor event detail w :
  Calm (AuditDurable actor event detail) (λ _ w', ∃ a, w' = set_audit a w) w.
Proof.
  unfold AuditDurable. destruct (validateAuditRecord _ _ _); [apply Calm_throw|].
  eapply Calm_bind; [apply Calm_write_audit|]. intros [] w1 _ (a & ->).
  eapply Calm_mono; [apply Calm_reads, reads_syncDatabase|]. intros [] w2 _ [-> _]. by exists a.
Qed.

Lemma Calm_ignore {A} (p : HM A) Q w : Calm p Q w → Calm (ignore p) (λ _ _, True) w.
Proof. intros Hp. eapply Calm_bind; [by apply Calm_try|]. intros. by apply Calm_ret. Qed.

Lemma Calm_SetObservedHash id hash w : Calm (SetObservedHash id hash) (λ _ _, True) w.
Proof.
  unfold SetObservedHash. eapply Calm_bind; [apply Calm_reads, reads_require|]. intros [] ? _ [-> _].
  eapply Calm_bind with (Q := λ _ _, True).
  - apply Calm_sys_write. intros [] w'. unfold update_row. destruct (w_gens w !! id) as [g|] eqn:Hg; [|done].
    intros [= <-]. split; [|done]. split; [|done]. split; auto. intros id'. simpl.
    destruct (decide (id' = id)) as [->|Hne]; [by rewrite lookup_insert_eq, Hg|by rewrite lookup_insert_ne].
  - intros. eapply Calm_mono; [apply Calm_reads, reads_syncDatabase|]. done.
Qed.

(** ** The kernel *)

Lemma Calm_run_file script existing w : installs script = true →
  Calm (run_file (prependDestroy script existing OwnedTables)) (λ _ w', present (w_kernel w')) w.
Proof.
  intros Hi. apply Calm_sys_write. intros [] w'.
  destruct (nft_file _ _) as [k|] eqn:E; [|done]. intros [= <-].
  pose proof (nft_file_installs _ _ _ _ Hi E). split; [|done]. apply evolved_quiet; auto.
Qed.

Lemma Calm_Apply c script w : installs script = true →
  Calm (Backend.Apply c script) (λ _ w', present (w_kernel w')) w.
Proof.
  intros Hi. unfold Backend.Apply.
  eapply Calm_bind; [apply Calm_reads, reads_require|]. intros [] ? _ [-> _].
  eapply Calm_bind; [apply Calm_reads, reads_prepare_transaction|]. intros tx ? _ [-> ->].
  eapply Calm_bind; [apply Calm_reads, reads_tempScript|]. intros [] ? _ [-> _].
  eapply Calm_bind; [by apply Calm_wrap, Calm_run_file|]. intros [] w1 _ Hp.
  apply Calm_modify; [|done]. apply evolved_quiet; auto.
Qed.

Lemma Calm_install m c script w : installs script = true →
  Calm (installOwnedGeneration m c script) (λ _ w', present (w_kernel w')) w.
Proof.
  intros Hi. unfold installOwnedGeneration. eapply Calm_bind; [apply Calm_reads, reads_audit|].
  intros [] ? _ [-> _]. by apply Calm_Apply.
Qed.

Lemma Calm_recordFingerprint id w : Calm (recordFingerprint id) (λ _ _, True) w.
Proof.
  unfold recordFingerprint. eapply Calm_bind; [apply Calm_reads, reads_Fingerprint|].
  intros h ? _ [-> _]. apply Calm_SetObservedHash.
Qed.

Lemma Calm_restoreRuntime m c w : restores_sets m → Calm (restoreRuntimeOrDeny m c) (λ _ _, True) w.
Proof.
  intros Hm. unfold restoreRuntimeOrDeny. destruct (m_PostRestore m) as [f|] eqn:Ef; [|by apply Calm_ret].
  eapply Calm_bind.
  { apply Calm_try with (Q := λ _ _, True). apply Calm_sys_write. intros [] w'.
    destruct (f w) as [e|k] eqn:E; [done|]. intros [= <-]. split; [|done].
    apply evolved_quiet; auto. by apply (Hm f). }
  intros [e|[]] w1 _ _; [|by apply Calm_ret].
  eapply Calm_bind; [eapply Calm_ignore, Calm_Audit|]. intros [] w2 _ _.
  eapply Calm_bind; [apply Calm_try, Calm_Apply, emergency_installs|].
  intros [d|[]] w3 _ _; apply Calm_throw.
Qed.

(** The sets a runtime restore rewrites carry no structural marker and are not part
    of the fingerprint. *)
Definition transparent m : Prop := ∀ f w k, m_PostRestore m = Some f → f w = inr k →
  intact range (w_kernel w) → intact range k ∧ fingerprint k = fingerprint (w_kernel w).

Lemma Calm_restoreRuntime_kept m c w : restores_sets m → transparent m →
  Calm (restoreRuntimeOrDeny m c) (λ _ w', intact range (w_kernel w) →
    intact range (w_kernel w') ∧ fingerprint (w_kernel w') = fingerprint (w_kernel w)) w.
Proof.
  intros Hm Ht. unfold restoreRuntimeOrDeny. destruct (m_PostRestore m) as [f|] eqn:Ef; [|by apply Calm_ret].
  eapply Calm_bind.
  { apply Calm_try with (Q := λ _ w', ∃ k, f w = inr k ∧ w_kernel w' = k). apply Calm_sys_write. intros [] w'.
    destruct (f w) as [e|k] eqn:E; [done|]. intros [= <-]. split; [|by eexists].
    apply evolved_quiet; auto. by apply (Hm f). }
  intros [e|[]] w1 _ Hk; [|apply Calm_ret; destruct Hk as (k & Hk & ->); intros Hi; by apply (Ht f)].
  eapply Calm_bind; [eapply Calm_ignore, Calm_Audit|]. intros [] w2 _ _.
  eapply Calm_bind; [apply Calm_try, Calm_Apply, emergency_installs|].
  intros [d|[]] w3 _ _; apply Calm_throw.
Qed.

Lemma Calm_restore m c g w : restores_sets m →
  (∀ script, w_scripts w !! gen_ID g = Some script → installs script = true) →
  Calm (restore m c (Some g)) (λ _ _, True) w.
Proof.
  intros Hm Hs. unfold restore. eapply Calm_bind; [apply Calm_reads, reads_ReadScript|].
  intros script ? _ [-> Hsc]. eapply Calm_bind; [by apply Calm_install, Hs|]. intros [] w1 _ _.
  eapply Calm_bind; [apply Calm_recordFingerprint|]. intros [] w2 _ _. by apply Calm_restoreRuntime.
Qed.

Lemma Calm_reinstall m c g w : restores_sets m →
  (∀ script, w_scripts w !! gen_ID g = Some script → installs script = true) →
  Calm (reinstall m c g) (λ _ _, True) w.
Proof. apply Calm_restore. Qed.

Lemma Calm_ProtectFirstUse w : Calm ProtectFirstUse (λ _ _, True) w.
Proof.
  unfold ProtectFirstUse. eapply Calm_bind; [apply Calm_wrap, Calm_reads, reads_ExistingOwned|].
  intros e ? _ [-> _]. unfold throw_err. destruct (firstUseCollision _ _); [apply Calm_throw|].
  apply Calm_modify; [|done]. apply evolved_quiet; auto.
Qed.

(** ** The pointer's files *)

Lemma Calm_PreparePointer p w : Calm (PrepareEnforcementPointer p)
  (λ q w', q = p ∧ w_tmp w' = Some p ∧ w_prepared w' = true) w.
Proof.
  unfold PrepareEnforcementPointer, secureActiveDirectory.
  eapply Calm_bind; [apply Calm_reads, reads_sys|]. intros [] ? _ [-> _].
  eapply Calm_bind; [apply Calm_reads, reads_require|]. intros [] ? _ [-> _].
  eapply Calm_bind with (Q := λ _ w', w_tmp w' = Some p).
  { apply Calm_sys_write. intros [] w' [= <-]. split; [|done]. apply evolved_quiet; auto. }
  intros [] w1 _ Ht. eapply Calm_bind with (Q := λ _ w', w_tmp w' = Some p).
  { apply Calm_catch.
    - apply Calm_sys_write. intros [] w' [= <-]. split; [|done]. apply evolved_quiet; auto.
    - intros e w2 _. eapply Calm_bind; [apply Calm_try, Calm_remove_tmp|]. intros. apply Calm_throw. }
  intros [] w2 _ Ht2. eapply Calm_bind with (Q := λ _ w', w_tmp w' = Some p ∧ w_prepared w' = true).
  { apply Calm_modify; [|done]. apply evolved_quiet; auto. }
  intros [] w3 _ Ht3. by apply Calm_ret.
Qed.

Lemma Calm_Cancel w : Calm CancelPreparedPointer (λ _ _, True) w.
Proof.
  unfold CancelPreparedPointer. eapply Calm_bind; [apply Calm_reads, reads_peek|]. intros b ? _ [-> _].
  destruct b; [|by apply Calm_ret]. eapply Calm_bind; [apply Calm_try, Calm_remove_tmp|].
  intros [e|[]] w1 _ _; [destruct (is_not_exist e); [by apply Calm_ret|apply Calm_throw]|].
  eapply Calm_mono; [apply Calm_syncRoot|]. done.
Qed.

Lemma Calm_EnsureDurable p w : Calm (EnsurePublishedGenerationDurable p)
  (λ s w', loaded (ptr_Generation p) w s ∧ snap_Pointer s = p ∧ w_pointer w = Some p ∧
           w_durable w' = w_pointer w') w.
Proof.
  unfold EnsurePublishedGenerationDurable.
  eapply Calm_bind; [apply Calm_reads, reads_ReadEnforcementPointer|]. intros o ? _ [-> ->].
  eapply Calm_bind; [apply Calm_reads, reads_require|]. intros [] ? _ [-> Hp%ptr_Equal_true].
  eapply Calm_bind; [apply Calm_reads, reads_LoadVerified|]. intros s ? _ [-> Hs].
  eapply Calm_bind; [apply Calm_reads, reads_require|]. intros [] ? _ [-> Hsp%ptr_Equal_true].
  do 3 (eapply Calm_bind; [apply Calm_reads, reads_sys|]; intros [] ? _ [-> _]).
  eapply Calm_bind; [apply Calm_syncRoot|]. intros [] w1 _ Hd. apply Calm_ret.
  split; [done|]. split; [congruence|]. done.
Qed.

Lemma reads_requirePointer p w : reads (requirePointer p) (λ _, w_pointer w = Some p) w.
Proof.
  unfold requirePointer. eapply reads_bind; [apply reads_ReadEnforcementPointer|]. intros o ->.
  eapply reads_mono; [apply reads_require|]. by intros _ ->%ptr_Equal_true.
Qed.

Lemma durable_evolved w w' : w_durable w = w_pointer w → evolved w w' → w_durable w' = w_pointer w'.
Proof. intros E [Hc _]. rewrite (calm_pointer _ _ Hc). destruct (calm_durable _ _ Hc); congruence. Qed.

(** ** Establishing a generation *)

Lemma reads_already_established hash w : reads (already_established range hash)
  (λ b, b = true → intact range (w_kernel w) ∧ fingerprint (w_kernel w) = Some hash) w.
Proof.
  unfold already_established. eapply reads_bind; [apply reads_try, reads_Integrity|].
  intros [e|[[] d]] Hi; [by apply reads_ret| |by apply reads_ret].
  eapply reads_bind; [apply reads_try, reads_Fingerprint|].
  intros [e|h] Hf; [by apply reads_ret|]. apply reads_ret. intros ->%String.eqb_eq. auto.
Qed.

Lemma Calm_establish m c g s w : installs (snap_Script s) = true →
  Calm (establishAndVerify range m c g s)
    (λ _ w', intact range (w_kernel w') ∧ fingerprint (w_kernel w') = Some (gen_ObservedHash g)) w.
Proof.
  intros Hi. unfold establishAndVerify.
  eapply Calm_bind; [apply Calm_reads, reads_audit|]. intros [] ? _ [-> _].
  eapply Calm_bind; [apply Calm_reads, reads_require|]. intros [] ? _ [-> _].
  eapply Calm_bind; [apply Calm_reads, reads_already_established|]. intros [] ? _ [-> He]; [by apply Calm_ret, He|].
  eapply Calm_bind; [by apply Calm_install|]. intros [] w1 _ _.
  eapply Calm_bind; [apply Calm_reads, reads_Integrity|]. intros r ? _ [-> Hr].
  eapply Calm_bind; [apply Calm_reads, reads_require|]. intros [] ? _ [-> Hok].
  eapply Calm_bind; [apply Calm_reads, reads_Fingerprint|]. intros h ? _ [-> Hh].
  eapply Calm_mono; [apply Calm_reads, reads_require|]. intros [] ? _ [-> ->%String.eqb_eq]. auto.
Qed.
End calm.

Section safety.
Context {K : Type} `{NftLaws K}.
Context (range : gset string → list string).
Abbreviation HM := (M (Host K)).
Implicit Types (w : World K) (m : Manager K) (c : Ctx).

(** ** What is kept since a starting world *)

Definition Safe w0 w : Prop :=
  Inv w ∧ committed_le (w_gens w0) (w_gens w) ∧
  (has_committed (w_gens w0) → present (w_kernel w0) → present (w_kernel w)).

Lemma Safe_refl w : Inv w → Safe w w.
Proof. intros HI. by split. Qed.

Lemma closed_Safe w0 : closed (Safe w0).
Proof.
  intros w w' (HI & Hle & Hp) Hc Hpr. split; [by eapply calm_Inv|]. split; [|auto].
  etransitivity; [done|]. by apply same_rows_committed, Hc.
Qed.

(** Without a committed generation any change of the kernel is admissible. *)
Lemma Safe_loose w0 w w' : Safe w0 w → lkp (w_gens w) = None → calm w w' → Safe w0 w'.
Proof.
  intros (HI & Hle & Hp) Hn Hc. split; [by eapply calm_Inv|]. split.
  - etransitivity; [done|]. by apply same_rows_committed, Hc.
  - intros Hcm. apply lkp_None in Hn. destruct Hn. by apply (has_committed_le (w_gens w0)).
Qed.

Lemma Safe_row w0 w id g g' a : Safe w0 w → w_gens w !! id = Some g → same_identity g g' →
  (committed g = true → committed g' = true) → Inv (set_row id g' a w) → Safe w0 (set_row id g' a w).
Proof.
  intros (HI & Hle & Hp) Hg SI Hc HI'. split; [done|]. split; [|done].
  etransitivity; [done|]. by apply set_row_le with g.
Qed.

Lemma has_status_true l g : has_status l g = true ↔ gen_Status g ∈ l.
Proof. unfold has_status. apply bool_decide_eq_true. Qed.

Lemma wsafe_update_row (I : World K → Prop) ev p f a id (Q : unit → World K → Prop) w : I w →
  (∀ g, w_gens w !! id = Some g → p g = true →
     I (set_row id (f g) (a (w_audit w)) w) ∧ Q tt (set_row id (f g) (a (w_audit w)) w)) →
  wsafe I (sys_write ev (update_row p f a id)) Q w.
Proof.
  intros HI Hf. apply wsafe_sys_write; [done|]. intros [] w'. unfold update_row.
  destruct (w_gens w !! id) as [g|] eqn:Hg; [|done]. destruct (p g) eqn:Hp; [|done].
  intros [= <-]. by apply Hf.
Qed.

Lemma wsafe_rethrow {A} (I : World K → Prop) (p : HM A) h Q w :
  I w → wsafe I p Q w → wsafe I (catch p (λ e, throw (h e))) Q w.
Proof. intros HI Hp. apply wsafe_catch with (J := I); [done|done|]. intros e w' HI'. by apply wsafe_throw. Qed.

Lemma wsafe_syncDatabase (I : World K → Prop) (Q : unit → World K → Prop) w :
  I w → Q tt w → wsafe I syncDatabase Q w.
Proof. intros HI HQ. eapply wsafe_mono; [by apply reads_syncDatabase|]. by intros [] w' _ [-> _]. Qed.

(** Running a read, a calm computation. *)
Lemma wsafe_reads {A B} (I : World K → Prop) (p : HM A) (k : A → HM B) Q P w : I w → reads p Q w →
  (∀ a, Q a → wsafe I (k a) P w) → wsafe I (bind p k) P w.
Proof. intros HI Hp Hk. apply wsafe_bind. eapply wsafe_mono; [by apply Hp|]. intros a w' _ [-> Hq]. by apply Hk. Qed.

Lemma wsafe_calm {A B} (I : World K → Prop) (p : HM A) (k : A → HM B) Q P w : closed I → I w → Calm p Q w →
  (∀ a w', I w' → evolved w w' → Q a w' → wsafe I (k a) P w') → wsafe I (bind p k) P w.
Proof.
  intros HC HI Hp Hk. apply wsafe_bind. eapply wsafe_mono; [by apply Hp|].
  intros a w' HI' (? & ? & Hq). by apply Hk.
Qed.

(** ** The candidate through calm changes *)

Definition candidate (id : N) w (g : Generation) : Prop := w_gens w !! id = Some g ∧ flying g = true.

Lemma candidate_evolved w w' id g : candidate id w g → evolved w w' →
  ∃ g', candidate id w' g' ∧ with_hash "" g' = with_hash "" g.
Proof.
  intros [Hg Hf] [Hc _]. destruct (same_rows_lookup _ _ _ _ (calm_gens _ _ Hc) Hg) as (g' & Hg' & E).
  exists g'. split; [|done]. split; [done|]. apply with_hash_eq in E as (_ & E & _). unfold flying in *. by rewrite E.
Qed.

Lemma unpublished_evolved w w' : Inv w → w_pointer w = lkp (w_gens w) → evolved w w' → w_pointer w' = lkp (w_gens w').
Proof.
  intros HI Hp [Hc _]. rewrite (calm_pointer _ _ Hc), Hp. symmetry.
  apply same_rows_lkp; [by apply Inv_keyed|apply Hc].
Qed.

(** ** The store's transitions *)

Definition rolled_back (id : N) w w' : Prop := ∃ g a, candidate id w g ∧ w' = set_row id (unprepared RolledBack g) a w.

Lemma wsafe_MarkRolledBack w0 id g w : Safe w0 w → candidate id w g → w_pointer w = lkp (w_gens w) →
  wsafe (Safe w0) (MarkRolledBack id) (λ _ w', rolled_back id w w') w.
Proof.
  intros HS [Hg Hf] Hp. unfold MarkRolledBack. apply wsafe_bind. apply wsafe_update_row; [done|].
  intros g' Hg' _. cbn beta in *. simplify_eq. assert (HS' := HS). destruct HS' as (HI & _).
  assert (Safe w0 (set_row id (unprepared RolledBack g) (w_audit w) w)).
  { eapply Safe_row; [done|done|done| |by eapply Inv_rolled]. by rewrite (flying_committed g). }
  split; [done|]. apply wsafe_syncDatabase; [done|]. by exists g, (w_audit w).
Qed.

Lemma wsafe_FinalizeRecoveryRollback w0 id g detail w : Safe w0 w → candidate id w g →
  w_pointer w = lkp (w_gens w) →
  wsafe (Safe w0) (FinalizeRecoveryRollback id detail) (λ _ w', rolled_back id w w') w.
Proof.
  intros HS [Hg Hf] Hp. unfold FinalizeRecoveryRollback, wrap_no_rows. apply wsafe_bind.
  apply wsafe_rethrow; [done|]. apply wsafe_update_row; [done|].
  intros g' Hg' _. cbn beta in *. simplify_eq. assert (HS' := HS). destruct HS' as (HI & _).
  match goal with |- Safe _ ?w' ∧ _ => assert (Safe w0 w') end.
  { eapply Safe_row; [done|done|done| |by eapply Inv_rolled]. by rewrite (flying_committed g). }
  split; [done|]. apply wsafe_syncDatabase; [done|]. by eexists g, _.
Qed.

Lemma wsafe_MarkApplied w0 id w : Safe w0 w →
  wsafe (Safe w0) (MarkApplied id)
    (λ _ w', ∃ g a, w_gens w !! id = Some g ∧ gen_Status g = Pending ∧ w' = set_row id (with_status Applied g) a w) w.
Proof.
  intros HS. unfold MarkApplied, wrap_no_rows. apply wsafe_bind. apply wsafe_rethrow; [done|].
  apply wsafe_update_row; [done|]. intros g Hg Hst%has_status_true.
  assert (gen_Status g = Pending) as E by set_solver. assert (HS' := HS). destruct HS' as (HI & _).
  match goal with |- Safe _ ?w' ∧ _ => assert (Safe w0 w') end.
  { eapply Safe_row; [done|done|done| |by eapply Inv_applied]. unfold committed. by rewrite E. }
  split; [done|]. apply wsafe_syncDatabase; [done|]. by eexists g, _.
Qed.

Lemma wsafe_PrepareCommit w0 id w : Safe w0 w →
  wsafe (Safe w0) (PrepareCommit id)
    (λ _ w', ∃ g s now a, w_gens w !! id = Some g ∧ gen_Status g = Applied ∧ w_snapshots w !! id = Some s ∧
       w' = set_row id (prepared now (snap_Previous s) g) a w) w.
Proof.
  intros HS. unfold PrepareCommit. assert (HS' := HS). destruct HS' as (HI & _).
  eapply wsafe_reads; [done|apply reads_GenerationByID|]. intros g Hg.
  eapply wsafe_reads; [done|apply reads_require|]. intros [] Hst%has_status_true.
  assert (gen_Status g = Applied) as E by set_solver.
  eapply wsafe_reads; [done|rstep; apply reads_LoadGenerationSnapshot|]. intros s (Hs & _).
  eapply wsafe_reads; [done|apply reads_require|]. intros [] _.
  eapply wsafe_reads; [done|apply reads_clock|]. intros now _.
  unfold wrap_no_rows. apply wsafe_bind. apply wsafe_rethrow; [done|]. apply wsafe_update_row; [done|].
  intros g' Hg' _. cbn beta in *. simplify_eq.
  match goal with |- Safe _ ?w' ∧ _ => assert (Safe w0 w') end.
  { eapply Safe_row; [done|done|done| |by eapply Inv_commit_prepared]. unfold committed. by rewrite E. }
  split; [done|]. apply wsafe_bind. apply wsafe_syncDatabase; [done|].
  eapply wsafe_mono; [by apply reads_GenerationByID|]. intros _ w' _ [-> _]. by eexists g, s, now, _.
Qed.

Definition published (id : N) w : Prop := ∃ g, w_gens w !! id = Some g ∧ committed g = true ∧
  w_pointer w = Some (row_pointer g) ∧ w_durable w = Some (row_pointer g).

Lemma wsafe_FinalizeCommit w0 id g w : Safe w0 w → w_gens w !! id = Some g → gen_Status g = CommitPrepared →
  w_pointer w = Some (row_pointer g) → w_durable w = Some (row_pointer g) →
  wsafe (Safe w0) (FinalizeCommit id) (λ _ w', published id w' ∧ w_kernel w' = w_kernel w ∧ w_pointer w' = w_pointer w) w.
Proof.
  intros HS Hg Hst Hp Hd. unfold FinalizeCommit, wrap_no_rows. apply wsafe_bind. apply wsafe_rethrow; [done|].
  assert (HS' := HS). destruct HS' as (HI & _). pose proof (prepared_flying _ Hst) as Hf.
  assert (E : finalize_tx id w = update_row (has_status [CommitPrepared]) finalized
    (insert_audit "system" "generation_committed" (sprintf "generation=%d" [ArgN id])) id w).
  { unfold finalize_tx. rewrite (supersede_alone w id g HI Hg Hf). by destruct w. }
  apply wsafe_sys_write; [done|]. intros [] w'. rewrite E. unfold update_row. rewrite Hg.
  destruct (has_status _ g); [|done]. intros [= <-].
  match goal with |- Safe _ ?w' ∧ _ => assert (Safe w0 w') end.
  { eapply (Safe_row w0 w id g (finalized g)); [done|done|done|done|by eapply Inv_finalized]. }
  split; [done|]. apply wsafe_syncDatabase; [done|]. split; [|done]. exists (finalized g). simpl.
  by rewrite lookup_insert_eq.
Qed.

(** The rename and the syncs that follow it. *)
Lemma wsafe_Publish w0 id g w : Safe w0 w → w_gens w !! id = Some g → gen_Status g = CommitPrepared →
  w_tmp w = Some (row_pointer g) →
  wsafe (Safe w0) (PublishPreparedPointer (row_pointer g))
    (λ _ w', w_gens w' = w_gens w ∧ w_pointer w' = Some (row_pointer g) ∧ w_durable w' = Some (row_pointer g) ∧
       w_kernel w' = w_kernel w) w.
Proof.
  intros HS Hg Hst Ht. unfold PublishPreparedPointer. assert (HS' := HS). destruct HS' as (HI & Hle & Hpr).
  eapply wsafe_reads; [done|apply reads_peek|]. intros b _.
  eapply wsafe_reads; [done|apply reads_require|]. intros [] _.
  apply wsafe_bind. apply wsafe_sys_write; [done|]. intros [] w'. rewrite Ht. intros [= <-].
  assert (HS1 : Safe w0 (set_pointers (Some (row_pointer g)) (w_durable w) None w)).
  { split; [by eapply Inv_renamed|]. done. }
  split; [done|]. eapply wsafe_calm; [apply closed_Safe|done| |].
  { apply Calm_modify with (Q := λ _ w', w_gens w' = w_gens w ∧ w_pointer w' = Some (row_pointer g) ∧
      w_kernel w' = w_kernel w); [|done].
    apply evolved_quiet; auto. }
  intros [] w2 HS2 _ (E2 & P2 & K2). eapply wsafe_reads; [done|apply reads_sys|]. intros [] _.
  eapply wsafe_sys_write; [done|]. intros [] w3 [= <-]. simpl. split; [|by rewrite P2].
  eapply closed_Safe; [done| |done]. split; auto. done.
Qed.

(** ** Clearing and destroying, without a committed generation *)

Lemma wsafe_DestroyOwned w0 c w : Safe w0 w → lkp (w_gens w) = None →
  wsafe (Safe w0) (DestroyOwned c) (λ _ w', calm w w') w.
Proof.
  intros HS Hn. unfold DestroyOwned.
  eapply wsafe_reads; [done|apply reads_require|]. intros [] _.
  eapply wsafe_reads; [done|apply reads_ExistingOwned|]. intros e _.
  destruct (String.eqb _ ""); [by apply wsafe_ret|].
  eapply wsafe_reads; [done|apply reads_tempScript|]. intros [] _.
  apply wsafe_rethrow; [done|]. apply wsafe_sys_write; [done|]. intros [] w'.
  destruct (nft_file _ _) as [k|]; [|done]. intros [= <-].
  assert (calm w (set_kernel k (w_first_use w) w)) by (split; auto; done).
  split; [by eapply Safe_loose|done].
Qed.

Lemma Calm_ClearActive w : w_pointer w = None → Calm ClearActive (λ _ _, True) w.
Proof.
  intros Hp. unfold ClearActive, secureActiveDirectory.
  eapply Calm_bind; [apply Calm_reads, reads_sys|]. intros [] ? _ [-> _].
  eapply Calm_bind with (Q := λ _ _, True).
  { apply Calm_sys_write. intros [] w' [= <-]. split; [|done]. apply evolved_quiet; auto. }
  intros [] w1 _ _. eapply Calm_bind; [apply Calm_reads, reads_sys|]. intros [] ? _ [-> _].
  eapply Calm_mono; [apply Calm_syncRoot|]. done.
Qed.
End safety.
