(* ===== verification/Sample.v ===== *)
(** A concrete kernel and host on which the development's theorems are run: an nft
    that keeps the last installed ruleset, lists its tables with the structural
    markers, and removes everything when a batch opens no table. *)

From S2P Require Import Prelude GoStrings GoTime Sha256 Json NftScript NftJson Ledger.
From S2P Require Import Snapshot Claims Host Store Backend Manager Recovery Invariant Reads Safety.
From Stdlib Require Import Ascii String.
Local Open Scope string_scope.
Local Open Scope N_scope.
Local Open Scope host_scope.

(** ** The kernel *)

Definition opens_all (script : string) : bool :=
  match stripNftComments script with
  | inl _ => false
  | inr clean => forallb (λ t, existsb (opens_table t) (statements clean)) OwnedTables
  end.

Definition obj (kind : string) (l : list (string * json)) : json := JObj [(kind, JObj l)].
Definition in_table (t : NftTable) (l : list (string * json)) : list (string * json) :=
  ("family", JStr (Family t)) :: ("table", JStr (TableName t)) :: l.
Definition table_obj (t : NftTable) (comment : string) : json :=
  obj "table" [("family", JStr (Family t)); ("name", JStr (TableName t)); ("handle", JNum 7); ("comment", JStr comment)].
Definition chain_obj (t : NftTable) (name typ hook policy : string) : json :=
  obj "chain" (in_table t [("name", JStr name); ("handle", JNum 1); ("type", JStr typ); ("hook", JStr hook);
                           ("policy", JStr policy)]).
Definition rule_obj (t : NftTable) (chain comment : string) : json :=
  obj "rule" (in_table t [("chain", JStr chain); ("handle", JNum 3); ("comment", JStr comment); ("expr", JArr [])]).

Definition ruleset_of (t : NftTable) (script : string) : list json :=
  table_obj t script ::
  if String.eqb (TableName t) FilterTable then
    (map (λ c, chain_obj t c "filter" c "drop") ["input"; "output"; "forward"] ++
     map (rule_obj t "input") (filterComments ++ map (λ p, p +:+ "wan0") provenanceMarkers))%list
  else if String.eqb (TableName t) NATTable then
    [chain_obj t "prerouting" "nat" "prerouting" "accept"; chain_obj t "postrouting" "nat" "postrouting" "accept";
     rule_obj t "prerouting" "nftfw:dnat-chain"]
  else [rule_obj t "input" "nftfw:ipv6-mode-vpn"].

Definition doc (l : list json) : option json := Some (JObj [("nftables", JArr (obj "metainfo" [("json_schema_version", JNum 1)] :: l))]).

#[export] Instance sample_nft : Nft (option string) := {
  nft_check script _ := true;
  nft_file script k := Some (if opens_all script then Some script else None);
  nft_list_tables k := Some (doc (match k with
                                  | Some s => map (λ t, table_obj t s) OwnedTables
                                  | None => []
                                  end));
  nft_list_table t k := match k with Some s => Some (doc (ruleset_of t s)) | None => None end;
  nft_list_ruleset k := Some (doc (match k with
                                   | Some s => List.concat (map (λ t, ruleset_of t s) OwnedTables)
                                   | None => []
                                   end))
}.

(** Destroy lines only add statements in front. *)
Lemma prependDestroy_strip script clean existing : stripNftComments script = inr clean →
  ∃ clean' l, stripNftComments (prependDestroy script existing OwnedTables) = inr clean' ∧
    statements clean' = (l ++ statements clean)%list.
Proof.
  intros H. rewrite prependDestroy_filter.
  assert (Hin : ∀ t, In t (List.filter (λ t, bool_decide (table_key t ∈ existing)) OwnedTables) → t ∈ OwnedTables).
  { intros t Ht. rewrite filter_In in Ht. apply list_elem_of_In, Ht. }
  induction (List.filter _ OwnedTables) as [|t l IH]; [by exists clean, []|]. simpl.
  destruct IH as (clean' & l' & E & Es); [intros; apply Hin; by right|].
  destruct (destroy_line_split t (Hin t (or_introl eq_refl))) as (a & Ea & Ha). rewrite Ea.
  unfold neutral_line in Ha. rewrite !andb_true_iff in Ha. destruct Ha as [[[Hp _] _] _].
  exists (a +:+ String lf clean'), (statements a ++ l')%list. split; [by apply strip_line|].
  by rewrite statements_line, Es, app_assoc.
Qed.

Lemma opens_all_installs script existing : installs script = true →
  opens_all (prependDestroy script existing OwnedTables) = true.
Proof.
  unfold installs, opens_all. destruct (stripNftComments script) as [e|clean] eqn:E; [done|].
  intros [Ho _]%andb_true_iff. destruct (prependDestroy_strip _ _ existing E) as (clean' & l & -> & ->).
  apply forallb_forall. intros t Ht. apply existsb_exists.
  rewrite forallb_forall in Ho. apply Ho, existsb_exists in Ht as (s & Hs & Hts).
  exists s. split; [|done]. apply in_or_app. by right.
Qed.

Lemma sample_present s : present (Some s).
Proof.
  assert (E : listed (Some s) = list_to_set (map table_key OwnedTables)) by (vm_compute; reflexivity).
  intros t Ht. rewrite E. by apply elem_of_list_to_set, list_elem_of_fmap_2.
Qed.

#[export] Instance sample_laws : NftLaws (option string).
Proof.
  split. intros script existing k k' Hi. simpl. rewrite opens_all_installs by done.
  intros [= <-]. apply sample_present.
Qed.

(** ** A manager and a host *)

Definition sample_range : gset string → list string := elements.

Definition sample_manager : Manager (option string) :=
  mkManager 60000000000%Z None (Some (λ _, None)) (Some (λ _, None)) (Some (λ _, None)) None "/run/nftfw".
Definition sample_ctx : Ctx := mkCtx false false.

Lemma sample_restores : restores_sets sample_manager.
Proof. done. Qed.
Lemma sample_transparent : transparent sample_range sample_manager.
Proof. done. Qed.

Definition ruleset (comment : string) : string :=
  "# " +:+ comment +:+ String lf "table inet nftfw_filter {" +:+ String lf "}" +:+
  String lf "table ip nftfw_nat {" +:+ String lf "}" +:+
  String lf "table ip6 nftfw_filter6 {" +:+ String lf "}" +:+ String lf EmptyString.

Definition artifact_of (id : N) (comment : string) : Artifact :=
  mkArtifact id (sha256_hex (ruleset comment)) (ruleset comment) [wan; lan].

Definition boot1 : string := "6f2c1a34-0b7e-4c7d-9d2e-2f1f0a4b8c01".
Definition boot2 : string := "0d9b5e12-88aa-4f10-b3c4-9e7d5c6b7a02".

Definition blank_world : World (option string) :=
  mkWorld "/var/lib/nftfw" ∅ [] ∅ ∅ None None None false (allocations ledger_wan_lan) None false boot1 no_claims.
Definition blank : Host (option string) := mkHost blank_world (replicate 40 1000%Z) [].

Definition run {A} (p : M (Host (option string)) A) (o : oracle) (h : Host (option string)) : Host (option string) :=
  final (p o h).

(** The first generation is applied and committed at once; a second one is applied
    in safe mode and awaits its commit. *)
Definition gen1 : Host (option string) := run (Manager.Apply sample_manager sample_ctx (artifact_of 1 "one") false) [] blank.
Definition gen2 : Host (option string) := run (Manager.Apply sample_manager sample_ctx (artifact_of 2 "two") true) [] gen1.

(** Their values, computed once. *)
Definition gen1_nf : Host (option string) := Eval vm_compute in gen1.
Definition gen2_nf : Host (option string) :=
  Eval vm_compute in run (Manager.Apply sample_manager sample_ctx (artifact_of 2 "two") true) [] gen1_nf.
Lemma gen1_eq : gen1 = gen1_nf.
Proof. vm_compute. reflexivity. Qed.
Lemma gen2_eq : gen2 = gen2_nf.
Proof. unfold gen2. rewrite gen1_eq. vm_compute. reflexivity. Qed.

Definition reboot (h : Host (option string)) : Host (option string) :=
  mkHost (mkWorld (w_dir (h_world h)) (w_gens (h_world h)) (w_audit (h_world h)) (w_scripts (h_world h))
            (w_snapshots (h_world h)) (w_durable (h_world h)) (w_durable (h_world h)) None false
            (w_ledger (h_world h)) None false boot2 (w_claims (h_world h))) (h_clock h) (h_trace h).
