(* ===== verification/Live.v ===== *)
(** Runs without faults: when every system call answers, a computation returns.
    The logic [runs] is the counterpart of [wsafe] for progress: it says that a
    value is returned, and what holds of it. *)

From S2P Require Import Prelude GoStrings GoTime Sha256 Json NftScript NftJson.
From S2P Require Import Ledger Snapshot Claims Host Store Backend Manager Invariant Reads.
From Stdlib Require Import Ascii String.
Local Open Scope string_scope.
Local Open Scope N_scope.
Local Open Scope host_scope.

Section runs.
Context {K : Type}.
Abbreviation HM := (M (Host K)).
Implicit Types (w : World K).

Definition runs {A} (m : HM A) (Q : A → World K → Prop) w : Prop :=
  ∀ c tr, match m [] (mkHost w c tr) with (Ret a, [], h) => Q a (h_world h) | _ => False end.

Lemma runs_elim {A} (m : HM A) Q h : runs m Q (h_world h) →
  ∃ a, result (m [] h) = Ret a ∧ Q a (h_world (final (m [] h))).
Proof.
  destruct h as [w c tr]. intros H. specialize (H c tr). unfold result, final. simpl in *.
  destruct (m [] (mkHost w c tr)) as [[[a| |] []] h']; try done. by exists a.
Qed.

Lemma runs_mono {A} (m : HM A) (Q R : A → World K → Prop) w : runs m Q w → (∀ a w', Q a w' → R a w') → runs m R w.
Proof.
  intros Hm HQ c tr. specialize (Hm c tr).
  destruct (m [] (mkHost w c tr)) as [[[a| |] []] h']; try done. auto.
Qed.
Lemma runs_ret {A} (a : A) (Q : A → World K → Prop) w : Q a w → runs (ret a) Q w.
Proof. by intros HQ c tr. Qed.
Lemma runs_bind {A B} (m : HM A) (f : A → HM B) Q w : runs m (λ a w', runs (f a) Q w') w → runs (bind m f) Q w.
Proof.
  intros Hm c tr. specialize (Hm c tr). unfold bind.
  destruct (m [] (mkHost w c tr)) as [[[a| |] []] [w' c' tr']]; try done. apply Hm.
Qed.
Lemma runs_catch {A} (m : HM A) k Q w : runs m Q w → runs (catch m k) Q w.
Proof.
  intros Hm c tr. specialize (Hm c tr). unfold catch.
  destruct (m [] (mkHost w c tr)) as [[[a| |] []] h']; try done.
Qed.
Lemma runs_wrapped {A} fmt (m : HM A) Q w : runs m Q w → runs (wrapped fmt m) Q w.
Proof. apply runs_catch. Qed.
Lemma runs_try {A} (m : HM A) (Q : err + A → World K → Prop) w : runs m (λ a, Q (inr a)) w → runs (try_ m) Q w.
Proof.
  intros Hm c tr. specialize (Hm c tr). unfold try_.
  destruct (m [] (mkHost w c tr)) as [[[a| |] []] h']; try done.
Qed.
Lemma runs_require b e Q w : b = true → Q tt w → runs (require b e) Q w.
Proof. by intros -> HQ c tr. Qed.
Lemma runs_peek {A} (f : World K → A) Q w : Q (f w) w → runs (peek f) Q w.
Proof. by intros HQ c tr. Qed.
Lemma runs_throw_if e Q w : e = None → Q tt w → runs (throw_if e) Q w.
Proof. by intros -> HQ c tr. Qed.
Lemma runs_lift_check {A} (r : err + A) a (Q : A → World K → Prop) w : r = inr a → Q a w → runs (lift_check r) Q w.
Proof. by intros -> HQ c tr. Qed.
Lemma runs_sys_read {A} ev (f : World K → outcome A) a (Q : A → World K → Prop) w :
  f w = Ret a → Q a w → runs (sys_read ev f) Q w.
Proof. intros Hf HQ c tr. unfold sys_read, io_write. simpl. by rewrite Hf. Qed.
Lemma runs_if_none {A} ev (f : World K → outcome A) (Q : option A → World K → Prop) e w :
  f w = Error e → is_no_rows e = true → Q None w → runs (if_any (sys_read ev f)) Q w.
Proof.
  intros Hf He HQ c tr. unfold if_any, try_, sys_read, io_write, bind. simpl. rewrite Hf. simpl. by rewrite He.
Qed.
End runs.

(** ** Exact answers

    [exactly m Q w]: in world [w] the read-only [m] returns only values of [Q],
    under every fault, and without faults it returns each of them. *)

Section exactly.
Context {K : Type}.
Abbreviation HM := (M (Host K)).
Implicit Types (w : World K).

Definition exactly {A} (m : HM A) (Q : A → Prop) w : Prop :=
  reads m Q w ∧ ∀ a, Q a → runs m (λ b w', b = a ∧ w' = w) w.

Lemma exactly_iff {A} (m : HM A) (Q R : A → Prop) w : exactly m Q w → (∀ a, Q a ↔ R a) → exactly m R w.
Proof.
  intros [Hr Hl] H. split; [eapply reads_mono; [done|]; intros a; apply H|]. intros a Ha. by apply Hl, H.
Qed.
Lemma exactly_ret {A} (a : A) w : exactly (ret a) (λ b, b = a) w.
Proof. split; [by apply reads_ret|]. intros b ->. by apply runs_ret. Qed.
Lemma exactly_throw {A} e w : exactly (throw e : HM A) (λ _, False) w.
Proof. split; [apply reads_throw|done]. Qed.
Lemma exactly_bind {A B} (m : HM A) (f : A → HM B) Q R w :
  exactly m Q w → (∀ a, Q a → exactly (f a) (R a) w) → exactly (bind m f) (λ b, ∃ a, Q a ∧ R a b) w.
Proof.
  intros [Hr Hl] Hf. split.
  - eapply reads_bind; [done|]. intros a Ha. eapply reads_mono; [by apply Hf|]. eauto.
  - intros b (a & Ha & Hb). apply runs_bind. eapply runs_mono; [by apply Hl|].
    intros a' w' [-> ->]. by apply Hf.
Qed.
Lemma exactly_sys {A} ev (f : World K → outcome A) w : exactly (sys_read ev f) (λ a, f w = Ret a) w.
Proof. split; [apply reads_sys|]. intros a Ha. by eapply runs_sys_read. Qed.
Lemma exactly_peek {A} (f : World K → A) w : exactly (peek f) (λ a, a = f w) w.
Proof. split; [apply reads_peek|]. intros a ->. by apply runs_peek. Qed.
Lemma exactly_require b e w : exactly (require b e : HM unit) (λ _, b = true) w.
Proof. split; [apply reads_require|]. intros [] ->. by apply runs_require. Qed.
Lemma exactly_throw_if e w : exactly (throw_if e : HM unit) (λ _, e = None) w.
Proof. split; [apply reads_throw_if|]. intros [] ->. by apply runs_throw_if. Qed.
Lemma exactly_lift_check {A} (r : err + A) w : exactly (lift_check r : HM A) (λ a, r = inr a) w.
Proof. split; [apply reads_lift_check|]. intros a ->. by eapply runs_lift_check. Qed.
(** An error handler that only rethrows. *)
Lemma exactly_catch {A} (m : HM A) (g : err → err) Q w :
  exactly m Q w → exactly (catch m (λ e, throw (g e))) Q w.
Proof.
  intros [Hr Hl]. split; [apply reads_catch; [done|intros; apply reads_throw]|].
  intros a Ha. by apply runs_catch, Hl.
Qed.
Lemma exactly_wrapped {A} fmt (m : HM A) Q w : exactly m Q w → exactly (wrapped fmt m) Q w.
Proof. apply exactly_catch. Qed.
Lemma exactly_if_any {A} ev (f : World K → outcome A) w :
  exactly (if_any (sys_read ev f))
    (λ o, match o with Some a => f w = Ret a | None => ∃ e, f w = Error e ∧ is_no_rows e = true end) w.
Proof.
  split; [apply reads_if_any|]. intros [a|].
  - intros Ha c tr. unfold if_any, try_, sys_read, io_write, bind. simpl. by rewrite Ha.
  - intros (e & He & Hn) c tr. unfold if_any, try_, sys_read, io_write, bind. simpl. rewrite He. simpl. by rewrite Hn.
Qed.

(** A read that always has an answer, with its faults handled by giving up. *)
Lemma exactly_try_sys {A B} ev (f : World K → A) (k : err + A → HM B) e Q w :
  exactly (k (inr (f w))) Q w → k (inl ErrIO) = throw e → exactly (bind (try_ (sys_read ev (λ w, Ret (f w)))) k) Q w.
Proof.
  intros [Hr Hl] He. split.
  - intros I HI c tr o. unfold bind, try_, sys_read, io_write, result, final. simpl.
    destruct (draw o) as [[] o']; simpl; try done; [apply (Hr I HI c (ev :: tr) o')|rewrite He; done..].
  - intros a Ha c tr. unfold bind, try_, sys_read, io_write. simpl. apply (Hl a Ha c (ev :: tr)).
Qed.

(** A query that must have no rows. *)
Lemma exactly_no_rows {A B} ev (f : World K → outcome A) (k : option A → HM B) Q w :
  (∀ a, ∃ e, k (Some a) = throw e) → exactly (k None) Q w →
  exactly (bind (if_any (sys_read ev f)) k) (λ b, (∃ e, f w = Error e ∧ is_no_rows e = true) ∧ Q b) w.
Proof.
  intros Hk HQ. eapply exactly_iff.
  - eapply exactly_bind with (R := λ o b, o = None ∧ Q b); [apply exactly_if_any|]. intros [a|] _.
    + destruct (Hk a) as [e ->]. eapply exactly_iff; [apply exactly_throw|naive_solver].
    + eapply exactly_iff; [exact HQ|naive_solver].
  - intros b. cbn beta. split; [by intros ([a|] & ? & ? & ?)|]. intros [? ?]. by exists None.
Qed.

(** A guard in front of a computation. *)
Lemma exactly_after {A B} (m : HM A) (k : HM B) Q R w :
  exactly m Q w → exactly k R w → exactly (m ;; k) (λ b, (∃ a, Q a) ∧ R b) w.
Proof.
  intros Hm Hk. eapply exactly_iff; [eapply exactly_bind; [exact Hm|intros; exact Hk]|]. naive_solver.
Qed.
Lemma exactly_guard {B} b e (k : HM B) R w :
  (b = true → exactly k R w) → exactly (require b e ;; k) (λ x, b = true ∧ R x) w.
Proof.
  intros Hk. eapply exactly_iff; [eapply exactly_bind; [apply exactly_require|intros ? Hb; apply (Hk Hb)]|]. naive_solver.
Qed.

Lemma exactly_peek_bind {A B} (f : World K → A) (k : A → HM B) R w : exactly (k (f w)) R w → exactly (bind (peek f) k) R w.
Proof.
  intros Hk. eapply exactly_iff; [eapply exactly_bind with (R := λ _, R); [apply exactly_peek|by intros ? ->]|].
  intros b. cbn beta. naive_solver.
Qed.

(** The answers of a run. *)
Lemma exactly_result {A} (m : HM A) Q h a : exactly m Q (h_world h) →
  (∀ b, Q b → b = a) → (result (m [] h) = Ret a ↔ Q a).
Proof.
  intros [Hr Hl] Hu. split.
  - intros Ha. apply (wsafe_ret_elim (λ _, True) _ _ h [] a (Hr _ I) Ha).
  - intros Ha. destruct (runs_elim _ _ _ (Hl a Ha)) as (b & Hb & -> & _). done.
Qed.
End exactly.

(** ** Exact answers of the store's readers *)

Section exact_store.
Context {K : Type}.
Abbreviation HM := (M (Host K)).
Implicit Types (w : World K).

Lemma exactly_GenerationByID id w : exactly (GenerationByID id) (λ g, w_gens w !! id = Some g ∧ scanGeneration g = Ret g) w.
Proof. unfold GenerationByID. eapply exactly_iff; [apply exactly_sys|]. intros g. apply scan_row_Ret. Qed.
Lemma exactly_LastKnownGood w :
  exactly LastKnownGood (λ g, select_latest committed (w_gens w) = Some g ∧ scanGeneration g = Ret g) w.
Proof. unfold LastKnownGood. eapply exactly_iff; [apply exactly_sys|]. intros g. apply scan_row_Ret. Qed.

Lemma exactly_ReadEnforcementPointer w : exactly ReadEnforcementPointer
  (λ o, o = w_pointer w ∧ ∀ p, o = Some p → ptr_valid p = true) w.
Proof.
  unfold ReadEnforcementPointer, secureActiveDirectory.
  eapply exactly_iff.
  { apply exactly_after; [apply exactly_sys|]. eapply exactly_bind; [apply exactly_sys|]. intros o Ho. cbn beta in Ho.
    instantiate (1 := λ o b, b = o ∧ ∀ p, b = Some p → ptr_valid p = true). cbn beta. destruct o as [p|].
    - eapply exactly_iff; [apply exactly_guard; intros _; apply exactly_ret|]. naive_solver.
    - eapply exactly_iff; [apply exactly_ret|]. naive_solver. }
  intros o. cbn beta. naive_solver.
Qed.

Lemma scan_row_None o : (∃ e, scan_row o = Error e ∧ is_no_rows e = true) ↔ o = None.
Proof. split; [intros (e & ? & ?); by eapply scan_row_no_rows|intros ->; by exists ErrNoRows]. Qed.

(** The pointer must exist. *)
Lemma exactly_pointer_bind {B} (k : option EnforcementPointer → HM B) (Q : EnforcementPointer → B → Prop) w :
  (∃ e, k None = throw e) → (∀ p, exactly (k (Some p)) (Q p) w) →
  exactly (bind ReadEnforcementPointer k) (λ b, ∃ p, w_pointer w = Some p ∧ ptr_valid p = true ∧ Q p b) w.
Proof.
  intros [e He] Hk. eapply exactly_iff.
  - eapply exactly_bind with (R := λ o b, ∃ p, o = Some p ∧ Q p b); [apply exactly_ReadEnforcementPointer|]. intros [p|] _.
    + eapply exactly_iff; [apply Hk|]. naive_solver.
    + rewrite He. eapply exactly_iff; [apply exactly_throw|naive_solver].
  - intros b. cbn beta. naive_solver.
Qed.

Lemma exactly_LoadGenerationSnapshot id w : exactly (LoadGenerationSnapshot id) (loaded id w) w.
Proof.
  unfold LoadGenerationSnapshot, secureActiveDirectory, secureGenerationsDirectory, read_snapshot_file.
  eapply exactly_iff.
  { apply exactly_after; [apply exactly_sys|]. apply exactly_guard. intros _.
    apply exactly_after; [apply exactly_sys|]. eapply exactly_bind; [apply exactly_sys|]. intros s _.
    apply exactly_after; [apply exactly_throw_if|]. apply exactly_guard. intros _. apply exactly_ret. }
  intros s. unfold loaded. cbn beta. split.
  - intros (_ & _ & _ & s' & Hs & [[] Hv] & Hid%N.eqb_eq & ->).
    destruct (w_snapshots w !! id); [|done]. injection Hs as ->. by split.
  - intros (Hs & Hv & Hid). rewrite Hs. split; [by exists tt|]. split.
    { apply negb_true_iff, N.eqb_neq. rewrite <-Hid. by apply validateSnapshot_generation. }
    split; [by exists tt|]. exists s. split; [done|]. split; [by exists tt|]. split; [by apply N.eqb_eq|done].
Qed.

Lemma exactly_LoadVerified id w : exactly (LoadVerifiedGenerationSnapshot id)
  (λ s, loaded id w s ∧ ValidateRequired (w_ledger w) (snap_Provenance s) = None) w.
Proof.
  unfold LoadVerifiedGenerationSnapshot, validateSnapshotProvenance. eapply exactly_iff.
  { eapply exactly_bind; [apply exactly_LoadGenerationSnapshot|]. intros s _.
    instantiate (1 := λ s b, b = s ∧ ValidateRequired (w_ledger w) (snap_Provenance s) = None). cbn beta.
    eapply exactly_iff.
    { eapply exactly_after with (Q := λ _, ValidateRequired (w_ledger w) (snap_Provenance s) = None); [|apply exactly_ret].
      eapply exactly_iff; [eapply exactly_bind; [apply exactly_sys|]|].
      - intros r Hr. cbn beta in Hr. injection Hr as <-.
        instantiate (1 := λ r _, r = None). cbn beta.
        destruct (ValidateRequired _ _); [eapply exactly_iff; [apply exactly_throw|done]|].
        eapply exactly_iff; [apply exactly_ret|]. by intros [].
      - intros []. naive_solver. }
    intros b. naive_solver. }
  intros s. cbn beta. naive_solver.
Qed.

(** The script file a row stands for. *)
Definition script_intact w (g : Generation) (script : string) : Prop :=
  gen_ScriptPath g = script_path (w_dir w) (gen_ID g) ∧ w_scripts w !! gen_ID g = Some script ∧
  (N.of_nat (slen script) <=? maxActiveSnapshot) = true ∧ validScriptChecksum script (gen_Checksum g) = true.

Lemma exactly_script_checksum (script checksum : string) w :
  exactly (match hex_decode checksum with
           | Some want =>
               require (List.length want =? 32)%nat (Errorf "generation checksum is malformed" []) ;;
               require (equalBytes (sha256 script) want) (Errorf "generation script checksum mismatch" []) ;;
               ret script
           | None => throw (Errorf "generation checksum is malformed" [])
           end : HM string) (λ b, b = script ∧ validScriptChecksum script checksum = true) w.
Proof.
  unfold validScriptChecksum, validChecksum.
  destruct (hex_decode checksum) as [want|]; [|eapply exactly_iff; [apply exactly_throw|naive_solver]].
  eapply exactly_iff; [apply exactly_guard; intros _; apply exactly_guard; intros _; apply exactly_ret|].
  intros b. cbn beta. destruct (_ =? 32)%nat; naive_solver.
Qed.

Lemma exactly_ReadScript g w : exactly (ReadScript g) (script_intact w g) w.
Proof.
  unfold ReadScript, secureGenerationsDirectory, read_script_file. eapply exactly_iff.
  { apply exactly_after; [apply exactly_sys|]. apply exactly_peek_bind. apply exactly_guard. intros _.
    eapply exactly_bind; [apply exactly_sys|]. intros script _.
    apply exactly_guard. intros _. apply exactly_script_checksum. }
  intros s. unfold script_intact. cbn beta. split.
  - intros (_ & Hp%String.eqb_eq & s' & Hs & Hsz & -> & Hv).
    destruct (w_scripts w !! gen_ID g); [|done]. injection Hs as ->. by split.
  - intros (Hp & Hs & Hsz & Hv). split; [by exists tt|]. split; [by apply String.eqb_eq|].
    exists s. rewrite Hs. by split.
Qed.
End exact_store.

(** ** Exact answers of the backend's inspections *)

Section exact_backend.
Context {K : Type} `{Nft K}.
Context (range : gset string → list string).
Abbreviation HM := (M (Host K)).
Implicit Types (w : World K).

Lemma exactly_run_json what f w : exactly (run_json what f) (λ out, f (w_kernel w) = Some out) w.
Proof.
  unfold run_json. eapply exactly_iff; [apply exactly_sys|]. intros out. cbn beta.
  destruct (f (w_kernel w)); naive_solver.
Qed.

Definition existing_answer (k : K) : option (gset string) :=
  out ← nft_list_tables k;
  match listed_owned OwnedTables out with inr l => Some (list_to_set (map table_key l)) | inl _ => None end.

Lemma exactly_ExistingOwned w : exactly ExistingOwned (λ e, existing_answer (w_kernel w) = Some e) w.
Proof.
  unfold ExistingOwned, ListOwned. eapply exactly_iff.
  { eapply exactly_bind; [|intros l _; apply exactly_ret].
    eapply exactly_bind; [apply exactly_catch, exactly_run_json|]. intros out _. apply exactly_lift_check. }
  intros e. cbn beta. unfold existing_answer. split.
  - intros (l & (out & -> & Hl) & ->). simpl. by rewrite Hl.
  - destruct (nft_list_tables (w_kernel w)) as [out|]; [|done]. simpl.
    destruct (listed_owned OwnedTables out) as [|l] eqn:El; [done|]. intros [= <-].
    exists l. split; [by exists out|done].
Qed.

Fixpoint tables_answer (k : K) (l : list NftTable) : option (bool * string) :=
  match l with
  | [] => Some (true, "owned table markers intact")
  | t :: l' =>
      out ← nft_list_table t k;
      match validateOwnedTableJSON range out t with
      | inl _ => None
      | inr (true, _) => tables_answer k l'
      | inr (false, d) => Some (false, d)
      end
  end.
Definition missing (owned : gset string) : list NftTable :=
  List.filter (λ t, negb (bool_decide (table_key t ∈ owned))) OwnedTables.
Definition integrity_answer (k : K) : option (bool * string) :=
  owned ← existing_answer k;
  match missing owned with
  | t :: _ => Some (false, sprintf "owned table %s/%s is missing" [ArgS (Family t); ArgS (TableName t)])
  | [] => tables_answer k OwnedTables
  end.

Lemma exactly_integrity_tables l w : exactly (integrity_tables range l) (λ r, tables_answer (w_kernel w) l = Some r) w.
Proof.
  induction l as [|t l IH]; simpl; [eapply exactly_iff; [apply exactly_ret|naive_solver]|].
  eapply exactly_iff with (Q := λ r, ∃ out, nft_list_table t (w_kernel w) = Some out ∧ ∃ v,
    validateOwnedTableJSON range out t = inr v ∧ if v.1 then tables_answer (w_kernel w) l = Some r else r = (false, v.2)).
  { eapply exactly_bind; [apply exactly_run_json|]. intros out _.
    eapply exactly_bind; [apply exactly_lift_check|]. intros [[] d] _; simpl; [exact IH|apply exactly_ret]. }
  intros r. destruct (nft_list_table t (w_kernel w)) as [out|]; simpl; [|naive_solver].
  destruct (validateOwnedTableJSON range out t) as [|[ok d]] eqn:E.
  { split; [|done]. intros (? & [= <-] & v & Hv & _). congruence. }
  transitivity (if ok then tables_answer (w_kernel w) l = Some r else r = (false, d)); [split|by destruct ok; naive_solver].
  - intros (? & [= <-] & v & Hv & Hr). rewrite E in Hv. by injection Hv as <-.
  - intros Hr. exists out. split; [done|]. by exists (ok, d).
Qed.

Lemma exactly_Integrity w : exactly (Integrity range) (λ r, integrity_answer (w_kernel w) = Some r) w.
Proof.
  unfold Integrity. eapply exactly_iff with (Q := λ r, ∃ owned, existing_answer (w_kernel w) = Some owned ∧
    match missing owned with
    | t :: _ => r = (false, sprintf "owned table %s/%s is missing" [ArgS (Family t); ArgS (TableName t)])
    | [] => tables_answer (w_kernel w) OwnedTables = Some r
    end).
  { eapply exactly_bind; [apply exactly_ExistingOwned|]. intros owned _. fold (missing owned).
    destruct (missing owned); [apply exactly_integrity_tables|apply exactly_ret]. }
  intros r. unfold integrity_answer. destruct (existing_answer _) as [owned|]; simpl; [|naive_solver].
  destruct (missing owned) eqn:E; split; try (intros (? & [= <-] & Hr); rewrite E in Hr; congruence);
    intros Hr; exists owned; (split; [done|]); rewrite E; congruence.
Qed.

Lemma tables_answer_true k l : (∃ d, tables_answer k l = Some (true, d)) ↔
  ∀ t, t ∈ l → ∃ out d, nft_list_table t k = Some out ∧ validateOwnedTableJSON range out t = inr (true, d).
Proof.
  induction l as [|t l IH]; simpl.
  { split; [|eauto]. intros _ t Ht. by apply elem_of_nil in Ht. }
  setoid_rewrite elem_of_cons. split.
  - destruct (nft_list_table t k) as [out|] eqn:El; [|naive_solver]. simpl.
    destruct (validateOwnedTableJSON range out t) as [|[[] d]] eqn:Ev; try naive_solver.
  - intros Hall. destruct (Hall t (or_introl eq_refl)) as (out & d & -> & Ev). simpl. rewrite Ev.
    apply IH. intros t' Ht'. apply Hall. by right.
Qed.

Lemma present_missing k : present k ↔ ∃ owned, existing_answer k = Some owned ∧ missing owned = [].
Proof.
  assert (Hm : ∀ owned, missing owned = [] ↔ ∀ t, t ∈ OwnedTables → table_key t ∈ owned).
  { intros owned. unfold missing. split.
    - intros E t Ht. destruct (decide (table_key t ∈ owned)) as [|Hn]; [done|]. exfalso.
      assert (Hin : In t (List.filter (λ t, negb (bool_decide (table_key t ∈ owned))) OwnedTables)).
      { rewrite filter_In. split; [by apply list_elem_of_In|]. by rewrite bool_decide_eq_false_2. }
      by rewrite E in Hin.
    - intros Hall. destruct (List.filter _ OwnedTables) as [|t l] eqn:E; [done|]. exfalso.
      assert (Hin : In t (t :: l)) by by left. rewrite <-E, filter_In in Hin. destruct Hin as [Hin Hb].
      rewrite bool_decide_eq_true_2 in Hb; [done|]. by apply Hall, list_elem_of_In. }
  unfold present, listed, existing_answer. destruct (nft_list_tables k) as [out|]; simpl.
  - destruct (listed_owned OwnedTables out) as [|l]; simpl; setoid_rewrite Hm; [|naive_solver].
    split; [|naive_solver]. intros Hp. specialize (Hp (mkTable "inet" FilterTable) ltac:(left)). set_solver.
  - split; [|naive_solver]. intros Hp. specialize (Hp (mkTable "inet" FilterTable) ltac:(left)). set_solver.
Qed.

Lemma intact_answer k : intact range k ↔ ∃ d, integrity_answer k = Some (true, d).
Proof.
  unfold intact. rewrite <-tables_answer_true, present_missing. unfold integrity_answer. split.
  - intros [(owned & -> & E) Hd]. simpl. by rewrite E.
  - intros (d & Hd). destruct (existing_answer k) as [owned|]; [|done]. simpl in Hd.
    destruct (missing owned) eqn:E; [|done]. split; [by exists owned|by exists d].
Qed.

Lemma exactly_intact_then {B} (msg : bool * string → err) (k : HM B) R w : exactly k R w →
  exactly (ok <- Integrity range ;; require ok.1 (msg ok) ;; k) (λ b, intact range (w_kernel w) ∧ R b) w.
Proof.
  intros Hk. eapply exactly_iff.
  { eapply exactly_bind; [apply exactly_Integrity|]. intros ok _. apply exactly_guard. intros _. exact Hk. }
  intros b. cbn beta. rewrite intact_answer. split.
  - intros ([ok d] & Ha & Hok & HR). simpl in Hok. subst ok. split; [by exists d|done].
  - intros [[d Hd] HR]. by exists (true, d).
Qed.

Lemma exactly_Fingerprint w : exactly Fingerprint (λ h, fingerprint (w_kernel w) = Some h) w.
Proof.
  assert (Hc : ∀ l, exactly (canonical_tables l) (λ c, canonical_text (w_kernel w) l = Some c) w).
  { induction l as [|t l IH]; simpl; [eapply exactly_iff; [apply exactly_ret|naive_solver]|].
    eapply exactly_iff.
    { eapply exactly_bind; [apply exactly_catch, exactly_run_json|]. intros out _.
      eapply exactly_bind; [apply exactly_lift_check|]. intros c _.
      eapply exactly_bind; [exact IH|]. intros rest _. apply exactly_ret. }
    intros r. cbn beta. destruct (nft_list_table t (w_kernel w)) as [out|].
    2: { split; [by intros (? & ? & _)|done]. }
    destruct (canonicalOwnedJSON out t) as [|c] eqn:Ec.
    { split; [|done]. intros (? & [= <-] & c & Ec' & _). congruence. }
    destruct (canonical_text (w_kernel w) l) as [rest|].
    2: { split; [by intros (? & _ & ? & _ & ? & ? & _)|done]. }
    split.
    - intros (out' & [= <-] & c' & Ec' & rest' & [= <-] & ->). congruence.
    - intros [= <-]. exists out. split; [done|]. exists c. split; [done|]. by exists rest. }
  unfold Fingerprint, fingerprint. eapply exactly_iff.
  { eapply exactly_bind; [apply Hc|]. intros c _. apply exactly_ret. }
  intros h. cbn beta. destruct (canonical_text _ _); naive_solver.
Qed.
End exact_backend.
