(* ===== verification/Publication.v ===== *)
(** What the kernel enforces for the claims: whenever the database says that the claims
    are published, the sets of the kernel hold the addresses of the stored claims, and
    a refresh that meets no fault gets there from any state. *)

From S2P Require Import Prelude GoStrings GoTime Netip Claims Feeds Ledger Config PolicyModel Snapshot Host Store ClaimStore.
From S2P Require Import NftScript Json NftJson Backend SetUpdates SetBatch Manager ClaimRuntime Recovery Invariant Reads Live Sample.
From Stdlib Require Import Ascii String.
Local Open Scope string_scope.
Local Open Scope Z_scope.
Local Open Scope host_scope.
Abbreviation length := List.length.

(** ** Transactions and the publication row *)

Definition pub_ok (t : Tables) : Prop := ∀ p, ct_publication t.1 = Some p → publication_ok p.
(** Something is not published yet. *)
Definition dirty (t : Tables) : Prop := ∀ p, ct_publication t.1 = Some p → (AppliedRevision p < DesiredRevision p)%N.
Definition settled (t : Tables) : Prop := ∃ p, ct_publication t.1 = Some p ∧ DesiredRevision p = AppliedRevision p.
(** Tables that are published afterwards were so before, with the same claims. *)
Definition settles (t t' : Tables) : Prop := settled t' → settled t ∧ ct_claims t'.1 = ct_claims t.1.
Definition careful {A} (body : Tx A) (t : Tables) : Prop :=
  pub_ok t → safe (λ _, True) body (λ _ t', pub_ok t' ∧ settles t t') t.

Create HintDb step.
Lemma dirty_unsettled t : dirty t → ¬ settled t.
Proof. intros Hd (p & Hp & E). specialize (Hd p Hp). lia. Qed.
Lemma dirty_ok t : dirty t → pub_ok t.
Proof. intros Hd p Hp. specialize (Hd p Hp). unfold publication_ok. lia. Qed.
Lemma dirty_careful t t' : dirty t' → pub_ok t' ∧ settles t t'.
Proof. intros Hd. split; [by apply dirty_ok|]. by intros Hs%dirty_unsettled. Qed.

Lemma mark_dirty now t : pub_ok t →
  safe (λ _, True) (markClaimPublicationDirtyTx now) (λ _ t', dirty t' ∧ ct_claims t'.1 = ct_claims t.1 ∧
    ∀ p, ct_publication t.1 = Some p → ∃ p', ct_publication t'.1 = Some p' ∧ DesiredRevision p' = (DesiredRevision p + 1)%N) t.
Proof.
  intros Ht. unfold markClaimPublicationDirtyTx, markRuntimeClaimsDegradedTx. apply safe_bind, safe_gets; [done|].
  destruct (ct_publication t.1) as [p|] eqn:E; [|by apply safe_throw]. specialize (Ht p E). unfold publication_ok in Ht.
  repeat safe_step; try done. split; [|split; [done|]]; simpl.
  - intros q [= <-]. simpl. lia.
  - intros q [= <-]. by eexists.
Qed.
Lemma mark_then now (P : unit → Tables → Prop) t : pub_ok t → (∀ t', dirty t' → P tt t') →
  safe (λ _, True) (markClaimPublicationDirtyTx now) P t.
Proof. intros Ht HP. eapply safe_mono; [by apply mark_dirty|]. intros [] t' _ (Hd & _). by apply HP. Qed.

Ltac careful_tx :=
  repeat (lazymatch goal with
  | |- safe _ (markClaimPublicationDirtyTx _) _ _ => apply mark_then; [done|intros]
  | H : dirty ?t |- pub_ok ?t ∧ _ => by apply dirty_careful
  | |- safe _ (bind (bind _ _) _) _ _ => apply safe_bind
  | |- safe _ (log_audit _ _ _) _ _ => apply safe_modify; [done|]
  | |- safe _ (delete_claims _) _ _ => unfold delete_claims at 1
  | |- safe _ (if ?b then _ else _) _ _ => destruct b eqn:?
  | |- safe _ _ _ _ => safe_step
  end; try done).

Lemma AddClaim_careful k max now t : careful (AddClaim_tx k max now) t.
Proof. intros Ht. unfold AddClaim_tx, insert_claim. careful_tx. Qed.
Lemma RemoveOperatorClaim_careful id actor kind now t : careful (RemoveOperatorClaim_tx id actor kind now) t.
Proof. intros Ht. unfold RemoveOperatorClaim_tx. careful_tx. Qed.
Lemma RestoreClaim_careful k actor now t : careful (RestoreClaim_tx k actor now) t.
Proof. intros Ht. unfold RestoreClaim_tx, insert_claim_id. careful_tx. Qed.
Lemma PurgeExpired_careful now t : careful (PurgeExpired_tx now) t.
Proof.
  intros Ht. unfold PurgeExpired_tx. careful_tx.
  match goal with H : (_ <? _) = false |- _ => apply Z.ltb_ge in H; rewrite delete_none by done end. by split.
Qed.
Lemma insert_source_pub source reason actor now l (P : unit → Tables → Prop) t :
  (∀ t', ct_publication t'.1 = ct_publication t.1 → P tt t') → safe (λ _, True) (insert_source source reason actor now l) P t.
Proof.
  revert t. induction l as [|a l IH]; intros t HP; simpl; [by apply safe_ret; [|apply HP]|]. unfold insert_claim.
  do 2 apply safe_bind. careful_tx. apply IH. intros t' E. by apply HP.
Qed.
Lemma ReplaceSource_careful source reason actor l max counted now t : careful (ReplaceSource_tx source reason actor l max counted now) t.
Proof.
  intros Ht. unfold ReplaceSource_tx, delete_claims. do 2 apply safe_bind. careful_tx; apply insert_source_pub; intros t' E;
    assert (pub_ok t') by (intros p Hp; apply Ht; by rewrite E in Hp); careful_tx.
Qed.
Lemma Prepare_tx_result now t : pub_ok t →
  safe (λ _, True) (PrepareClaimPublication_tx now)
    (λ rev t', dirty t' ∧ ct_claims t'.1 = ct_claims t.1 ∧ ∃ p, ct_publication t'.1 = Some p ∧ DesiredRevision p = rev) t.
Proof.
  intros Ht. unfold PrepareClaimPublication_tx, read_publication. do 2 apply safe_bind, safe_gets || apply safe_bind; [done|].
  destruct (ct_publication t.1) as [p|] eqn:E; [|by apply safe_throw].
  apply safe_bind, safe_require; [done|]. intros Hle%N.leb_le. apply safe_ret; [done|].
  destruct (N.eqb_spec (DesiredRevision p) (AppliedRevision p)) as [Eq|Ne]; apply safe_bind.
  - eapply safe_mono; [by apply mark_dirty|]. intros [] t' _ (Hd & Hc & Hp). apply safe_ret; [done|]. split; [done|]. split; [done|]. by apply Hp.
  - unfold markRuntimeClaimsDegradedTx. careful_tx. split; [|split; [done|]].
    + intros q. simpl. rewrite E. intros [= <-]. lia.
    + exists p. by rewrite <-E.
Qed.
Lemma Mark_tx_result revision count now t :
  safe (λ _, True) (MarkClaimsPublished_tx revision count now)
    (λ _ t', ct_claims t'.1 = ct_claims t.1 ∧ pub_ok t' ∧ ∃ p, ct_publication t.1 = Some p ∧ DesiredRevision p = revision) t.
Proof.
  unfold MarkClaimsPublished_tx. apply safe_bind, safe_gets; [done|]. destruct (ct_publication t.1) as [p|] eqn:E; [|by apply safe_throw].
  destruct (N.eqb_spec (DesiredRevision p) revision) as [<-|]; [|by apply safe_throw]. careful_tx. split; [done|]. split; [|by exists p].
  intros q [= <-]. unfold publication_ok. simpl. lia.
Qed.
Lemma ClaimsWithPublication_result now t a o t' : ClaimsWithPublication_tx now [] t = (Ret a, o, t') →
  a.1 = select_active now t ∧ ct_publication t.1 = Some a.2.
Proof.
  unfold ClaimsWithPublication_tx, read_publication, bind, gets, require.
  assert (∀ l r, scanClaims l = inr r → r = l) as Hscan.
  { induction l as [|k l IH]; intros r; simpl; [by intros [= <-]|]. destruct (scan_claim k) as [|k'] eqn:Ek; [done|].
    apply scan_claim_inr in Ek as ->. destruct (scanClaims l) as [|r']; [done|]. intros [= <-]. f_equal. by apply IH. }
  destruct (scanClaims (select_active now t)) as [|l] eqn:El; [done|]. apply Hscan in El as ->. cbn.
  destruct (ct_publication t.1) as [p|]; [|done]. destruct (_ <=? _)%N; [|done]. by intros [= <- _ _].
Qed.

(** ** Calls of the store *)

Section calls.
Context {K : Type}.
Implicit Types (w : World K).

Lemma wsafe_transaction {A} (I : World K → Prop) name (body : Tx A) (P : A → World K → Prop) w :
  I w → safe (λ _, True) body (λ a t, I (set_tables t w) ∧ P a (set_tables t w)) (tables w) → wsafe I (transaction name body) P w.
Proof.
  intros Hw Hb. unfold transaction. apply wsafe_sys_write; [done|]. intros a w' E. specialize (Hb []).
  destruct (body [] (tables w)) as [[[x|e|] o] t]; cbn in *; [|done..]. injection E as <- <-. by destruct Hb.
Qed.
Lemma wsafe_query {A} (I : World K → Prop) name (f : Tables → err + A) (P : A → World K → Prop) w :
  I w → (∀ a, f (tables w) = inr a → P a w) → wsafe I (query name f) P w.
Proof. intros Hw HP. unfold query. apply wsafe_sys_read; [done|]. intros a E. destruct (f (tables w)) as [|b]; [done|]. injection E as <-. by apply HP. Qed.
End calls.

(** ** The sets of the kernel

    What the product relies on of nft: after a batch of checked updates of distinct sets,
    the members of each set are the ones of its update. *)

Definition set_key (u : set_update) : string * string * string := (su_family u, su_table u, su_name u).
Class NftSets (K : Type) `{Nft K} := {
  set_members : string * string * string → K → list string;
  nft_file_batch l k k' : Forall update_ok l → NoDup (map set_key l) → nft_file (batch l) k = Some k' →
    ∀ u, u ∈ l → set_members (set_key u) k' ≡ₚ su_elements u
}.

Section published.
Context {K : Type} `{NftSets K}.
Context (range : gset string → list string).
Context (r : Runtime (K := K)).
(** The resolver only looks outside. *)
Context (Hresolve : ∀ resolve host w, rt_Resolve r = Some resolve → reads (resolve host) (λ _, True) w).
Abbreviation HM := (M (Host K)).
Implicit Types (w : World K).

Definition asked_sets (s : runtimeClaimSets) : list set_update := asked (ClaimSets (blockedV4 s) (blockedV6 s) (trustedV4 s) (trustedV6 s)).
(** The sets of the kernel are those of the stored claims at some instants. *)
Definition holds_sets (s : runtimeClaimSets) (k : K) : Prop := ∀ u, u ∈ asked_sets s → set_members (set_key u) k ≡ₚ su_elements u.
Definition in_step w : Prop := ∃ t1 t2 protected sets,
  claimSets (rt_Config r) range (select_active t1 (tables w)) t2 protected = inr sets ∧ holds_sets sets (w_kernel w).
Definition published w : Prop := pub_ok (tables w) ∧ (settled (tables w) → in_step w).

(** A computation that keeps the kernel in step, whatever fails. *)
Definition keeps_step {A} (m : HM A) : Prop := ∀ w, published w → wsafe published m (λ _ _, True) w.
Lemma step_final {A} (m : HM A) h o : keeps_step m → published (h_world h) → published (h_world (final (m o h))).
Proof. intros Hm Hh. eapply wsafe_final, Hm, Hh. Qed.
Lemma step_ret {A} (a : A) : keeps_step (ret a).
Proof. intros w Hw. by apply wsafe_ret. Qed.
Lemma step_throw {A} e : keeps_step (throw e : HM A).
Proof. intros w Hw. by apply wsafe_throw. Qed.
Lemma step_bind {A B} (m : HM A) (f : A → HM B) : keeps_step m → (∀ a, keeps_step (f a)) → keeps_step (bind m f).
Proof. intros Hm Hf w Hw. apply wsafe_bind. eapply wsafe_mono; [by apply Hm|]. intros a w' Hw' _. by apply Hf. Qed.
Lemma step_catch {A} (m : HM A) k : keeps_step m → (∀ e, keeps_step (k e)) → keeps_step (catch m k).
Proof. intros Hm Hk w Hw. eapply wsafe_catch with (J := published); [done|by apply Hm|]. intros e w' Hw'. by apply Hk. Qed.
Lemma step_wrapped {A} fmt (m : HM A) : keeps_step m → keeps_step (wrapped fmt m).
Proof. intros Hm. apply step_catch; [done|]. intros e. apply step_throw. Qed.
Lemma step_try {A} (m : HM A) : keeps_step m → keeps_step (try_ m).
Proof. intros Hm w Hw. by eapply wsafe_try with (J := published); [|apply Hm| |]. Qed.
Lemma step_reads {A} (m : HM A) Q : (∀ w, reads m Q w) → keeps_step m.
Proof. intros Hm w Hw. eapply wsafe_mono; [by apply Hm|]. done. Qed.
Lemma step_require b e : keeps_step (require b e).
Proof. intros w Hw. by apply wsafe_require. Qed.
Lemma step_throw_if e : keeps_step (throw_if e).
Proof. destruct e; [apply step_throw|apply step_ret]. Qed.
Lemma step_clock : keeps_step read_clock.
Proof. intros w Hw. by apply wsafe_read_clock. Qed.
Lemma step_query {A} name (f : Tables → err + A) : keeps_step (query name f).
Proof. intros w Hw. by apply wsafe_query. Qed.
Lemma step_finally {A} (m : HM A) c : keeps_step m → (∀ w, reads c (λ _, True) w) → keeps_step (finally m c).
Proof.
  intros Hm Hc w Hw. apply wsafe_finally; [by apply Hm|]. intros Q w' _ HI HQ. eapply wsafe_mono; [by apply Hc|]. done.
Qed.
(** Only the claims, the publication row and the kernel matter. *)
Lemma published_ext w w' : w_claims w' = w_claims w → w_kernel w' = w_kernel w → published w → published w'.
Proof.
  intros Hc Hk [Hp Hs]. unfold published, pub_ok, settled, in_step, tables, select_active in *. simpl in *. rewrite Hc, Hk. done.
Qed.
Lemma step_transaction {A} name (body : Tx A) : (∀ t, careful body t) → keeps_step (transaction name body).
Proof.
  intros Hb w [Hp Hs]. apply wsafe_transaction; [done|]. eapply safe_mono; [by apply Hb|]. intros a t _ [Hp' Hse]. split; [|done].
  destruct t as [ct au]. split; [done|]. intros Hs'. destruct (Hse Hs') as [Hs0 E]. destruct (Hs Hs0) as (t1 & t2 & p & s & E1 & E2).
  exists t1, t2, p, s. split; [|done]. unfold select_active in *. simpl in *. by rewrite E.
Qed.

(** Follows the shape of a computation; the operations that are not opened are hints. *)
Ltac keeping :=
  repeat (intros; lazymatch goal with
  | |- keeps_step (ret _) => apply step_ret
  | |- keeps_step (throw _) => apply step_throw
  | |- keeps_step (require _ _) => apply step_require
  | |- keeps_step (throw_if _) => apply step_throw_if
  | |- keeps_step (query _ _) => apply step_query
  | |- keeps_step (bind _ _) => apply step_bind
  | |- keeps_step (catch _ _) => apply step_catch
  | |- keeps_step (wrapped _ _) => apply step_wrapped
  | |- keeps_step (try_ _) => apply step_try
  | |- keeps_step (match ?x with _ => _ end) => destruct x
  | |- keeps_step _ => first [apply step_clock | progress auto with step]
  end); intros.

(** ** Operations of the store *)

Lemma step_purge now : keeps_step (PurgeExpiredClaims now).
Proof. apply step_transaction. intros t. apply PurgeExpired_careful. Qed.
Lemma step_add c max : keeps_step (AddClaimBounded c max).
Proof. unfold AddClaimBounded. keeping. apply step_transaction. intros t. apply AddClaim_careful. Qed.
#[local] Hint Resolve step_purge step_add : step.
Lemma step_block max address source reason actor expires : keeps_step (Add max address source reason actor expires).
Proof. unfold Add. keeping. Qed.
Lemma step_allow max address reason actor expires : keeps_step (AddAllow max address reason actor expires).
Proof. unfold AddAllow. keeping. Qed.
Lemma step_remove id actor kind : keeps_step (RemoveOperatorClaim id actor kind).
Proof. unfold RemoveOperatorClaim. keeping. apply step_transaction. intros t. apply RemoveOperatorClaim_careful. Qed.
Lemma step_restore c actor : keeps_step (RestoreClaim c actor).
Proof. unfold RestoreClaim. keeping. apply step_transaction. intros t. apply RestoreClaim_careful. Qed.
Lemma step_replace source reason actor addresses max : keeps_step (ReplaceSourceClaimsBounded source reason actor addresses max).
Proof. unfold ReplaceSourceClaimsBounded. keeping. apply step_transaction. intros t. apply ReplaceSource_careful. Qed.
Lemma step_state name status count success : keeps_step (SetIntegrationState name status count success).
Proof. unfold SetIntegrationState. keeping; apply step_transaction; intros t Ht; by apply safe_modify. Qed.
Lemma step_audit actor event detail : keeps_step (Audit actor event detail).
Proof.
  unfold Audit. destruct (validateAuditRecord _ _ _); [apply step_throw|]. unfold write_audit. intros w Hw. apply wsafe_sys_write; [done|].
  intros a w' [= <- <-]. split; [|done]. by eapply published_ext; [..|exact Hw].
Qed.
#[local] Hint Resolve step_block step_allow step_remove step_restore step_replace step_state step_audit : step.

(** ** The refresh *)

Lemma published_dirty w : dirty (tables w) → published w.
Proof. intros Hd. split; [by apply dirty_ok|]. by intros Hs%dirty_unsettled. Qed.
Lemma prepare_step w : published w →
  wsafe published PrepareClaimPublication (λ rev w', dirty (tables w') ∧ ∃ p, ct_publication (w_claims w') = Some p ∧ DesiredRevision p = rev) w.
Proof.
  intros Hw. unfold PrepareClaimPublication. wstep. apply wsafe_read_clock; [done|]. intros now. apply wsafe_transaction; [done|].
  eapply safe_mono; [apply Prepare_tx_result, Hw|]. intros rev [ct au] _ (Hd & _ & Hp). split; [by apply published_dirty|done].
Qed.
(** Replacing the sets while the publication is pending. *)
Lemma replace_step x s w : dirty (tables w) →
  wsafe published (ReplaceClaimSets x (blockedV4 s) (blockedV6 s) (trustedV4 s) (trustedV6 s))
    (λ _ w', w_claims w' = w_claims w ∧ holds_sets s (w_kernel w')) w.
Proof.
  intros Hd. unfold ReplaceClaimSets. wstep. apply wsafe_require; [by apply published_dirty|]. intros _.
  destruct (claim_updates _ _ _ _) as [e|l] eqn:El; [by apply wsafe_throw, published_dirty|].
  destruct (request_ok (ClaimSets (blockedV4 s) (blockedV6 s) (trustedV4 s) (trustedV6 s)) l El I) as [-> Hok].
  unfold applyRuntimeTransaction, run_batch. wstep. eapply wsafe_mono; [apply reads_Check, published_dirty, Hd|]. intros _ w1 _ [-> _].
  wstep. eapply wsafe_mono; [apply reads_tempScript, published_dirty, Hd|]. intros _ w2 _ [-> _].
  eapply wsafe_catch with (J := published); [done| |intros; by apply wsafe_throw]. unfold run_file. apply wsafe_sys_write; [by apply published_dirty|].
  intros a w'. destruct (nft_file _ _) as [k|] eqn:Ek; [|done]. intros [= <- <-]. split; [by apply published_dirty|]. split; [done|].
  intros u Hu. eapply nft_file_batch; [exact Hok| |exact Ek|exact Hu]. vm_compute. repeat constructor; set_solver.
Qed.
(** Marking what the kernel holds. *)
Lemma mark_step revision count t1 t2 protected s w : dirty (tables w) → claimSets (rt_Config r) range (select_active t1 (tables w)) t2 protected = inr s →
  holds_sets s (w_kernel w) → wsafe published (MarkClaimsPublished revision count) (λ _ _, True) w.
Proof.
  intros Hd Es Hk. pose proof (published_dirty w Hd) as Hw. unfold MarkClaimsPublished. wstep. apply wsafe_require; [done|]. intros _.
  wstep. apply wsafe_read_clock; [done|]. intros now. apply wsafe_transaction; [done|].
  eapply safe_mono; [apply Mark_tx_result|]. intros _ [ct au] _ (Hc & Hp & _). split; [|done]. split; [done|]. intros _.
  exists t1, t2, protected, s. split; [|done]. unfold select_active in *. simpl in *. by rewrite Hc.
Qed.

Lemma reads_resolve_hosts resolve hosts e w : rt_Resolve r = Some resolve → reads (resolve_hosts r resolve hosts e) (λ _, True) w.
Proof.
  intros Hr. revert e. induction hosts as [|h hosts IH]; intros e; [by apply reads_ret|].
  simpl. eapply reads_bind; [by apply Hresolve|]. intros a _. apply IH.
Qed.
Lemma reads_bootstrapEndpoints w : reads (bootstrapEndpoints r) (λ _, True) w.
Proof.
  unfold bootstrapEndpoints. destruct (unique _) as [|h hosts]; [by apply reads_ret|]. pose proof reads_resolve_hosts as Hhosts.
  destruct (rt_Resolve r) as [resolve|] eqn:E; [|apply reads_throw]. eapply reads_bind; [by apply Hhosts|].
  intros e _. repeat match goal with |- context [if ?b then _ else _] => destruct b end; apply reads_throw || by apply reads_ret.
Qed.
Lemma reads_protected w : reads (threatFeedProtectedPrefixes r) (λ _, True) w.
Proof. unfold threatFeedProtectedPrefixes. eapply reads_bind; [apply reads_bootstrapEndpoints|]. intros. by apply reads_ret. Qed.

Lemma step_refresh x : keeps_step (refreshClaimSetsLocked range r x).
Proof.
  unfold refreshClaimSetsLocked. apply step_bind; [apply step_clock|intros now0]. apply step_bind; [apply step_purge|intros _].
  intros w Hw. wstep. eapply wsafe_catch with (J := published); [done| |intros; by apply wsafe_throw].
  eapply wsafe_mono; [by apply prepare_step|]. intros revision w1 Hw1 [Hd _].
  wstep. apply wsafe_read_clock; [done|]. intros now1. wstep. unfold ClaimsWithPublication. apply wsafe_query; [done|]. intros [claims p] E.
  destruct (ClaimsWithPublication_tx now1 [] (tables w1)) as [[[a|e|] o] t'] eqn:Ec; [|done..]. injection E as ->.
  destruct (ClaimsWithPublication_result _ _ _ _ _ Ec) as [Es _]. cbn [fst snd] in Es |- *. subst claims.
  wstep. apply wsafe_require; [done|]. intros _. wstep. set (claims := select_active now1 (tables w1)).
  eapply wsafe_mono; [apply (reads_True _ (λ _, True)); [|exact Hw1]|].
  { destruct (threatFeedClaimAddresses claims); [by apply reads_ret|]. apply reads_wrapped, reads_protected. }
  intros protected w2 _ [-> _]. wstep. apply wsafe_read_clock; [done|]. intros now2.
  destruct (claimSets _ _ _ _ _) as [e|sets] eqn:Esets; [by apply wsafe_throw|].
  wstep. eapply wsafe_mono; [by apply reads_ExistingOwned|]. intros owned w3 _ [-> _]. destruct (negb _); [by apply wsafe_ret|].
  wstep. eapply wsafe_mono; [by apply replace_step|]. intros _ w4 Hw4 [Hc4 Hk4].
  wstep. eapply wsafe_catch with (J := published); [done| |intros; by apply wsafe_throw].
  assert (dirty (tables w4)) as Hd4 by (unfold dirty, tables in *; simpl in *; by rewrite Hc4).
  eapply wsafe_mono; [eapply mark_step; [done| |done]|intros; by apply wsafe_ret].
  unfold select_active, tables in *. simpl in *. rewrite Hc4. exact Esets.
Qed.

(** ** The operations of the runtime *)

Lemma step_locked {A} (m : HM A) : keeps_step m → keeps_step (with_publication_lock m).
Proof.
  intros Hm. unfold with_publication_lock. apply step_bind; [eapply step_reads; intros w; apply reads_sys|intros _].
  apply step_finally; [done|]. intros w. eapply reads_True, reads_sys.
Qed.
Lemma step_context {A} held x (m : Ctx → HM A) : (∀ y, keeps_step (m y)) → keeps_step (publicationContext held x m).
Proof. intros Hm. unfold publicationContext. destruct (held && ctx_locked x); [apply Hm|]. apply step_locked, Hm. Qed.
#[local] Hint Resolve step_refresh step_locked step_context : step.
Lemma step_addClaim x kind add : keeps_step add → keeps_step (addClaimAndPublishLocked range r x kind add).
Proof. intros Ha. unfold addClaimAndPublishLocked, RemoveAllow, RemoveBlock. keeping. Qed.
Lemma step_removeClaim x id kind : keeps_step (removeClaimAndPublishLocked range r x id kind).
Proof. unfold removeClaimAndPublishLocked, operatorClaimLocked, ClaimStore.Claims, RemoveAllow, RemoveBlock. keeping. Qed.
#[local] Hint Resolve step_addClaim step_removeClaim : step.
Lemma step_Control x q : keeps_step (Control range r x q).
Proof. destruct q; simpl; unfold claimExpiry; keeping; apply step_locked; keeping. Qed.

(** *** Integrations *)

(** Fetching only looks outside. *)
Context (fetch : string → Z → Z → HM (list string)) (read_list : string → HM string).
Context (Hfetch : ∀ url n b w, reads (fetch url n b) (λ _, True) w) (Hread : ∀ file w, reads (read_list file) (λ _, True) w).

Lemma step_due name seconds : keeps_step (integrationDue (K := K) name seconds).
Proof. unfold integrationDue, IntegrationState_. keeping. Qed.
Lemma step_degrade name count : keeps_step (degrade (K := K) name count).
Proof. unfold degrade, noting. keeping. Qed.
Lemma step_old_count name : keeps_step (old_count (K := K) name).
Proof. unfold old_count, SourceClaimCount. keeping. Qed.
Lemma step_protected : keeps_step (threatFeedProtectedPrefixes r).
Proof. eapply step_reads. apply reads_protected. Qed.
Lemma step_fetch url n b : keeps_step (fetch url n b).
Proof. eapply step_reads. apply Hfetch. Qed.
Lemma step_read_list file : keeps_step (read_list file).
Proof. eapply step_reads. apply Hread. Qed.
Lemma step_lift_check {A} (e : err + A) : keeps_step (lift_check (S := Host K) e).
Proof. eapply step_reads. apply reads_lift_check. Qed.
#[local] Hint Resolve step_due step_degrade step_old_count step_protected step_fetch step_read_list step_lift_check : step.
Lemma step_feeds protected feeds : keeps_step (feed_candidates r fetch protected feeds).
Proof. revert protected. induction feeds as [|f feeds IH]; intros protected; simpl; unfold feed_candidate, fetched; keeping. Qed.
Lemma step_geo sets : keeps_step (geo_candidates read_list sets).
Proof. induction sets as [|g sets IH]; simpl; unfold geo_candidate, fetched; keeping. Qed.
#[local] Hint Resolve step_feeds step_geo : step.
Lemma step_prepare : keeps_step (prepareIntegrationRefreshes r fetch read_list).
Proof. unfold prepareIntegrationRefreshes. keeping. Qed.
Lemma step_gather {A B} (f : A → HM (list B * list err)) l : (∀ a, keeps_step (f a)) → keeps_step (gather f l).
Proof. intros Hf. induction l as [|a l IH]; simpl; keeping. Qed.
Lemma step_candidate d : keeps_step (refresh_candidate r d).
Proof.
  unfold refresh_candidate, fail_candidate, validateThreatFeedReplacement, sourceClaimAddresses, ClaimStore.Claims, Manager.ignore. keeping.
Qed.
#[local] Hint Resolve step_gather step_candidate : step.
Lemma step_take_back x refreshed : keeps_step (take_back range r x refreshed).
Proof.
  unfold take_back, restoreIntegrationClaims, Manager.ignore. keeping; apply step_gather; intros i; unfold restore_source, degrade_refreshed, noting; keeping.
Qed.
#[local] Hint Resolve step_take_back : step.
Lemma step_integrations x candidates : keeps_step (refreshIntegrationsLocked range r x candidates).
Proof. unfold refreshIntegrationsLocked. keeping; apply step_gather; intros i; unfold record_healthy, noting; keeping. Qed.
#[local] Hint Resolve step_prepare step_integrations : step.
Lemma step_RefreshIntegrations held x : keeps_step (RefreshIntegrations range r fetch read_list held x).
Proof. unfold RefreshIntegrations. keeping. Qed.

(** ** Histories *)

(** One operation on the claims, under any faults and from any clock. *)
Inductive runtime_step : World K → World K → Prop :=
  | step_of_refresh held x o h : runtime_step (h_world h) (h_world (final (RefreshClaimSets range r held x o h)))
  | step_of_control x q o h : runtime_step (h_world h) (h_world (final (Control range r x q o h)))
  | step_of_integrations held x o h : runtime_step (h_world h) (h_world (final (RefreshIntegrations range r fetch read_list held x o h))).
Lemma step_RefreshClaimSets held x : keeps_step (RefreshClaimSets range r held x).
Proof. apply step_context. intros y. apply step_refresh. Qed.

End published.

(** ** A concrete kernel

    Named sets with the commands of a batch run in order. *)

Abbreviation SetKernel := (gmap (string * string * string) (list string)).
Definition run_command (k : SetKernel) (c : command) : SetKernel :=
  match c with
  | FlushSet f t n => <[(f, t, n) := []]> k
  | AddElements f t n l => <[(f, t, n) := (default [] (k !! (f, t, n)) ++ l)%list]> k
  end.
#[export] Instance kernel_nft : Nft SetKernel := {
  nft_check script _ := bool_decide (is_Some (read_batch script));
  nft_file script k := foldl run_command k <$> read_batch script;
  nft_list_tables _ := Some (Sample.doc (map (λ t, Sample.table_obj t "") OwnedTables));
  nft_list_table t _ := Some (Sample.doc []);
  nft_list_ruleset _ := Some (Sample.doc [])
}.
Lemma run_update u k : foldl run_command k (commands_of u) !! set_key u = Some (su_elements u).
Proof.
  unfold commands_of, set_key. destruct (su_elements u); cbn [foldl run_command]; [by rewrite lookup_insert_eq|].
  rewrite lookup_insert_eq. f_equal. by rewrite lookup_insert_eq.
Qed.
Lemma run_other u k key : key ≠ set_key u → foldl run_command k (commands_of u) !! key = k !! key.
Proof. unfold commands_of, set_key. intros Hn. destruct (su_elements u); simpl; rewrite !lookup_insert_ne by congruence; done. Qed.
Lemma run_others l k key : key ∉ map set_key l → foldl run_command k (l ≫= commands_of) !! key = k !! key.
Proof.
  revert k. induction l as [|u l IH]; intros k Hn; [done|]. cbn [mbind list_bind map] in *. rewrite foldl_app.
  apply not_elem_of_cons in Hn as [H1 H2]. rewrite IH by done. by apply run_other.
Qed.
#[export] Instance kernel_sets : NftSets SetKernel.
Proof.
  refine {| set_members key k := default [] (k !! key) |}. intros l k k' Hok Hnd Hf u Hu. simpl in Hf. rewrite batch_read in Hf by done.
  injection Hf as <-. revert k Hnd. clear Hok. induction l as [|v l IH]; intros k Hnd; [set_solver|].
  cbn [mbind list_bind map] in *. rewrite foldl_app. apply NoDup_cons in Hnd as [Hv Hnd]. apply elem_of_cons in Hu as [->|Hu]; [|by apply IH].
  rewrite run_others by done. by rewrite run_update.
Defined.

(** ** A run *)

Definition sample_runtime : Runtime (K := SetKernel) := mkRuntime_ Defaults None.
Definition no_fetch (url : string) (entries bytes : Z) : M (Host SetKernel) (list string) := throw ErrIO.
Definition no_list (file : string) : M (Host SetKernel) string := throw ErrNotExist.
Definition set_host : Host SetKernel :=
  mkHost (mkWorld "/var/lib/nftfw" ∅ [] ∅ ∅ None None None false ∅ ∅ false Sample.boot1 no_claims) (map (λ k, (63900000000 + k) * second) (map Z.of_nat (seq 0 40))) [].
Definition locked_ctx : Ctx := mkCtx true false.
Definition blocked_host : Host SetKernel :=
  final (Control Sample.sample_range sample_runtime locked_ctx (BlockAdd "203.0.113.7" "manual" "scan" 3600) [] set_host).
Lemma sample_published : published Sample.sample_range sample_runtime (h_world set_host).
Proof. apply published_dirty. intros p [= <-]. done. Qed.
