(* ===== verification/Refresh.v ===== *)
(** Progress of the claim publication: a refresh that meets no fault publishes the stored
    claims, whatever was pending before. *)

From S2P Require Import Prelude GoStrings GoTime Netip Claims Feeds Ledger Config PolicyModel Snapshot Host Store ClaimStore.
From S2P Require Import NftScript Json NftJson Backend SetUpdates SetBatch Manager ClaimRuntime Recovery Invariant Reads Live Sample Publication.
From Stdlib Require Import Ascii String.
Local Open Scope string_scope.
Local Open Scope Z_scope.
Local Open Scope host_scope.
Abbreviation length := List.length.

(** ** Claims that fit in the sets *)

Definition year : Z := 365 * 86400 * second.
Record acceptable (max : Z) (now : time) (m : gmap Z Claim) : Prop := {
  acc_address : map_Forall (λ _ k, ∃ p, ParsePrefix (cl_Address k) = Some p ∧ pfx_bits p ≠ 0%N ∧
                  cl_Family k = if Is4 (pfx_addr p) then "ipv4" else "ipv6") m;
  acc_lease : map_Forall (λ _ k, isAllowSource (cl_Source k) = true → ∃ e, cl_ExpiresAt k = Some e ∧ e <= now + year) m;
  acc_size : Z.of_nat (size m) <= max
}.
Lemma acceptable_sub max now m m' : m' ⊆ m → acceptable max now m → acceptable max now m'.
Proof.
  intros Hs [H1 H2 H3]. split; [intros i k Hk; by apply (H1 i), (lookup_weaken _ _ _ _ Hk Hs)|intros i k Hk; by apply (H2 i), (lookup_weaken _ _ _ _ Hk Hs)|].
  pose proof (map_subseteq_size _ _ Hs). lia.
Qed.

(** *** Leases *)

(** The table holds addresses of leases, none beyond the limit. *)
Definition leases (family : string) (limit : time) (all : list Claim) (table : gmap string time) : Prop :=
  ∀ a t, table !! a = Some t → t <= limit ∧ ∃ k, k ∈ all ∧ cl_Address k = a ∧ cl_Family k = family.
Lemma lease_table_ok family limit all claims : 0 <= limit →
  (∀ k, k ∈ claims → k ∈ all) → (∀ k, k ∈ all → isAllowSource (cl_Source k) = true → ∃ e, cl_ExpiresAt k = Some e ∧ e <= limit) →
  ∀ table, leases family limit all table →
    ∃ table', lease_table family claims table = inr table' ∧ leases family limit all table' ∧ (size table' <= size table + length claims)%nat.
Proof.
  intros Hl Hin Hall. induction claims as [|k claims IH]; intros table Ht; simpl; [exists table; split; [done|]; split; [done|lia]|].
  assert (∀ k', k' ∈ claims → k' ∈ all) as Hin' by (intros; apply Hin; by right).
  destruct (negb (String.eqb (cl_Family k) family) || _) eqn:E.
  { destruct (IH Hin' table Ht) as (t' & E' & H1 & H2). exists t'. split; [done|]. split; [done|lia]. }
  apply orb_false_iff in E as [Ef%negb_false_iff%String.eqb_eq Ea%negb_false_iff].
  assert (k ∈ all) as Hk by (apply Hin; by left). destruct (Hall k Hk Ea) as (e & -> & He).
  edestruct (IH Hin' (<[cl_Address k := if default zero_time (table !! cl_Address k) <? e then e else default zero_time (table !! cl_Address k)]> table))
    as (t' & E' & H1 & H2).
  { intros a t. destruct (decide (a = cl_Address k)) as [->|Hne].
    - rewrite lookup_insert_eq. intros [= <-]. split; [|by exists k]. destruct (_ <? _); [done|].
      destruct (table !! cl_Address k) as [t|] eqn:Et; simpl; [by apply (Ht _ _ Et)|done].
    - rewrite lookup_insert_ne by done. apply Ht. }
  exists t'. split; [done|]. split; [done|]. rewrite map_size_insert in H2. destruct (table !! cl_Address k); simpl in H2; lia.
Qed.

Lemma timeout_bound now t : 0 <= now → now < t → t <= now + year → 0 < timeout_seconds (duration_sub t now) <= max_timeout.
Proof.
  intros Hn Hlt Hle. unfold year, second in Hle. assert (duration_sub t now = t - now) as ->.
  { unfold duration_sub, max_int64, min_int64. lia. }
  unfold timeout_seconds, wrap64, second. rewrite Z.mod_small by lia. unfold max_timeout.
  rewrite Z.quot_div_nonneg by lia. split.
  - apply Z.lt_le_trans with (m := 1); [lia|]. apply Z.div_le_lower_bound; lia.
  - apply Z.lt_succ_r, Z.div_lt_upper_bound; lia.
Qed.

Lemma length_omap {A B} (f : A → option B) l : (length (omap f l) <= length l)%nat.
Proof. induction l as [|a l IH]; [done|]. cbn [omap list_omap List.length] in *. destruct (f a); cbn [List.length]; lia. Qed.

Lemma length_remove_dups {A} `{EqDecision A} (l : list A) : (length (remove_dups l) <= length l)%nat.
Proof. induction l as [|a l IH]; [done|]. cbn [remove_dups]. destruct (decide_rel _ a l); cbn [List.length]; lia. Qed.

Section accepted.
Context (c : Config) (range : gset string → list string) (now : time) (m : gmap Z Claim).
Context (Hnow : 0 <= now) (Hm : acceptable (MaxSetMembers (Config.Runtime c)) now m).
Context (l : list Claim) (Hl : ∀ k, k ∈ l → ∃ id, m !! id = Some k) (Hlen : (length l <= size m)%nat).

Lemma trusted_accepted name family ipv4 : (name, family, ipv4) ∈ [("trusted_v4", "ipv4", true); ("trusted_v6", "ipv6", false)] →
  ∃ t u, effectiveTrusted l family now = inr t ∧ (length t <= length l)%nat ∧ timed_update name ipv4 t = inr u.
Proof.
  intros Hname. unfold effectiveTrusted.
  destruct (lease_table_ok family (now + year) l l) with (table := ∅ : gmap string time) as (table & -> & Ht & Hs).
  { unfold year, second. lia. } { done. }
  { intros k Hk Ha. destruct (Hl k Hk) as [id Hid]. by apply (acc_lease _ _ _ Hm id k). }
  { intros a t Ha. by rewrite lookup_empty in Ha. }
  set (el := omap (lease_element now) (map_to_list table)).
  assert (∀ e, e ∈ el → check_timed name ipv4 e = None) as Hc.
  { intros e He. apply list_elem_of_omap in He as ([a t] & Hat & He).
    apply elem_of_map_to_list in Hat. destruct (Ht a t Hat) as (Hle & k & Hk & <- & Hf). unfold lease_element in He. simpl in He.
    destruct (Z.leb_spec (duration_sub t now) 0) as [|Hpos]; [done|]. injection He as <-.
    assert (now < t) as Hlt by (unfold duration_sub, min_int64 in Hpos; lia).
    pose proof (timeout_bound now t Hnow Hlt Hle) as [H1 H2]. unfold check_timed. cbn [te_Prefix te_TimeoutSeconds].
    destruct (Hl k Hk) as [id Hid]. destruct (acc_address _ _ _ Hm id k Hid) as (p & Hp & Hb & Hfam). unfold validateSetPrefix. rewrite Hp.
    destruct (N.eqb_spec (pfx_bits p) 0); [done|].
    assert (Is4 (pfx_addr p) = ipv4) as ->.
    { rewrite Hf in Hfam. clear -Hname Hfam. destruct (Is4 (pfx_addr p)); rewrite !elem_of_cons, elem_of_nil in Hname;
        destruct Hname as [[= -> -> ->]|[[= -> -> ->]|[]]]; done. }
    rewrite eqb_reflx. cbn [negb]. destruct (Z.ltb_spec (timeout_seconds (duration_sub t now)) 0); [lia|].
    destruct (Z.ltb_spec max_timeout (timeout_seconds (duration_sub t now))); [lia|]. done. }
  exists (sort_timed el). eexists. split; [done|]. split.
  - unfold sort_timed. rewrite length_sort_by. etrans; [apply length_omap|]. rewrite length_map_to_list. rewrite map_size_empty in Hs. lia.
  - unfold timed_update. assert (check_timed_elements name ipv4 (sort_timed (sort_timed el)) = None) as ->; [|done].
    apply check_timed_ok, list.Forall_forall. intros e He. unfold sort_timed in He. rewrite !elem_of_sort_by in He. by apply Hc.
Qed.
Lemma blocked_accepted name family ipv4 : (name, family, ipv4) ∈ [("blocked_v4", "ipv4", true); ("blocked_v6", "ipv6", false)] →
  (length (EffectiveAddresses l family) <= length l)%nat ∧ ∃ u, plain_update name ipv4 (EffectiveAddresses l family) = inr u.
Proof.
  intros Hname. unfold EffectiveAddresses, distinct_sorted, sort_strings. split.
  - rewrite length_sort_by. etrans; [apply length_remove_dups|].
    rewrite length_map. rewrite <-(Nat.add_0_r (length l)). rewrite <-(filter_length (λ k, String.eqb (cl_Family k) family && negb (isAllowSource (cl_Source k))) l). lia.
  - unfold plain_update. assert (∀ s, s ∈ sort_by str_leb (remove_dups (map cl_Address (List.filter (λ k, String.eqb (cl_Family k) family && negb (isAllowSource (cl_Source k))) l))) →
      validateSetPrefix ipv4 s = None) as Hc.
    { intros s Hs. rewrite elem_of_sort_by, elem_of_remove_dups in Hs. apply list_elem_of_In, in_map_iff in Hs as (k & <- & Hk).
      apply filter_In in Hk as [Hk [Hf%String.eqb_eq _]%andb_true_iff]. apply list_elem_of_In in Hk. destruct (Hl k Hk) as [id Hid].
      destruct (acc_address _ _ _ Hm id k Hid) as (p & Hp & Hb & Hfam). unfold validateSetPrefix. rewrite Hp.
      destruct (N.eqb_spec (pfx_bits p) 0); [done|]. assert (Is4 (pfx_addr p) = ipv4) as ->; [|by rewrite eqb_reflx].
      rewrite Hf in Hfam. clear -Hname Hfam. destruct (Is4 (pfx_addr p)); rewrite !elem_of_cons, elem_of_nil in Hname;
        destruct Hname as [[= -> -> ->]|[[= -> -> ->]|[]]]; done. }
    assert (check_elements (validateSetPrefix ipv4) (sort_strings (sort_by str_leb (remove_dups (map cl_Address (List.filter
      (λ k, String.eqb (cl_Family k) family && negb (isAllowSource (cl_Source k))) l))))) = None) as ->; [|by eexists].
    apply check_elements_ok, list.Forall_forall. intros s Hs. unfold sort_strings in Hs. rewrite elem_of_sort_by in Hs. by apply Hc.
Qed.
(** The claims make sets within the limits, and the backend accepts them. *)
Lemma claims_accepted protected : check_threats c l protected = None →
  ∃ s u, claimSets c range l now protected = inr s ∧ claim_updates (blockedV4 s) (blockedV6 s) (trustedV4 s) (trustedV6 s) = inr u.
Proof.
  intros Hth. destruct (trusted_accepted "trusted_v4" "ipv4" true) as (t4 & u3 & E4 & L4 & U3); [set_solver|].
  destruct (trusted_accepted "trusted_v6" "ipv6" false) as (t6 & u4 & E6 & L6 & U4); [set_solver|].
  destruct (blocked_accepted "blocked_v4" "ipv4" true) as (B4 & u1 & U1); [set_solver|].
  destruct (blocked_accepted "blocked_v6" "ipv6" false) as (B6 & u2 & U2); [set_solver|].
  set (s := mkClaimSets (EffectiveAddresses l "ipv4") (EffectiveAddresses l "ipv6") t4 t6).
  exists s, [u1; u2; u3; u4]. unfold claimSets, sets_of. rewrite Hth, E4, E6. split.
  - fold s. destruct (List.find _ _) as [n|] eqn:E; [|done]. apply find_some in E as [_ E%Z.ltb_lt]. pose proof (acc_size _ _ _ Hm).
    exfalso. revert E. unfold set_count. subst s. cbn [blockedV4 blockedV6 trustedV4 trustedV6].
    repeat match goal with |- context [if ?b then _ else _] => destruct b end; lia.
  - unfold claim_updates. subst s. cbn [blockedV4 blockedV6 trustedV4 trustedV6]. by rewrite U1, U2, U3, U4.
Qed.
End accepted.

(** ** Transactions that return *)

Definition returns {A} (body : Tx A) (Q : A → Tables → Prop) (t : Tables) : Prop :=
  ∃ a t', body [] t = (Ret a, [], t') ∧ Q a t'.
Definition row_ok (t : Tables) : Prop := ∃ p, ct_publication t.1 = Some p ∧ publication_ok p.
Lemma row_pub t : row_ok t → pub_ok t.
Proof. intros (p & Hp & Hok) q Hq. by replace q with p by congruence. Qed.

Lemma Purge_returns now t : row_ok t → returns (PurgeExpired_tx now) (λ _ t', row_ok t' ∧ ct_claims t'.1 ⊆ ct_claims t.1) t.
Proof.
  intros (p & Hp & Hok). unfold returns, PurgeExpired_tx, delete_claims, bind, gets, modify, ret. cbn.
  destruct (0 <? _); cbn; [|by eexists _, _; split; [done|]; split; [by exists p|apply map_filter_subseteq]].
  unfold markClaimPublicationDirtyTx, markRuntimeClaimsDegradedTx, bind, gets, modify. cbn. rewrite Hp. cbn.
  eexists _, _. split; [done|]. split; [|cbn; apply map_filter_subseteq]. eexists. split; [done|]. unfold publication_ok in *. cbn. lia.
Qed.
Lemma Prepare_returns now t : row_ok t → returns (PrepareClaimPublication_tx now)
  (λ rev t', dirty t' ∧ ct_claims t'.1 = ct_claims t.1 ∧ ∃ p, ct_publication t'.1 = Some p ∧ DesiredRevision p = rev) t.
Proof.
  intros Hr. pose proof (Prepare_tx_result now t (row_pub t Hr)) as H. destruct Hr as (p & Hp & Hok%N.leb_le).
  assert (∃ a t', PrepareClaimPublication_tx now [] t = (Ret a, [], t')) as (a & t' & E).
  { unfold PrepareClaimPublication_tx, read_publication, markClaimPublicationDirtyTx, markRuntimeClaimsDegradedTx, require, bind, gets, modify, ret.
    cbn. rewrite Hp, Hok. cbn. destruct (DesiredRevision p =? AppliedRevision p)%N; cbn; rewrite ?Hp; by eexists _, _. }
  exists a, t'. split; [done|]. specialize (H []). rewrite E in H. apply H.
Qed.
Lemma Mark_returns revision count now t p : ct_publication t.1 = Some p → DesiredRevision p = revision →
  returns (MarkClaimsPublished_tx revision count now) (λ _ t', settled t' ∧ ct_claims t'.1 = ct_claims t.1) t.
Proof.
  intros Hp <-. unfold returns, MarkClaimsPublished_tx, bind, gets, modify. cbn. rewrite Hp, N.eqb_refl. cbn.
  eexists _, _. split; [done|]. split; [|done]. by eexists.
Qed.

(** ** Runs from a host *)

Section answers.
Context {K : Type}.
Abbreviation HM := (M (Host K)).
Implicit Types (h : Host K).

(** Without faults, [m] returns a value and a host in [Q]; unlike [runs] it follows the
    clock. *)
Definition answers {A} (m : HM A) (Q : A → Host K → Prop) h : Prop :=
  match m [] h with (Ret a, [], h') => Q a h' | _ => False end.
Lemma answers_elim {A} (m : HM A) Q h : answers m Q h → ∃ a, result (m [] h) = Ret a ∧ Q a (final (m [] h)).
Proof. unfold answers, result, final. destruct (m [] h) as [[[a|e|] []] h']; try done. intros HQ. by exists a. Qed.
Lemma answers_mono {A} (m : HM A) (Q R : A → Host K → Prop) h : answers m Q h → (∀ a h', Q a h' → R a h') → answers m R h.
Proof. unfold answers. destruct (m [] h) as [[[a|e|] []] h']; try done. auto. Qed.
Lemma answers_ret {A} (a : A) (Q : A → Host K → Prop) h : Q a h → answers (ret a) Q h.
Proof. done. Qed.
Lemma answers_bind {A B} (m : HM A) (f : A → HM B) Q h : answers m (λ a h', answers (f a) Q h') h → answers (bind m f) Q h.
Proof. unfold answers, bind. destruct (m [] h) as [[[a|e|] []] h']; done. Qed.
Lemma answers_catch {A} (m : HM A) k Q h : answers m Q h → answers (catch m k) Q h.
Proof. unfold answers, catch. destruct (m [] h) as [[[a|e|] []] h']; done. Qed.
Lemma answers_require b e Q h : b = true → Q tt h → answers (require b e) Q h.
Proof. by intros -> HQ. Qed.
Lemma answers_clock t c Q h : h_clock h = t :: c → Q t (mkHost (h_world h) c (h_trace h)) → answers read_clock Q h.
Proof. unfold answers, read_clock. intros ->. done. Qed.
Lemma answers_transaction {A} name (body : Tx A) Q h :
  returns body (λ a t, Q a (log (EvDBWrite name 0) (on_world (λ _, set_tables t (h_world h)) h))) (tables (h_world h)) →
  answers (transaction name body) Q h.
Proof. intros (a & t & E & HQ). unfold answers, transaction, sys_write, io_write. simpl. rewrite E. exact HQ. Qed.
Lemma answers_query {A} name (f : Tables → err + A) a Q h : f (tables (h_world h)) = inr a → Q a (log (EvDBRead name) h) → answers (query name f) Q h.
Proof. intros E HQ. unfold answers, query, sys_read, io_write. simpl. rewrite E. exact HQ. Qed.
Lemma answers_sys_read {A} ev (f : World K → outcome A) a (Q : A → Host K → Prop) h : f (h_world h) = Ret a → Q a (log ev h) → answers (sys_read ev f) Q h.
Proof. intros E HQ. unfold answers, sys_read, io_write. simpl. rewrite E. exact HQ. Qed.
Lemma answers_finally {A} (m : HM A) c Q h : answers m (λ a h', answers c (λ _ h'', Q a h'') h') h → answers (finally m c) Q h.
Proof. unfold answers, finally. destruct (m [] h) as [[[a|e|] []] h']; try done. by destruct (c [] h') as [[[b|e|] []] h'']. Qed.
Lemma answers_runs {A} (m : HM A) Q h : runs m Q (h_world h) → answers m (λ a h', Q a (h_world h')) h.
Proof. destruct h as [w c tr]. intros H. apply H. Qed.
End answers.

Section progress.
Context {K : Type} `{NftSets K}.
Context (range : gset string → list string) (r : Runtime (K := K)).
Abbreviation HM := (M (Host K)).
Implicit Types (h : Host K).

(** The kernel has the filter table and takes checked batches. *)
Definition receptive (k : K) : Prop :=
  (∃ out l, nft_list_tables k = Some out ∧ listed_owned OwnedTables out = inr l ∧ filter_key ∈ map table_key l) ∧
  ∀ l, Forall update_ok l → nft_check (batch l) k = true ∧ is_Some (nft_file (batch l) k).

Lemma runs_ExistingOwned w : receptive (w_kernel w) → runs ExistingOwned (λ e w', filter_key ∈ e ∧ w' = w) w.
Proof.
  intros ((out & l & E1 & E2 & Hl) & _). unfold ExistingOwned, ListOwned. apply runs_bind, runs_bind, runs_catch.
  unfold run_json. eapply runs_sys_read; [by rewrite E1|]. eapply runs_lift_check; [exact E2|]. apply runs_ret. split; [|done].
  by apply elem_of_list_to_set.
Qed.
Lemma runs_replace x s l w : ctx_locked x = true → receptive (w_kernel w) → claim_updates (blockedV4 s) (blockedV6 s) (trustedV4 s) (trustedV6 s) = inr l →
  runs (ReplaceClaimSets x (blockedV4 s) (blockedV6 s) (trustedV4 s) (trustedV6 s)) (λ _ w', w_claims w' = w_claims w ∧ w_audit w' = w_audit w ∧ holds_sets s (w_kernel w')) w.
Proof.
  intros Hx [_ Hk] El. unfold ReplaceClaimSets. apply runs_bind, runs_require; [done|]. rewrite El.
  destruct (request_ok (ClaimSets (blockedV4 s) (blockedV6 s) (trustedV4 s) (trustedV6 s)) l El I) as [Eq Hok].
  destruct (Hk _ Hok) as [Hc [k Hf]]. unfold applyRuntimeTransaction, run_batch. apply runs_bind. unfold Check, tempScript.
  rewrite batch_valid by (done || by rewrite Eq). apply runs_bind. eapply runs_sys_read; [done|]. apply runs_catch. eapply runs_sys_read; [by rewrite Hc|].
  apply runs_bind. eapply runs_sys_read; [done|]. apply runs_catch. unfold run_file. intros c tr. unfold sys_write, io_write. simpl. rewrite Hf.
  cbn. split; [done|]. split; [done|]. unfold holds_sets, asked_sets. rewrite <-Eq. intros u Hu. eapply nft_file_batch; [exact Hok| |exact Hf|exact Hu].
  rewrite Eq. vm_compute. repeat constructor; set_solver.
Qed.

(** The rest of the refresh, from the claims read on. *)
Lemma runs_publish x revision claims s l t1 t2 protected p w : ctx_locked x = true → receptive (w_kernel w) →
  ct_publication (w_claims w) = Some p → DesiredRevision p = revision → claims = select_active t1 (tables w) →
  claimSets (rt_Config r) range claims t2 protected = inr s → claim_updates (blockedV4 s) (blockedV6 s) (trustedV4 s) (trustedV6 s) = inr l →
  runs (existing <- ExistingOwned ;;
        if negb (bool_decide (filter_key ∈ existing)) then ret false
        else
          ReplaceClaimSets x (blockedV4 s) (blockedV6 s) (trustedV4 s) (trustedV6 s) ;;
          wrapped "record runtime claim publication: %w" (MarkClaimsPublished revision (Z.of_nat (length claims))) ;;
          ret true)
    (λ b w', b = true ∧ settled (tables w') ∧ in_step range r w') w.
Proof.
  intros Hx Hk Hp Hrev Hcl Es El. apply runs_bind. eapply runs_mono; [by apply runs_ExistingOwned|]. intros e w1 [He ->].
  rewrite bool_decide_eq_true_2 by done. cbn [negb]. apply runs_bind. eapply runs_mono; [by eapply runs_replace|]. intros _ w2 (Hc & Ha & Hs).
  apply runs_bind, runs_wrapped. unfold MarkClaimsPublished. apply runs_bind, runs_require; [apply Z.leb_le; lia|]. apply runs_bind.
  assert (∀ now, runs (transaction "claims published" (MarkClaimsPublished_tx revision (Z.of_nat (length claims)) now))
    (λ _ w', runs (ret true : HM bool) (λ b w', b = true ∧ settled (tables w') ∧ in_step range r w') w') w2) as Ht.
  { intros now c tr. destruct (Mark_returns revision (Z.of_nat (length claims)) now (tables w2) p) as ([] & [ct au] & E & Hset & Hclaims).
    { simpl. by rewrite Hc. } { done. }
    unfold transaction, sys_write, io_write. simpl. rewrite E. apply runs_ret. split; [done|]. split; [done|].
    exists t1, t2, protected, s. split; [|exact Hs]. rewrite <-Es, Hcl. unfold select_active. simpl in *. by rewrite Hclaims, Hc. }
  intros [|now c] tr; apply Ht.
Qed.

End progress.

(** ** A run

    The block was added, and the program died before it could publish it. *)

Definition pending_claim : Claim := mkClaim 1 "203.0.113.7/32" "ipv4" "manual" "scan" "uid:0" (63900000001 * second) (Some (63900003600 * second)).
Definition interrupted : World SetKernel :=
  h_world (final (Control Sample.sample_range sample_runtime locked_ctx (BlockAdd "203.0.113.7" "manual" "scan" 3600) [FOk; FOk; FCrash] set_host)).
Definition pending_host : Host SetKernel := mkHost interrupted (map (λ k, (63900000100 + k) * second) [0; 1; 2; 3; 4]) [].

Lemma interrupted_claims : ct_claims (w_claims interrupted) = {[1 := pending_claim]}.
Proof. vm_compute. reflexivity. Qed.
Lemma interrupted_publication : ct_publication (w_claims interrupted) = Some (mkPublication 2 0).
Proof. vm_compute. reflexivity. Qed.
Lemma interrupted_seq : ct_seq (w_claims interrupted) = 1.
Proof. vm_compute. reflexivity. Qed.
Lemma one_claim_ok (w : World SetKernel) : ct_claims (w_claims w) = {[1 := pending_claim]} → ct_seq (w_claims w) = 1 →
  ct_publication (w_claims w) = Some (mkPublication 2 0) → tables_ok (tables w).
Proof.
  intros Ec Es Ep. split; simpl; rewrite ?Ec, ?Es, ?Ep; [lia| |].
  - apply map_Forall_singleton. split; [|done]. split; [done|]. split; [done|]. vm_compute. reflexivity.
  - intros p [= <-]. unfold publication_ok. simpl. lia.
Qed.
Lemma one_claim_row (w : World SetKernel) : ct_publication (w_claims w) = Some (mkPublication 2 0) → row_ok (tables w).
Proof. intros E. exists (mkPublication 2 0). split; [done|]. unfold publication_ok. simpl. lia. Qed.
Definition interrupted_ok : tables_ok (tables interrupted) := one_claim_ok _ interrupted_claims interrupted_seq interrupted_publication.
Lemma interrupted_acceptable : acceptable 65536 (63900000103 * second) (ct_claims (w_claims interrupted)).
Proof.
  rewrite interrupted_claims. split.
  - apply map_Forall_singleton. exists (mkPrefix (V4 0xcb007107) 32). split; [vm_compute; reflexivity|]. split; [done|reflexivity].
  - apply map_Forall_singleton. intros H. vm_compute in H. done.
  - vm_compute. discriminate.
Qed.
Lemma one_claim_threats (m : gmap Z Claim) l protected : m = {[1 := pending_claim]} → (∀ k, k ∈ l → ∃ id, m !! id = Some k) →
  check_threats Defaults l protected = None.
Proof.
  intros -> Hl. assert (List.filter is_threat_claim l = []) as E.
  { induction l as [|k l IH]; [done|]. destruct (Hl k) as [id Hid]; [by left|].
    apply lookup_singleton_Some in Hid as [_ <-]. apply IH. intros k' Hk. apply Hl. by right. }
  unfold check_threats, threatFeedClaimAddresses. by rewrite E.
Qed.
Lemma sample_protected h' : answers (threatFeedProtectedPrefixes sample_runtime) (λ _ h'', h_world h'' = h_world h' ∧ h_clock h'' = h_clock h') h'.
Proof. by apply answers_bind, answers_ret, answers_ret. Qed.
Lemma kernel_receptive (k : SetKernel) : receptive k.
Proof.
  split.
  - eexists _, _. split; [reflexivity|]. split; [vm_compute; reflexivity|]. apply list_elem_of_In. vm_compute. tauto.
  - intros l Hl. simpl. rewrite batch_read by done. split; [done|by eexists].
Qed.
