(* ===== verification/Evidence.v ===== *)
(** The enforcement verifier (internal/reconcile/recovery.go [VerifyEnforcement],
    internal/reconcile/verifier_evidence.go): a nonmutating check that the live
    firewall is the latest committed generation, sampled twice between three
    captures of the durable evidence.

    The capture reopens the database; the reopened store reads the same tables. The
    bytes SQLite keeps in its files are parameters: [database_bytes] of the state
    database's main file, [ledger_bytes] of the ledger's. *)

From S2P Require Import Prelude GoStrings GoTime Sha256 Json NftScript NftJson.
From S2P Require Import Ledger Snapshot Claims Host Store Backend Collision Manager Invariant Reads Sample Live.
From Stdlib Require Import Ascii String.
Local Open Scope string_scope.
Local Open Scope N_scope.
Local Open Scope host_scope.

Record enforcementEvidence := mkEvidence {
  databaseDigest : string; pointerDigest : string; snapshotDigest : string; scriptDigest : string;
  ledgerDigest : string; ev_pointer : EnforcementPointer; ev_generation : N; ev_observedHash : string
}.

Definition compareEnforcementEvidence (expected observed : enforcementEvidence) : option err :=
  if negb (String.eqb (databaseDigest observed) (databaseDigest expected))
  then Some (Errorf "state database main file changed during verification" [])
  else if negb (String.eqb (pointerDigest observed) (pointerDigest expected)) ||
          negb (ptr_Equal (ev_pointer expected) (Some (ev_pointer observed)))
  then Some (Errorf "enforcement pointer changed during verification" [])
  else if negb (String.eqb (snapshotDigest observed) (snapshotDigest expected))
  then Some (Errorf "immutable generation snapshot changed during verification" [])
  else if negb (String.eqb (scriptDigest observed) (scriptDigest expected))
  then Some (Errorf "immutable generation script changed during verification" [])
  else if negb (String.eqb (ledgerDigest observed) (ledgerDigest expected))
  then Some (Errorf "provenance ledger changed during verification" [])
  else if negb (ev_generation observed =? ev_generation expected) ||
          negb (String.eqb (ev_observedHash observed) (ev_observedHash expected))
  then Some (Errorf "committed generation identity changed during verification" [])
  else None.

Section evidence.
Context {K : Type} `{Nft K}.
Context (range : gset string → list string) (listing_size : K → N).
Context (database_bytes : gmap N Generation → list AuditRow → ClaimTables → string) (ledger_bytes : gmap string Alloc → string).
Abbreviation HM := (M (Host K)).
Implicit Types (w : World K).

(** [digestSecureEvidenceFile] of a file with the given bytes. *)
Definition digestSecureEvidenceFile (file : string) (bytes : World K → option string) : HM string :=
  sys_read (EvFSRead file) (λ w, match bytes w with Some b => Ret (sha256_hex b) | None => Error ErrNotExist end).

Definition database_file w : option string := Some (database_bytes (w_gens w) (w_audit w) (w_claims w)).
Definition pointer_file w : option string := (λ p, json_pointer p +:+ newline) <$> w_pointer w.
Definition snapshot_file (id : N) w : option string := encodeGenerationSnapshot <$> w_snapshots w !! id.
Definition script_file (id : N) w : option string := w_scripts w !! id.
Definition ledger_file w : option string := Some (ledger_bytes (w_ledger w)).

(** [provenance.OpenReadOnly] and the check of the manifest against it. *)
Definition captureProvenanceLedgerEvidence (required : list Assignment) : HM string :=
  ledger <- try_ (sys_read (EvDBRead "provenance ledger") (λ w, Ret (w_ledger w))) ;;
  match ledger with
  | inl e =>
      if is_not_exist e && bool_decide (required = []) then ret "ABSENT"
      else throw (Wrapf "open read-only provenance ledger evidence: %w" [] e)
  | inr t =>
      wrapped "validate provenance ledger evidence: %w" (throw_if (ValidateRequired t required)) ;;
      fileDigest <- wrapped "fingerprint provenance ledger file: %w"
                      (digestSecureEvidenceFile "provenance ledger" ledger_file) ;;
      ret (Digest t +:+ ":" +:+ fileDigest)
  end.

(** The immutable files of the committed generation, revalidated against the pointer. *)
Definition load_evidence (pointer : EnforcementPointer) (g : Generation) (changed disagree : string) : HM GenerationSnapshot :=
  s <- LoadVerifiedGenerationSnapshot (gen_ID g) ;;
  require (ptr_Equal (snap_Pointer s) (Some pointer)) (Errorf changed []) ;;
  validateGenerationSnapshot g s false ;;
  script <- ReadScript g ;;
  require (String.eqb script (snap_Script s)) (Errorf disagree []) ;;
  ret s.

(** The committed generation the pointer names. *)
Definition pointed_generation : HM (EnforcementPointer * Generation) :=
  pending <- if_any Pending_ ;;
  match pending with
  | Some g => throw (Errorf "generation %d remains %s" [ArgN (gen_ID g); ArgS (status_name (gen_Status g))])
  | None =>
      pointer <- ReadEnforcementPointer ;;
      match pointer with
      | None => throw (Errorf "no committed enforcement pointer exists" [])
      | Some p =>
          g <- GenerationByID (ptr_Generation p) ;;
          require (has_status [Committed] g && String.eqb (gen_Checksum g) (ptr_PolicyChecksum p) &&
                   String.eqb (gen_SnapshotChecksum g) (ptr_SnapshotChecksum p))
            (Errorf "enforcement pointer does not identify an exact committed generation" []) ;;
          latest <- LastKnownGood ;;
          require (gen_ID latest =? gen_ID g)
            (Errorf "enforcement pointer is not the latest committed generation" []) ;;
          ret (p, g)
      end
  end.

Definition digests (g : Generation) : HM (string * string * string) :=
  pointerDigest <- wrapped "fingerprint enforcement pointer: %w" (digestSecureEvidenceFile "pointer" pointer_file) ;;
  snapshotDigest <- wrapped "fingerprint immutable generation snapshot: %w"
                      (digestSecureEvidenceFile "snapshot" (snapshot_file (gen_ID g))) ;;
  scriptDigest <- wrapped "fingerprint immutable generation script: %w"
                    (digestSecureEvidenceFile "script" (script_file (gen_ID g))) ;;
  ret (pointerDigest, snapshotDigest, scriptDigest).

(** The second half of a capture: everything is read again and must not have changed. *)
Definition recapture (p : EnforcementPointer) (g : Generation) (before : string) (ds : string * string * string) (ledgerDigest : string) : HM unit :=
  databaseAfter <- wrapped "re-fingerprint state database main file: %w" (digestSecureEvidenceFile "state database" database_file) ;;
  require (String.eqb databaseAfter before) (Errorf "state database main file changed while evidence was captured" []) ;;
  finalPointer <- ReadEnforcementPointer ;;
  require (ptr_Equal p finalPointer) (Errorf "enforcement pointer changed while evidence was captured" []) ;;
  finalPointerDigest <- wrapped "re-fingerprint enforcement pointer: %w" (digestSecureEvidenceFile "pointer" pointer_file) ;;
  require (String.eqb finalPointerDigest ds.1.1) (Errorf "enforcement pointer bytes changed while evidence was captured" []) ;;
  finalSnapshot <- load_evidence p g "immutable generation snapshot changed while evidence was captured"
                     "generation script changed while evidence was captured" ;;
  finalSnapshotDigest <- wrapped "re-fingerprint immutable generation snapshot: %w"
                           (digestSecureEvidenceFile "snapshot" (snapshot_file (gen_ID g))) ;;
  require (String.eqb finalSnapshotDigest ds.1.2)
    (Errorf "immutable generation snapshot bytes changed while evidence was captured" []) ;;
  finalScriptDigest <- wrapped "re-fingerprint immutable generation script: %w"
                         (digestSecureEvidenceFile "script" (script_file (gen_ID g))) ;;
  require (String.eqb finalScriptDigest ds.2)
    (Errorf "immutable generation script bytes changed while evidence was captured" []) ;;
  finalLedgerDigest <- captureProvenanceLedgerEvidence (snap_Provenance finalSnapshot) ;;
  require (String.eqb finalLedgerDigest ledgerDigest) (Errorf "provenance ledger changed while evidence was captured" []).

Definition captureEnforcementEvidence : HM enforcementEvidence :=
  before <- wrapped "fingerprint state database main file: %w" (digestSecureEvidenceFile "state database" database_file) ;;
  wrapped "reopen state database main file: %w" (sys_read (EvDBRead "reopen read-only") (λ _, Ret tt)) ;;
  found <- pointed_generation ;;
  s <- load_evidence found.1 found.2 "enforcement pointer and immutable snapshot disagree"
         "generation script and immutable snapshot disagree" ;;
  ledger <- captureProvenanceLedgerEvidence (snap_Provenance s) ;;
  ds <- digests found.2 ;;
  recapture found.1 found.2 before ds ledger ;;
  ret (mkEvidence before ds.1.1 ds.1.2 ds.2 ledger found.1 (gen_ID found.2) (gen_ObservedHash found.2)).

Definition VerifyEnforcement : HM unit :=
  wrapped "foreign conntrack-mark ownership audit before live verification: %w" (AuditForeignProvenanceMask listing_size) ;;
  baseline <- wrapped "capture enforcement evidence before live verification: %w" captureEnforcementEvidence ;;
  ok <- Integrity range ;;
  require (ok : bool * string).1 (Errorf "owned nftables integrity failed: %s" [ArgS ok.2]) ;;
  fp <- Fingerprint ;;
  require (negb (String.eqb (ev_observedHash baseline) "") && String.eqb fp (ev_observedHash baseline))
    (Errorf "live nftables fingerprint does not match committed generation" []) ;;
  between <- wrapped "revalidate enforcement evidence between live samples: %w" captureEnforcementEvidence ;;
  throw_if (compareEnforcementEvidence baseline between) ;;
  finalOK <- Integrity range ;;
  require (finalOK : bool * string).1 (Errorf "owned nftables integrity changed during verification: %s" [ArgS finalOK.2]) ;;
  finalFingerprint <- Fingerprint ;;
  wrapped "foreign conntrack-mark ownership audit after live verification: %w" (AuditForeignProvenanceMask listing_size) ;;
  after <- wrapped "revalidate enforcement evidence after live verification: %w" captureEnforcementEvidence ;;
  throw_if (compareEnforcementEvidence baseline after) ;;
  require (String.eqb finalFingerprint fp && String.eqb finalFingerprint (ev_observedHash baseline))
    (Errorf "live nftables fingerprint changed during verification" []).

(** ** What the verifier establishes *)

(** The predecessor a snapshot records is the one its row records, and is known. *)
Definition predecessor_ok w (g : Generation) (s : GenerationSnapshot) : Prop :=
  match snap_Previous s with
  | None => gen_PreviousID g = None
  | Some p => gen_PreviousID g = Some (ptr_Generation p) ∧
      ∃ g', w_gens w !! ptr_Generation p = Some g' ∧ scanGeneration g' = Ret g' ∧
        gen_Checksum g' = ptr_PolicyChecksum p ∧ gen_SnapshotChecksum g' = ptr_SnapshotChecksum p
  end.

(** A row, its immutable snapshot and its script file agree. *)
Record consistent w (g : Generation) (s : GenerationSnapshot) : Prop := {
  con_row : row_pointer g = snap_Pointer s;
  con_boot : gen_BootID g = snap_BootID s;
  con_path : gen_SnapshotPath g = generationSnapshotPath (w_dir w) (gen_ID g);
  con_script : script_intact w g (snap_Script s);
  con_predecessor : predecessor_ok w g s
}.

(** The enforcement pointer authorizes the snapshot [s] of the row [g]. *)
Record authorized w (g : Generation) (s : GenerationSnapshot) : Prop := {
  au_settled : select_latest flying (w_gens w) = None;
  au_pointer : w_pointer w = Some (snap_Pointer s);
  au_row : w_gens w !! snap_Generation s = Some g ∧ scanGeneration g = Ret g ∧ gen_Status g = Committed;
  au_latest : ∃ l, select_latest committed (w_gens w) = Some l ∧ scanGeneration l = Ret l ∧ gen_ID l = gen_ID g;
  au_loaded : loaded (gen_ID g) w s;
  au_ledger : ValidateRequired (w_ledger w) (snap_Provenance s) = None;
  au_consistent : consistent w g s
}.

Definition evidence_of w (g : Generation) (s : GenerationSnapshot) : enforcementEvidence :=
  mkEvidence (sha256_hex (database_bytes (w_gens w) (w_audit w) (w_claims w)))
    (sha256_hex (json_pointer (snap_Pointer s) +:+ newline)) (sha256_hex (encodeGenerationSnapshot s))
    (sha256_hex (snap_Script s))
    (Digest (w_ledger w) +:+ ":" +:+ sha256_hex (ledger_bytes (w_ledger w)))
    (snap_Pointer s) (gen_ID g) (gen_ObservedHash g).

Lemma exactly_predecessor g s w :
  exactly (match snap_Previous s with
           | None => require (negb (bool_decide (is_Some (gen_PreviousID g)) || false))
                       (Errorf "first generation contains an unexpected predecessor" [])
           | Some p =>
               require (bool_decide (gen_PreviousID g = Some (ptr_Generation p)))
                 (Errorf "generation predecessor id disagrees with immutable snapshot" []) ;;
               previous <- GenerationByID (ptr_Generation p) ;;
               require (String.eqb (gen_Checksum previous) (ptr_PolicyChecksum p) &&
                        String.eqb (gen_SnapshotChecksum previous) (ptr_SnapshotChecksum p))
                 (Errorf "generation predecessor checksum disagrees with immutable snapshot" []) ;;
               require true (Errorf "prepared predecessor tuple disagrees with immutable snapshot" [])
           end : HM unit) (λ _, predecessor_ok w g s) w.
Proof.
  unfold predecessor_ok. destruct (snap_Previous s) as [p|].
  - eapply exactly_iff.
    { apply exactly_guard. intros _. eapply exactly_bind; [apply exactly_GenerationByID|].
      intros g' _. apply exactly_guard. intros _. apply exactly_require. }
    intros []. cbn beta. setoid_rewrite andb_true_iff. setoid_rewrite String.eqb_eq.
    rewrite bool_decide_eq_true. naive_solver.
  - eapply exactly_iff; [apply exactly_require|]. intros [].
    rewrite orb_false_r, negb_true_iff, bool_decide_eq_false, <-eq_None_not_Some. done.
Qed.

Lemma exactly_validateGenerationSnapshot g s w :
  exactly (validateGenerationSnapshot g s false) (λ _, consistent w g s) w.
Proof.
  unfold validateGenerationSnapshot. eapply exactly_iff.
  { apply exactly_guard. intros _. apply exactly_peek_bind. apply exactly_guard. intros _.
    eapply exactly_bind; [apply exactly_ReadScript|]. intros script _. apply exactly_guard. intros _.
    apply exactly_predecessor. }
  intros []. cbn beta. rewrite !andb_true_iff, !String.eqb_eq, N.eqb_eq. split.
  - intros ([[[Hid Hc] Hs] Hb] & [_ Hp] & script & Hsc & ->%String.eqb_eq & Hpre).
    split; try done. unfold row_pointer, snap_Pointer in *. simpl in *. congruence.
  - intros [Hrow Hb Hp Hsc Hpre]. unfold row_pointer, snap_Pointer in *. injection Hrow as Hi Hs Hc.
    split; [done|]. split; [split; [apply Hsc|done]|]. exists (snap_Script s). split; [done|].
    split; [by apply String.eqb_eq|done].
Qed.

Lemma exactly_digest file bytes w :
  exactly (digestSecureEvidenceFile file bytes) (λ d, sha256_hex <$> bytes w = Some d) w.
Proof.
  unfold digestSecureEvidenceFile. eapply exactly_iff; [apply exactly_sys|]. intros d. cbn beta.
  destruct (bytes w); naive_solver.
Qed.

Lemma exactly_ledger_evidence required w : exactly (captureProvenanceLedgerEvidence required)
  (λ d, ValidateRequired (w_ledger w) required = None ∧
        d = Digest (w_ledger w) +:+ ":" +:+ sha256_hex (ledger_bytes (w_ledger w))) w.
Proof.
  unfold captureProvenanceLedgerEvidence. eapply exactly_try_sys; [|done]. eapply exactly_iff.
  { apply exactly_after; [apply exactly_wrapped, exactly_throw_if|].
    eapply exactly_bind; [apply exactly_wrapped, exactly_digest|]. intros d _. apply exactly_ret. }
  intros d. cbn beta. unfold ledger_file. simpl. split.
  - intros ([[] ?] & fd & [= <-] & ->). by split.
  - intros (? & ->). split; [by exists tt|]. eexists. by split.
Qed.

Lemma exactly_load_evidence p g changed disagree w : exactly (load_evidence p g changed disagree)
  (λ s, loaded (gen_ID g) w s ∧ ValidateRequired (w_ledger w) (snap_Provenance s) = None ∧
        p = snap_Pointer s ∧ consistent w g s) w.
Proof.
  unfold load_evidence. eapply exactly_iff.
  { eapply exactly_bind; [apply exactly_LoadVerified|]. intros s _. apply exactly_guard. intros _.
    apply exactly_after; [apply exactly_validateGenerationSnapshot|].
    eapply exactly_bind; [apply exactly_ReadScript|]. intros script _. apply exactly_guard. intros _. apply exactly_ret. }
  intros s. cbn beta. split.
  - intros (s' & [Hl Hv] & Hp%ptr_Equal_Some & [[] Hc] & script & Hsc & _ & ->).
    split; [done|]. split; [done|]. by split.
  - intros (Hl & Hv & -> & Hc). exists s. split; [done|]. split; [by apply ptr_Equal_Some|]. split; [by exists tt|].
    exists (snap_Script s). split; [apply Hc|]. split; [by apply String.eqb_eq|done].
Qed.

(** The row a pointer names is committed, has its checksums and is the latest. *)
Definition names_committed w (p : EnforcementPointer) (g : Generation) : Prop :=
  w_gens w !! ptr_Generation p = Some g ∧ scanGeneration g = Ret g ∧ gen_Status g = Committed ∧
  gen_Checksum g = ptr_PolicyChecksum p ∧ gen_SnapshotChecksum g = ptr_SnapshotChecksum p ∧
  ∃ l, select_latest committed (w_gens w) = Some l ∧ scanGeneration l = Ret l ∧ gen_ID l = gen_ID g.

Lemma exactly_named p w :
  exactly (g <- GenerationByID (ptr_Generation p) ;;
           require (has_status [Committed] g && String.eqb (gen_Checksum g) (ptr_PolicyChecksum p) &&
                    String.eqb (gen_SnapshotChecksum g) (ptr_SnapshotChecksum p))
             (Errorf "enforcement pointer does not identify an exact committed generation" []) ;;
           latest <- LastKnownGood ;;
           require (gen_ID latest =? gen_ID g)
             (Errorf "enforcement pointer is not the latest committed generation" []) ;;
           ret (p, g)) (λ r, r.1 = p ∧ names_committed w p r.2) w.
Proof.
  eapply exactly_iff.
  { eapply exactly_bind; [apply exactly_GenerationByID|]. intros g _. apply exactly_guard. intros _.
    eapply exactly_bind; [apply exactly_LastKnownGood|]. intros l _. apply exactly_guard. intros _. apply exactly_ret. }
  intros [p' g]. cbn beta. simpl. unfold names_committed, has_status.
  setoid_rewrite andb_true_iff. setoid_rewrite andb_true_iff. setoid_rewrite String.eqb_eq.
  setoid_rewrite bool_decide_eq_true. setoid_rewrite list_elem_of_singleton. setoid_rewrite N.eqb_eq. naive_solver.
Qed.

Lemma exactly_pointed w : exactly pointed_generation
  (λ r, select_latest flying (w_gens w) = None ∧ w_pointer w = Some r.1 ∧ ptr_valid r.1 = true ∧
        names_committed w r.1 r.2) w.
Proof.
  unfold pointed_generation, Pending_. eapply exactly_iff.
  { apply exactly_no_rows; [eauto|]. apply exactly_pointer_bind; [eauto|]. intros p. apply exactly_named. }
  intros [p g]. cbn beta. simpl. rewrite scan_row_None. unfold flying. naive_solver.
Qed.

Lemma exactly_digests g w : exactly (digests g)
  (λ ds, sha256_hex <$> pointer_file w = Some ds.1.1 ∧ sha256_hex <$> snapshot_file (gen_ID g) w = Some ds.1.2 ∧
         sha256_hex <$> script_file (gen_ID g) w = Some ds.2) w.
Proof.
  unfold digests. eapply exactly_iff.
  { eapply exactly_bind; [apply exactly_wrapped, exactly_digest|]. intros d1 _.
    eapply exactly_bind; [apply exactly_wrapped, exactly_digest|]. intros d2 _.
    eapply exactly_bind; [apply exactly_wrapped, exactly_digest|]. intros d3 _. apply exactly_ret. }
  intros [[x y] z]. cbn beta. simpl. naive_solver.
Qed.

Lemma exactly_recapture p g before ds ledger w : exactly (recapture p g before ds ledger)
  (λ _, before = sha256_hex (database_bytes (w_gens w) (w_audit w) (w_claims w)) ∧
     w_pointer w = Some p ∧ ptr_valid p = true ∧ sha256_hex <$> pointer_file w = Some ds.1.1 ∧
     ∃ s, (loaded (gen_ID g) w s ∧ ValidateRequired (w_ledger w) (snap_Provenance s) = None ∧ p = snap_Pointer s ∧ consistent w g s) ∧
       sha256_hex <$> snapshot_file (gen_ID g) w = Some ds.1.2 ∧ sha256_hex <$> script_file (gen_ID g) w = Some ds.2 ∧
       ledger = Digest (w_ledger w) +:+ ":" +:+ sha256_hex (ledger_bytes (w_ledger w))) w.
Proof.
  unfold recapture. eapply exactly_iff.
  { eapply exactly_bind; [apply exactly_wrapped, exactly_digest|]. intros d0 _. apply exactly_guard. intros _.
    eapply exactly_bind; [apply exactly_ReadEnforcementPointer|]. intros fp _. apply exactly_guard. intros _.
    eapply exactly_bind; [apply exactly_wrapped, exactly_digest|]. intros d1 _. apply exactly_guard. intros _.
    eapply exactly_bind; [apply exactly_load_evidence|]. intros s _.
    eapply exactly_bind; [apply exactly_wrapped, exactly_digest|]. intros d2 _. apply exactly_guard. intros _.
    eapply exactly_bind; [apply exactly_wrapped, exactly_digest|]. intros d3 _. apply exactly_guard. intros _.
    eapply exactly_bind; [apply exactly_ledger_evidence|]. intros d4 _. apply exactly_require. }
  intros []. cbn beta. unfold database_file. split.
  - intros (d0 & [= <-] & <-%String.eqb_eq & fp & [Hp Hv] & Hfp%ptr_Equal_true & d1 & Hd1 & ->%String.eqb_eq & s & Hs &
      d2 & Hd2 & ->%String.eqb_eq & d3 & Hd3 & ->%String.eqb_eq & d4 & [_ ->] & <-%String.eqb_eq).
    split; [done|]. split; [congruence|]. split; [by apply Hv|]. split; [done|]. by exists s.
  - intros (-> & Hp & Hv & Hd1 & s & Hs & Hd2 & Hd3 & ->).
    eexists. split; [done|]. split; [by apply String.eqb_eq|]. exists (Some p).
    split; [split; [done|by intros ? [= <-]]|]. split; [by apply ptr_Equal_true|].
    eexists. split; [exact Hd1|]. split; [by apply String.eqb_eq|]. exists s. split; [done|].
    eexists. split; [exact Hd2|]. split; [by apply String.eqb_eq|].
    eexists. split; [exact Hd3|]. split; [by apply String.eqb_eq|].
    eexists. split; [split; [apply Hs|done]|]. by apply String.eqb_eq.
Qed.

Lemma authorized_unique w g s g' s' : authorized w g s → authorized w g' s' → g' = g ∧ s' = s.
Proof.
  intros H1 H2. pose proof (au_pointer _ _ _ H1) as Hp. rewrite (au_pointer _ _ _ H2) in Hp.
  assert (snap_Generation s' = snap_Generation s) as E.
  { apply (f_equal (option_map ptr_Generation)) in Hp. by injection Hp. }
  destruct (au_row _ _ _ H1) as [Hg _], (au_row _ _ _ H2) as [Hg' _]. rewrite E in Hg'.
  assert (g' = g) as -> by congruence. split; [done|].
  destruct (au_loaded _ _ _ H1) as [Hs _], (au_loaded _ _ _ H2) as [Hs' _]. congruence.
Qed.

Lemma exactly_capture w :
  exactly captureEnforcementEvidence (λ e, ∃ g s, authorized w g s ∧ e = evidence_of w g s) w.
Proof.
  unfold captureEnforcementEvidence. eapply exactly_iff.
  { eapply exactly_bind; [apply exactly_wrapped, exactly_digest|]. intros d0 _.
    apply exactly_after; [apply exactly_wrapped, exactly_sys|].
    eapply exactly_bind; [apply exactly_pointed|]. intros pg _.
    eapply exactly_bind; [apply exactly_load_evidence|]. intros s _.
    eapply exactly_bind; [apply exactly_ledger_evidence|]. intros l _.
    eapply exactly_bind; [apply exactly_digests|]. intros ds _.
    eapply exactly_bind; [apply exactly_recapture|]. intros u _. apply exactly_ret. }
  intros e. cbn beta. split.
  - intros (d0 & [= <-] & _ & [p g] & (Hset & Hp & Hv & Hg & Hsc & Hst & Hc & Hs & l & Hl) & s &
      (Hload & Hreq & Hps & Hcon) & ld & [_ ->] & [[x y] z] & (Hx & Hy & Hz) & [] & _ & ->). simpl in *. subst p.
    exists g, s. split.
    { split; [done|done|by split|by exists l|done|done|done]. }
    unfold evidence_of.
    unfold pointer_file in Hx. rewrite Hp in Hx. injection Hx as <-.
    unfold snapshot_file in Hy. destruct Hload as [Hsn _]. rewrite Hsn in Hy. injection Hy as <-.
    unfold script_file in Hz. destruct (con_script _ _ _ Hcon) as (_ & Hscr & _). rewrite Hscr in Hz. by injection Hz as <-.
  - intros (g & s & Ha & ->). destruct Ha as [Hset Hp (Hg & Hsc & Hst) Hl Hload Hreq Hcon].
    pose proof Hload as [Hsn [Hval _]]. pose proof (con_script _ _ _ Hcon) as (_ & Hscr & _).
    pose proof (ptr_valid_snap_Pointer _ Hval) as Hv. pose proof (con_row _ _ _ Hcon) as Hrow.
    eexists. split; [done|]. split; [by exists tt|]. exists (snap_Pointer s, g). simpl. split.
    { split; [done|]. split; [done|]. split; [done|]. unfold row_pointer, snap_Pointer in Hrow. injection Hrow as Hi Hsum Hck.
      by repeat (split; [done|]). }
    exists s. split; [done|]. eexists. split; [done|].
    exists (sha256_hex (json_pointer (snap_Pointer s) +:+ newline), sha256_hex (encodeGenerationSnapshot s), sha256_hex (snap_Script s)).
    unfold pointer_file, snapshot_file, script_file. simpl. rewrite Hp, Hsn, Hscr.
    split; [done|]. exists tt. split; [|done].
    split; [done|]. split; [done|]. split; [done|]. split; [done|]. exists s. by repeat (split; [done|]).
Qed.

(** The live firewall is the latest committed generation and nothing else claims the
    reserved byte. *)
Definition foreign_clear w : Prop := ∃ out audit,
  nft_list_ruleset (w_kernel w) = Some out ∧
  foreignProvenanceAuditFromJSON (listing_size (w_kernel w)) out OwnedTables = inr audit.

Definition verified w : Prop :=
  foreign_clear w ∧ intact range (w_kernel w) ∧
  ∃ g s, authorized w g s ∧ gen_ObservedHash g ≠ "" ∧ fingerprint (w_kernel w) = Some (gen_ObservedHash g).

Lemma exactly_foreign_audit w : exactly (AuditForeignProvenanceMask listing_size)
  (λ a, ∃ out, nft_list_ruleset (w_kernel w) = Some out ∧
     foreignProvenanceAuditFromJSON (listing_size (w_kernel w)) out OwnedTables = inr a) w.
Proof.
  unfold AuditForeignProvenanceMask. eapply exactly_iff.
  { eapply exactly_bind; [apply exactly_catch, exactly_sys|]. intros x _. apply exactly_lift_check. }
  intros a. cbn beta. destruct (nft_list_ruleset (w_kernel w)) as [out|]; split.
  - intros (x & [= <-] & Ha). by exists out.
  - intros (out' & [= <-] & Ha). by eexists.
  - by intros (? & ? & _).
  - by intros (? & ? & _).
Qed.

Lemma compare_same e : compareEnforcementEvidence e e = None.
Proof.
  unfold compareEnforcementEvidence. rewrite !String.eqb_refl, N.eqb_refl.
  assert (ptr_Equal (ev_pointer e) (Some (ev_pointer e)) = true) as -> by by apply ptr_Equal_true. done.
Qed.

Lemma exactly_VerifyEnforcement w : exactly VerifyEnforcement (λ _, verified w) w.
Proof.
  unfold VerifyEnforcement. eapply exactly_iff.
  { apply exactly_after; [apply exactly_wrapped, exactly_foreign_audit|].
    eapply exactly_bind; [apply exactly_wrapped, exactly_capture|]. intros e1 _. apply exactly_intact_then.
    eapply exactly_bind; [apply exactly_Fingerprint|]. intros f1 _. apply exactly_guard. intros _.
    eapply exactly_bind; [apply exactly_wrapped, exactly_capture|]. intros e2 _.
    apply exactly_after; [apply exactly_throw_if|]. apply exactly_intact_then.
    eapply exactly_bind; [apply exactly_Fingerprint|]. intros f2 _.
    apply exactly_after; [apply exactly_wrapped, exactly_foreign_audit|].
    eapply exactly_bind; [apply exactly_wrapped, exactly_capture|]. intros e3 _.
    apply exactly_after; [apply exactly_throw_if|]. apply exactly_require. }
  intros []. cbn beta. unfold verified, foreign_clear. split.
  - intros ((a & out & Hout & Ha) & e1 & (g & s & Hg & ->) & Hi & f1 & Hf & [Hn Hh]%andb_true_iff & _).
    split; [by exists out, a|]. split; [done|]. exists g, s. simpl in *.
    apply negb_true_iff, String.eqb_neq in Hn. apply String.eqb_eq in Hh as ->. done.
  - intros ((out & a & Hout & Ha) & Hi & g & s & Hg & Hn & Hf).
    assert (He : ∃ g0 s0, authorized w g0 s0 ∧ evidence_of w g s = evidence_of w g0 s0) by by exists g, s.
    assert (Haud : ∃ a, ∃ out, nft_list_ruleset (w_kernel w) = Some out ∧
      foreignProvenanceAuditFromJSON (listing_size (w_kernel w)) out OwnedTables = inr a) by by exists a, out.
    split; [done|]. exists (evidence_of w g s). split; [done|]. split; [done|].
    exists (gen_ObservedHash g). split; [done|]. simpl. split.
    { apply andb_true_iff. split; [by apply negb_true_iff, String.eqb_neq|by apply String.eqb_refl]. }
    exists (evidence_of w g s). split; [done|]. split; [exists tt; apply compare_same|]. split; [done|].
    exists (gen_ObservedHash g). split; [done|]. split; [done|].
    exists (evidence_of w g s). split; [done|]. split; [exists tt; apply compare_same|].
    by rewrite String.eqb_refl.
Qed.
End evidence.

(** ** Properties *)

(** C11: the verifier is exact.  It never changes the world; under any faults it
    accepts only when the live tables are intact with the fingerprint of the latest
    committed generation, which the durable pointer, its immutable files and the
    ledger authorize, and no foreign rule claims the reserved byte; and when no
    system call fails it accepts exactly then. *)
Theorem VerifyEnforcement_exact {K} `{Nft K} range listing_size database_bytes ledger_bytes (h : Host K) :
  let verify := VerifyEnforcement range listing_size database_bytes ledger_bytes in
  (∀ o, h_world (final (verify o h)) = h_world h) ∧
  (∀ o, result (verify o h) = Ret tt → verified range listing_size (h_world h)) ∧
  (verified range listing_size (h_world h) → result (verify [] h) = Ret tt).
Proof.
  simpl. destruct (exactly_VerifyEnforcement range listing_size database_bytes ledger_bytes (h_world h)) as [Hr Hl].
  split; [|split].
  - intros o. apply (wsafe_final _ _ _ h o (Hr (λ w, w = h_world h) eq_refl)).
  - intros o Ho. apply (wsafe_ret_elim _ _ _ h o tt (Hr (λ _, True) I) Ho).
  - intros Hv. by destruct (runs_elim _ _ _ (Hl tt Hv)) as ([] & ? & _).
Qed.

(** The sample host after its first generation passes. *)
Lemma VerifyEnforcement_exact_witness : verified sample_range (λ _, 900) (h_world gen1).
Proof.
  apply (VerifyEnforcement_exact sample_range (λ _, 900) (λ _ _ _, "db") (λ _, "ledger") gen1) with (o := []).
  rewrite gen1_eq. vm_compute. reflexivity.
Defined.
