(* ===== verification/Health.v ===== *)
(** What the status command reports (internal/nft/status.go [InspectStatus],
    internal/health/health.go [Provider.Snapshot]): one listing of the whole ruleset,
    the expected generation and the durable state are put together into a verdict.

    The counts and settings that are only copied into the answer are left out. *)

From S2P Require Import Prelude GoStrings GoTime Sha256 Json NftScript NftJson.
From S2P Require Import Ledger Snapshot Claims Host Store ClaimStore Backend Collision Manager Invariant Reads Sample Live WgControl.
From Stdlib Require Import Ascii String.
Local Open Scope string_scope.
Local Open Scope Z_scope.
Local Open Scope host_scope.
Abbreviation length := List.length.

(** ** The status inspection *)

Record StatusInspection := mkInspection {
  Owned : list NftTable; IntegrityOK : bool; IntegrityDetail : string; si_Fingerprint : string;
  ForeignProvenance : err + ForeignProvenanceAudit
}.

(** The owned documents gathered so far, and the tables whose object was seen. *)
Record documents := mkDocuments { selected : gmap string (list json); seenTables : gset string }.
Definition select (key : string) (raw : json) (d : documents) : documents :=
  mkDocuments (<[key := (default [] (selected d !! key) ++ [raw])%list]> (selected d)) (seenTables d).

Section documents.
Local Open Scope check_scope.
Context (owned : list NftTable).
Definition wanted (key : string) : bool := existsb (λ t, String.eqb (table_key t) key) owned.

Definition one_document (index : N) (raw : json) (d : documents) : err + documents :=
  let invalid := Errorf "invalid nftables object %d" [ArgN index] in
  match members raw with
  | inr [(kind, body)] =>
      if String.eqb kind "metainfo" then inr (foldr (λ t, select (table_key t) raw) d owned)
      else
        let unidentified := Errorf "invalid %s identity in nftables object %d" [ArgS kind; ArgN index] in
        match (l <-? members body ;; family <-? string_field "family" l ;; table <-? string_field "table" l ;;
               name <-? string_field "name" l ;; inr (family, table, name)) with
        | inl _ => inl unidentified
        | inr (family, table, name) =>
            fails (String.eqb family "") unidentified then?
            let tableName := if String.eqb kind "table" then name else table in
            fails (String.eqb tableName "") (Errorf "missing %s table identity in nftables object %d" [ArgS kind; ArgN index]) then?
            let key := family +:+ "/" +:+ tableName in
            if negb (wanted key) then inr d
            else
              let d' := select key raw d in
              if String.eqb kind "table" then
                fails (bool_decide (key ∈ seenTables d)) (Errorf "duplicate owned table object %s" [ArgS key]) then?
                inr (mkDocuments (selected d') ({[key]} ∪ seenTables d))
              else inr d'
        end
  | _ => inl invalid
  end.
Fixpoint all_documents (index : N) (objects : list json) (d : documents) : err + documents :=
  match objects with
  | [] => inr d
  | raw :: l => d' <-? one_document index raw d ;; all_documents (index + 1) l d'
  end.
(** The document of a table, as it is marshalled to be read again. *)
Definition document_of (d : documents) (t : NftTable) : option json :=
  Some (JObj [("nftables", match selected d !! table_key t with Some l => JArr l | None => JNull end)]).
Definition ownedTableDocuments (doc : option json) : err + (documents * list NftTable) :=
  match wrap_err "decode ruleset JSON: %w" [] (match doc with Some j => members j | None => inl json_error end) with
  | inl e => inl e
  | inr [(name, value)] =>
      fails (negb (String.eqb name "nftables")) (Errorf "ruleset JSON has no nftables array" []) then?
      match value with
      | JArr objects =>
          d <-? all_documents 0 objects (mkDocuments ∅ ∅) ;;
          inr (d, List.filter (λ t, bool_decide (table_key t ∈ seenTables d)) owned)
      | _ => inl (Errorf "ruleset nftables value is not an array" [])
      end
  | inr _ => inl (Errorf "ruleset JSON must contain only the nftables document" [])
  end.

Context (range : gset string → list string).
(** The detail of the first table that is not as it should be. *)
Fixpoint broken_table (d : documents) (observed l : list NftTable) : err + option string :=
  match l with
  | [] => inr None
  | t :: l' =>
      let key := table_key t in
      if negb (bool_decide (t ∈ observed)) then inr (Some (sprintf "owned table %s is missing" [ArgS key]))
      else
        r <-? wrap_err "nft status inspection: cannot decode %s: %w" [ArgS key] (validateOwnedTableJSON range (document_of d t) t) ;;
        if negb (r.1 : bool) then inr (Some r.2) else broken_table d observed l'
  end.
Fixpoint canonical_documents (d : documents) (l : list NftTable) : err + string :=
  match l with
  | [] => inr ""
  | t :: l' =>
      c <-? wrap_err "nft status inspection: fingerprint %s: %w" [ArgS (table_key t)] (canonicalOwnedJSON (document_of d t) t) ;;
      rest <-? canonical_documents d l' ;;
      inr (c +:+ rest)
  end.
(** [size] is the length of the listing. *)
Definition inspect_ruleset (size : N) (doc : option json) : err + StatusInspection :=
  let audit := foreignProvenanceAuditFromJSON size doc owned in
  found <-? wrap_err "nft status inspection: %w" [] (ownedTableDocuments doc) ;;
  let '(d, observed) := found in
  detail <-? broken_table d observed owned ;;
  match detail with
  | Some detail => inr (mkInspection observed false detail "" audit)
  | None =>
      text <-? canonical_documents d owned ;;
      inr (mkInspection observed true "owned table markers intact" (sha256_hex text) audit)
  end.
End documents.

Section inspection.
Context {K : Type} `{Nft K}.
Context (range : gset string → list string) (listing_size : K → N).
Abbreviation HM := (M (Host K)).
Definition InspectStatus : HM StatusInspection :=
  out <- catch (sys_read (EvNftRead "list ruleset")
                  (λ w, match nft_list_ruleset (w_kernel w) with
                        | Some out => Ret (out, listing_size (w_kernel w))
                        | None => Error ErrIO
                        end))
           (λ e, throw (Wrapf "nft status inspection: list ruleset: %w" [] e)) ;;
  lift_check (inspect_ruleset OwnedTables range out.2 out.1).
End inspection.

(** ** The snapshot *)

Record ManagedProjection := mkManaged { ma_DockerEnabled : bool; ma_DockerNetworks : Z; ma_IPv4Forwarding : bool }.
Record HealthSnapshot := mkHealth {
  Status : string; Reason : option err; Active : bool; PolicyMatch : bool; ActiveGeneration : N; PendingGeneration : option Generation;
  OwnedTables_ : list NftTable; Drift : bool; Database : string; sn_Integrations : list IntegrationState;
  KillSwitch : string; KillSwitchEnforced : bool; PolicyChecksum : string;
  BlockClaims : Z; BlockedAddresses : Z; ClaimsBySource : gmap string Z; Revisions : option (N * N);
  WireGuard_ : option Observation; RecentAudit_ : list AuditRow;
  ProvenanceLedger : string; ProvenanceDigest : string; ProvenanceMappings : list Assignment; ProvenanceAuditStatus : string
}.

Section health.
Context {K : Type} `{Nft K}.
Context (range : gset string → list string) (listing_size : K → N).
(** What SQLite's quick check of the database says. *)
Context (quick_check : World K → string).
Abbreviation HM := (M (Host K)).

(** [Provider]; the ledger and the controller are nil when there is none.  A store and a
    backend are always configured. *)
Record Provider := mkProvider {
  Ledger_ : bool; RequireProvenance : bool; AuditForeignProvenance : bool; WG : option (string → Z → HM Observation); WGName : string;
  WGHealthyWithin : Z; ActiveIntegrations : option (gset string); Managed : option ManagedProjection
}.

Definition plain (reason : string) : err := Errorf reason [].
(** What a part of the report gives, and why it degrades the status, in order. *)
Definition part (A : Type) : Type := (A * list err)%type.
Definition if_ (b : bool) (e : err) : list err := if b then [e] else [].

Definition managed_part (p : Provider) : list err :=
  match Managed p with
  | Some m => if_ (ma_DockerEnabled m && (negb (ma_IPv4Forwarding m) || (ma_DockerNetworks m =? 0))) (plain "managed Docker forwarding is not ready")
  | None => []
  end.
Definition QuickCheck : HM unit :=
  result <- sys_read (EvDBRead "PRAGMA quick_check") (λ w, Ret (quick_check w)) ;;
  require (String.eqb result "ok") (Errorf "SQLite quick_check: %s" [ArgS result]).
Definition database_part : HM (part string) :=
  r <- try_ QuickCheck ;;
  ret (match r with inl _ => ("degraded", [plain "database integrity check failed"]) | inr _ => ("ok", []) end).

Definition Assignments_ : HM (list Assignment) := sys_read (EvDBRead "provenance allocations") (λ w, Ret (assignmentsFrom (w_ledger w))).
Definition Digest_ : HM string := sys_read (EvDBRead "provenance digest") (λ w, Ret (Digest (w_ledger w))).
Definition ledger_part (p : Provider) : HM (part (string * string * list Assignment)) :=
  if Ledger_ p then
    assignments <- try_ Assignments_ ;;
    digest <- try_ Digest_ ;;
    ret (match assignments, digest with
         | inr assignments, inr digest =>
             ("ok", digest, assignments,
              if_ (RequireProvenance p && (length (List.filter (λ a, negb (Retired a)) assignments) =? 0)%nat)
                (plain "monotonic provenance ledger has no active mappings"))
         | _, _ => ("degraded", "", [], [plain "monotonic provenance ledger validation failed"])
         end)
  else ret ("unavailable", "", [], if_ (RequireProvenance p) (plain "monotonic provenance ledger is unavailable")).

Definition audit_part (p : Provider) (inspection : err + StatusInspection) : part string :=
  let failed := Wrapf "foreign provenance ownership audit failed: %w" [] in
  if AuditForeignProvenance p then
    match inspection with
    | inl e => ("degraded", [failed e])
    | inr i => match ForeignProvenance i with inl e => ("degraded", [failed e]) | inr _ => ("ok", []) end
    end
  else ("", []).

(** The expected generation, and whether its script is what was stored. *)
Definition expected_part : HM (part (option (Generation * bool))) :=
  expected <- try_ ExpectedGeneration ;;
  match expected with
  | inr g =>
      script <- try_ (ReadScript g) ;;
      ret (match script with
           | inl e => (Some (g, false), [Wrapf "expected generation artifact validation failed: %w" [] e])
           | inr _ => (Some (g, true), [])
           end)
  | inl e =>
      ret (None, [if is_no_rows e then plain "no applied or committed policy generation exists"
                  else Wrapf "expected generation read failed: %w" [] e])
  end.
Definition artifact_valid (expected : option (Generation * bool)) : bool := match expected with Some (_, valid) => valid | None => false end.

(** The comparison of the live tables: are they healthy, do they match, have they drifted.
    [reasons] are those so far. *)
Definition live_part (expected : option (Generation * bool)) (inspection : err + StatusInspection) (reasons : list err)
    : part (bool * bool * bool) :=
  let drift := negb (artifact_valid expected) in
  match inspection with
  | inl e => (false, false, true, [e])
  | inr i =>
      let all := (length (Owned i) =? length OwnedTables)%nat in
      let healthy := all && IntegrityOK i in
      let drift := drift || negb healthy in
      let why := if_ (all && negb (IntegrityOK i)) (Errorf "%s" [ArgS (IntegrityDetail i)]) in
      let '(matches, drift, differs) :=
        match expected with
        | Some (g, true) =>
            if healthy then
              if String.eqb (gen_ObservedHash g) "" then (false, true, [Errorf "generation %d lacks an observed-state fingerprint" [ArgN (gen_ID g)]])
              else if negb (String.eqb (si_Fingerprint i) (gen_ObservedHash g))
              then (false, true, [Errorf "owned nftables fingerprint differs from generation %d" [ArgN (gen_ID g)]])
              else (true, drift, [])
            else (false, drift, [])
        | _ => (false, drift, [])
        end in
      let found := (why ++ differs)%list in
      (healthy, matches, drift,
       (found ++ if_ (drift && (length (reasons ++ found) =? 0)%nat)
          (Errorf "owned table count %d/%d" [ArgZ (Z.of_nat (length (Owned i))); ArgZ (Z.of_nat (length OwnedTables))]))%list)
  end.

Definition claims_part : HM (part (Z * option (list Claim))) :=
  now <- read_clock ;;
  claims <- try_ (Claims now) ;;
  ret (match claims with
       | inr l => (Z.of_nat (length l), Some l, [])
       | inl e => (-1, None, [Wrapf "claim state read failed: %w" [] e])
       end).
Definition publication_part : HM (part (option (N * N))) :=
  publication <- try_ ClaimPublicationState ;;
  ret (match publication with
       | inl e => (None, [Wrapf "runtime claim publication state read failed: %w" [] e])
       | inr s => (Some (DesiredRevision s, AppliedRevision s),
                   if_ (negb (DesiredRevision s =? AppliedRevision s)%N) (plain "runtime claim sets are not synchronized"))
       end).
Definition tunnel_part (p : Provider) : HM (part (option Observation)) :=
  match WG p with
  | Some observe =>
      if String.eqb (WGName p) "" then ret (None, [])
      else o <- observe (WGName p) (WGHealthyWithin p) ;; ret (Some o, if_ (negb (Healthy o)) (Errorf "WireGuard %s" [ArgS (WgControl.Reason o)]))
  | None => ret (None, [])
  end.
Definition RecentAudit (limit : nat) : HM (list AuditRow) := sys_read (EvDBRead "audit") (λ w, Ret (take limit (w_audit w))).

Definition reports (p : Provider) (s : IntegrationState) : bool :=
  match ActiveIntegrations p with Some names => bool_decide (st_Name s ∈ names) | None => true end.
Definition integration_reasons (claimCount : Z) (s : IntegrationState) : list err :=
  (if_ (String.eqb (st_Name s) "runtime/claims" && negb (st_EntryCount s =? claimCount))
     (plain "runtime claim publication count differs from durable claims") ++
   if_ (negb (String.eqb (st_Status s) "healthy")) (Errorf "integration %s is degraded" [ArgS (st_Name s)]))%list.
Definition integrations_part (p : Provider) (claimCount : Z) : HM (part (list IntegrationState)) :=
  states <- try_ IntegrationStates ;;
  ret (match states with
       | inl e => ([], [Wrapf "integration state read failed: %w" [] e])
       | inr states =>
           let active := List.filter (reports p) states in
           let seen := map st_Name active in
           (active,
            (List.concat (map (integration_reasons claimCount) active) ++
             if_ (negb (bool_decide ("runtime/claims" ∈ seen))) (plain "runtime claim publication state is missing") ++
             map (λ n, Errorf "integration %s has not completed its first health check" [ArgS n])
               (List.filter (λ n, negb (bool_decide (n ∈ seen))) (range (default ∅ (ActiveIntegrations p)))))%list)
       end).

Definition blocking (c : Claim) : bool := negb (has_prefix (cl_Source c) "allow").
Definition count_source (m : gmap string Z) (c : Claim) : gmap string Z := <[cl_Source c := default 0 (m !! cl_Source c) + 1]> m.
Definition option_of {A} (r : err + A) : option A := match r with inl _ => None | inr a => Some a end.

Definition Snapshot (p : Provider) : HM HealthSnapshot :=
  let* (database, r1) <- database_part ;;
  let* (ledger, digest, mappings, r2) <- ledger_part p ;;
  inspection <- try_ (InspectStatus range listing_size) ;;
  let '(audit, r3) := audit_part p inspection in
  let* (expected, r4) <- expected_part ;;
  let before := (managed_part p ++ r1 ++ r2 ++ r3 ++ r4)%list in
  let '(healthy, matches, drift, r5) := live_part expected inspection before in
  let active := artifact_valid expected && healthy in
  let enforced := active && matches && negb drift in
  let* (claimCount, claims, r6) <- claims_part ;;
  let* (revisions, r7) <- publication_part ;;
  let* (tunnel, r8) <- tunnel_part p ;;
  audited <- try_ (RecentAudit 20) ;;
  pending <- try_ Pending_ ;;
  let* (integrations, r9) <- integrations_part p claimCount ;;
  let reasons := (before ++ r5 ++ r6 ++ r7 ++ r8 ++ r9)%list in
  let claims := default [] claims in
  ret (mkHealth (if (length reasons =? 0)%nat then "HEALTHY" else "DEGRADED") (head reasons) active enforced
    (match expected with Some (g, true) => gen_ID g | _ => 0%N end) (option_of pending)
    (match inspection with inr i => Owned i | inl _ => [] end) drift database integrations
    (if enforced then "enforced" else "degraded") enforced
    (match expected with Some (g, true) => gen_Checksum g | _ => "" end)
    (Z.of_nat (length (List.filter blocking claims)))
    (Z.of_nat (length (EffectiveAddresses claims "ipv4") + length (EffectiveAddresses claims "ipv6")))
    (foldl count_source ∅ claims) revisions tunnel (default [] (option_of audited)) ledger digest mappings audit).
End health.

(** ** What one listing shows

    The objects of an owned table in the listing of the whole ruleset. *)

Definition identity (body : json) : option (string * string * string) :=
  match members body with
  | inr l =>
      match string_field "family" l, string_field "table" l, string_field "name" l with
      | inr family, inr table, inr name => Some (family, table, name)
      | _, _, _ => None
      end
  | inl _ => None
  end.
Definition belongs (t : NftTable) (kind : string) (body : json) : bool :=
  match identity body with
  | Some (family, table, name) => String.eqb (family +:+ "/" +:+ (if String.eqb kind "table" then name else table)) (table_key t)
  | None => false
  end.
Definition is_table (t : NftTable) (raw : json) : bool :=
  match members raw with inr [(kind, body)] => String.eqb kind "table" && belongs t kind body | _ => false end.
Definition about (t : NftTable) (raw : json) : bool :=
  match members raw with inr [(kind, body)] => String.eqb kind "metainfo" || belongs t kind body | _ => false end.

(** What nft documents of its listings: that of the ruleset has the tables that are
    listed, each with the objects of its own listing. *)
Class NftListings (K : Type) `{Nft K} := {
  ruleset_lists k objects t : nft_list_ruleset k = Some (Some (JObj [("nftables", JArr objects)])) → t ∈ OwnedTables →
    (table_key t ∈ listed k ↔ existsb (is_table t) objects = true) ∧
    (existsb (is_table t) objects = true → ∃ out, nft_list_table t k = Some out ∧
       nftables out = nftables (Some (JObj [("nftables", JArr (List.filter (about t) objects))])))
}.

Section documents_exact.
Context (owned : list NftTable) (Hkeys : NoDup (map table_key owned)).
Implicit Types (d : documents) (t : NftTable).

Lemma lookup_select key raw d key' : selected (select key raw d) !! key' =
  if String.eqb key key' then Some ((default [] (selected d !! key') ++ [raw])%list) else selected d !! key'.
Proof. unfold select. simpl. destruct (String.eqb_spec key key') as [->|Hn]; [by rewrite lookup_insert_eq|by rewrite lookup_insert_ne]. Qed.
Lemma select_all l raw d t : NoDup (map table_key l) → t ∈ l →
  selected (foldr (λ t, select (table_key t) raw) d l) !! table_key t = Some ((default [] (selected d !! table_key t) ++ [raw])%list).
Proof.
  intros Hnd. assert (∀ l key, key ∉ map table_key l → selected (foldr (λ t, select (table_key t) raw) d l) !! key = selected d !! key) as Hother.
  { clear. induction l as [|x l IH]; intros key Hk; [done|]. cbn [foldr map] in *. apply not_elem_of_cons in Hk as [Hn Hk].
    rewrite lookup_select, (proj2 (String.eqb_neq _ _)) by congruence. by apply IH. }
  revert Hnd. induction l as [|x l IH]; intros Hnd Ht; [by apply elem_of_nil in Ht|]. cbn [foldr map] in *. apply NoDup_cons in Hnd as [Hx Hnd].
  rewrite lookup_select. apply elem_of_cons in Ht as [<-|Ht]; [by rewrite String.eqb_refl, Hother|].
  rewrite (proj2 (String.eqb_neq _ _)); [by apply IH|]. intros E. apply Hx. rewrite E. by apply list_elem_of_fmap_2.
Qed.
Lemma select_all_seen l raw d : seenTables (foldr (λ t, select (table_key t) raw) d l) = seenTables d.
Proof. by induction l. Qed.

(** Nothing is the same as no objects. *)
Definition gathered (d : documents) (key : string) : list json := default [] (selected d !! key).
Lemma one_document_ok index raw d d' t : one_document owned index raw d = inr d' → t ∈ owned →
  gathered d' (table_key t) = (gathered d (table_key t) ++ (if about t raw then [raw] else []))%list ∧
  (table_key t ∈ seenTables d' ↔ is_table t raw = true ∨ table_key t ∈ seenTables d).
Proof.
  intros Hd Ht. unfold one_document, about, is_table in *. destruct (members raw) as [|[|[kind body] [|]]] eqn:Em; try done.
  destruct (String.eqb_spec kind "metainfo") as [->|_].
  { injection Hd as <-. unfold gathered. rewrite select_all, select_all_seen by done. split; [done|]. split; [by right|]. by intros [?|?]. }
  cbn [orb]. unfold belongs, identity. destruct (members body) as [|l]; [done|]. cbn [err_bind] in Hd.
  destruct (string_field "family" l) as [|family]; [done|]. destruct (string_field "table" l) as [|table]; [done|].
  destruct (string_field "name" l) as [|name]; [done|]. cbn [err_bind] in Hd.
  apply err_bind_ok in Hd as ([] & _ & Hd). apply err_bind_ok in Hd as ([] & _ & Hd).
  set (key := family +:+ "/" +:+ (if String.eqb kind "table" then name else table)) in *.
  destruct (wanted owned key) eqn:Hw; cbn [negb] in Hd.
  - assert (gathered (select key raw d) (table_key t) = (gathered d (table_key t) ++ (if String.eqb key (table_key t) then [raw] else []))%list) as Hg.
    { unfold gathered. rewrite lookup_select. destruct (String.eqb_spec key (table_key t)) as [->|]; [done|by rewrite app_nil_r]. }
    destruct (String.eqb_spec kind "table") as [->|Hk]; cbn [andb].
    + apply err_bind_ok in Hd as ([] & _ & Hd). injection Hd as <-. split; [exact Hg|]. cbn. rewrite elem_of_union, elem_of_singleton, String.eqb_eq.
      split; intros [->|?]; auto.
    + injection Hd as <-. split; [exact Hg|]. cbn. split; [by right|]. by intros [?|?].
  - injection Hd as <-. assert (String.eqb key (table_key t) = false) as Hn.
    { apply String.eqb_neq. intros E. unfold wanted in Hw. rewrite (proj2 (existsb_exists _ owned)) in Hw; [done|].
      exists t. split; [by apply list_elem_of_In|]. by rewrite E, String.eqb_refl. }
    rewrite Hn, app_nil_r, andb_false_r. split; [done|]. split; [by right|]. by intros [?|?].
Qed.
Lemma all_documents_ok objects t : t ∈ owned → ∀ index d d', all_documents owned index objects d = inr d' →
  gathered d' (table_key t) = (gathered d (table_key t) ++ List.filter (about t) objects)%list ∧
  (table_key t ∈ seenTables d' ↔ existsb (is_table t) objects = true ∨ table_key t ∈ seenTables d).
Proof.
  intros Ht. induction objects as [|raw objects IH]; intros index d d' Hd.
  { injection Hd as <-. rewrite app_nil_r. split; [done|]. split; [by right|]. by intros [?|?]. }
  cbn [all_documents] in Hd. apply err_bind_ok in Hd as (d1 & H1 & Hd). apply one_document_ok with (t := t) in H1 as [G1 S1]; [|done].
  destruct (IH _ _ _ Hd) as [G2 S2]. cbn [List.filter existsb]. rewrite orb_true_iff, G2, G1, S2, S1, <-app_assoc.
  split; [by destruct (about t raw)|tauto].
Qed.
Lemma ownedTableDocuments_ok doc d observed : ownedTableDocuments owned doc = inr (d, observed) → ∃ objects,
  doc = Some (JObj [("nftables", JArr objects)]) ∧ observed = List.filter (λ t, bool_decide (table_key t ∈ seenTables d)) owned ∧
  ∀ t, t ∈ owned → (table_key t ∈ seenTables d ↔ existsb (is_table t) objects = true) ∧
    nftables (document_of d t) = nftables (Some (JObj [("nftables", JArr (List.filter (about t) objects))])).
Proof.
  unfold ownedTableDocuments. destruct doc as [[]|]; try done. cbn [members wrap_err]. destruct l as [|[name value] [|]]; try done.
  intros H. apply err_bind_ok in H as ([] & Hn & H). apply fails_ok, negb_false_iff, String.eqb_eq in Hn as ->. destruct value as [| | | |objects|]; try done.
  apply err_bind_ok in H as (d' & Hd & H). injection H as <- <-. exists objects. split; [done|]. split; [done|]. intros t Ht.
  destruct (all_documents_ok objects t Ht _ _ _ Hd) as [Hg Hs]. split; [rewrite Hs; split; [by intros [?|?]|by left]|].
  unfold document_of, gathered in *. cbn [selected] in Hg. rewrite lookup_empty in Hg. cbn [default app] in Hg. destruct (selected d' !! table_key t) as [l|]; cbn in Hg; by rewrite <-Hg.
Qed.
End documents_exact.

(** ** What is reported is so *)

Section truthful.
Context {K : Type} `{Nft K}.
Context (range : gset string → list string) (listing_size : K → N) (quick_check : World K → string).
Abbreviation HM := (M (Host K)).
Implicit Types (w : World K).

Lemma owned_keys_distinct : NoDup (map table_key OwnedTables).
Proof. apply (bool_decide_unpack _). by vm_compute. Qed.

Lemma broken_table_none d observed l : broken_table range d observed l = inr None → ∀ t, t ∈ l →
  t ∈ observed ∧ ∃ e, validateOwnedTableJSON range (document_of d t) t = inr (true, e).
Proof.
  induction l as [|x l IH]; intros Hb t Ht; [by apply elem_of_nil in Ht|]. cbn [broken_table] in Hb.
  destruct (bool_decide (x ∈ observed)) eqn:Ho; cbn [negb] in Hb; [|done]. apply bool_decide_eq_true in Ho.
  apply err_bind_ok in Hb as ([ok e] & Hv & Hb). apply wrap_err_ok in Hv. destruct ok; cbn [negb fst] in Hb; [|done].
  apply elem_of_cons in Ht as [->|Ht]; [|by apply IH]. split; [done|]. by exists e.
Qed.
Lemma nftables_validate doc doc' t : nftables doc = nftables doc' → validateOwnedTableJSON range doc t = validateOwnedTableJSON range doc' t.
Proof. unfold validateOwnedTableJSON. by intros ->. Qed.
Lemma nftables_canonical doc doc' t : nftables doc = nftables doc' → canonicalOwnedJSON doc t = canonicalOwnedJSON doc' t.
Proof. unfold canonicalOwnedJSON. by intros ->. Qed.
Lemma canonical_documents_text k d l text : canonical_documents d l = inr text →
  (∀ t, t ∈ l → ∃ out, nft_list_table t k = Some out ∧ nftables out = nftables (document_of d t)) → canonical_text k l = Some text.
Proof.
  revert text. induction l as [|t l IH]; intros text Hc Hl; [by injection Hc as <-|]. cbn [canonical_documents canonical_text] in *.
  apply err_bind_ok in Hc as (c & Hc & Hr). apply wrap_err_ok in Hc. apply err_bind_ok in Hr as (rest & Hr & [= <-]).
  destruct (Hl t) as (out & -> & Ho); [by left|]. rewrite (nftables_canonical _ _ _ Ho), Hc. rewrite (IH rest); [done|done|]. intros t' Ht. apply Hl. by right.
Qed.

(** A sound inspection is that of [Integrity] and [Fingerprint]. *)
Lemma inspect_sound `{!NftListings K} k size doc i : nft_list_ruleset k = Some doc → inspect_ruleset OwnedTables range size doc = inr i → IntegrityOK i = true →
  Owned i = OwnedTables ∧ intact range k ∧ fingerprint k = Some (si_Fingerprint i).
Proof.
  intros Hk Hi Hok. unfold inspect_ruleset in Hi. apply err_bind_ok in Hi as ([d observed] & Hd & Hi). apply wrap_err_ok in Hd.
  apply err_bind_ok in Hi as ([e|] & Hb & Hi); [injection Hi as <-; done|]. apply err_bind_ok in Hi as (text & Hc & Hi). injection Hi as <-.
  destruct (ownedTableDocuments_ok _ owned_keys_distinct _ _ _ Hd) as (objects & -> & -> & Ht). pose proof (broken_table_none _ _ _ Hb) as Hall. clear Hb.
  assert (∀ t, t ∈ OwnedTables → existsb (is_table t) objects = true) as Hin.
  { intros t Ho. destruct (Hall t Ho) as [Hf _]. apply list_elem_of_In, filter_In in Hf as [_ Hf]. apply bool_decide_eq_true in Hf. by apply (Ht t Ho). }
  assert (∀ t, t ∈ OwnedTables → ∃ out, nft_list_table t k = Some out ∧ nftables out = nftables (document_of d t)) as Hlist.
  { intros t Ho. destruct (ruleset_lists _ _ _ Hk Ho) as [_ Hl]. destruct (Hl (Hin t Ho)) as (out & E & En). exists out. split; [done|].
    by rewrite En, (proj2 (Ht t Ho)). }
  split; [|split; [split|]]; cbn [Owned si_Fingerprint].
  - assert (∀ l, (∀ t, t ∈ l → bool_decide (table_key t ∈ seenTables d) = true) → List.filter (λ t, bool_decide (table_key t ∈ seenTables d)) l = l) as Hf.
    { induction l as [|t l IH]; intros Hl; [done|]. cbn [List.filter]. rewrite (Hl t) by by left. f_equal. apply IH. intros t' ?. apply Hl. by right. }
    apply Hf. intros t Ho. apply bool_decide_eq_true. by apply (Ht t Ho), Hin.
  - intros t Ho. by apply (ruleset_lists _ _ _ Hk Ho), Hin.
  - intros t Ho. destruct (Hlist t Ho) as (out & E & En). destruct (Hall t Ho) as [_ [e Hv]]. exists out, e. split; [done|].
    by rewrite (nftables_validate _ _ _ En).
  - unfold fingerprint. by rewrite (canonical_documents_text _ _ _ _ Hc Hlist).
Qed.
(** The generation that should be in the kernel. *)
Definition expected_generation w : option Generation :=
  match select_latest flying (w_gens w) with
  | Some g =>
      if has_status [Applied] g || has_status [CommitPrepared] g && ptr_Equal (row_pointer g) (w_pointer w) then Some g
      else select_latest committed (w_gens w)
  | None => select_latest committed (w_gens w)
  end.
Definition inspected w (i : StatusInspection) : Prop := ∃ doc,
  nft_list_ruleset (w_kernel w) = Some doc ∧ inspect_ruleset OwnedTables range (listing_size (w_kernel w)) doc = inr i.
(** No table is missing, changed or without its markers: the live tables are those of [g]. *)
Definition enforced_now w (g : Generation) : Prop := expected_generation w = Some g ∧ (∃ script, script_intact w g script) ∧
  intact range (w_kernel w) ∧ fingerprint (w_kernel w) = Some (gen_ObservedHash g).
Definition foreign_clear w : Prop := ∃ doc audit, nft_list_ruleset (w_kernel w) = Some doc ∧
  foreignProvenanceAuditFromJSON (listing_size (w_kernel w)) doc OwnedTables = inr audit.
Definition claims_published w : Prop := ∃ s, ct_publication (w_claims w) = Some s ∧ DesiredRevision s = AppliedRevision s.

Lemma reads_try_sys {A} ev (f : World K → outcome A) w :
  reads (try_ (sys_read ev f)) (λ r, match r with inr a => f w = Ret a | inl e => is_no_rows e = true → f w = Error e end) w.
Proof.
  intros I HI c tr o. unfold try_, sys_read, io_write, bind, ret, throw, result, final. simpl.
  destruct (draw o) as [[] o']; simpl; try done. by destruct (f w).
Qed.
Lemma reads_try_ret {A} ev (f : World K → A) w :
  reads (try_ (sys_read ev (λ w, Ret (f w)))) (λ r, match r with inr a => a = f w | inl _ => True end) w.
Proof. eapply reads_mono; [apply reads_try_sys|]. intros [e|a]; [done|]. by intros [= ->]. Qed.
Lemma reads_expected w : reads ExpectedGeneration (λ g, expected_generation w = Some g) w.
Proof.
  unfold ExpectedGeneration. eapply reads_bind; [apply reads_try_sys|]. pose proof (reads_LastKnownGood w) as HL.
  unfold expected_generation. intros [e|g] Hp; cbn beta in Hp.
  - destruct (is_no_rows e) eqn:En; [|apply reads_throw]. specialize (Hp eq_refl). apply scan_row_no_rows in Hp; [|done].
    change (select_latest flying (w_gens w) = None) in Hp. by rewrite Hp.
  - apply scan_row_Ret in Hp as [Hp _]. change (select_latest flying (w_gens w) = Some g) in Hp. rewrite Hp.
    destruct (has_status [Applied] g); [by apply reads_ret|]. destruct (has_status [CommitPrepared] g); [|exact HL].
    eapply reads_bind; [apply reads_ReadEnforcementPointer|]. intros o ->. cbn [orb andb]. destruct (ptr_Equal _ _); [by apply reads_ret|exact HL].
Qed.

Lemma if_nil b e : if_ b e = [] → b = false.
Proof. by destruct b. Qed.
Lemma reads_database w : reads (database_part quick_check) (λ v, v.2 = [] → quick_check w = "ok") w.
Proof.
  unfold database_part. eapply reads_bind.
  { apply reads_try. unfold QuickCheck. eapply reads_bind; [apply reads_sys|]. intros r Hr. cbn beta in Hr. injection Hr as <-.
    apply reads_require with (e := Errorf "SQLite quick_check: %s" [ArgS (quick_check w)]). }
  intros [e|[]] Hr; apply reads_ret; [done|]. intros _. by apply String.eqb_eq.
Qed.
Lemma reads_ledger p w : reads (ledger_part p)
  (λ v, v.2 = [] → RequireProvenance p = true → ∃ a, a ∈ assignmentsFrom (w_ledger w) ∧ Retired a = false) w.
Proof.
  unfold ledger_part. destruct (Ledger_ p); [|apply reads_ret; intros Hr%if_nil; congruence].
  eapply reads_bind; [apply reads_try_ret|]. intros [e|l] Hl; (eapply reads_bind; [apply reads_try_ret|]); intros [e'|digest] _; apply reads_ret; try done.
  cbn [snd]. intros Hr%if_nil Hq. rewrite Hq in Hr. cbn [andb] in Hr. subst l.
  destruct (List.filter (λ a, negb (Retired a)) (assignmentsFrom (w_ledger w))) as [|a l] eqn:Ef; [done|]. exists a.
  assert (In a (List.filter (λ a, negb (Retired a)) (assignmentsFrom (w_ledger w)))) as Ha by (rewrite Ef; by left).
  apply filter_In in Ha as [Ha Hn]. split; [by apply list_elem_of_In|by apply negb_true_iff].
Qed.
Lemma reads_InspectStatus w : reads (InspectStatus range listing_size) (inspected w) w.
Proof.
  unfold InspectStatus. eapply reads_bind; [eapply reads_catch; [apply reads_sys|intros e; apply reads_throw]|].
  intros [doc size] Ho. cbn beta in Ho. destruct (nft_list_ruleset (w_kernel w)) as [doc'|] eqn:E; [|done]. injection Ho as <- <-.
  eapply reads_mono; [apply reads_lift_check|]. intros i Hi. by exists doc'.
Qed.
Lemma reads_expected_part w : reads expected_part
  (λ v, match v.1 with Some (g, true) => expected_generation w = Some g ∧ ∃ script, script_intact w g script | _ => v.2 ≠ [] end) w.
Proof.
  unfold expected_part. eapply reads_bind; [apply reads_try, reads_expected|]. intros [e|g] Hg; [by apply reads_ret|].
  eapply reads_bind; [apply reads_try, (proj1 (exactly_ReadScript g w))|]. intros [e|script] Hs; apply reads_ret; [done|]. split; [done|by exists script].
Qed.
Lemma reads_publication w : reads publication_part (λ v, v.2 = [] → claims_published w) w.
Proof.
  unfold publication_part, ClaimPublicationState, query. eapply reads_bind; [apply reads_try, reads_sys|].
  intros [e|s] Hs; apply reads_ret; [done|]. cbn [snd]. intros Hr%if_nil. apply negb_false_iff, N.eqb_eq in Hr. exists s. split; [|done].
  cbn beta in Hs. unfold read_publication, tables in Hs. unfold bind, gets in Hs. cbn in Hs. destruct (ct_publication (w_claims w)) as [s'|]; [|done].
  cbn in Hs. unfold require in Hs. destruct (_ <=? _)%N; cbn in Hs; congruence.
Qed.

(** What is said of the live tables, given what was read. *)
Lemma live_part_sound `{!NftListings K} w expected inspection before healthy matches drift r :
  match expected with Some (g, true) => expected_generation w = Some g ∧ ∃ script, script_intact w g script | _ => True end →
  match inspection with inr i => inspected w i | inl _ => True end →
  live_part expected inspection before = (healthy, matches, drift, r) →
  (artifact_valid expected && healthy && matches && negb drift = true → ∃ g, expected = Some (g, true) ∧ enforced_now w g) ∧
  ((before ++ r)%list = [] → artifact_valid expected = true → artifact_valid expected && healthy && matches && negb drift = true).
Proof.
  intros He Hi Hl. unfold live_part in Hl. destruct inspection as [e|i].
  { injection Hl as <- <- <- <-. rewrite andb_false_r. split; [done|]. by intros [_ ?]%app_eq_nil. }
  destruct expected as [[g []]|]; cbn [artifact_valid] in *; [|split; [by rewrite ?andb_false_l|done]..].
  set (all := (length (Owned i) =? length OwnedTables)%nat) in *. destruct all eqn:Ea, (IntegrityOK i) eqn:Eo; cbn in Hl.
  2-4: injection Hl as <- <- <- <-; split; [done|intros [-> Hr]%app_eq_nil; done].
  destruct (String.eqb_spec (gen_ObservedHash g) ""); [injection Hl as <- <- <- <-; split; [done|intros [-> Hr]%app_eq_nil; done]|].
  destruct (String.eqb_spec (si_Fingerprint i) (gen_ObservedHash g)) as [Ef|]; injection Hl as <- <- <- <-; cbn; split; try done.
  - intros _. exists g. split; [done|]. destruct Hi as (doc & Hk & Hi). destruct (inspect_sound _ _ _ _ Hk Hi Eo) as (_ & H1 & H2).
    destruct He as [He Hs]. unfold enforced_now. by rewrite <-Ef.
  - by intros [_ ?]%app_eq_nil.
Qed.
Definition verdict_sound (p : Provider (K := K)) w (s : HealthSnapshot) : Prop :=
  KillSwitchEnforced s = PolicyMatch s ∧
  (PolicyMatch s = true → ∃ g, enforced_now w g ∧ ActiveGeneration s = gen_ID g ∧ PolicyChecksum s = gen_Checksum g) ∧
  (Status s = "HEALTHY" → PolicyMatch s = true ∧ quick_check w = "ok" ∧ claims_published w ∧
     (AuditForeignProvenance p = true → foreign_clear w) ∧
     (RequireProvenance p = true → ∃ a, a ∈ assignmentsFrom (w_ledger w) ∧ Retired a = false)).

Lemma reads_looks {A B} (m : HM A) (k : A → HM B) Q w : reads m (λ _, True) w → (∀ a, reads (k a) Q w) → reads (bind m k) Q w.
Proof. intros Hm Hk. eapply reads_bind; [exact Hm|]. intros a _. apply Hk. Qed.
Lemma audit_part_clear (p : Provider (K := K)) w inspection : match inspection with inr i => inspected w i | inl _ => True end →
  (audit_part p inspection).2 = [] → AuditForeignProvenance p = true → foreign_clear w.
Proof.
  intros Hi Hr Ha. unfold audit_part in Hr. rewrite Ha in Hr. destruct inspection as [|i]; [done|]. destruct (ForeignProvenance i) as [|audit] eqn:Ef; [done|].
  destruct Hi as (doc & Hk & Hi). exists doc, audit. split; [done|]. unfold inspect_ruleset in Hi.
  apply err_bind_ok in Hi as ([d observed] & _ & Hi). apply err_bind_ok in Hi as ([e|] & _ & Hi); [by injection Hi as <-|].
  apply err_bind_ok in Hi as (text & _ & Hi). by injection Hi as <-.
Qed.
Lemma no_reasons {A} (l : list A) x : (if (length l =? 0)%nat then "HEALTHY" else "DEGRADED") = "HEALTHY" → x = l → x = [].
Proof. intros Hl ->. by destruct l. Qed.
Lemma reads_Snapshot p w : (∀ observe name within, WG p = Some observe → reads (observe name within) (λ _, True) w) →
  reads (Snapshot range listing_size quick_check p) (λ s, NftListings K → verdict_sound p w s) w.
Proof.
  intros Hwg. unfold Snapshot.
  eapply reads_bind; [apply reads_database|]. intros [database r1] H1. eapply reads_bind; [apply reads_ledger|]. intros [[[ledger digest] mappings] r2] H2.
  eapply reads_bind; [apply reads_try, reads_InspectStatus|]. intros inspection Hi. destruct (audit_part p inspection) as [audit r3] eqn:E3.
  eapply reads_bind; [apply reads_expected_part|]. intros [expected r4] H4. cbn [fst snd] in *.
  destruct (live_part _ _ _) as [[[healthy matches] drift] r5] eqn:E5.
  eapply reads_looks; [|intros [[claimCount claims] r6]].
  { unfold claims_part. eapply reads_looks; [apply reads_clock|]. intros now. eapply reads_looks; [eapply reads_True, reads_try, reads_sys|].
    intros [e|l]; by apply reads_ret. }
  eapply reads_bind; [apply reads_publication|]. intros [revisions r7] H7. cbn [fst snd] in *.
  eapply reads_looks; [|intros [tunnel r8]].
  { unfold tunnel_part. destruct (WG p) as [observe|]; [|by apply reads_ret]. destruct (String.eqb _ _); [by apply reads_ret|].
    eapply reads_looks; [by apply Hwg|]. intros ob. by apply reads_ret. }
  eapply reads_looks; [eapply reads_True, reads_try, reads_sys|]. intros audited.
  eapply reads_looks; [eapply reads_True, reads_try, reads_sys|]. intros pending.
  eapply reads_looks; [|intros [integrations r9]].
  { unfold integrations_part. eapply reads_looks; [eapply reads_True, reads_try, reads_sys|]. intros [e|l]; by apply reads_ret. }
  apply reads_ret. intros HL. eapply live_part_sound in E5 as [L1 L2]; [|by destruct expected as [[g []]|]|exact Hi].
  split; [done|]. cbn [PolicyMatch Status ActiveGeneration PolicyChecksum]. split.
  - intros Hm. destruct (L1 Hm) as (g & -> & Hg). by exists g.
  - intros Hs. eapply no_reasons in Hs; [|done]. rewrite <-!app_assoc in Hs.
    apply app_eq_nil in Hs as [Hm Hs]. apply app_eq_nil in Hs as [-> Hs]. apply app_eq_nil in Hs as [-> Hs]. apply app_eq_nil in Hs as [-> Hs].
    apply app_eq_nil in Hs as [-> Hs]. apply app_eq_nil in Hs as [-> Hs]. apply app_eq_nil in Hs as [_ Hs]. apply app_eq_nil in Hs as [-> _].
    split_and!; [|by apply H1|by apply H7|apply (audit_part_clear _ _ _ Hi); by rewrite E3|by apply H2].
    apply L2; [by rewrite Hm|]. by destruct expected as [[g []]|].
Qed.

(** C8: What the status command reports is so, and reporting changes nothing: when it says
    that the policy matches and the kill switch is enforced, the live tables are intact
    with the fingerprint of the expected generation, whose stored script has its
    checksum; when it says healthy, it says that too, the database passes its check, no
    foreign rule claims the provenance byte, the ledger has a live identity and the
    claims in the kernel are those of the database. *)
Theorem Snapshot_truthful `{!NftListings K} p o h s :
  (∀ observe name within w, WG p = Some observe → reads (observe name within) (λ _, True) w) →
  result (Snapshot range listing_size quick_check p o h) = Ret s →
  h_world (final (Snapshot range listing_size quick_check p o h)) = h_world h ∧ verdict_sound p (h_world h) s.
Proof.
  intros Hwg Hs. eapply (wsafe_ret_elim (λ _, True) _ (λ s w', w' = h_world h ∧ verdict_sound p (h_world h) s)); [|exact Hs].
  eapply wsafe_mono; [apply (reads_Snapshot p (h_world h)); [intros; by apply Hwg|done]|]. intros a w' _ [-> Ha]. split; [done|by apply Ha].
Qed.
End truthful.


(** ** A sample: the first generation in force, and its tables gone *)

Lemma sample_shown script t : t ∈ OwnedTables →
  existsb (is_table t) (obj "metainfo" [("json_schema_version", JNum 1)] :: List.concat (map (λ t, ruleset_of t script) OwnedTables)) = true ∧
  nftables (doc (ruleset_of t script)) = nftables (Some (JObj [("nftables", JArr (List.filter (about t)
    (obj "metainfo" [("json_schema_version", JNum 1)] :: List.concat (map (λ t, ruleset_of t script) OwnedTables))))])) ∧
  table_key t ∈ listed (Some script).
Proof.
  intros Ht. assert (listed (Some script) = list_to_set (map table_key OwnedTables)) as E by (vm_compute; reflexivity).
  split_and!; [| |rewrite E; by apply elem_of_list_to_set, list_elem_of_fmap_2];
    repeat (apply elem_of_cons in Ht as [->|Ht]; [vm_compute; reflexivity|]); by apply elem_of_nil in Ht.
Qed.
#[export] Instance sample_listings : NftListings (option string).
Proof.
  split. intros [script|] objects t Hk Ht; cbn [nft_list_ruleset nft_list_table sample_nft] in *.
  - injection Hk as <-. destruct (sample_shown script t Ht) as (H1 & H2 & H3). split; [split; intros _; [exact H1|exact H3]|]. intros _. eexists. split; [reflexivity|]. exact H2.
  - injection Hk as <-. assert (listed (None : option string) = ∅) as -> by (vm_compute; reflexivity).
    assert (existsb (is_table t) [obj "metainfo" [("json_schema_version", JNum 1)]] = false) as -> by reflexivity. split; [|done]. by split.
Qed.

Definition sample_provider : Provider (K := option string) := mkProvider true true true None "" 0 (Some {["runtime/claims"]}) None.
Definition reported (kernel : option string) : Host (option string) :=
  let w := h_world gen1_nf in
  mkHost (mkWorld (w_dir w) (w_gens w) (w_audit w) (w_scripts w) (w_snapshots w) (w_pointer w) (w_durable w) (w_tmp w) (w_prepared w)
    {["wan0" := mkAlloc 1 false 1000 None]} kernel (w_first_use w) (w_boot_id w)
    (mkTables ∅ 0 {["runtime/claims" := mkIntegration "healthy" 0 (Some 1000) (Some 1000)]} (Some (mkPublication 1 1)))) (h_clock gen1_nf) [].
Definition sample_snapshot (kernel : option string) : outcome HealthSnapshot :=
  result (Snapshot sample_range (λ _, 900%N) (λ _, "ok") sample_provider [] (reported kernel)).
Definition verdict (r : outcome HealthSnapshot) : option (string * bool * string) :=
  match r with Ret s => Some (Status s, PolicyMatch s, KillSwitch s) | _ => None end.
Example sample_verdicts :
  verdict (sample_snapshot (w_kernel (h_world gen1_nf))) = Some ("HEALTHY", true, "enforced") ∧
  verdict (sample_snapshot None) = Some ("DEGRADED", false, "degraded") ∧
  verdict (sample_snapshot (Some (ruleset "other"))) = Some ("DEGRADED", false, "degraded").
Proof. vm_compute. done. Qed.

Lemma Snapshot_truthful_witness : ∃ s, sample_snapshot (w_kernel (h_world gen1_nf)) = Ret s ∧
  verdict_sound sample_range (λ _, 900%N) (λ _, "ok") sample_provider (h_world (reported (w_kernel (h_world gen1_nf)))) s ∧ Status s = "HEALTHY".
Proof.
  assert (verdict (sample_snapshot (w_kernel (h_world gen1_nf))) = Some ("HEALTHY", true, "enforced")) as E by (vm_compute; reflexivity).
  destruct (sample_snapshot (w_kernel (h_world gen1_nf))) as [s| |] eqn:Es; [|discriminate E..]. exists s. split; [reflexivity|]. split.
  - refine (proj2 (Snapshot_truthful sample_range (λ _, 900%N) (λ _, "ok") sample_provider [] _ s _ Es)). intros observe name within w Hw. discriminate Hw.
  - cbn in E. congruence.
Defined.
