(* ===== verification/Protocol.v ===== *)
(** The commit protocol as a whole: every operation of the manager, whatever fails
    or crashes in it, keeps the durable-state invariant, never loses a committed
    generation and never takes down the tables of a committed one; so do all
    sequences of operations, restarts and power losses. *)

From S2P Require Import Prelude GoStrings GoTime Sha256 Json NftScript NftJson Ledger Snapshot.
From S2P Require Import Claims Host Store Backend Manager Recovery Invariant Reads Safety Sample.
From Stdlib Require Import Ascii String.
Local Open Scope string_scope.
Local Open Scope N_scope.
Local Open Scope host_scope.

Section protocol.
Context {K : Type} `{NftLaws K}.
Context (range : gset string → list string).
Abbreviation HM := (M (Host K)).
Implicit Types (w : World K) (m : Manager K) (c : Ctx).

(** ** The files of a row *)

Lemma row_files w id g : Inv w → w_gens w !! id = Some g → ∃ s,
  w_snapshots w !! id = Some s ∧ w_scripts w !! id = Some (snap_Script s) ∧ snapshot_matches g s ∧
  prior_known (w_gens w) (snap_Previous s) ∧ (flying g = true → snap_Previous s = lkp (w_gens w)).
Proof. intros HI Hg. destruct (inv_rows _ HI _ _ Hg) as [_ _ _ (s & ? & ? & ? & ? & ? & _)]. by exists s. Qed.

Lemma row_script_installs w id g script : Inv w → w_gens w !! id = Some g →
  w_scripts w !! id = Some script → installs script = true.
Proof.
  intros HI Hg Hs. destruct (row_files _ _ _ HI Hg) as (s & _ & Hsc & M & _).
  rewrite Hs in Hsc. injection Hsc as ->. apply M.
Qed.

Lemma latest_row w p g : Inv w → select_latest p (w_gens w) = Some g → w_gens w !! gen_ID g = Some g ∧ p g = true.
Proof. intros HI Hg. apply select_latest_Some in Hg as (? & ? & _); [done|by apply Inv_keyed]. Qed.

Lemma snapshot_unique w id g s : Inv w → w_gens w !! id = Some g → loaded id w s →
  snapshot_matches g s ∧ installs (snap_Script s) = true ∧ (flying g = true → snap_Previous s = lkp (w_gens w)).
Proof.
  intros HI Hg (Hs & _). destruct (row_files _ _ _ HI Hg) as (s' & Hs' & _ & M & _ & Hf).
  rewrite Hs in Hs'. injection Hs' as <-. split; [done|]. split; [apply M|done].
Qed.

Lemma pointerMatchesPrevious_true p o : pointerMatchesPrevious p o = true → o = p.
Proof.
  destruct p as [p|]; simpl; [by intros ->%ptr_Equal_true|].
  destruct o; [|done]. by rewrite bool_decide_eq_true_2 by eauto.
Qed.

(** ** Rollback *)

Lemma Calm_rollback_predecessor g s w : Inv w → prior_known (w_gens w) (snap_Previous s) →
  Calm (rollback_predecessor g s)
    (λ r _, match r with Some script => installs script = true | None => gen_PreviousID g = None end) w.
Proof.
  intros HI Hpk. unfold rollback_predecessor. destruct (gen_PreviousID g) as [pid|]; [|by apply Calm_ret].
  eapply Calm_bind; [apply Calm_reads, reads_GenerationByID|]. intros prev ? _ [-> Hprev].
  destruct (snap_Previous s) as [p|]; [|apply Calm_throw]. destruct Hpk as (gp & Hgp & _).
  eapply Calm_bind; [apply Calm_reads, reads_require|]. intros [] ? _ [-> _].
  eapply Calm_bind; [apply Calm_wrap, Calm_EnsureDurable|]. intros ps w1 Hev1 (Hld & Hsp & Hp & _).
  eapply Calm_bind; [apply Calm_wrap, Calm_reads, reads_validateGenerationSnapshot|].
  intros [] ? _ [-> _]. apply Calm_ret. by destruct (snapshot_unique _ _ _ _ HI Hgp Hld) as (_ & ? & _).
Qed.

(** The candidate's pointer is published but not known to be on stable storage: the
    rename took effect and the syncs that follow it did not complete. *)
Definition unsynced id w : Prop := ∃ g, w_gens w !! id = Some g ∧ gen_Status g = CommitPrepared ∧
  w_pointer w = Some (row_pointer g) ∧ w_durable w ≠ w_pointer w.

Lemma flying_cases g : flying g = true ↔ gen_Status g = Pending ∨ gen_Status g = Applied ∨ gen_Status g = CommitPrepared.
Proof. unfold flying. destruct (gen_Status g); simpl; naive_solver. Qed.

(** After the kernel decision: record the rollback, clear a first generation's
    marker, audit. *)
Lemma wsafe_rollback_tail w0 id g (previous : option string) w : Safe w0 w → candidate id w g →
  w_pointer w = lkp (w_gens w) → (previous = None → lkp (w_gens w) = None) →
  wsafe (Safe w0)
    (MarkRolledBack id ;;
     match previous with None => wrapped "clear active boot snapshot: %w" ClearActive | Some _ => ret tt end ;;
     Audit "system" "generation_rolled_back" (sprintf "generation=%d" [ArgN id])) (λ _ _, True) w.
Proof.
  intros HS Hc Hp Hn. apply wsafe_bind. eapply wsafe_mono; [by eapply wsafe_MarkRolledBack|].
  intros [] w1 HS1 (g1 & a & Hg1 & ->).
  eapply wsafe_calm with (Q := λ _ _, True); [apply closed_Safe|done| |].
  { destruct previous; [by apply Calm_ret|]. apply Calm_wrap, Calm_ClearActive. simpl. by rewrite Hp, Hn. }
  intros [] w2 HS2 _ _. eapply wsafe_mono; [by apply Calm_Audit; [apply closed_Safe|]|]. done.
Qed.

Lemma wsafe_rollback w0 m c id w : restores_sets m → Safe w0 w → ¬ unsynced id w →
  wsafe (Safe w0) (rollbackLocked m c id) (λ _ _, True) w.
Proof.
  intros Hm HS Hsync. assert (HI := proj1 HS). unfold rollbackLocked.
  eapply wsafe_reads; [done|apply reads_audit|]. intros [] _.
  eapply wsafe_reads; [done|apply reads_GenerationByID|]. intros g Hg. cbn beta in Hg.
  destruct (flying g) eqn:Hf; [|unfold flying in Hf; by destruct (gen_Status g)].
  match goal with |- wsafe _ (match gen_Status g with Pending => ?p | _ => _ end) _ _ => set (body := p) end.
  assert (wsafe (Safe w0) body (λ _ _, True) w) as Hbody; [|unfold flying in Hf; by destruct (gen_Status g)].
  unfold body. clear body.
  eapply wsafe_reads; [done|apply reads_wrapped, reads_LoadVerified|]. intros s Hs.
  destruct (snapshot_unique _ _ _ _ HI Hg Hs) as (M & _ & Hprev). specialize (Hprev Hf).
  assert (Hpk : prior_known (w_gens w) (snap_Previous s)).
  { destruct (row_files _ _ _ HI Hg) as (s' & Hs' & _ & _ & Hpk & _). destruct Hs as (Hs & _).
    rewrite Hs in Hs'. by injection Hs' as ->. }
  eapply wsafe_reads; [done|apply reads_wrapped, reads_validateGenerationSnapshot|]. intros [] _.
  eapply wsafe_reads; [done|apply reads_ReadEnforcementPointer|]. intros o ->.
  destruct (has_status [CommitPrepared] g && _) eqn:Hwon.
  { apply andb_true_iff in Hwon as [Hst%has_status_true Hp%ptr_Equal_true].
    assert (gen_Status g = CommitPrepared) as E by set_solver.
    rewrite (sm_pointer _ _ M) in Hp.
    assert (w_durable w = Some (row_pointer g)) as Hd.
    { destruct (decide (w_durable w = w_pointer w)) as [Hd|Hd]; [congruence|].
      destruct Hsync. by exists g. }
    apply wsafe_bind. apply wsafe_rethrow; [done|]. eapply wsafe_mono; [by eapply wsafe_FinalizeCommit|].
    intros [] w1 HS1 _. by apply wsafe_throw. }
  eapply wsafe_reads; [done|apply reads_require|]. intros [] Hpm%pointerMatchesPrevious_true.
  assert (Hp : w_pointer w = lkp (w_gens w)) by congruence.
  cbv zeta. set (first := bool_decide (gen_PreviousID g = None) && has_status [Pending] g).
  eapply wsafe_reads with (Q := λ _, True); [done| |].
  { destruct first; [|by apply reads_ret].
    eapply reads_bind; [apply reads_wrapped, reads_ExistingOwned|]. intros e _. eapply reads_True, reads_require. }
  intros [] _. eapply wsafe_calm; [apply closed_Safe|done|by apply Calm_rollback_predecessor|].
  intros previous w1 HS1 Hev1 Hprevious. assert (HI1 := proj1 HS1).
  destruct (candidate_evolved _ _ _ _ (conj Hg Hf) Hev1) as (g1 & Hg1 & _).
  pose proof (unpublished_evolved _ _ HI Hp Hev1) as Hp1.
  assert (Hnone : previous = None → lkp (w_gens w1) = None).
  { intros ->. rewrite <-Hp1, (calm_pointer _ _ (proj1 Hev1)), Hp, <-Hprev.
    pose proof (sm_previous _ _ M) as E. rewrite Hprevious in E. by destruct (snap_Previous s). }
  apply wsafe_bind. apply wsafe_mono with (P := λ _ w2, calm w1 w2).
  { destruct previous as [script|].
    - eapply wsafe_calm; [apply closed_Safe|done|by apply Calm_install|]. intros [] w2 HS2 Hev2 _.
      eapply wsafe_mono; [by apply Calm_restoreRuntime; [|apply closed_Safe|]|].
      intros [] w3 _ (Hc3 & _). etransitivity; [apply Hev2|done].
    - destruct first; [by apply wsafe_ret|]. by apply wsafe_DestroyOwned; [|apply Hnone]. }
  intros [] w2 HS2 Hc2.
  assert (Hg2 : ∃ g2, candidate id w2 g2).
  { destruct Hg1 as [Hg1 Hf1]. destruct (same_rows_lookup _ _ _ _ (calm_gens _ _ Hc2) Hg1) as (g2 & Hg2 & E).
    exists g2. split; [done|]. apply with_hash_eq in E as (_ & E & _). unfold flying in *. by rewrite E. }
  destruct Hg2 as (g2 & Hg2).
  assert (El : lkp (w_gens w2) = lkp (w_gens w1)) by (apply same_rows_lkp; [by apply Inv_keyed|apply Hc2]).
  eapply wsafe_rollback_tail; [done|done|by rewrite (calm_pointer _ _ Hc2), El|]. rewrite El. done.
Qed.

(** A candidate whose pointer is not published is never in the unsynced state. *)
Lemma not_unsynced id w : Inv w → w_pointer w = lkp (w_gens w) → ¬ unsynced id w.
Proof.
  intros HI Hp (g & Hg & Hst & Hpg & _).
  apply (candidate_pointer _ _ _ HI Hg (prepared_flying _ Hst)). congruence.
Qed.

Lemma not_unsynced_status id w g : w_gens w !! id = Some g → gen_Status g ≠ CommitPrepared → ¬ unsynced id w.
Proof. intros Hg Hst (g' & Hg' & Hst' & _). congruence. Qed.

(** ** Commit *)

(** Between [PrepareCommit] and the end of [commitLocked]. *)
(** A successful commit: published, and the kernel's tables not taken away. *)
Definition committed_at (id : N) w w' : Prop := published id w' ∧ (present (w_kernel w) → present (w_kernel w')).

Lemma wsafe_commit_body w0 m c id p w g : restores_sets m → Safe w0 w →
  w_gens w !! id = Some g → gen_Status g = CommitPrepared → w_pointer w = lkp (w_gens w) →
  p = row_pointer g → w_tmp w = Some p →
  wsafe (Safe w0)
    (deadline <- wrapped "read final commit deadline: %w" (PreparedDeadline id) ;;
     late <- expired deadline ;;
     if late : bool then
       catch CancelPreparedPointer
         (λ e, throw (Wrapf "generation %d expired; cancel prepared pointer: %w" [ArgN id] e)) ;;
       catch (rollbackLocked m c id)
         (λ e, throw (Wrapf "generation %d expired and rollback failed: %w" [ArgN id] e)) ;;
       throw (Errorf "generation %d expired and was rolled back" [ArgN id])
     else
       wrapped "publish enforcement pointer: %w" (PublishPreparedPointer p) ;;
       wrapped "enforcement pointer published; generation finalization requires recovery: %w"
         (FinalizeCommit id))
    (λ _ w', committed_at id w w') w.
Proof.
  intros Hm HS Hg Hst Hp -> Ht. assert (HI := proj1 HS).
  eapply wsafe_reads; [done|apply reads_wrapped, reads_PreparedDeadline|]. intros d _.
  eapply wsafe_reads; [done|apply reads_expired|]. intros [] _.
  - eapply wsafe_calm; [apply closed_Safe|done|apply Calm_wrap, Calm_Cancel|]. intros [] w1 HS1 Hev _.
    apply wsafe_bind. eapply wsafe_mono.
    { apply wsafe_rethrow; [done|]. apply wsafe_rollback; [done|done|].
      apply not_unsynced; [apply HS1|]. by eapply unpublished_evolved. }
    intros [] w2 HS2 _. by apply wsafe_throw.
  - apply wsafe_bind. eapply wsafe_mono; [apply wsafe_rethrow; [done|by eapply wsafe_Publish]|].
    intros [] w1 HS1 (Eg & Hp1 & Hd1 & Hk1). apply wsafe_rethrow; [done|].
    eapply wsafe_mono; [eapply wsafe_FinalizeCommit; [done|by rewrite Eg|done|done|done]|].
    intros [] w2 _ (? & Hk2 & _). split; [done|]. by rewrite Hk2, Hk1.
Qed.

Lemma published_calm id w w' : published id w → calm w w' → published id w'.
Proof.
  intros (g & Hg & Hc & Hp & Hd) Hcm.
  destruct (same_rows_lookup _ _ _ _ (calm_gens _ _ Hcm) Hg) as (g' & Hg' & (_ & E & E' & _)%with_hash_eq).
  exists g'. split; [done|]. split; [unfold committed in *; by rewrite E|].
  rewrite E', (calm_pointer _ _ Hcm). split; [done|]. destruct (calm_durable _ _ Hcm); congruence.
Qed.

Lemma wsafe_commitLocked w0 m c id w : restores_sets m → Safe w0 w →
  wsafe (Safe w0) (commitLocked m c id) (λ _ w', committed_at id w w') w.
Proof.
  intros Hm HS. assert (HI := proj1 HS). unfold commitLocked.
  eapply wsafe_reads; [done|apply reads_GenerationByID|]. intros g Hg. cbn beta in Hg.
  eapply wsafe_reads; [done|apply reads_require|]. intros [] Hst%has_status_true.
  assert (gen_Status g = Applied) as Est by set_solver.
  assert (Hf : flying g = true) by (apply flying_cases; auto).
  eapply wsafe_reads; [done|apply reads_wrapped, reads_LoadGenerationSnapshot|]. intros s Hs. cbn beta in Hs.
  destruct (snapshot_unique _ _ _ _ HI Hg Hs) as (M & _ & Hprev).
  assert (Hset : settled w) by (eapply unprepared_settled; [done|done|done|congruence]).
  eapply wsafe_reads; [done|apply reads_ReadEnforcementPointer|]. intros o _.
  eapply wsafe_reads; [done|apply reads_require|]. intros [] _.
  eapply wsafe_reads; [done|apply reads_audit|]. intros [] _.
  apply wsafe_bind. eapply wsafe_mono; [apply wsafe_rethrow; [done|by apply wsafe_PrepareCommit]|].
  intros _ w1 HS1 (g' & s' & now & a & Hg' & _ & Hs' & Ew1).
  assert (g' = g) as -> by congruence. assert (s' = s) as -> by (destruct Hs; congruence).
  assert (Hl1 : w_gens w1 !! id = Some (prepared now (snap_Previous s) g)) by (subst w1; apply lookup_insert_eq).
  assert (El1 : lkp (w_gens w1) = lkp (w_gens w)).
  { subst w1. apply set_row_lkp with g; [done|done|done|]. unfold committed. by rewrite Est. }
  assert (Hp1 : w_pointer w1 = lkp (w_gens w1)) by (rewrite El1; subst w1; apply Hset).
  eapply wsafe_calm; [apply closed_Safe|done|apply Calm_wrap, Calm_PreparePointer|].
  intros q w2 HS2 Hev2 (-> & Ht & _).
  destruct (candidate_evolved w1 w2 id _ (conj Hl1 eq_refl) Hev2) as (g2 & [Hg2 _] & E).
  apply with_hash_eq in E as (_ & E1 & E2 & _).
  apply wsafe_finally.
  - eapply wsafe_mono; [eapply wsafe_commit_body; [done|done|done|by rewrite E1| | |done]|].
    3: { intros [] w3 _ [Hpub Hpr]. split; [done|]. intros Hp0. apply Hpr, (proj2 Hev2). by subst w1. }
    + by eapply unpublished_evolved; [apply HS1| |].
    + by rewrite E2, (sm_pointer _ _ M).
  - intros Q w' HQ HS' HQ'.
    assert (closed (λ w, Safe w0 w ∧ Q w)) as HC.
    { intros x y [Hx Hq] Hc Hpr. split; [by eapply closed_Safe|].
      destruct HQ as [[? ->]| ->]; [|done]. destruct Hq as [Hq Hq']. split; [by eapply published_calm|auto]. }
    eapply wsafe_mono; [by apply Calm_Cancel; [apply HC|]|done].
Qed.

(** ** The process lock *)

Lemma wsafe_lock {A} w0 m c (body : Ctx → HM A) (P : A → World K → Prop) w : Safe w0 w →
  (∀ c, wsafe (Safe w0) (body c) P w) → wsafe (Safe w0) (with_process_lock m c body) P w.
Proof.
  intros HS Hb. unfold with_process_lock. destruct (ctx_locked c); [apply Hb|].
  eapply wsafe_reads; [done|apply reads_require|]. intros [] _.
  eapply wsafe_reads; [done|apply reads_sys|]. intros [] _.
  apply wsafe_finally; [apply Hb|]. intros Q w' HQ HS' HQ'.
  apply wsafe_sys_read; [done|]. done.
Qed.

Lemma wsafe_Commit w0 m c id w : restores_sets m → Safe w0 w →
  wsafe (Safe w0) (Commit m c id) (λ _ w', committed_at id w w') w.
Proof.
  intros Hm HS. apply wsafe_lock; [done|]. clear c. intros c. assert (HI := proj1 HS).
  eapply wsafe_reads; [done|apply reads_Pending|]. intros g [Hg Hf]%(latest_row w flying g HI).
  eapply wsafe_reads; [done|apply reads_require|]. intros [] Hid%N.eqb_eq.
  eapply wsafe_reads; [done|apply reads_require|]. intros [] Hst%has_status_true.
  assert (gen_Status g = Applied) as Est by set_solver. rewrite Hid in Hg.
  assert (Hns : ¬ unsynced id w) by (eapply not_unsynced_status; [done|congruence]).
  assert (Hrb : ∀ h e, wsafe (Safe w0) (catch (rollbackLocked m c id) (λ e, throw (h e)) ;; throw e)
    (λ (_ : unit) w', committed_at id w w') w).
  { intros h e. apply wsafe_bind. eapply wsafe_mono; [apply wsafe_rethrow; [done|by apply wsafe_rollback]|].
    intros [] w1 HS1 _. by apply wsafe_throw. }
  eapply wsafe_reads; [done|apply reads_expired|]. intros [] _; [apply Hrb|].
  eapply wsafe_reads; [done|apply reads_try, reads_Fingerprint|]. intros r _.
  destruct (match r with inl _ => true | inr _ => _ end); [apply Hrb|by apply wsafe_commitLocked].
Qed.

Lemma wsafe_Rollback w0 m c id w : restores_sets m → Safe w0 w → ¬ unsynced id w →
  wsafe (Safe w0) (Rollback m c id) (λ _ _, True) w.
Proof. intros Hm HS Hns. apply wsafe_lock; [done|]. intros c'. by apply wsafe_rollback. Qed.

(** ** Saving a candidate *)

Lemma Safe_files w0 w w' : Safe w0 w → Inv w' → w_gens w' = w_gens w → w_kernel w' = w_kernel w → Safe w0 w'.
Proof. intros (_ & Hle & Hp) HI Eg Ek. split; [done|]. rewrite Eg, Ek. done. Qed.

Lemma wsafe_save_script w0 id script w : Safe w0 w →
  wsafe (Safe w0) (save_script id script)
    (λ _ w', ∃ mp, w' = set_scripts mp w ∧ mp !! id = Some script) w.
Proof.
  intros HS. assert (HI := proj1 HS). unfold save_script, read_script_file.
  eapply wsafe_reads; [done|apply reads_try, reads_sys|]. intros [e|old] Hold.
  - destruct (is_not_exist e); [|by apply wsafe_throw]. unfold write_script.
    apply wsafe_bind. apply wsafe_sys_write; [done|]. intros [] w'.
    destruct (w_scripts w !! id) eqn:Hn; [done|]. intros [= <-].
    match goal with |- Safe _ ?w' ∧ _ => assert (Safe w0 w') end.
    { eapply Safe_files; [done|by apply Inv_script_written|done|done]. }
    split; [done|]. eapply wsafe_mono; [by apply reads_sys|]. intros [] w' _ [-> _].
    eexists. split; [done|]. apply lookup_insert_eq.
  - eapply wsafe_mono; [by apply reads_require|]. intros [] w' _ [-> ->%String.eqb_eq].
    exists (w_scripts w). cbn beta in *. destruct (w_scripts w !! id); [|done]. injection Hold as ->. by destruct w.
Qed.

Lemma wsafe_WriteSnapshot w0 s w : Safe w0 w →
  wsafe (Safe w0) (WriteGenerationSnapshot s)
    (λ path w', ∃ mp, w' = set_snapshots mp w ∧ mp !! snap_Generation s = Some s ∧ validateSnapshot s = None ∧
       path = generationSnapshotPath (w_dir w) (snap_Generation s)) w.
Proof.
  intros HS. assert (HI := proj1 HS). unfold WriteGenerationSnapshot, secureActiveDirectory, secureGenerationsDirectory.
  eapply wsafe_reads; [done|apply reads_sys|]. intros [] _.
  eapply wsafe_reads; [done|apply reads_throw_if|]. intros [] Hv.
  eapply wsafe_reads; [done|apply reads_require|]. intros [] _.
  eapply wsafe_reads; [done|apply reads_sys|]. intros [] _.
  eapply wsafe_reads; [done|apply reads_peek|]. intros dir ->. unfold read_snapshot_file.
  eapply wsafe_reads; [done|apply reads_try, reads_sys|]. intros [e|old] Hold.
  - destruct (is_not_exist e); [|by apply wsafe_throw]. apply wsafe_bind. apply wsafe_rethrow; [done|].
    unfold write_snapshot. apply wsafe_bind. apply wsafe_sys_write; [done|]. intros [] w'.
    destruct (w_snapshots w !! _) eqn:Hn; [done|]. intros [= <-].
    match goal with |- Safe _ ?w' ∧ _ => assert (Safe w0 w') end.
    { eapply Safe_files; [done|by apply Inv_snapshot_written|done|done]. }
    split; [done|]. eapply wsafe_mono; [by apply reads_sys|]. intros [] w' _ [-> _].
    apply wsafe_ret; [done|]. eexists. split; [done|]. split; [apply lookup_insert_eq|done].
  - case_bool_decide as E; [|by apply wsafe_throw]. subst old. apply wsafe_ret; [done|].
    exists (w_snapshots w). cbn beta in *. destruct (w_snapshots w !! _); [|done]. injection Hold as ->. by destruct w.
Qed.

Lemma reads_read_prior p w : Inv w → reads (read_prior p)
  (λ q, ∃ g, w_gens w !! p = Some g ∧ committed g = true ∧ q = row_pointer g) w.
Proof.
  intros HI. unfold read_prior. rstep. rstep. intros q Hq. cbn beta in Hq.
  destruct (w_gens w !! p) as [g|] eqn:Hg; [|done]. destruct (has_status _ g) eqn:Hst; [|done].
  injection Hq as <-. exists g. split; [done|]. split.
  - apply has_status_true in Hst. unfold committed. apply bool_decide_eq_true. set_solver.
  - unfold row_pointer. by rewrite (Inv_keyed _ HI _ _ Hg).
Qed.

(** The candidate is saved and nothing about it is published. *)
Definition awaiting (id : N) (previous : option Generation) w : Prop :=
  (∃ g, candidate id w g) ∧ w_pointer w = lkp (w_gens w) ∧
  match previous with
  | None => lkp (w_gens w) = None
  | Some p => ∃ gp, w_gens w !! gen_ID p = Some gp
  end.

(** The identifier follows every generation of the table ([NextGeneration]), unless
    it is taken already. *)
Definition fresh_id (id : N) (mp : Gens) : Prop :=
  mp !! id = None → ∀ id' g, mp !! id' = Some g → id' < id.

Lemma wsafe_Save w0 id checksum script previous deadline meta w : Safe w0 w →
  select_latest flying (w_gens w) = None → select_latest committed (w_gens w) = previous →
  installs script = true → fresh_id id (w_gens w) →
  wsafe (Safe w0) (SaveGenerationWithMetadata id checksum script (gen_ID <$> previous) deadline meta)
    (λ _ w', awaiting id previous w' ∧ ∃ g, w_gens w' !! id = Some g ∧ gen_Status g = Pending) w.
Proof.
  intros HS Hfl Hprev Hinst Hfresh. assert (HI := proj1 HS). unfold SaveGenerationWithMetadata.
  eapply wsafe_reads; [done|apply reads_require|]. intros [] _.
  eapply wsafe_reads; [done|apply reads_require|]. intros [] Hsize.
  do 3 (eapply wsafe_reads; [done|apply reads_require|]; intros [] _).
  destruct (ValidateActive _); [by apply wsafe_throw|]. unfold secureGenerationsDirectory.
  eapply wsafe_reads; [done|apply reads_sys|]. intros [] _.
  eapply wsafe_reads; [done|apply reads_peek|]. intros dir ->.
  apply wsafe_bind. eapply wsafe_mono; [by apply wsafe_save_script|].
  intros [] w1 HS1 (ms & Ew1 & Hms). assert (HI1 := proj1 HS1).
  eapply wsafe_reads with (Q := λ prior, prior = lkp (w_gens w)); [done| |].
  { unfold lkp. destruct previous as [p|]; simpl; [|apply reads_ret; by rewrite Hprev].
    eapply reads_bind; [by apply reads_read_prior|]. intros q (g & Hg & Hc & ->). apply reads_ret. simpl.
    rewrite Hprev. pose proof (proj1 (select_latest_Some _ _ _ (Inv_keyed _ HI)) Hprev) as (Hp & _).
    subst w1. simpl in Hg. rewrite Hp in Hg. by injection Hg as ->. }
  intros prior ->. cbv zeta.
  match goal with |- context [WriteGenerationSnapshot ?x] => set (s := x) end.
  apply wsafe_bind. eapply wsafe_mono; [by apply wsafe_WriteSnapshot|].
  intros path w2 HS2 (mp & Ew2 & Hmp & Hv & ->). assert (HI2 := proj1 HS2).
  eapply wsafe_reads; [done|apply reads_clock|]. intros now _.
  apply wsafe_bind. apply wsafe_sys_write; [done|]. intros [] w3. unfold insert_generation.
  set (g := new_row _ _ _ _ _ _). destruct (2 ^ 63 <=? gen_ID g); [done|].
  assert (Eg2 : w_gens w2 = w_gens w) by (subst w2 w1; done). rewrite Eg2.
  change (gen_ID g) with id. destruct (w_gens w !! id) eqn:Hn; [done|]. intros [= <-].
  assert (Hold : ∀ i h, w_gens w !! i = Some h → flying h = false ∧ i < id).
  { intros i h Hh. split; [by apply (proj1 (select_latest_None _ _) Hfl i)|by apply (Hfresh Hn i h)]. }
  assert (HI3 : Inv (set_gens (<[id := g]> (w_gens w2)) w2)).
  { apply (Inv_inserted w2 g); [done|by rewrite Eg2|by rewrite Eg2|done|].
    split; [done|subst w2 w1; done|subst w2 w1; done|]. exists s. subst w2. simpl in *.
    split; [done|]. split; [subst w1; done|]. split.
    { split; try done. simpl. rewrite <-Hprev. unfold lkp. by destruct (select_latest committed _). }
    split; [|split; [|done]].
    - subst w1. simpl. destruct (lkp (w_gens w)) as [q|] eqn:El; [|done].
      apply (lkp_Some _ _ (Inv_keyed _ HI)) in El as (h & (Hh & Hc & _) & ->). by exists h.
    - subst w1. done. }
  rewrite Eg2 in HI3.
  assert (Hle : committed_le (w_gens w) (<[id := g]> (w_gens w))).
  { intros i h Hh Hch. exists h. rewrite lookup_insert_ne; [done|]. intros ->. congruence. }
  match goal with |- Safe _ ?w' ∧ _ => assert (HS3 : Safe w0 w') end.
  { split; [done|]. split; [|subst w2 w1; apply HS]. etransitivity; [apply HS|done]. }
  split; [done|]. apply wsafe_syncDatabase; [done|].
  assert (El : lkp (<[id := g]> (w_gens w)) = lkp (w_gens w)).
  { symmetry. apply lkp_same; [by apply Inv_keyed|by apply (Inv_keyed _ HI3)|done|].
    intros i h. rewrite lookup_insert_Some. intros [[_ <-]|[_ Hh]] Hch; [done|by exists h]. }
  split; [split; [|split]|].
  - exists g. split; [apply lookup_insert_eq|done].
  - simpl. rewrite El. subst w2 w1. simpl. apply (inv_settled _ HI). intros i h Hh E.
    apply prepared_flying in E. destruct (Hold _ _ Hh). congruence.
  - simpl. rewrite El. destruct previous as [p|].
    + apply (select_latest_Some _ _ _ (Inv_keyed _ HI)) in Hprev as (Hp & _).
      exists p. rewrite lookup_insert_ne; [done|]. intros E. rewrite <-E in Hp. congruence.
    + unfold lkp. by rewrite Hprev.
  - exists g. split; [apply lookup_insert_eq|done].
Qed.

(** ** Apply *)

Lemma awaiting_calm id previous w w' : Inv w → awaiting id previous w → calm w w' → awaiting id previous w'.
Proof.
  intros HI ((g & Hg & Hf) & Hp & Hprev) Hc.
  pose proof (same_rows_lkp _ _ (Inv_keyed _ HI) (calm_gens _ _ Hc)) as El.
  split; [|split].
  - destruct (same_rows_lookup _ _ _ _ (calm_gens _ _ Hc) Hg) as (g' & Hg' & E). exists g'. split; [done|].
    apply with_hash_eq in E as (_ & E & _). unfold flying in *. by rewrite E.
  - by rewrite (calm_pointer _ _ Hc), El.
  - rewrite El. destruct previous as [p|]; [|done]. destruct Hprev as (gp & Hgp).
    destruct (same_rows_lookup _ _ _ _ (calm_gens _ _ Hc) Hgp) as (g' & Hg' & _). by exists g'.
Qed.

Definition Saved w0 id previous w : Prop := Safe w0 w ∧ awaiting id previous w.

Lemma closed_Saved w0 id previous : closed (Saved w0 id previous).
Proof.
  intros w w' [HS Ha] Hc Hp. split; [by eapply closed_Safe|]. eapply awaiting_calm; [apply HS|done|done].
Qed.

Lemma wsafe_recoverPost {A} w0 m c id previous cause (P : A → World K → Prop) w : restores_sets m →
  Saved w0 id previous w → wsafe (Safe w0) (recoverPostApplyFailure m c id previous cause) P w.
Proof.
  intros Hm [HS Ha]. assert (HI := proj1 HS). unfold recoverPostApplyFailure.
  apply wsafe_bind. apply wsafe_mono with (P := λ _ w1, calm w w1).
  { apply wsafe_rethrow; [done|]. destruct Ha as (_ & _ & Hprev). destruct previous as [p|].
    - destruct Hprev as (gp & Hgp). eapply wsafe_mono; [apply Calm_restore; [done| |apply closed_Safe|done]|].
      + intros script Hs. by eapply row_script_installs.
      + by intros [] w1 _ (? & _).
    - unfold restore. by apply wsafe_DestroyOwned. }
  intros [] w1 HS1 Hc. destruct (awaiting_calm _ _ _ _ HI Ha Hc) as ((g & Hg) & Hp & _).
  apply wsafe_bind. eapply wsafe_mono; [apply wsafe_rethrow; [done|by eapply wsafe_MarkRolledBack]|].
  intros [] w2 HS2 _. by apply wsafe_throw.
Qed.

Lemma wsafe_recoverFirst {A} w0 id cause (P : A → World K → Prop) w :
  Saved w0 id None w → wsafe (Safe w0) (recoverFirstApplyExecutionFailure id cause) P w.
Proof.
  intros [HS ((g & Hg) & Hp & _)]. unfold recoverFirstApplyExecutionFailure.
  eapply wsafe_reads; [done|rstep; apply reads_ExistingOwned|]. intros e _.
  destruct (negb _); [by apply wsafe_throw|].
  apply wsafe_bind. eapply wsafe_mono; [apply wsafe_rethrow; [done|by eapply wsafe_MarkRolledBack]|].
  intros [] w2 HS2 _. by apply wsafe_throw.
Qed.

Lemma wsafe_apply_recovery {A} w0 m c id previous e (P : A → World K → Prop) w : restores_sets m →
  Saved w0 id previous w → wsafe (Safe w0) (apply_recovery m c id previous e) P w.
Proof.
  intros Hm HSa. unfold apply_recovery.
  apply wsafe_bind. eapply wsafe_inv_mono with (I := Saved w0 id previous); [by intros ? [? ?]|].
  eapply wsafe_mono; [by eapply Calm_ignore; [apply Calm_Audit|apply closed_Saved|]|].
  intros [] w1 HSa1 _. destruct (MutationAttempted e).
  - destruct previous; [by apply wsafe_recoverPost|by apply wsafe_recoverFirst].
  - destruct HSa1 as [HS1 ((g & Hg) & Hp & _)].
    apply wsafe_bind. eapply wsafe_mono; [apply wsafe_rethrow; [done|by eapply wsafe_MarkRolledBack]|].
    intros [] w2 HS2 _. by apply wsafe_throw.
Qed.

Lemma Saved_applied w0 id previous w g a : Saved w0 id previous w → w_gens w !! id = Some g →
  gen_Status g = Pending → Saved w0 id previous (set_row id (with_status Applied g) a w).
Proof.
  intros [HS ((g0 & Hg0) & Hp & Hprev)] Hg Hst. assert (HI := proj1 HS).
  assert (committed (with_status Applied g) = committed g) as Ec by (unfold committed; by rewrite Hst).
  assert (Safe w0 (set_row id (with_status Applied g) a w)).
  { eapply Safe_row; [done|done|done|congruence|by apply Inv_applied]. }
  split; [done|]. split; [|split].
  - exists (with_status Applied g). split; [apply lookup_insert_eq|done].
  - by rewrite (set_row_lkp w id g).
  - rewrite (set_row_lkp w id g) by done. destruct previous as [p|]; [|done].
    destruct Hprev as (gp & Hgp). destruct (decide (gen_ID p = id)) as [E|Hne].
    + exists (with_status Applied g). rewrite E. apply lookup_insert_eq.
    + exists gp. simpl. by rewrite lookup_insert_ne.
Qed.

(** The candidate's ruleset reached the kernel. *)
Definition Installed w0 id previous w : Prop := Saved w0 id previous w ∧ present (w_kernel w).

Lemma closed_Installed w0 id previous : closed (Installed w0 id previous).
Proof. intros w w' [HS Hp] Hc Hpr. split; [by eapply closed_Saved|auto]. Qed.

Definition applied (id : N) w : Prop := ∃ g, w_gens w !! id = Some g ∧ gen_Status g = Applied.

Lemma applied_calm id w w' : applied id w → calm w w' → applied id w'.
Proof.
  intros (g & Hg & Hst) Hc. destruct (same_rows_lookup _ _ _ _ (calm_gens _ _ Hc) Hg) as (g' & Hg' & (_ & E & _)%with_hash_eq).
  exists g'. split; [done|congruence].
Qed.

Lemma wsafe_mark_applied w0 id previous w : Installed w0 id previous w →
  wsafe (Installed w0 id previous) (MarkApplied id) (λ _ w', applied id w') w.
Proof.
  intros HS. unfold MarkApplied, wrap_no_rows. apply wsafe_bind. apply wsafe_rethrow; [done|].
  apply wsafe_update_row; [done|]. intros g Hg Hst%has_status_true.
  assert (gen_Status g = Pending) as E by set_solver. destruct HS as [HS Hpr].
  assert (Installed w0 id previous (set_row id (with_status Applied g) (w_audit w) w)).
  { split; [by apply Saved_applied|done]. }
  split; [done|]. apply wsafe_syncDatabase; [done|]. eexists. split; [apply lookup_insert_eq|done].
Qed.

(** What a successful [Apply] leaves: the owned tables present, and the candidate
    applied (safe) or published and committed. *)
Definition apply_done (artifact : Artifact) (safe : bool) (r : Result) w : Prop :=
  res_Generation r = art_Generation artifact ∧ res_Committed r = negb safe ∧ present (w_kernel w) ∧
  if safe then applied (art_Generation artifact) w else published (art_Generation artifact) w.

Lemma wsafe_confirm w0 m c artifact previous deadline safe w : restores_sets m →
  Installed w0 (art_Generation artifact) previous w →
  wsafe (Safe w0) (confirm_applied m c artifact previous deadline safe) (apply_done artifact safe) w.
Proof.
  intros Hm HSa. unfold confirm_applied. cbv zeta. set (id := art_Generation artifact) in *.
  assert (HJ : ∀ x, Installed w0 id previous x → Safe w0 x) by (by intros ? [[? ?] ?]).
  apply wsafe_bind. eapply wsafe_mono with (P := λ _ w1, Installed w0 id previous w1 ∧ applied id w1).
  { apply wsafe_catch with (J := Installed w0 id previous); [done| |].
    - eapply wsafe_mono; [by apply wsafe_mark_applied|done].
    - intros e w1 [HS1 _]. by apply wsafe_recoverPost. }
  intros [] w1 _ [HSa1 Ha1]. apply wsafe_bind.
  eapply wsafe_mono with (P := λ _ w2, Installed w0 id previous w2 ∧ applied id w2).
  { apply wsafe_catch with (J := Installed w0 id previous); [done| |].
    - eapply wsafe_mono; [by apply Calm_recordFingerprint; [apply closed_Installed|]|].
      intros [] w2 HS2 (Hc & _). split; [done|by eapply applied_calm].
    - intros e w2 [HS2 _]. by apply wsafe_recoverPost. }
  intros [] w2 _ [HSa2 Ha2]. apply wsafe_bind.
  eapply wsafe_mono with (P := λ _ w3, Installed w0 id previous w3 ∧ applied id w3).
  { destruct (m_HealthCheck m) as [g|]; [|by apply wsafe_ret; [apply HJ|]].
    apply wsafe_catch with (J := Installed w0 id previous); [done| |].
    - eapply wsafe_mono; [by apply reads_call_guard|]. by intros [] w3 HS3 [-> _].
    - intros e w3 [[HS3 Ha3] _]. apply wsafe_bind.
      apply wsafe_try with (J := Safe w0) (Q := λ _ _, True); [done| | |].
      + apply wsafe_rollback; [done|done|]. apply not_unsynced; [apply HS3|apply Ha3].
      + intros [] w4 HS4 _. eapply wsafe_calm; [apply closed_Safe|done|by eapply Calm_ignore, Calm_Audit|].
        intros [] w5 HS5 _ _. by apply wsafe_throw.
      + intros e' w4 HS4. eapply wsafe_calm; [apply closed_Safe|done|by eapply Calm_ignore, Calm_Audit|].
        intros [] w5 HS5 _ _. by apply wsafe_throw. }
  intros [] w3 _ [HSa3 Ha3]. apply wsafe_bind.
  eapply wsafe_mono with (P := λ _ w', present (w_kernel w') ∧ if safe then applied id w' else published id w').
  { destruct safe; [by apply wsafe_ret; [apply HJ| split; [apply HSa3|]]|].
    eapply wsafe_mono; [apply wsafe_commitLocked; [done|by apply HJ]|].
    intros [] w4 _ [Hpub Hpr]. split; [apply Hpr, HSa3|done]. }
  intros [] w4 HS4 [Hp4 H4]. eapply wsafe_calm; [apply closed_Safe|done|by eapply Calm_ignore, Calm_Audit|].
  intros [] w5 HS5 [Hc5 Hp5] _. apply wsafe_ret; [done|]. split; [done|]. split; [done|]. split; [auto|].
  destruct safe; [by eapply applied_calm|by eapply published_calm].
Qed.

Lemma reads_requireNoPending w : reads requireNoPending (λ _ : unit, select_latest flying (w_gens w) = None) w.
Proof.
  unfold requireNoPending. eapply reads_bind; [apply reads_any_Pending|]. intros [g|] Hg; [apply reads_throw|].
  by apply reads_ret.
Qed.

Lemma flying_none_calm w w' : calm w w' → select_latest flying (w_gens w) = None → select_latest flying (w_gens w') = None.
Proof.
  intros Hc. rewrite !select_latest_None. intros Hn id g' Hg'.
  destruct (same_rows_lookup _ _ _ _ (same_rows_sym _ _ (calm_gens _ _ Hc)) Hg') as (g & Hg & (_ & E & _)%with_hash_eq).
  unfold flying in *. rewrite <-E. by apply (Hn id).
Qed.

Lemma fresh_calm id w w' : calm w w' → fresh_id id (w_gens w) → fresh_id id (w_gens w').
Proof.
  intros Hc Hf Hn id' g' Hg'. pose proof (same_rows_sym _ _ (calm_gens _ _ Hc)) as Hs.
  destruct (same_rows_lookup _ _ _ _ Hs Hg') as (g & Hg & _). apply (Hf) with g; [|done].
  pose proof (calm_gens _ _ Hc id) as E. rewrite Hn in E. by destruct (w_gens w !! id).
Qed.

Definition admissible (artifact : Artifact) w : Prop :=
  installs (art_Script artifact) = true ∧ fresh_id (art_Generation artifact) (w_gens w).

Lemma wsafe_apply_locked w0 m artifact safe c w : restores_sets m → Safe w0 w → admissible artifact w →
  wsafe (Safe w0) (apply_locked m artifact safe c) (apply_done artifact safe) w.
Proof.
  intros Hm HS [Hinst Hfresh]. unfold apply_locked.
  eapply wsafe_reads; [done|apply reads_requireNoPending|]. intros [] Hnf. cbn beta in Hnf.
  eapply wsafe_reads with (Q := λ _, True); [done| |].
  { destruct safe; [|by apply reads_ret]. destruct (m_SafeGuardLocked m); [|apply reads_throw].
    eapply reads_True, reads_wrapped, reads_call_guard. }
  intros [] _. eapply wsafe_reads; [done|apply reads_audit|]. intros [] _.
  eapply wsafe_reads; [done|apply reads_any_LastKnownGood|]. intros previous Hprev. cbn beta in Hprev.
  eapply wsafe_calm with (Q := λ _ w', select_latest committed (w_gens w') = previous); [apply closed_Safe|done| |].
  { destruct previous as [p|]; [by apply Calm_ret|].
    eapply Calm_mono; [apply Calm_wrap, Calm_ProtectFirstUse|]. intros [] w' [Hc _] _.
    assert (lkp (w_gens w') = None) as El.
    { rewrite (same_rows_lkp _ _ (Inv_keyed _ (proj1 HS)) (calm_gens _ _ Hc)). unfold lkp. by rewrite Hprev. }
    unfold lkp in El. by apply fmap_None in El. }
  intros [] w1 HS1 [Hc1 _] Hprev1. pose proof (flying_none_calm _ _ Hc1 Hnf) as Hnf1.
  pose proof (fresh_calm _ _ _ Hc1 Hfresh) as Hfresh1.
  eapply wsafe_reads with (Q := λ _, True); [done| |].
  { destruct safe; [|by apply reads_ret]. eapply reads_bind; [apply reads_clock|]. intros now _. by apply reads_ret. }
  intros deadline _. eapply wsafe_reads; [done|apply reads_wrapped, reads_CurrentBootID|]. intros bootID _.
  apply wsafe_bind. eapply wsafe_mono; [apply wsafe_rethrow; [done|by apply wsafe_Save]|].
  intros [] w2 HS2 (Ha & _). apply wsafe_bind.
  apply wsafe_try with (J := Saved w0 (art_Generation artifact) previous) (Q := λ _ w', present (w_kernel w')).
  - by intros ? [? ?].
  - eapply wsafe_mono; [by apply Calm_install; [|apply closed_Saved|]|]. by intros [] w3 _ (_ & _ & ?).
  - intros [] w3 HS3 Hp3. by apply wsafe_confirm.
  - intros e w3 HS3. by apply wsafe_apply_recovery.
Qed.

Lemma wsafe_Apply w0 m c artifact safe w : restores_sets m → Safe w0 w → admissible artifact w →
  wsafe (Safe w0) (Manager.Apply m c artifact safe) (apply_done artifact safe) w.
Proof.
  intros Hm HS Hadm. unfold Manager.Apply.
  eapply wsafe_reads; [done|apply reads_requireNoPending|]. intros [] _.
  eapply wsafe_reads with (Q := λ _, True); [done| |].
  { destruct (_ && _); [|by apply reads_ret]. unfold PreflightSafeApply.
    destruct (m_SafeGuard m); [|apply reads_throw]. destruct (m_SafeGuardLocked m); [|apply reads_throw].
    eapply reads_bind; [apply reads_wrapped, reads_call_guard|]. intros [] _. by apply reads_ret. }
  intros c' _. apply wsafe_lock; [done|]. intros c''. by apply wsafe_apply_locked.
Qed.

(** ** Drift repair *)

Lemma wsafe_or_return {A} w0 d (p : HM A) k w : wsafe (Safe w0) p (λ _ _, True) w →
  (∀ a w', Safe w0 w' → wsafe (Safe w0) (k a) (λ _ _, True) w') →
  wsafe (Safe w0) (or_return d p k) (λ _ _, True) w.
Proof.
  intros Hp Hk. unfold or_return. apply wsafe_bind.
  apply wsafe_try with (J := Safe w0) (Q := λ _ _, True); [done|done| |].
  - intros a w' HS' _. by apply Hk.
  - intros e w' HS'. by apply wsafe_ret.
Qed.

Definition is_row w (g : Generation) : Prop := ∃ g', w_gens w !! gen_ID g = Some g' ∧ gen_Status g' = gen_Status g.

Lemma is_row_evolved w w' g : is_row w g → evolved w w' → is_row w' g.
Proof.
  intros (g' & Hg' & Hst) [Hc _]. destruct (same_rows_lookup _ _ _ _ (calm_gens _ _ Hc) Hg') as (g2 & Hg2 & (_ & E & _)%with_hash_eq).
  exists g2. split; [done|congruence].
Qed.

Lemma latest_is_row w p g : Inv w → select_latest p (w_gens w) = Some g → is_row w g.
Proof. intros HI [Hg _]%latest_row; [by exists g|done]. Qed.

Lemma reads_ExpectedGeneration w : Inv w → reads ExpectedGeneration (is_row w) w.
Proof.
  intros HI. unfold ExpectedGeneration. pose proof (reads_LastKnownGood w) as HL.
  assert (HL' : reads LastKnownGood (is_row w) w) by (eapply reads_mono; [done|]; intros g Hg; exact (latest_is_row _ _ _ HI Hg)).
  eapply reads_bind; [apply reads_try, reads_Pending|]. intros [e|g] Hg.
  - destruct (is_no_rows e); [done|apply reads_throw].
  - assert (is_row w g) by exact (latest_is_row _ _ _ HI Hg).
    destruct (has_status [Applied] g); [by apply reads_ret|].
    destruct (has_status [CommitPrepared] g); [|done].
    eapply reads_bind; [apply reads_ReadEnforcementPointer|]. intros o _.
    destruct (ptr_Equal _ o); [by apply reads_ret|done].
Qed.

Lemma reads_if_any_any {A} (p : HM A) Q w : reads p Q w →
  reads (if_any p) (λ o, match o with Some a => Q a | None => True end) w.
Proof.
  intros Hp. eapply reads_bind; [by apply reads_try|]. intros [e|a] Ha; [|by apply reads_ret].
  destruct (is_no_rows e); [by apply reads_ret|apply reads_throw].
Qed.

Lemma wsafe_reinstall w0 m c g w : restores_sets m → Safe w0 w → is_row w g →
  wsafe (Safe w0) (reinstall m c g) (λ _ _, True) w.
Proof.
  intros Hm HS (g' & Hg' & _). eapply wsafe_mono; [apply Calm_reinstall; [done| |apply closed_Safe|done]|done].
  intros script Hs. eapply row_script_installs; [apply HS|done|done].
Qed.

Lemma wsafe_repair_expected w0 m c expected tables detail w : restores_sets m → Safe w0 w →
  (∀ g, expected = Some g → is_row w g) →
  wsafe (Safe w0) (repair_expected m c expected tables detail) (λ _ _, True) w.
Proof.
  intros Hm HS He. assert (HI := proj1 HS). unfold repair_expected, or_return at 1.
  eapply wsafe_reads with (Q := λ r, match r with inr g => is_row w g | inl _ => True end); [done| |].
  { destruct expected as [g|]; [eapply reads_try with (Q := is_row w), reads_ret; auto|].
    apply reads_try. eapply reads_mono; [apply reads_LastKnownGood|]. intros g Hg. exact (latest_is_row _ _ _ HI Hg). }
  intros [e|g] Hg; [by apply wsafe_ret|]. apply wsafe_or_return; [by apply wsafe_reinstall|].
  intros [] w1 HS1. eapply wsafe_calm; [apply closed_Safe|done|by eapply Calm_ignore, Calm_Audit|].
  intros [] w2 HS2 _ _. by apply wsafe_ret.
Qed.

Lemma wsafe_repair w0 m c pending expected tables detail w : restores_sets m → Safe w0 w →
  (∀ g, expected = Some g → is_row w g) → (∀ g, pending = Some g → is_row w g) →
  wsafe (Safe w0) (repair_drift m c pending expected tables detail) (λ _ _, True) w.
Proof.
  intros Hm HS He Hpd. unfold repair_drift. cbv zeta.
  eapply wsafe_calm; [apply closed_Safe|done|by eapply Calm_ignore, Calm_Audit|].
  intros [] w1 HS1 Hev _.
  assert (He1 : ∀ g, expected = Some g → is_row w1 g) by (intros g E; eapply is_row_evolved; [by apply He|done]).
  destruct pending as [p|]; [|by apply wsafe_repair_expected].
  destruct (has_status [Applied] p) eqn:Hst; [|by apply wsafe_repair_expected].
  apply has_status_true in Hst. assert (gen_Status p = Applied) as Est by set_solver.
  destruct (is_row_evolved _ _ _ (Hpd p eq_refl) Hev) as (g & Hg & Eg).
  apply wsafe_or_return; [|intros [] w2 HS2; by apply wsafe_ret].
  apply wsafe_rollback; [done|done|]. eapply not_unsynced_status; [done|congruence].
Qed.

Lemma wsafe_Reconcile w0 m c repair w : restores_sets m → Safe w0 w →
  wsafe (Safe w0) (Reconcile range m c repair) (λ _ _, True) w.
Proof.
  intros Hm HS. apply wsafe_lock; [done|]. clear c. intros c. assert (HI := proj1 HS).
  unfold reconcile_locked. eapply wsafe_reads; [done|apply reads_any_Pending|]. intros pending Hpd. cbn beta in Hpd.
  assert (Hrow : ∀ g, pending = Some g → is_row w g) by (intros g ->; exact (latest_is_row _ _ _ HI Hpd)).
  destruct (match pending with Some p => _ | None => _ end) eqn:Hst.
  { destruct pending as [p|]; [|done]. apply has_status_true in Hst.
    assert (gen_Status p = Pending) as Est by set_solver. cbv zeta. destruct (Hrow p eq_refl) as (g & Hg & Eg).
    destruct repair; [|by apply wsafe_ret].
    apply wsafe_or_return; [|intros [] w2 HS2; by apply wsafe_ret].
    apply wsafe_rollback; [done|done|]. eapply not_unsynced_status; [done|congruence]. }
  clear Hst. eapply wsafe_reads; [done|apply reads_ListOwned|]. intros observed _.
  assert (HR : ∀ {A} d (p : HM A) Q k, reads p Q w → (∀ a, Q a → wsafe (Safe w0) (k a) (λ _ _, True) w) →
    wsafe (Safe w0) (or_return d p k) (λ _ _, True) w).
  { intros A d p Q k Hp Hk. eapply wsafe_reads; [done|by apply reads_try|].
    intros [e|a] Ha; [by apply wsafe_ret|by apply Hk]. }
  apply HR with (Q := λ _, True).
  { unfold detect_tables. destruct (negb _); [by apply reads_ret|].
    eapply reads_bind; [apply reads_Integrity|]. intros r _. by apply reads_ret. }
  intros tables _. eapply HR; [by apply reads_if_any_any, reads_ExpectedGeneration|]. intros expected He.
  apply HR with (Q := λ _, True).
  { unfold detect_fingerprint. destruct tables; [by apply reads_ret|]. destruct expected as [g|]; [|by apply reads_ret].
    destruct (String.eqb _ ""); [by apply reads_ret|]. eapply reads_bind; [apply reads_Fingerprint|].
    intros h _. by apply reads_ret. }
  intros [text|] _; [|by apply wsafe_ret]. destruct repair.
  - apply wsafe_repair; [done|done| |done]. intros g ->. done.
  - eapply wsafe_calm; [apply closed_Safe|done|by eapply Calm_ignore, Calm_Audit|].
    intros [] w1 HS1 _ _. by apply wsafe_ret.
Qed.

(** ** Boot recovery *)

(** What readiness means: the reported generation is committed, the live and the
    durable pointer name it, and the kernel carries its integrity markers and the
    fingerprint its row had when recovery started. *)
Definition ready_at w (id : N) w' : Prop := ∃ g0 g, w_gens w !! id = Some g0 ∧ w_gens w' !! id = Some g ∧
  committed g = true ∧ row_pointer g = row_pointer g0 ∧
  w_pointer w' = Some (row_pointer g) ∧ w_durable w' = Some (row_pointer g) ∧
  intact range (w_kernel w') ∧ fingerprint (w_kernel w') = Some (gen_ObservedHash g0).

Definition recovered w (r : RecoveryResult * option err) w' : Prop :=
  rec_Ready r.1 = true → r.2 = None ∧ ready_at w (rec_Generation r.1) w'.

Lemma wsafe_first_at_boot w0 c g (w w1 : World K) : Safe w0 w → candidate (gen_ID g) w g → w_pointer w = lkp (w_gens w) →
  lkp (w_gens w) = None →
  wsafe (Safe w0) (rollbackFirstGenerationAtBoot range c g) (recovered w1) w.
Proof.
  intros HS Hg Hp Hn. assert (HI := proj1 HS). unfold rollbackFirstGenerationAtBoot.
  eapply wsafe_reads; [done|apply reads_wrapped, reads_ExistingOwned|]. intros e _.
  apply wsafe_bind. apply wsafe_mono with (P := λ _ w1, calm w w1).
  { case_bool_decide; [by apply wsafe_ret|].
    eapply wsafe_reads; [done|apply reads_require|]. intros [] _.
    eapply wsafe_reads; [done|apply reads_Integrity|]. intros ok _.
    eapply wsafe_reads; [done|apply reads_require|]. intros [] _.
    eapply wsafe_reads; [done|apply reads_Fingerprint|]. intros fp _.
    eapply wsafe_reads; [done|apply reads_require|]. intros [] _.
    apply wsafe_bind. eapply wsafe_mono; [apply wsafe_rethrow; [done|by apply wsafe_DestroyOwned]|].
    intros [] w2 HS2 Hc2. eapply wsafe_reads; [done|apply reads_ExistingOwned|]. intros rem _.
    eapply wsafe_mono; [by apply reads_require|]. by intros [] w3 _ [-> _]. }
  intros [] w2 HS2 Hc2. destruct Hg as [Hg Hf].
  destruct (same_rows_lookup _ _ _ _ (calm_gens _ _ Hc2) Hg) as (g2 & Hg2 & (_ & E & _)%with_hash_eq).
  assert (El : lkp (w_gens w2) = lkp (w_gens w)) by (apply same_rows_lkp; [by apply Inv_keyed|apply Hc2]).
  apply wsafe_bind. eapply wsafe_mono.
  { eapply wsafe_FinalizeRecoveryRollback; [done|split; [done|]|by rewrite (calm_pointer _ _ Hc2), El].
    unfold flying in *. by rewrite E. }
  intros [] w3 HS3 _. by apply wsafe_ret.
Qed.

Lemma wsafe_predecessor w0 m c g s w : restores_sets m → transparent range m → Safe w0 w →
  candidate (gen_ID g) w g → w_pointer w = lkp (w_gens w) → loaded (gen_ID g) w s →
  wsafe (Safe w0) (restorePredecessorAndRollback range m c g s) (recovered w) w.
Proof.
  intros Hm Ht HS [Hg Hf] Hp Hs. assert (HI := proj1 HS).
  destruct (snapshot_unique _ _ _ _ HI Hg Hs) as (M & _ & Hprev). specialize (Hprev Hf).
  unfold restorePredecessorAndRollback. destruct (snap_Previous s) as [p|] eqn:Ep;
    [|by apply wsafe_first_at_boot].
  eapply wsafe_reads; [done|apply reads_wrapped, reads_GenerationByID|]. intros previous Hpr. cbn beta in Hpr.
  eapply wsafe_reads; [done|apply reads_require|]. intros [] [[Hst%has_status_true _]%andb_true_iff _]%andb_true_iff.
  assert (Hc : committed previous = true) by (unfold committed; apply bool_decide_eq_true; set_solver).
  eapply wsafe_calm; [apply closed_Safe|done|apply Calm_EnsureDurable|].
  intros ps w1 HS1 Hev1 (Hld & _ & Hp1 & Hd1).
  destruct (snapshot_unique _ _ _ _ HI Hpr Hld) as (M' & Hinst & _).
  eapply wsafe_reads; [done|apply reads_validateGenerationSnapshot|]. intros [] _.
  eapply wsafe_calm; [apply closed_Safe|done|by apply Calm_wrap, Calm_establish|].
  intros [] w2 HS2 Hev2 [Hint2 Hfp2].
  eapply wsafe_calm; [apply closed_Safe|done|by apply Calm_wrap, Calm_restoreRuntime_kept|].
  intros [] w3 HS3 Hev3 Hk3. destruct (Hk3 Hint2) as [Hint3 Hfp3].
  pose proof (evolved_trans _ _ _ (evolved_trans _ _ _ Hev1 Hev2) Hev3) as Hev.
  eapply wsafe_reads; [done|apply reads_requirePointer|]. intros [] Hp3. cbn beta in Hp3.
  destruct (candidate_evolved _ _ _ _ (conj Hg Hf) Hev) as (g3 & Hg3 & _).
  apply wsafe_bind. eapply wsafe_mono; [eapply wsafe_FinalizeRecoveryRollback; [done|done|]|].
  { by eapply unpublished_evolved. }
  intros [] w4 HS4 (g4 & a & Hg4 & ->). apply wsafe_ret; [done|]. intros _. split; [done|]. simpl.
  destruct (same_rows_lookup _ _ _ _ (calm_gens _ _ (proj1 Hev)) Hpr) as (pr3 & Hpr3 & E%with_hash_eq).
  destruct E as (E1 & E2 & E3 & _). rewrite (Inv_keyed _ HI _ _ Hpr).
  exists previous, pr3. split; [done|]. split.
  { simpl. rewrite lookup_insert_ne; [done|]. intros Eid. rewrite <-Eid in Hpr. simplify_eq.
    by rewrite (flying_committed _ Hf) in Hc. }
  split; [unfold committed in *; by rewrite E2|]. split; [done|].
  assert (row_pointer pr3 = p) as Epp.
  { rewrite E3, <-(sm_pointer _ _ M'). destruct Hld as (_ & _ & Hld).
    destruct (row_files _ _ _ HI Hg) as (s' & Hs' & _ & _ & Hpk & _). destruct Hs as (Hs & _).
    rewrite Hs in Hs'. injection Hs' as <-. rewrite Ep in Hpk. destruct Hpk as (gp & Hgp & _ & Egp).
    rewrite Hpr in Hgp. injection Hgp as ->. by rewrite (sm_pointer _ _ M'). }
  rewrite Epp. simpl. split; [done|]. split; [|split; [done|congruence]].
  rewrite <-Hp3. by eapply durable_evolved; [eapply durable_evolved|].
Qed.

Lemma wsafe_recoverPending w0 m c g w : restores_sets m → transparent range m → Safe w0 w →
  candidate (gen_ID g) w g →
  wsafe (Safe w0) (recoverPendingAtBoot range m c g (w_pointer w)) (recovered w) w.
Proof.
  intros Hm Ht HS [Hg Hf]. assert (HI := proj1 HS). unfold recoverPendingAtBoot.
  eapply wsafe_reads; [done|apply reads_wrapped, reads_LoadVerified|]. intros s Hs. cbn beta in Hs.
  destruct (snapshot_unique _ _ _ _ HI Hg Hs) as (M & _ & Hprev). specialize (Hprev Hf).
  eapply wsafe_reads; [done|apply reads_validateGenerationSnapshot|]. intros [] _. cbv zeta.
  assert (Hordinary : wsafe (Safe w0)
    (require (pointerMatchesPrevious (snap_Previous s) (w_pointer w))
       (Errorf "ordinary pending generation does not match its exact predecessor pointer" []) ;;
     stale <- pendingIsStale g ;;
     require (stale : bool)
       (Errorf "generation %d is still live on its creating boot and before its deadline" [ArgN (gen_ID g)]) ;;
     restorePredecessorAndRollback range m c g s) (recovered w) w).
  { eapply wsafe_reads; [done|apply reads_require|]. intros [] Hpm%pointerMatchesPrevious_true.
    eapply wsafe_reads with (Q := λ _, True); [done| |].
    { unfold pendingIsStale. eapply reads_bind; [apply reads_wrapped, reads_CurrentBootID|]. intros b _.
      eapply reads_bind; [apply reads_require|]. intros [] _.
      destruct (negb _); [by apply reads_ret|apply reads_expired]. }
    intros stale _. eapply wsafe_reads; [done|apply reads_require|]. intros [] _.
    apply wsafe_predecessor; [done|done|done|done|congruence|done]. }
  destruct (gen_Status g) eqn:Hst; [done|done| |by apply wsafe_throw..].
  destruct (ptr_Equal (snap_Pointer s) (w_pointer w)) eqn:Hwon.
  - apply ptr_Equal_true in Hwon. rewrite (sm_pointer _ _ M) in Hwon |- *.
    eapply wsafe_calm; [apply closed_Safe|done|apply Calm_EnsureDurable|].
    intros ds w1 HS1 Hev1 (Hld & _ & Hp1 & Hd1).
    destruct (snapshot_unique _ _ _ _ HI Hg Hld) as (_ & Hinst & _).
    eapply wsafe_calm; [apply closed_Safe|done|by apply Calm_wrap, Calm_establish|].
    intros [] w2 HS2 Hev2 [Hint2 Hfp2].
    eapply wsafe_reads; [done|apply reads_requirePointer|]. intros [] Hp2. cbn beta in Hp2.
    pose proof (evolved_trans _ _ _ Hev1 Hev2) as Hev.
    destruct (candidate_evolved _ _ _ _ (conj Hg Hf) Hev) as (g2 & [Hg2 Hf2] & E%with_hash_eq).
    destruct E as (E1 & E2 & E3 & _).
    apply wsafe_bind. eapply wsafe_mono.
    { apply wsafe_rethrow; [done|]. eapply wsafe_FinalizeCommit; [done|done|congruence|congruence|].
      rewrite (durable_evolved _ _ Hd1 Hev2). congruence. }
    intros [] w3 HS3 ((g3 & Hg3 & Hc3 & Hp3 & Hd3) & Hk3 & Hpp3). apply wsafe_ret; [done|]. intros _. split; [done|].
    exists g, g3. split; [done|]. split; [done|]. split; [done|].
    assert (row_pointer g3 = row_pointer g) as Er by congruence.
    split; [done|]. rewrite Hk3. done.
  - eapply wsafe_reads; [done|apply reads_require|]. intros [] Hpm%pointerMatchesPrevious_true.
    apply wsafe_predecessor; [done|done|done|done|congruence|done].
Qed.

Lemma wsafe_recoverAtBootLocked w0 m c w : restores_sets m → transparent range m → Safe w0 w →
  wsafe (Safe w0) (recoverAtBootLocked range m c) (recovered w) w.
Proof.
  intros Hm Ht HS. assert (HI := proj1 HS). unfold recoverAtBootLocked.
  eapply wsafe_reads; [done|apply reads_audit|]. intros [] _.
  eapply wsafe_reads; [done|apply reads_wrapped, reads_ReadEnforcementPointer|]. intros o ->.
  eapply wsafe_reads; [done|apply reads_any_Pending|]. intros [g|] Hpd; cbn beta in Hpd.
  { apply wsafe_recoverPending; [done|done|done|]. exact (latest_row _ _ _ HI Hpd). }
  destruct (w_pointer w) as [p|] eqn:Hp; [|by apply wsafe_throw].
  eapply wsafe_reads; [done|apply reads_wrapped, reads_GenerationByID|]. intros g Hg. cbn beta in Hg.
  eapply wsafe_reads; [done|apply reads_require|]. intros [] Hst%has_status_true.
  assert (Hc : committed g = true) by (unfold committed; apply bool_decide_eq_true; set_solver).
  eapply wsafe_reads; [done|apply reads_LastKnownGood|]. intros latest Hl. cbn beta in Hl.
  eapply wsafe_reads; [done|apply reads_require|]. intros [] Hid%N.eqb_eq.
  assert (latest = g) as ->.
  { pose proof (latest_row _ _ _ HI Hl) as [Hl' _]. rewrite Hid, (Inv_keyed _ HI _ _ Hg) in Hl'. congruence. }
  assert (Epp : p = row_pointer g).
  { assert (Hset : settled w).
    { apply (inv_settled _ HI). intros i h Hh E%prepared_flying.
      pose proof (proj1 (select_latest_None _ _) Hpd i h Hh). congruence. }
    destruct Hset as [Hset _]. unfold lkp in Hset. rewrite Hl in Hset. simpl in Hset. congruence. }
  eapply wsafe_calm; [apply closed_Safe|done|apply Calm_EnsureDurable|].
  intros s w1 HS1 Hev1 (Hld & _ & Hp1 & Hd1).
  destruct (snapshot_unique _ _ _ _ HI Hg Hld) as (M & Hinst & _).
  eapply wsafe_reads; [done|apply reads_validateGenerationSnapshot|]. intros [] _.
  eapply wsafe_calm; [apply closed_Safe|done|by apply Calm_wrap, Calm_establish|].
  intros [] w2 HS2 Hev2 [Hint2 Hfp2].
  eapply wsafe_reads; [done|apply reads_requirePointer|]. intros [] Hp2. cbn beta in Hp2.
  eapply wsafe_calm; [apply closed_Safe|done|apply Calm_AuditDurable|].
  intros [] w3 HS3 Hev3 (a & ->). apply wsafe_ret; [done|]. intros _. split; [done|]. simpl.
  rewrite (Inv_keyed _ HI _ _ Hg). subst p.
  pose proof (evolved_trans _ _ _ Hev1 Hev2) as Hev.
  destruct (same_rows_lookup _ _ _ _ (calm_gens _ _ (proj1 Hev)) Hg) as (g2 & Hg2 & E%with_hash_eq).
  destruct E as (E1 & E2 & E3 & _).
  exists g, g2. split; [done|]. split; [done|]. split; [unfold committed in *; by rewrite E2|].
  split; [done|]. simpl. rewrite E3. split; [done|].
  split; [rewrite (durable_evolved _ _ Hd1 Hev2); done|]. done.
Qed.

Lemma wsafe_RecoverAtBoot w0 m c w : restores_sets m → transparent range m → Safe w0 w →
  wsafe (Safe w0) (RecoverAtBoot range m c) (recovered w) w.
Proof. intros Hm Ht HS. apply wsafe_lock; [done|]. intros c'. by apply wsafe_recoverAtBootLocked. Qed.

(** ** The rollback timer *)

Lemma wsafe_expire w0 m c g w : restores_sets m → transparent range m → Safe w0 w → candidate (gen_ID g) w g →
  wsafe (Safe w0) (expire_candidate range m c g) (λ _ _, True) w.
Proof.
  intros Hm Ht HS Hg. unfold expire_candidate.
  eapply wsafe_reads; [done|apply reads_ReadEnforcementPointer|]. intros o ->.
  apply wsafe_bind. eapply wsafe_mono; [by apply wsafe_recoverPending|].
  intros [res [e|]] w1 HS1 _; by apply wsafe_ret.
Qed.

Lemma wsafe_RollbackExpired w0 m c w : restores_sets m → transparent range m → Safe w0 w →
  wsafe (Safe w0) (RollbackExpired range m c) (λ _ _, True) w.
Proof.
  intros Hm Ht HS. apply wsafe_lock; [done|]. clear c. intros c. assert (HI := proj1 HS).
  unfold rollback_expired_locked. eapply wsafe_reads; [done|apply reads_audit|]. intros [] _.
  eapply wsafe_reads; [done|apply reads_any_Pending|]. intros [g|] Hpd; cbn beta in Hpd; [|by apply wsafe_ret].
  pose proof (latest_row _ _ _ HI Hpd) as Hg.
  destruct (has_status [CommitPrepared] g); [by apply wsafe_expire|].
  eapply wsafe_reads with (Q := λ _, True); [done| |].
  { unfold pendingIsStale. eapply reads_bind; [apply reads_wrapped, reads_CurrentBootID|]. intros b _.
    eapply reads_bind; [apply reads_require|]. intros [] _.
    destruct (negb _); [by apply reads_ret|apply reads_expired]. }
  intros [] _; [by apply wsafe_expire|by apply wsafe_ret].
Qed.

(** ** The system

    One step is a complete or interrupted run of an operation of the manager, a
    change of what the protocol does not own (the kernel, the ledger, the audit
    log, temporary files, a restart of the process), or a power loss: the live
    pointer becomes the durable one.  [Rollback] of a candidate whose published
    pointer is not known to be durable is left out: see [unsynced_rollback]. *)

Record elsewhere w w' : Prop := {
  el_dir : w_dir w' = w_dir w;
  el_gens : w_gens w' = w_gens w;
  el_scripts : w_scripts w' = w_scripts w;
  el_snapshots : w_snapshots w' = w_snapshots w;
  el_pointer : w_pointer w' = w_pointer w;
  el_durable : w_durable w' = w_durable w
}.

Definition power_lost w : World K := set_pointers (w_durable w) (w_durable w) (w_tmp w) w.

Inductive operation m : World K → World K → Prop :=
  | op_apply c artifact safe o (h : Host K) : admissible artifact (h_world h) →
      operation m (h_world h) (h_world (final (Manager.Apply m c artifact safe o h)))
  | op_commit c id o (h : Host K) :
      operation m (h_world h) (h_world (final (Commit m c id o h)))
  | op_rollback c id o (h : Host K) : ¬ unsynced id (h_world h) →
      operation m (h_world h) (h_world (final (Rollback m c id o h)))
  | op_expire c o (h : Host K) :
      operation m (h_world h) (h_world (final (RollbackExpired range m c o h)))
  | op_reconcile c repair o (h : Host K) :
      operation m (h_world h) (h_world (final (Reconcile range m c repair o h)))
  | op_recover c o (h : Host K) :
      operation m (h_world h) (h_world (final (RecoverAtBoot range m c o h))).

Inductive system m : World K → World K → Prop :=
  | sys_operation w w' : operation m w w' → system m w w'
  | sys_elsewhere w w' : elsewhere w w' → system m w w'
  | sys_power_loss w : system m w (power_lost w).

Lemma operation_Safe m w0 w w' : restores_sets m → transparent range m → operation m w w' → Safe w0 w → Safe w0 w'.
Proof.
  intros Hm Ht [] HS; (eapply wsafe_final with (I := Safe w0)).
  - by apply wsafe_Apply.
  - by apply wsafe_Commit.
  - by apply wsafe_Rollback.
  - by apply wsafe_RollbackExpired.
  - by apply wsafe_Reconcile.
  - by apply wsafe_RecoverAtBoot.
Qed.

Lemma elsewhere_Inv w w' : elsewhere w w' → Inv w → Inv w'.
Proof. intros [E1 E2 E3 E4 E5 E6] HI. eapply calm_Inv; [done|]. split; auto. intros id. by rewrite E2. Qed.

Lemma power_loss_Inv w : Inv w → Inv (power_lost w).
Proof.
  intros HI. split.
  - intros id g Hg. by destruct (inv_rows _ HI _ _ Hg).
  - apply (inv_one _ HI).
  - apply (inv_above _ HI).
  - intros id g Hg Hst. unfold prepared_pointer. simpl.
    destruct (inv_prepared _ HI _ _ Hg Hst) as [[_ Hd]|[_ [Hd|Hd]]]; [by left|by right; auto|by left].
  - intros Hno. destruct (inv_settled _ HI Hno) as [_ Hd]. by split.
Qed.

Definition kept w w' : Prop := Inv w' ∧ committed_le (w_gens w) (w_gens w').

Lemma system_kept m w w' : restores_sets m → transparent range m → system m w w' → Inv w → kept w w'.
Proof.
  intros Hm Ht [x y Hop|x y Hel|x] HI.
  - assert (Safe x y) as (? & ? & _); [|by split].
    eapply (operation_Safe m x x); [done..|by apply Safe_refl].
  - split; [by eapply elsewhere_Inv|]. by rewrite (el_gens _ _ Hel).
  - split; [by apply power_loss_Inv|done].
Qed.

Lemma system_rtc m w w' : restores_sets m → transparent range m → rtc (system m) w w' → Inv w → kept w w'.
Proof.
  intros Hm Ht. induction 1 as [w|w1 w2 w3 H1 _ IH]; intros HI; [by split|].
  destruct (system_kept _ _ _ Hm Ht H1 HI) as [HI2 Hle]. destruct (IH HI2) as [HI3 Hle']. split; [done|by etransitivity].
Qed.

Lemma Inv_initial (w : World K) : w_gens w = ∅ → w_pointer w = None → w_durable w = None → Inv w.
Proof.
  intros Hg Hp Hd. assert (Hn : ∀ id g, w_gens w !! id = Some g → False) by (intros id g; rewrite Hg; done).
  assert (lkp (w_gens w) = None) as El by (apply lkp_None; intros (? & ? & ? & _); eauto).
  split; try (intros; exfalso; eauto; fail). intros _. split; congruence.
Qed.

(** A pointer that is not the latest committed generation's stops recovery for good. *)
Lemma recovery_refuses m c o h p g : w_pointer (h_world h) = Some p →
  select_latest flying (w_gens (h_world h)) = None →
  select_latest committed (w_gens (h_world h)) = Some g → keyed (w_gens (h_world h)) →
  gen_ID g ≠ ptr_Generation p →
  ∀ r, result (RecoverAtBoot range m c o h) ≠ Ret r.
Proof.
  intros Hp Hn Hl Hk Hne r Hr.
  enough (Hf : wsafe (λ _, True) (RecoverAtBoot range m c) (λ _ _, False) (h_world h)) by
    exact (wsafe_ret_elim _ _ _ _ _ _ Hf Hr).
  clear Hr. set (w := h_world h) in *. unfold RecoverAtBoot, with_process_lock.
  assert (Hb : ∀ c, reads (recoverAtBootLocked range m c) (λ _, False) w).
  { clear c. intros c. unfold recoverAtBootLocked.
    eapply reads_bind; [apply reads_audit|]. intros [] _.
    eapply reads_bind; [apply reads_wrapped, reads_ReadEnforcementPointer|]. intros q ->.
    eapply reads_bind; [apply reads_any_Pending|]. intros q Hq. cbn beta in Hq. rewrite Hn in Hq. subst q. rewrite Hp.
    eapply reads_bind; [apply reads_wrapped, reads_GenerationByID|]. intros g' Hg'. cbn beta in Hg'.
    eapply reads_bind; [apply reads_require|]. intros [] _.
    eapply reads_bind; [apply reads_LastKnownGood|]. intros l Hl'. cbn beta in Hl'.
    eapply reads_bind with (Q := λ _, False); [|done].
    eapply reads_mono; [apply reads_require|]. intros [] Hid%N.eqb_eq.
    rewrite (Hk _ _ Hg') in Hid. congruence. }
  assert (Hb' : ∀ c, wsafe (λ _, True) (recoverAtBootLocked range m c) (λ _ _, False) w).
  { intros c'. eapply wsafe_mono; [by apply Hb|]. by intros ? ? _ [_ ?]. }
  destruct (ctx_locked c); [apply Hb'|].
  eapply wsafe_reads; [done|apply reads_require|]. intros [] _.
  eapply wsafe_reads; [done|apply reads_sys|]. intros [] _.
  apply wsafe_finally; [apply Hb'|]. intros Q w' HQ HS' HQ'. by apply wsafe_sys_read.
Qed.

Lemma recovery_refuses_ids m c o h i j : i ≠ j →
  ptr_Generation <$> w_pointer (h_world h) = Some i →
  gen_ID <$> select_latest committed (w_gens (h_world h)) = Some j →
  select_latest flying (w_gens (h_world h)) = None →
  forallb (λ r, gen_ID r.2 =? r.1) (map_to_list (w_gens (h_world h))) = true →
  ∀ r, result (RecoverAtBoot range m c o h) ≠ Ret r.
Proof.
  intros Hij (p & Hp & Ep)%fmap_Some (g & Hg & Eg)%fmap_Some Hn Hk.
  eapply recovery_refuses; [exact Hp|exact Hn|exact Hg| |congruence].
  intros id g' Hg'. rewrite forallb_forall in Hk.
  specialize (Hk (id, g') ltac:(by apply list_elem_of_In, elem_of_map_to_list)). by apply N.eqb_eq in Hk.
Qed.

(** ** Properties *)




(** C5: readiness is truthful.  When boot recovery reports a generation ready, under
    whatever faults it ran, that generation is committed, the live and the durable
    pointer both name it, every owned table is present with its integrity markers,
    and the kernel's fingerprint is the one its row recorded. *)
Theorem RecoverAtBoot_ready m c o h res e : restores_sets m → transparent range m → Inv (h_world h) →
  result (RecoverAtBoot range m c o h) = Ret (res, e) → rec_Ready res = true →
  e = None ∧ ready_at (h_world h) (rec_Generation res) (h_world (final (RecoverAtBoot range m c o h))).
Proof.
  intros Hm Ht HI Hr Hready. pose proof (wsafe_RecoverAtBoot (h_world h) m c (h_world h) Hm Ht (Safe_refl _ HI)) as Hs.
  apply (wsafe_ret_elim _ _ _ _ _ _ Hs Hr Hready).
Qed.

(** C6: a successful [Apply] means what it says: the product's tables are in the
    kernel, and the candidate is applied and awaiting its commit (safe mode) or
    published, durable and committed. *)
Theorem Apply_success m c artifact safe o h r : restores_sets m → Inv (h_world h) →
  admissible artifact (h_world h) → result (Manager.Apply m c artifact safe o h) = Ret r →
  apply_done artifact safe r (h_world (final (Manager.Apply m c artifact safe o h))).
Proof.
  intros Hm HI Ha Hr.
  exact (wsafe_ret_elim _ _ _ _ _ _ (wsafe_Apply _ m c artifact safe _ Hm (Safe_refl _ HI) Ha) Hr).
Qed.

(** C7: a successful [Commit] leaves the generation committed with the live and the
    durable pointer naming it, and the owned tables in the kernel if they were there. *)
Theorem Commit_success m c id o h : restores_sets m → Inv (h_world h) →
  result (Commit m c id o h) = Ret tt → committed_at id (h_world h) (h_world (final (Commit m c id o h))).
Proof.
  intros Hm HI Hr.
  exact ((wsafe_ret_elim _ _ _ _ _ _ (wsafe_Commit _ m c id _ Hm (Safe_refl _ HI)) Hr)).
Qed.
End protocol.

(** ** Scenario: rolling back a published candidate loses its durability *)

(** The directory sync after the second generation's rename fails: [Apply] reports
    an error, the candidate stays prepared, its pointer is live but not durable. *)
Definition unsynced_host : Host (option string) :=
  run (Manager.Apply sample_manager sample_ctx (artifact_of 2 "two") false) (replicate 51 FOk ++ [FFail])%list gen1.
Definition rolled_host : Host (option string) := run (Rollback sample_manager sample_ctx 2) [] unsynced_host.

Definition unsynced_nf : Host (option string) :=
  Eval vm_compute in
    run (Manager.Apply sample_manager sample_ctx (artifact_of 2 "two") false) (replicate 51 FOk ++ [FFail])%list gen1_nf.
Definition rolled_nf : Host (option string) :=
  Eval vm_compute in run (Rollback sample_manager sample_ctx 2) [] unsynced_nf.
Lemma unsynced_eq : unsynced_host = unsynced_nf.
Proof. unfold unsynced_host. rewrite gen1_eq. vm_compute. reflexivity. Qed.
Lemma rolled_eq : rolled_host = rolled_nf.
Proof. unfold rolled_host. rewrite unsynced_eq. vm_compute. reflexivity. Qed.

(** C15: [rollbackLocked] finalizes a candidate whose pointer is already published
    without first making the pointer durable, as boot recovery does.  After one failed
    directory sync, a rollback and a power loss, the database says generation 2 is
    committed while the pointer on stable storage is generation 1's, and no boot
    recovery, under any faults, ever succeeds again. *)
Theorem unsynced_rollback :
  gen_Status <$> w_gens (h_world unsynced_host) !! 2 = Some CommitPrepared ∧
  gen_Status <$> w_gens (h_world rolled_host) !! 2 = Some Committed ∧
  ptr_Generation <$> w_pointer (h_world rolled_host) = Some 2 ∧
  ptr_Generation <$> w_durable (h_world rolled_host) = Some 1 ∧
  ∀ c o r, result (RecoverAtBoot sample_range sample_manager c o (reboot rolled_host)) ≠ Ret r.
Proof.
  rewrite rolled_eq, unsynced_eq.
  split; [by vm_compute|]. split; [by vm_compute|]. split; [by vm_compute|]. split; [by vm_compute|].
  intros c o. apply (recovery_refuses_ids sample_range sample_manager c o (reboot rolled_nf) 1 2); [done|..];
    vm_compute; reflexivity.
Qed.

(** ** Witnesses *)

Lemma blank_Inv : Inv blank_world.
Proof. by apply Inv_initial. Qed.

Lemma sample_admissible id comment (w : World (option string)) : installs (ruleset comment) = true →
  (∀ id' g, w_gens w !! id' = Some g → id' < id) → admissible (artifact_of id comment) w.
Proof. intros Hi Hf. split; [exact Hi|]. intros _. exact Hf. Qed.

Lemma blank_admissible : admissible (artifact_of 1 "one") (h_world blank).
Proof. apply sample_admissible; [by vm_compute|]. intros id' g. simpl. by rewrite lookup_empty. Qed.

Lemma gen1_operation : operation sample_range sample_manager blank_world (h_world gen1).
Proof.
  change blank_world with (h_world blank). unfold gen1, run.
  exact (op_apply sample_range sample_manager sample_ctx _ false [] blank blank_admissible).
Qed.

Lemma gen1_system : rtc (system sample_range sample_manager) blank_world (h_world gen1).
Proof. apply rtc_once, sys_operation, gen1_operation. Qed.

Lemma gen1_Inv : Inv (h_world gen1).
Proof.
  apply (system_rtc sample_range sample_manager blank_world); [apply sample_restores|apply sample_transparent| |apply blank_Inv].
  apply gen1_system.
Qed.

Lemma ids_below (n : N) (mp : Gens) : forallb (λ r, r.1 <? n) (map_to_list mp) = true →
  ∀ id g, mp !! id = Some g → id < n.
Proof.
  rewrite forallb_forall. intros H id g Hg. apply N.ltb_lt.
  apply (H (id, g)), list_elem_of_In, elem_of_map_to_list, Hg.
Qed.

Lemma gen1_admissible : admissible (artifact_of 2 "two") (h_world gen1).
Proof. apply sample_admissible; [by vm_compute|]. apply ids_below. rewrite gen1_eq. by vm_compute. Qed.

Lemma gen2_operation : operation sample_range sample_manager (h_world gen1) (h_world gen2).
Proof.
  unfold gen2, run.
  exact (op_apply sample_range sample_manager sample_ctx _ true [] gen1 gen1_admissible).
Qed.

Lemma gen2_Inv : Inv (h_world gen2).
Proof.
  apply (system_rtc sample_range sample_manager blank_world); [apply sample_restores|apply sample_transparent| |apply blank_Inv].
  eapply rtc_r; [apply gen1_system|]. apply sys_operation, gen2_operation.
Qed.

Lemma reboot_Inv h : Inv (h_world h) → Inv (h_world (reboot h)).
Proof. intros HI. apply (elsewhere_Inv (power_lost (h_world h))); [by split|by apply power_loss_Inv]. Qed.

Lemma gen1_row : ∃ g, w_gens (h_world gen1) !! 1 = Some g ∧ committed g = true.
Proof.
  assert (committed <$> w_gens (h_world gen1) !! 1 = Some true) as Hc by (rewrite gen1_eq; vm_compute; reflexivity).
  destruct (w_gens (h_world gen1) !! 1) as [g|]; [|discriminate].
  exists g. split; [reflexivity|]. by injection Hc.
Qed.




Lemma RecoverAtBoot_ready_witness : ∃ res,
  result (RecoverAtBoot sample_range sample_manager sample_ctx [] (reboot gen2)) = Ret (res, None) ∧
  rec_Ready res = true ∧
  ready_at sample_range (h_world (reboot gen2)) (rec_Generation res)
    (h_world (final (RecoverAtBoot sample_range sample_manager sample_ctx [] (reboot gen2)))).
Proof.
  assert (HI : Inv (h_world (reboot gen2))).
  { apply reboot_Inv, gen2_Inv. }
  assert (Hr : result (RecoverAtBoot sample_range sample_manager sample_ctx [] (reboot gen2)) =
    Ret (mkRecovery 1 "rolled_back_to_predecessor" true, None)) by (rewrite gen2_eq; vm_compute; reflexivity).
  exists (mkRecovery 1 "rolled_back_to_predecessor" true). split; [exact Hr|]. split; [reflexivity|].
  apply (RecoverAtBoot_ready sample_range sample_manager sample_ctx [] (reboot gen2) _ None
    sample_restores sample_transparent HI Hr eq_refl).
Defined.

Lemma Apply_success_witness : ∃ r,
  result (Manager.Apply sample_manager sample_ctx (artifact_of 2 "two") true [] gen1) = Ret r ∧
  apply_done (artifact_of 2 "two") true r
    (h_world (final (Manager.Apply sample_manager sample_ctx (artifact_of 2 "two") true [] gen1))).
Proof.
  assert (match result (Manager.Apply sample_manager sample_ctx (artifact_of 2 "two") true [] gen1) with
          | Ret _ => true | _ => false end = true) as Hr by (rewrite gen1_eq; vm_compute; reflexivity).
  destruct (result (Manager.Apply sample_manager sample_ctx (artifact_of 2 "two") true [] gen1)) as [r| |] eqn:E;
    [|discriminate..].
  exists r. split; [reflexivity|].
  apply (Apply_success sample_manager sample_ctx (artifact_of 2 "two") true [] gen1 r sample_restores
    gen1_Inv gen1_admissible E).
Defined.

Lemma Commit_success_witness : published 2 (h_world (final (Commit sample_manager sample_ctx 2 [] gen2))).
Proof.
  apply (Commit_success sample_manager sample_ctx 2 [] gen2 sample_restores gen2_Inv).
  rewrite gen2_eq. vm_compute. reflexivity.
Defined.
