(* ===== verification/RuntimeControl.v ===== *)
(** The generation side of the application runtime (internal/app/runtime.go): an apply
    request is put together from the configuration on disk, the Docker bridges of the
    host, the provenance ledger, the stored claims and the VPN endpoints, compiled, and
    handed to the manager; every other request that changes the installed policy or its
    sets runs under the same publication lock. *)

From S2P Require Import Prelude GoStrings GoTime Netip Claims Ledger Config PolicyModel Snapshot Host Store ClaimStore.
From S2P Require Import NftScript NftJson Backend SetUpdates Collision Manager Recovery ClaimRuntime Compiler Intent Docker WgControl.
From Stdlib Require Import Ascii String.
Local Open Scope string_scope.
Local Open Scope Z_scope.
Local Open Scope host_scope.
Abbreviation length := List.length.
Abbreviation Config := Config.Config.
Abbreviation Join := Prelude.Join.
Abbreviation Manager := Manager.Manager.

Section daemon.
Context {K : Type} `{Nft K}.
Context (range : gset string → list string).
(** What Go prints of a configuration, and the length of nft's listing. *)
Context (go_syntax : Config → string) (listing_size : K → N).
Abbreviation HM := (M (Host K)).

(** What [wg] says of the tunnel, and the change of its peer's endpoint. *)
Record Controller := mkController { Observe : string → Z → HM Observation; SetEndpoint : string → string → Z → HM bool }.

(** The runtime with what it is wired to.  [config.Load] of the configuration path and
    [intent.Load] of the file beside it, the check of Docker's daemon.json, the docker
    and ip commands, the TOML encoder and the write of the configuration file are given
    by what they answer; the fetchers that tests inject are left out. *)
Record Daemon := mkDaemon {
  dm_Config : Config;
  dm_Managed : bool;                                                (* ManagedIntent is set *)
  dm_Resolve : option (string → HM (list string * option err));
  dm_Manager : Manager K;
  dm_Ledger : option bool;                                          (* the ledger's handle: is it read-only *)
  dm_Load : option (HM Config);                                     (* ConfigPath is set *)
  dm_LoadIntent : HM bool;                                          (* is there a managed intent *)
  dm_DaemonConfig : HM (option err);                                (* ValidateManagedDaemonConfig *)
  dm_Docker : HM Commands;
  dm_Encode : Config → err + string;
  dm_Write : string → HM unit;
  dm_WG : option Controller
}.
Definition with_config (d : Daemon) (c : Config) (managed : bool) : Daemon :=
  mkDaemon c managed (dm_Resolve d) (dm_Manager d) (dm_Ledger d) (dm_Load d) (dm_LoadIntent d) (dm_DaemonConfig d) (dm_Docker d)
    (dm_Encode d) (dm_Write d) (dm_WG d).
Definition runtime_of (d : Daemon) : Runtime := mkRuntime_ (dm_Config d) (dm_Resolve d).
Definition docker_enabled (d : Daemon) : bool := DockerEnabled (Integrations (dm_Config d)).

(** ** The configuration in force *)

Definition currentConfiguration (d : Daemon) : HM Daemon :=
  match dm_Load d with
  | None => ret d
  | Some load =>
      loaded <- wrapped "reload protected configuration: %w" load ;;
      wrapped "compile reloaded configuration: %w" (lift_check (CompilePolicy loaded)) ;;
      managed <- wrapped "reload managed intent: %w" (dm_LoadIntent d) ;;
      ret (with_config d loaded managed)
  end.

(** [Observer.FirewallPolicy]: an option the product does not own is a refusal, not an
    error. *)
Definition FirewallPolicy (checked : option err) : bool * string * option err :=
  match checked with
  | None => (true, "docker firewall, forwarding, masquerade, and userland proxy ownership disabled", None)
  | Some e =>
      if has_prefix (err_text e) "DOCKER_DAEMON_OPTION_NOT_OWNED_" then (false, err_text e, None) else (false, err_text e, Some e)
  end.
Definition require_docker_policy (d : Daemon) : HM unit :=
  checked <- dm_DaemonConfig d ;;
  let '(ok, detail, e) := FirewallPolicy checked in
  match e with
  | Some e => throw (Wrapf "docker integration refused: %s: %w" [ArgS detail] e)
  | None => require ok (Errorf "docker integration refused: %s" [ArgS detail])
  end.
Definition observe_networks (d : Daemon) : HM (list Network) :=
  commands <- dm_Docker d ;; lift_check (Networks range commands (DockerNetworks (dm_Config d))).
Definition projectDockerConfiguration (d : Daemon) : HM Daemon :=
  if negb (docker_enabled d) then ret d
  else
    require_docker_policy d ;;
    observed <- wrapped "observe Docker bridge bindings: %w" (observe_networks d) ;;
    projected <- lift_check (ProjectObservedConfig (dm_Config d) observed) ;;
    wrapped "compile observed Docker configuration: %w" (lift_check (CompilePolicy projected)) ;;
    ret (with_config d projected (dm_Managed d)).

(** ** Container networks *)

(** The loop of [containerNets] and [containerNetsFromConfig]. *)
Definition add_container_net (nets : list string * list string) (raw : string) : err + (list string * list string) :=
  let invalid := Errorf "invalid container network %q" [ArgS raw] in
  match ParsePrefix raw with
  | None => inl invalid
  | Some p =>
      if (pfx_bits p =? 0)%N then inl invalid
      else if Is4 (pfx_addr p) then inr ((nets.1 ++ [prefix_String p])%list, nets.2)
      else inr (nets.1, (nets.2 ++ [prefix_String p])%list)
  end.
Definition split_networks (c : Config) (values : list string) : err + (list string * list string) :=
  err_bind (fold_err add_container_net ([], []) (unique values)) (λ nets,
    if MaxSetMembers (Config.Runtime c) <? Z.of_nat (length nets.1 + length nets.2)
    then inl (Errorf "container network count exceeds runtime.max_set_members" []) else inr nets).
Definition configured_networks (c : Config) : list string := List.filter (role_is "container") (Interfaces c) ≫= in_CIDRs.
Definition containerNets (d : Daemon) : HM (list string * list string) :=
  observed <- (if docker_enabled d then
                 require_docker_policy d ;;
                 networks <- wrapped "observe Docker networks: %w" (observe_networks d) ;;
                 ret (map nw_CIDR networks)
               else ret []) ;;
  lift_check (split_networks (dm_Config d) (configured_networks (dm_Config d) ++ observed)%list).
Definition containerNetsFromConfig (c : Config) : err + (list string * list string) :=
  err_bind (split_networks c (configured_networks c)) (λ nets, inr (sort_strings nets.1, sort_strings nets.2)).

(** ** The artifact *)

(** An operation of the ledger on the ledger of the host. *)
Definition set_ledger (t : Ledger.Table) (w : World K) : World K :=
  mkWorld (w_dir w) (w_gens w) (w_audit w) (w_scripts w) (w_snapshots w) (w_pointer w) (w_durable w)
    (w_tmp w) (w_prepared w) t (w_kernel w) (w_first_use w) (w_boot_id w) (w_claims w).
Definition on_ledger {A} (ro : bool) (m : M LedgerDB A) : HM A := λ o h,
  let '(a, o', l) := m o (mkLedgerDB (w_ledger (h_world h)) ro) in (a, o', on_world (set_ledger (allocations l)) h).
Definition ledger_read {A} (what : string) (f : Ledger.Table → A) : HM A := sys_read (EvDBRead what) (λ w, Ret (f (w_ledger w))).

Definition audit_foreign : HM unit :=
  audited <- try_ (AuditForeignProvenanceMask listing_size) ;;
  match audited with
  | inl e =>
      Manager.ignore (Audit "system" "foreign_provenance_audit_refused"
        (sprintf "scope=%s error=%v" [ArgS ProvenanceCollisionScope; ArgS (err_text e)])) ;;
      throw e
  | inr a =>
      wrapped "audit foreign provenance ownership: %w"
        (Audit "system" "foreign_provenance_audit_passed"
           ("scope=" +:+ ProvenanceCollisionScope +:+ " mask=" +:+ mark_mask +:+
            sprintf " foreign_rules=%d owned_rules=%d" [ArgN (ForeignRules a); ArgN (OwnedRulesIgnored a)]))
  end.
Definition reserve_provenance (d : Daemon) (ro : bool) : HM unit :=
  let assignments := map assignment_of (Interfaces (dm_Config d)) in
  now <- read_clock ;;
  wrapped "durably reserve ingress provenance before compile: %w" (on_ledger ro (Reserve now assignments)) ;;
  inventory <- wrapped "read reserved ingress provenance: %w" (ledger_read "assignments" assignmentsFrom) ;;
  digest <- wrapped "digest reserved ingress provenance: %w" (ledger_read "digest" Digest) ;;
  let retired := length (List.filter Retired inventory) in
  wrapped "audit ingress provenance reservation: %w"
    (Audit "system" "provenance_reserved"
       (sprintf "mask=0xff000000 active=%d retired=%d digest=%s" [ArgZ (Z.of_nat (length assignments)); ArgZ (Z.of_nat retired); ArgS digest])).
Definition artifactLockedCurrent (d : Daemon) : HM Artifact :=
  match dm_Ledger d with
  | None => throw (Errorf "writable monotonic provenance ledger is unavailable" [])
  | Some ro =>
      audit_foreign ;;
      reserve_provenance d ro ;;
      id <- NextGeneration ;;
      now <- read_clock ;;
      claims <- Claims now ;;
      endpoints <- bootstrapEndpoints (runtime_of d) ;;
      let '(v4, v6, _) := endpoints in
      docker <- containerNets d ;;
      now <- read_clock ;;
      sets <- lift_check (claimSets (dm_Config d) range claims now (v4 ++ v6)%list) ;;
      lift_check (Compile go_syntax
        (mkInput (effective (dm_Config d)) (blockedV4 sets) (blockedV6 sets) v4 v6 docker.1 docker.2) id)
  end.
Definition artifactLocked (d : Daemon) : HM Artifact :=
  current <- currentConfiguration d ;;
  projected <- projectDockerConfiguration current ;;
  artifactLockedCurrent projected.

(** [Artifact] *)
Definition plan_artifact (d : Daemon) : HM Artifact := with_publication_lock (artifactLocked d).

(** ** Apply, commit, roll back, reconcile *)

(** Publishing after a change of the policy: the refresh runs under the lock, outside
    the deadline of the request. *)
Definition refresh_after (d : Daemon) (x : Ctx) : HM bool := refreshClaimSetsLocked range (runtime_of d) (WithMutationLock x).
Definition apply_request (d : Daemon) (x : Ctx) (safe : bool) : HM Result :=
  let m := dm_Manager d in
  applyCtx <- (if safe then PreflightSafeApply m x else ret x) ;;
  with_publication_lock
    (a <- artifactLocked d ;;
     wrapped "mark runtime claims pending before policy apply: %w" PrepareClaimPublication ;;
     let lockedCtx := WithMutationLock applyCtx in
     result <- Manager.Apply m lockedCtx a safe ;;
     catch (refresh_after d applyCtx ;; ret result)
       (λ e,
          catch (Rollback m lockedCtx (art_Generation a))
            (λ rollbackErr,
               throw (Wrapf "apply runtime lease reconciliation failed: %w; rollback also failed: %v" [ArgS (err_text rollbackErr)] e)) ;;
          throw (Wrapf "apply runtime lease reconciliation failed and generation was rolled back: %w" [] e))).

Definition Rollback_ (d : Daemon) (x : Ctx) (generation : N) : HM unit :=
  with_publication_lock
    (wrapped "mark runtime claims pending before rollback: %w" PrepareClaimPublication ;;
     Rollback (dm_Manager d) (WithMutationLock x) generation ;;
     refresh_after d x ;; ret tt).
Definition Commit_ (d : Daemon) (x : Ctx) (generation : N) : HM unit :=
  with_publication_lock
    (wrapped "mark runtime claims pending before commit: %w" PrepareClaimPublication ;;
     Manager.Commit (dm_Manager d) (WithMutationLock x) generation ;;
     refresh_after d x ;; ret tt).

(** Go returns a result next to an error. *)
Definition with_error {A B} (m : HM A) (r : B) : HM (B * option err) :=
  done_ <- try_ m ;; ret (r, match done_ with inl e => Some e | inr _ => None end).
Definition Reconcile_ (d : Daemon) (x : Ctx) (repair : bool) : HM (Drift * option err) :=
  if negb repair then Reconcile range (dm_Manager d) x false
  else
    with_publication_lock
      (wrapped "mark runtime claims pending before reconciliation: %w" PrepareClaimPublication ;;
       r <- Reconcile range (dm_Manager d) (WithMutationLock x) true ;;
       match snd r with
       | Some e => ret r
       | None => with_error (refresh_after d x) (fst r)
       end).

Definition pendingRecoveryActionable (pending : option Generation) (now : time) : HM bool :=
  match pending with
  | None => ret false
  | Some g =>
      if has_status [CommitPrepared] g then ret true
      else
        bootID <- CurrentBootID ;;
        require (negb (String.eqb (gen_BootID g) "")) (Errorf "pending generation has no creating boot id" []) ;;
        if negb (String.eqb (gen_BootID g) bootID) then ret true
        else ret (match gen_RollbackDeadline g with Some t => negb (now <? t) | None => false end)
  end.
Definition actionable : HM bool :=
  pending <- if_any Pending_ ;;
  match pending with
  | None => ret false
  | Some g => now <- read_clock ;; pendingRecoveryActionable (Some g) now
  end.
(** The pending generation is looked at without the lock first, and again under it. *)
Definition RollbackExpired_ (d : Daemon) (x : Ctx) : HM (bool * option err) :=
  due <- actionable ;;
  if negb due then ret (false, None)
  else
    with_publication_lock
      (due <- actionable ;;
       if negb due then ret (false, None)
       else
         r <- RollbackExpired range (dm_Manager d) (WithMutationLock x) ;;
         if match snd r with Some _ => true | None => negb (fst r) end then ret r
         else with_error
           (wrapped "mark runtime claims pending after recovered rollback: %w" PrepareClaimPublication ;; refresh_after d x) true).

(** ** The VPN endpoints *)

Definition noted (event detail : string) : HM unit := Manager.ignore (Audit "system" event detail).
Definition refreshEndpointsLocked (d : Daemon) (x : Ctx) : HM bool :=
  endpoints <- bootstrapEndpoints (runtime_of d) ;;
  let '(v4, v6, preferred) := endpoints in
  existing <- ExistingOwned ;;
  if negb (bool_decide (filter_key ∈ existing)) then ret false
  else
    ReplaceSets range x (<["wg_bootstrap_v4" := v4]> (<["wg_bootstrap_v6" := v6]> ∅)) ;;
    let w := WireGuard (dm_Config d) in
    changed <- (match dm_WG d with
                | Some wg =>
                    if String.eqb preferred "" then ret false
                    else
                      o <- Observe wg (wg_Interface w) (HandshakeSecond w * second) ;;
                      (if Healthy o then ret tt else noted "wireguard_recovery_attempted" "bounded endpoint refresh") ;;
                      catch (SetEndpoint wg (wg_Interface w) preferred (EndpointPort w))
                        (λ e, noted "wireguard_endpoint_update_failed" "live peer update rejected" ;; throw e)
                | None => ret false
                end) ;;
    noted "wireguard_endpoint_set_refreshed" (sprintf "ipv4=%d ipv6=%d" [ArgZ (Z.of_nat (length v4)); ArgZ (Z.of_nat (length v6))]) ;;
    (if changed : bool then noted "wireguard_endpoint_changed" "live peer endpoint updated" else ret tt) ;;
    ret true.
Definition RefreshEndpoints (d : Daemon) (held : bool) (x : Ctx) : HM bool := publicationContext held x (refreshEndpointsLocked d).

Definition RefreshWireGuardHealth (d : Daemon) : HM unit :=
  match dm_WG d with
  | None => ret tt
  | Some wg =>
      let w := WireGuard (dm_Config d) in
      let name := "wireguard/" +:+ wg_Interface w in
      o <- Observe wg (wg_Interface w) (HandshakeSecond w * second) ;;
      previous <- try_ (IntegrationState_ name) ;;
      if Healthy o then
        SetIntegrationState name "healthy" (PeerCount o) true ;;
        (if match previous with inr s => String.eqb (st_Status s) "degraded" | inl _ => false end
         then noted "vpn_recovered" "WireGuard handshake healthy" else ret tt)
      else
        SetIntegrationState name "degraded" (PeerCount o) false ;;
        (if match previous with inr s => negb (String.eqb (st_Status s) "degraded") | inl e => is_no_rows e end
         then noted "vpn_failure_detected" (Reason o) else ret tt)
  end.

(** ** The container sets *)

Definition set_docker (status : string) (count : Z) (success : bool) : HM unit := SetIntegrationState "docker" status count success.
Definition failContainerRefresh {A} (d : Daemon) (count : Z) (cause : err) : HM A :=
  (if docker_enabled d then
     catch (set_docker "degraded" count false)
       (λ e, throw (Join cause (Wrapf "record Docker integration degradation: %w" [] e)))
   else ret tt) ;;
  throw cause.
Definition or_fail {A} (d : Daemon) (count : Z) (m : HM A) : HM A := catch m (failContainerRefresh d count).
Definition net_count (nets : list string * list string) : Z := Z.of_nat (length nets.1 + length nets.2).
Definition nat_key : string := "ip/" +:+ NATTable.
Definition replaceContainerSetsLocked (d : Daemon) (x : Ctx) (nets : list string * list string) : HM bool :=
  existing <- or_fail d (net_count nets) ExistingOwned ;;
  if negb (bool_decide (filter_key ∈ existing)) || negb (bool_decide (nat_key ∈ existing)) then ret false
  else
    or_fail d (net_count nets) (ReplaceContainerNetworks x nets.1 nets.2) ;;
    (if docker_enabled d then wrapped "record Docker integration health: %w" (set_docker "healthy" (net_count nets) true) else ret tt) ;;
    ret true.
(** The bridges moved: the policy is compiled for the new ones, applied and committed,
    and the configuration of a managed host is rewritten. *)
Definition rebindDockerBridgesLocked (d : Daemon) (x : Ctx) (projected : Daemon) : HM bool :=
  let count := Z.of_nat (list_sum (map (λ n, length (dn_Subnets n)) (DockerNetworks (dm_Config projected)))) in
  wrapped "record Docker bridge rebind pending: %w" (set_docker "degraded" count false) ;;
  artifact <- or_fail d count (artifactLockedCurrent projected) ;;
  or_fail d count (wrapped "mark runtime claims pending before Docker bridge rebind: %w" PrepareClaimPublication) ;;
  result <- or_fail d count (wrapped "apply Docker bridge rebind: %w" (Manager.Apply (dm_Manager d) x artifact false)) ;;
  or_fail d count (require (res_Committed result) (Errorf "docker bridge rebind generation was not committed" [])) ;;
  (if dm_Managed projected && match dm_Load projected with Some _ => true | None => false end then
     data <- or_fail d count (wrapped "render Docker bridge rebind: %w" (lift_check (RenderConfig (dm_Encode d) (dm_Config projected)))) ;;
     or_fail d count (wrapped "persist Docker bridge rebind: %w" (dm_Write d data))
   else ret tt) ;;
  or_fail d count (wrapped "publish claims after Docker bridge rebind: %w" (refreshClaimSetsLocked range (runtime_of projected) x)) ;;
  wrapped "record Docker bridge rebind health: %w" (set_docker "healthy" count true) ;;
  or_fail d count (wrapped "audit Docker bridge rebind: %w" (Audit "system" "docker_bridge_rebound"
    (sprintf "generation=%d networks=%d" [ArgN (res_Generation result); ArgZ (Z.of_nat (length (DockerNetworks (dm_Config projected))))]))) ;;
  ret true.
Definition refreshContainerSetsLocked (d : Daemon) (x : Ctx) : HM bool :=
  current <- or_fail d 0 (currentConfiguration d) ;;
  projected <- or_fail d 0 (projectDockerConfiguration current) ;;
  if docker_enabled current && dockerBridgeBindingsChanged (dm_Config current) (dm_Config projected)
  then rebindDockerBridgesLocked d x projected
  else
    nets <- or_fail d 0 (lift_check (containerNetsFromConfig (dm_Config projected))) ;;
    replaceContainerSetsLocked d x nets.
Definition RefreshContainerSets (d : Daemon) (held : bool) (x : Ctx) : HM bool := publicationContext held x (refreshContainerSetsLocked d).

(** ** Restoring the runtime sets *)

Definition failure {A} (fmt : string) (m : HM A) : HM (list err) :=
  r <- try_ m ;; ret (match r with inl e => [Wrapf fmt [] e] | inr _ => [] end).
Definition RestoreRuntimeState (d : Daemon) (held : bool) (x : Ctx) : HM unit :=
  publicationContext held x (λ x,
    e1 <- failure "claims: %w" (refreshClaimSetsLocked range (runtime_of d) x) ;;
    e2 <- failure "WireGuard endpoints: %w" (refreshEndpointsLocked d x) ;;
    e3 <- failure "container networks: %w" (refreshContainerSetsLocked d x) ;;
    throw_if (join_errors (e1 ++ e2 ++ e3)%list)).

(** ** Control *)

Inductive control_request :=
  | ReqPlan
  | ReqApply (safe : bool)
  | ReqCommit (generation : N)
  | ReqRollback (generation : N)
  | ReqGeneration (generation : N)
  | ReqReconcile
  | ReqRefresh
  | ReqClaim (q : claim_request).
Inductive reply :=
  | RepPlan (a : Artifact)
  | RepApply (r : Result)
  | RepDone
  | RepGeneration (g : Generation)
  | RepReconcile (r : Drift * option err)
  | RepRefresh (refreshed : bool)
  | RepClaim (id : option Z).
Definition ControlRequest (d : Daemon) (x : Ctx) (q : control_request) : HM reply :=
  match q with
  | ReqPlan =>
      a <- plan_artifact d ;;
      Manager.ignore (Audit "uid:0" "firewall_plan_generated" (sprintf "generation=%d checksum=%s" [ArgN (art_Generation a); ArgS (art_Checksum a)])) ;;
      ret (RepPlan a)
  | ReqApply safe => r <- apply_request d x safe ;; ret (RepApply r)
  | ReqCommit generation => Commit_ d x generation ;; ret RepDone
  | ReqRollback generation => Rollback_ d x generation ;; ret RepDone
  | ReqGeneration generation => g <- GenerationByID generation ;; ret (RepGeneration g)
  | ReqReconcile => r <- Reconcile_ d x true ;; ret (RepReconcile r)
  | ReqRefresh => r <- RefreshEndpoints d false x ;; ret (RepRefresh r)
  | ReqClaim q => r <- Control range (runtime_of d) x q ;; ret (RepClaim r)
  end.
End daemon.
