(* ===== verification/RuntimeSafety.v ===== *)
(** What the runtime relies on and keeps: nothing that a request, a timer, a refresh or
    the boot service does, whole or interrupted, breaks the generation protocol, whatever
    the configuration on disk, Docker, the resolver and the clock say meanwhile. *)

From S2P Require Import Prelude GoStrings GoTime Netip Claims Ledger Config PolicyModel Snapshot Host Store ClaimStore.
From S2P Require Import NftScript NftJson Backend SetUpdates SetBatch Collision Manager Recovery ClaimRuntime Compiler Compiled Docker.
From S2P Require Import Invariant Reads Safety Sample Publication Protocol RuntimeControl.
From Stdlib Require Import Ascii String.
Local Open Scope string_scope.
Local Open Scope Z_scope.
Local Open Scope host_scope.
Abbreviation length := List.length.
Abbreviation Config := Config.Config.
Abbreviation Join := Prelude.Join.
Abbreviation Manager := Manager.Manager.

(** A batch of checked updates of the owned sets changes members only: the owned tables
    stay listed. *)
Class NftBatch (K : Type) `{Nft K} := {
  nft_batch_lists l k k' : Forall update_ok l → nft_file (batch l) k = Some k' → present k → present k'
}.

(** ** Quiet computations

    They change no generation, file, pointer or owned table, whether they return or not. *)

Section quiet.
Context {K : Type} `{NftLaws K}.
Abbreviation HM := (M (Host K)).
Implicit Types (w : World K).

Definition quiet {A} (m : HM A) : Prop := ∀ w, Calm m (λ _ _, True) w.

Lemma quiet_ret {A} (a : A) : quiet (ret a).
Proof. intros w. by apply Calm_ret. Qed.
Lemma quiet_throw {A} e : quiet (throw e : HM A).
Proof. intros w. apply Calm_throw. Qed.
Lemma quiet_bind {A B} (m : HM A) (f : A → HM B) : quiet m → (∀ a, quiet (f a)) → quiet (bind m f).
Proof. intros Hm Hf w. eapply Calm_bind; [apply Hm|]. intros a w' _ _. apply Hf. Qed.
Lemma quiet_catch {A} (m : HM A) k : quiet m → (∀ e, quiet (k e)) → quiet (catch m k).
Proof. intros Hm Hk w. apply Calm_catch; [apply Hm|]. intros e w' _. apply Hk. Qed.
Lemma quiet_wrapped {A} fmt (m : HM A) : quiet m → quiet (wrapped fmt m).
Proof. intros Hm. apply quiet_catch; [done|]. intros e. apply quiet_throw. Qed.
Lemma quiet_try {A} (m : HM A) : quiet m → quiet (try_ m).
Proof. intros Hm w. eapply Calm_mono; [apply Calm_try, Hm|]. done. Qed.
Lemma quiet_reads {A} (m : HM A) Q : (∀ w, reads m Q w) → quiet m.
Proof. intros Hm w. eapply Calm_mono; [apply Calm_reads, Hm|]. done. Qed.
Lemma quiet_require b e : quiet (require b e).
Proof. destruct b; [apply quiet_ret|apply quiet_throw]. Qed.
Lemma quiet_throw_if e : quiet (throw_if e).
Proof. destruct e; [apply quiet_throw|apply quiet_ret]. Qed.
Lemma quiet_lift_check {A} (r : err + A) : quiet (lift_check r).
Proof. destruct r; [apply quiet_throw|apply quiet_ret]. Qed.
Lemma quiet_clock : quiet read_clock.
Proof. eapply quiet_reads. intros w. apply reads_clock. Qed.
Lemma quiet_sys_read {A} ev (f : World K → outcome A) : quiet (sys_read ev f).
Proof. eapply quiet_reads. intros w. eapply reads_True, reads_sys. Qed.
Lemma quiet_query {A} name (f : Tables → err + A) : quiet (query name f).
Proof. apply quiet_sys_read. Qed.
Lemma quiet_transaction {A} name (body : Tx A) : quiet (transaction name body).
Proof.
  intros w. apply Calm_sys_write. intros a w'. destruct (body [] (tables w)) as [[[x|e|] o] t]; [|done..].
  intros [= <- <-]. split; [|done]. apply evolved_quiet; auto.
Qed.
Lemma quiet_audit actor event detail : quiet (Audit actor event detail).
Proof. intros w. eapply Calm_mono; [apply Calm_Audit|]. done. Qed.
Lemma quiet_finally {A} (m : HM A) c : quiet m → (∀ w, reads c (λ _, True) w) → quiet (finally m c).
Proof.
  intros Hm Hc w I HI HIw.
  set (J := λ w', I w' ∧ evolved w w'). assert (J w) as HJ by (by split; [|split]).
  eapply wsafe_inv_mono with (I := J); [by intros ? [? ?]|].
  eapply wsafe_mono; [|by intros a w' [_ [? ?]] _].
  apply wsafe_finally with (P := λ _ _, True); [eapply wsafe_mono; [by apply Hm; [apply closed_evolved|]|done]|].
  intros Q w' _ HJ' HQ. eapply wsafe_mono; [by apply Hc|]. done.
Qed.
Lemma quiet_locked {A} (m : HM A) : quiet m → quiet (with_publication_lock m).
Proof. intros Hm. apply quiet_bind; [apply quiet_sys_read|intros _]. apply quiet_finally; [done|]. intros w. eapply reads_True, reads_sys. Qed.
Lemma quiet_context {A} held x (m : Ctx → HM A) : (∀ y, quiet (m y)) → quiet (publicationContext held x m).
Proof. intros Hm. unfold publicationContext. destruct (held && ctx_locked x); [apply Hm|]. apply quiet_locked, Hm. Qed.
Lemma Calm_ledger {A} ro (m : M LedgerDB A) P w : safe (λ _, True) m P (mkLedgerDB (w_ledger w) ro) →
  Calm (on_ledger ro m) (λ a w', ∃ l, w' = set_ledger (allocations l) w ∧ P a l) w.
Proof.
  intros Hm I HI HIw c tr o. specialize (Hm o). unfold on_ledger. cbn [h_world].
  destruct (m o _) as [[[a|e|] o'] l]; simpl in *; (split; [eapply HI; [done| |done]; by split; auto|]); [|done..].
  split; [by split; auto|]. split; [done|]. exists l. split; [done|]. apply Hm.
Qed.
Lemma quiet_ledger {A} ro (m : M LedgerDB A) : quiet (on_ledger ro m).
Proof. intros w. eapply Calm_mono; [apply (Calm_ledger ro m (λ _ _, True))|done]. intros o. split; [done|]. by destruct (result _). Qed.
End quiet.
Create HintDb quiet.
Ltac quieting :=
  repeat (intros; lazymatch goal with
  | |- quiet (ret _) => apply quiet_ret
  | |- quiet (throw _) => apply quiet_throw
  | |- quiet (require _ _) => apply quiet_require
  | |- quiet (throw_if _) => apply quiet_throw_if
  | |- quiet (lift_check _) => apply quiet_lift_check
  | |- quiet (query _ _) => apply quiet_query
  | |- quiet (sys_read _ _) => apply quiet_sys_read
  | |- quiet (transaction _ _) => apply quiet_transaction
  | |- quiet (Audit _ _ _) => apply quiet_audit
  | |- quiet (on_ledger _ _) => apply quiet_ledger
  | |- quiet (bind _ _) => apply quiet_bind
  | |- quiet (catch _ _) => apply quiet_catch
  | |- quiet (wrapped _ _) => apply quiet_wrapped
  | |- quiet (try_ _) => apply quiet_try
  | |- quiet (with_publication_lock _) => apply quiet_locked
  | |- quiet (publicationContext _ _ _) => apply quiet_context
  | |- quiet (match ?x with _ => _ end) => destruct x
  | |- quiet read_clock => apply quiet_clock
  | |- quiet _ => progress auto with quiet
  end); intros.

(** ** What a reservation leaves in the ledger *)

Definition live_in (t : Ledger.Table) (a : Assignment) : Prop :=
  ∃ row, t !! Name a = Some row ∧ provenance_id row = ID a ∧ retired row = false.
Lemma reserve_live now l t t' : table_wf t → ValidateActive l = None → reserve_tx now l t = inr t' → Forall (live_in t') l.
Proof.
  intros Hwf (_ & _ & Hok)%ValidateActive_None Ht'. destruct (reserve_tx_spec now l t Hwf Hok) as [(t1 & E & Hres & Hrows)|(e & E & _)]; [|congruence].
  rewrite Ht' in E. injection E as <-. apply list.Forall_forall. intros a Ha. unfold live_in. rewrite Hrows. unfold reserved.
  rewrite list.Forall_forall in Hres. specialize (Hres a Ha). unfold reservable in Hres. destruct (t !! Name a) as [r|].
  - rewrite decide_True by (apply elem_of_names_of; eauto). exists r. split; [done|apply Hres].
  - destruct Hok as (Hf & Hnd & Hids). pose proof (by_name_active l (Name a) Hnd) as Hb. destruct (by_name l !! Name a) as [b|].
    + destruct Hb as [Hb Hn]. exists (fresh_row now b). split; [done|]. split; [|by rewrite list.Forall_forall in Hf].
      simpl. f_equal. apply list_elem_of_lookup in Ha as [i Hi], Hb as [j Hj].
      assert (i = j) as ->; [|congruence]. eapply (NoDup_lookup _ i j (Name a) Hnd); [by rewrite list_lookup_fmap, Hi|by rewrite list_lookup_fmap, Hj, <-Hn].
    + exfalso. apply Hb, elem_of_names_of. eauto.
Qed.
Lemma live_required t l : Forall (live_in t) l → ValidateActive l = None → ValidateRequired t l = None.
Proof.
  intros Hl (_ & _ & Hf & Hn & Hi)%ValidateActive_None. apply ValidateRequired_None. split; [|done].
  rewrite list.Forall_forall in Hl, Hf |- *. intros a Ha. destruct (Hf a Ha) as (_ & ? & ?), (Hl a Ha) as (r & Hr & Hid & _).
  split; [done|]. split; [done|]. rewrite Hr. simpl. congruence.
Qed.
Lemma Reserve_committed now l s : safe (λ _, True) (Reserve now l)
  (λ _ s', ValidateActive l = None ∧ reserve_tx now l (allocations s) = inr (allocations s')) s.
Proof.
  unfold Reserve. apply safe_bind, safe_gets; [done|]. apply safe_bind, safe_require; [done|intros _].
  destruct (ValidateActive l); [by apply safe_throw|]. apply safe_bind. unfold commit_tx. apply safe_io_write; [done|done|].
  intros [] s'. destruct (reserve_tx now l (allocations s)) as [e|t] eqn:E; [done|]. intros [= <-]. by apply safe_io_read.
Qed.

Section operations.
Context {K : Type} `{NftLaws K} `{!NftBatch K}.
Context (range : gset string → list string) (go_syntax : Config → string) (listing_size : K → N).
Abbreviation HM := (M (Host K)).
Implicit Types (w : World K) (d : Daemon (K := K)).

(** *** Sets of the kernel *)

Lemma quiet_run_batch failed l : Forall update_ok l → quiet (run_batch failed (batch l)).
Proof.
  intros Hl. unfold run_batch. apply quiet_bind; [eapply quiet_reads; intros w; apply reads_Check|intros _].
  apply quiet_bind; [eapply quiet_reads; intros w; apply reads_tempScript|intros _]. apply quiet_catch; [|intros e; apply quiet_throw].
  intros w. apply Calm_sys_write. intros [] w'. destruct (nft_file _ _) as [k|] eqn:E; [|done]. intros [= <-]. split; [|done].
  apply evolved_quiet; auto. simpl. by eapply nft_batch_lists.
Qed.
Lemma quiet_ReplaceClaimSets x b4 b6 t4 t6 : quiet (ReplaceClaimSets x b4 b6 t4 t6).
Proof.
  unfold ReplaceClaimSets, requireGlobalMutationLock, applyRuntimeTransaction. apply quiet_bind; [apply quiet_require|intros _].
  destruct (claim_updates _ _ _ _) as [e|l] eqn:E; [apply quiet_throw|]. apply quiet_run_batch, (request_ok (ClaimSets b4 b6 t4 t6) l E I).
Qed.
Lemma quiet_ReplaceContainerNetworks x v4 v6 : quiet (ReplaceContainerNetworks x v4 v6).
Proof.
  unfold ReplaceContainerNetworks, requireGlobalMutationLock. apply quiet_bind; [apply quiet_require|intros _].
  destruct (container_updates _ _) as [e|l] eqn:E; [apply quiet_throw|]. apply quiet_run_batch, (request_ok (ContainerNetworks v4 v6) l E I).
Qed.
Lemma quiet_ReplaceSets x sets : (∀ n, n ∈ dom sets → is_Some (set_is_ipv4 n)) → quiet (ReplaceSets range x sets).
Proof.
  intros Hn. unfold ReplaceSets, requireGlobalMutationLock. apply quiet_bind; [apply quiet_require|intros _].
  destruct (List.find _ _); [apply quiet_throw|]. destruct (sequence _) as [e|[|u l]] eqn:E; [apply quiet_throw|apply quiet_ret|].
  apply quiet_run_batch, (request_ok (NamedSets sets) (u :: l) E). apply list.Forall_forall. intros n. unfold set_names.
  rewrite sort_strings_perm. intros ([k v] & -> & Hk%elem_of_map_to_list)%list_elem_of_fmap. by eapply Hn, elem_of_dom_2.
Qed.
Lemma quiet_ExistingOwned : quiet ExistingOwned.
Proof. eapply quiet_reads. intros w. eapply reads_True, reads_ExistingOwned. Qed.
#[local] Hint Resolve quiet_ReplaceClaimSets quiet_ReplaceContainerNetworks quiet_ExistingOwned : quiet.

(** *** What the runtime is wired to only looks at the host outside of the protocol *)

Definition looks {A} (m : HM A) : Prop := ∀ w, reads m (λ _, True) w.
Record wired d : Prop := {
  wi_resolve : ∀ resolve host, dm_Resolve d = Some resolve → looks (resolve host);
  wi_load : ∀ load w, dm_Load d = Some load → reads load clean_networks w;
  wi_intent : looks (dm_LoadIntent d);
  wi_daemon : looks (dm_DaemonConfig d);
  wi_docker : looks (dm_Docker d);
  wi_write : ∀ data, looks (dm_Write d data);
  wi_observe : ∀ wg interface healthy, dm_WG d = Some wg → looks (Observe wg interface healthy);
  wi_set : ∀ wg interface address port, dm_WG d = Some wg → looks (SetEndpoint wg interface address port);
  wi_clean : clean_networks (dm_Config d);
  wi_restores : restores_sets (dm_Manager d);
  wi_transparent : transparent range (dm_Manager d)
}.
Lemma looks_quiet {A} (m : HM A) : looks m → quiet m.
Proof. apply quiet_reads. Qed.

(** The configuration is another one; everything else is the same. *)
Definition reconfigured d d' : Prop := ∃ c managed, d' = with_config d c managed ∧ clean_networks c.
Lemma reconfigured_refl d : wired d → reconfigured d d.
Proof. intros Hd. exists (dm_Config d), (dm_Managed d). split; [by destruct d|apply (wi_clean _ Hd)]. Qed.
Lemma reconfigured_trans d1 d2 d3 : reconfigured d1 d2 → reconfigured d2 d3 → reconfigured d1 d3.
Proof. intros (c & m & -> & Hc) (c' & m' & -> & Hc'). by exists c', m'. Qed.
Lemma reconfigured_wired d d' : wired d → reconfigured d d' → wired d'.
Proof. intros Hd (c & m & -> & Hc). destruct Hd. by split. Qed.
Lemma reconfigured_manager d d' : reconfigured d d' → dm_Manager d' = dm_Manager d.
Proof. by intros (c & m & -> & _). Qed.

Lemma reads_currentConfiguration d w : wired d → reads (currentConfiguration d) (reconfigured d) w.
Proof.
  intros Hd. unfold currentConfiguration. destruct (dm_Load d) as [load|] eqn:E; [|by apply reads_ret, reconfigured_refl].
  eapply reads_bind; [by apply reads_wrapped, (wi_load _ Hd)|]. intros c Hc. cbn beta in Hc.
  eapply reads_bind; [apply reads_wrapped, reads_lift_check|]. intros e _.
  eapply reads_bind; [apply reads_wrapped, (wi_intent _ Hd)|]. intros managed _. apply reads_ret. by exists c, managed.
Qed.
Lemma reads_require_docker_policy d w : wired d → reads (require_docker_policy d) (λ _, True) w.
Proof.
  intros Hd. unfold require_docker_policy. eapply reads_bind; [apply (wi_daemon _ Hd)|]. intros checked _.
  destruct (FirewallPolicy checked) as [[ok detail] [e|]]; [apply reads_throw|]. eapply reads_True, reads_require.
Qed.
Lemma reads_observe_networks d w : wired d → reads (observe_networks range d) (λ _, True) w.
Proof. intros Hd. unfold observe_networks. eapply reads_bind; [apply (wi_docker _ Hd)|]. intros o _. eapply reads_True, reads_lift_check. Qed.
Lemma projected_clean c observed c' : clean_networks c → ProjectObservedConfig c observed = inr c' → clean_networks c'.
Proof.
  intros Hc Hp z n Hz Hn. pose proof (ProjectObservedConfig_zones observed c c' Hp) as H2.
  apply list_elem_of_lookup in Hz as [i Hi]. destruct (Forall2_lookup_r _ _ _ _ _ H2 Hi) as (z0 & Hz0 & _ & Hnet). rewrite Hnet in Hn.
  eapply Hc; [by eapply list_elem_of_lookup_2|done].
Qed.
Lemma reads_projectDockerConfiguration d w : wired d → reads (projectDockerConfiguration range d) (reconfigured d) w.
Proof.
  intros Hd. unfold projectDockerConfiguration. destruct (docker_enabled d); simpl; [|by apply reads_ret, reconfigured_refl].
  eapply reads_bind; [by apply reads_require_docker_policy|]. intros [] _.
  eapply reads_bind; [by apply reads_wrapped, reads_observe_networks|]. intros observed _.
  eapply reads_bind; [apply reads_lift_check|]. intros c Hc. cbn beta in Hc. eapply reads_bind; [apply reads_wrapped, reads_lift_check|]. intros e _.
  apply reads_ret. exists c, (dm_Managed d). split; [done|]. eapply projected_clean; [apply (wi_clean _ Hd)|done].
Qed.
Lemma reads_containerNets d w : wired d → reads (containerNets range d) (λ _, True) w.
Proof.
  intros Hd. unfold containerNets. eapply reads_bind with (Q := λ _, True); [|intros; eapply reads_True, reads_lift_check].
  destruct (docker_enabled d); [|by apply reads_ret]. eapply reads_bind; [by apply reads_require_docker_policy|]. intros [] _.
  eapply reads_bind; [by apply reads_wrapped, reads_observe_networks|]. intros l _. by apply reads_ret.
Qed.
Lemma reads_endpoints d w : wired d → reads (bootstrapEndpoints (runtime_of d)) (λ _, True) w.
Proof. intros Hd. apply reads_bootstrapEndpoints. intros resolve host w' Hr. by apply (wi_resolve _ Hd). Qed.

(** *** The refreshes *)

Lemma quiet_endpoints d : wired d → quiet (bootstrapEndpoints (runtime_of d)).
Proof. intros Hd. apply looks_quiet. intros w. by apply reads_endpoints. Qed.
#[local] Hint Resolve quiet_endpoints : quiet.
Lemma quiet_protected d : wired d → quiet (threatFeedProtectedPrefixes (runtime_of d)).
Proof. intros Hd. unfold threatFeedProtectedPrefixes. quieting. Qed.
#[local] Hint Resolve quiet_protected : quiet.
Lemma quiet_refresh d x : wired d → quiet (refreshClaimSetsLocked range (runtime_of d) x).
Proof.
  intros Hd. unfold refreshClaimSetsLocked, PurgeExpiredClaims, PrepareClaimPublication, ClaimsWithPublication, MarkClaimsPublished. quieting.
Qed.
Lemma quiet_prepare : quiet PrepareClaimPublication.
Proof. unfold PrepareClaimPublication. quieting. Qed.
#[local] Hint Resolve quiet_refresh quiet_prepare : quiet.
Lemma quiet_state name status count success : quiet (SetIntegrationState name status count success).
Proof. unfold SetIntegrationState. quieting. Qed.
Lemma quiet_noted event detail : quiet (noted event detail).
Proof. unfold noted, Manager.ignore. quieting. Qed.
#[local] Hint Resolve quiet_state quiet_noted : quiet.
Lemma quiet_refreshEndpoints d x : wired d → quiet (refreshEndpointsLocked range d x).
Proof.
  intros Hd. unfold refreshEndpointsLocked. apply quiet_bind; [by apply quiet_endpoints|]. intros [[v4 v6] preferred].
  apply quiet_bind; [apply quiet_ExistingOwned|]. intros existing. destruct (negb _); [apply quiet_ret|].
  apply quiet_bind; [apply quiet_ReplaceSets|intros _].
  { intros n. rewrite !dom_insert, dom_empty. intros Hn. assert (n = "wg_bootstrap_v4" ∨ n = "wg_bootstrap_v6") as [-> | ->] by set_solver; by eexists. }
  apply quiet_bind; [|quieting]. destruct (dm_WG d) as [wg|] eqn:E; [|apply quiet_ret]. destruct (String.eqb _ _); [apply quiet_ret|].
  apply quiet_bind; [by apply looks_quiet, (wi_observe _ Hd)|]. intros o. apply quiet_bind; [quieting|intros _].
  apply quiet_catch; [by apply looks_quiet, (wi_set _ Hd)|quieting].
Qed.
Lemma quiet_health d : wired d → quiet (RefreshWireGuardHealth d).
Proof.
  intros Hd. unfold RefreshWireGuardHealth. destruct (dm_WG d) as [wg|] eqn:E; [|apply quiet_ret].
  apply quiet_bind; [by apply looks_quiet, (wi_observe _ Hd)|]. intros o. unfold IntegrationState_. quieting.
Qed.
Lemma quiet_failContainer {A} d count cause : quiet (failContainerRefresh (A := A) d count cause).
Proof. unfold failContainerRefresh, set_docker. quieting. Qed.
#[local] Hint Resolve quiet_refreshEndpoints quiet_health quiet_failContainer : quiet.
Lemma quiet_or_fail {A} d count (m : HM A) : quiet m → quiet (or_fail d count m).
Proof. intros Hm. apply quiet_catch; [done|]. intros e. apply quiet_failContainer. Qed.
#[local] Hint Resolve quiet_or_fail : quiet.
Lemma quiet_replaceContainer d x nets : quiet (replaceContainerSetsLocked d x nets).
Proof. unfold replaceContainerSetsLocked, set_docker. quieting. Qed.
#[local] Hint Resolve quiet_replaceContainer : quiet.

(** *** Claims and integrations *)

Lemma quiet_AddClaim c max : quiet (AddClaimBounded c max).
Proof. unfold AddClaimBounded. quieting. Qed.
Lemma quiet_RemoveOperator id actor kind : quiet (RemoveOperatorClaim id actor kind).
Proof. unfold RemoveOperatorClaim. quieting. Qed.
Lemma quiet_RestoreClaim c actor : quiet (RestoreClaim c actor).
Proof. unfold RestoreClaim. quieting. Qed.
Lemma quiet_Replace source reason actor addresses max : quiet (ReplaceSourceClaimsBounded source reason actor addresses max).
Proof. unfold ReplaceSourceClaimsBounded. quieting. Qed.
#[local] Hint Resolve quiet_AddClaim quiet_RemoveOperator quiet_RestoreClaim quiet_Replace : quiet.
Lemma quiet_addAndPublish d x kind add : wired d → quiet add → quiet (addClaimAndPublishLocked range (runtime_of d) x kind add).
Proof. intros Hd Ha. unfold addClaimAndPublishLocked, RemoveAllow, RemoveBlock. quieting. Qed.
Lemma quiet_removeAndPublish d x id kind : wired d → quiet (removeClaimAndPublishLocked range (runtime_of d) x id kind).
Proof. intros Hd. unfold removeClaimAndPublishLocked, operatorClaimLocked, ClaimStore.Claims, RemoveAllow, RemoveBlock. quieting. Qed.
#[local] Hint Resolve quiet_addAndPublish quiet_removeAndPublish : quiet.
Lemma quiet_claims d x q : wired d → quiet (Control range (runtime_of d) x q).
Proof.
  intros Hd. destruct q; cbn [Control]; unfold claimExpiry; quieting;
    apply quiet_addAndPublish; [done|unfold Add; quieting|done|unfold AddAllow; quieting].
Qed.

Context (fetch : string → Z → Z → HM (list string)) (read_list : string → HM string).
Context (Hfetch : ∀ url n b, looks (fetch url n b)) (Hread : ∀ file, looks (read_list file)).
Lemma quiet_gather {A B} (f : A → HM (list B * list err)) l : (∀ a, quiet (f a)) → quiet (gather f l).
Proof. intros Hf. induction l as [|a l IH]; simpl; quieting. Qed.
Lemma quiet_due name seconds : quiet (integrationDue (K := K) name seconds).
Proof. unfold integrationDue, IntegrationState_. quieting. Qed.
Lemma quiet_fetched url n b minimum : quiet (fetched (fetch url n b) minimum).
Proof. unfold fetched. quieting. apply looks_quiet, Hfetch. Qed.
#[local] Hint Resolve quiet_due quiet_fetched : quiet.
Lemma quiet_prepareIntegrations d : wired d → quiet (prepareIntegrationRefreshes (runtime_of d) fetch read_list).
Proof.
  intros Hd. assert (∀ protected feeds, quiet (feed_candidates (runtime_of d) fetch protected feeds)).
  { intros protected feeds. revert protected. induction feeds as [|f feeds IH]; intros protected; simpl; unfold feed_candidate; quieting. }
  assert (∀ sets, quiet (geo_candidates read_list sets)).
  { induction sets as [|g sets IH]; simpl; unfold geo_candidate, fetched; quieting. apply looks_quiet, Hread. }
  unfold prepareIntegrationRefreshes. quieting.
Qed.
Lemma quiet_degrade name count : quiet (degrade (K := K) name count).
Proof. unfold degrade, noting. quieting. Qed.
Lemma quiet_old_count name : quiet (old_count (K := K) name).
Proof. unfold old_count, SourceClaimCount. quieting. Qed.
#[local] Hint Resolve quiet_degrade quiet_old_count quiet_prepareIntegrations : quiet.
Lemma quiet_integrations d x candidates : wired d → quiet (refreshIntegrationsLocked range (runtime_of d) x candidates).
Proof.
  intros Hd. unfold refreshIntegrationsLocked, take_back, restoreIntegrationClaims, Manager.ignore. quieting; apply quiet_gather; intros i;
    unfold restore_source, degrade_refreshed, record_healthy, refresh_candidate, fail_candidate, validateThreatFeedReplacement, sourceClaimAddresses,
      ClaimStore.Claims, Manager.ignore, noting; quieting.
Qed.
Lemma quiet_RefreshIntegrations d held x : wired d → quiet (RefreshIntegrations range (runtime_of d) fetch read_list held x).
Proof. intros Hd. unfold RefreshIntegrations. quieting. by apply quiet_integrations. Qed.

(** ** Requests *)

(** An identifier is left: the next one does not wrap around. *)
Definition room w : Prop := ∀ id g, w_gens w !! id = Some g → (id < 2 ^ 64 - 1)%N.
Lemma room_evolved w w' : evolved w w' → room w → room w'.
Proof.
  intros [Hc _] Hr id g Hg. pose proof (calm_gens _ _ Hc id) as E. rewrite Hg in E. destruct (w_gens w !! id) as [g0|] eqn:E0; [|done]. by eapply Hr.
Qed.
(** The identifier follows every stored generation. *)
Definition follows (id : N) w : Prop := ∀ id' g, w_gens w !! id' = Some g → (id' < id)%N.
Lemma reads_NextGeneration w : room w → reads NextGeneration (λ id, follows id w) w.
Proof.
  intros Hr. unfold NextGeneration. eapply reads_bind; [apply reads_sys|]. intros n E. cbn beta in E. injection E as <-. apply reads_ret.
  set (top := map_fold _ _ _). assert (∀ mp : Gens, (∀ id g, mp !! id = Some g → (id <= map_fold (λ id _ m, N.max id m) 0 mp)%N) ∧
    (map_fold (λ id (_ : Generation) m, N.max id m) 0%N mp = 0%N ∨ is_Some (mp !! map_fold (λ id (_ : Generation) m, N.max id m) 0%N mp))) as Hmax.
  { intros mp. apply (map_fold_weak_ind (λ top (mp : Gens), (∀ id g, mp !! id = Some g → (id <= top)%N) ∧ (top = 0%N ∨ is_Some (mp !! top)))).
    - split; [|by left]. intros id g. by rewrite lookup_empty.
    - intros i g mp' top' _ [H1 H2]. split.
      + intros id g' [[<- _]|[_ Hg]]%lookup_insert_Some; [lia|]. specialize (H1 _ _ Hg). lia.
      + destruct (N.max_spec i top') as [[Hlt ->]|[Hle ->]]; [|right; rewrite lookup_insert_eq; eauto].
        destruct H2 as [?|[g' Hg']]; [by left|]. right. rewrite lookup_insert_ne by lia. eauto. }
  destruct (Hmax (w_gens w)) as [H1 H2]. fold top in H1, H2. assert (top < 2 ^ 64 - 1)%N as Ht by (destruct H2 as [->|[g Hg]]; [done|by eapply Hr]).
  rewrite N.mod_small by lia. intros id g Hg. specialize (H1 id g Hg). lia.
Qed.

Lemma wsafe_quiet {A B} w0 (p : HM A) (k : A → HM B) P w : Safe w0 w → room w → quiet p →
  (∀ a w', Safe w0 w' → room w' → wsafe (Safe w0) (k a) P w') → wsafe (Safe w0) (bind p k) P w.
Proof.
  intros HS Hr Hp Hk. eapply wsafe_calm; [apply closed_Safe|done|apply Hp|]. intros a w' HS' He _. apply Hk; [done|]. by eapply room_evolved.
Qed.
Lemma wsafe_then {A B} w0 (p : HM A) (k : A → HM B) P w : Safe w0 w → quiet p →
  (∀ a w', Safe w0 w' → evolved w w' → wsafe (Safe w0) (k a) P w') → wsafe (Safe w0) (bind p k) P w.
Proof. intros HS Hp Hk. eapply wsafe_calm; [apply closed_Safe|done|apply Hp|]. intros a w' HS' He _. by apply Hk. Qed.
Lemma quiet_safe {A} w0 (m : HM A) : quiet m → ∀ w, Safe w0 w → wsafe (Safe w0) m (λ _ _, True) w.
Proof. intros Hm w HS. eapply wsafe_mono; [apply Hm; [apply closed_Safe|done]|done]. Qed.
(** The audits before and after the reservation leave the ledger alone. *)
Lemma Calm_audit_foreign w : Calm (audit_foreign listing_size) (λ _ w', w_ledger w' = w_ledger w) w.
Proof.
  unfold audit_foreign, AuditForeignProvenanceMask. eapply Calm_bind with (Q := λ _ w', w' = w).
  - eapply Calm_mono; [apply Calm_reads, reads_try with (Q := λ _, True)|by intros a w' _ [-> _]].
    eapply reads_bind with (Q := λ _, True); [|intros; eapply reads_True, reads_lift_check].
    apply reads_catch; [eapply reads_True, reads_sys|intros; apply reads_throw].
  - intros [e|a] w' _ ->; cbn beta.
    + eapply Calm_bind; [eapply Calm_ignore, Calm_Audit|]. intros. apply Calm_throw.
    + apply Calm_wrap. eapply Calm_mono; [apply Calm_Audit|]. by intros [] w' _ (l & ->).
Qed.
Lemma Calm_reserve d ro w : Calm (reserve_provenance d ro)
  (λ _ w', table_wf (w_ledger w) → Forall (live_in (w_ledger w')) (map assignment_of (Interfaces (dm_Config d)))) w.
Proof.
  unfold reserve_provenance. eapply Calm_bind; [apply Calm_reads, reads_clock|]. intros now w' _ [-> _].
  eapply Calm_bind with (Q := λ _ w', table_wf (w_ledger w) → Forall (live_in (w_ledger w')) (map assignment_of (Interfaces (dm_Config d)))).
  - apply Calm_wrap. eapply Calm_mono; [apply Calm_ledger, Reserve_committed|]. intros [] w' _ (l & -> & Hv & Ht) Hwf. by eapply reserve_live.
  - intros [] w1 _ Hl. eapply Calm_bind; [apply Calm_reads, reads_wrapped, reads_sys|]. intros inventory ? _ [-> _].
    eapply Calm_bind; [apply Calm_reads, reads_wrapped, reads_sys|]. intros digest ? _ [-> _].
    apply Calm_wrap. eapply Calm_mono; [apply Calm_Audit|]. by intros [] w2 _ (l & ->).
Qed.

(** The compiled artifact is what the manager and the backend rely on: its identifier
    follows every generation, its script passes the guard and installs the owned tables,
    and the ledger holds each of its provenance numbers, live. *)
Definition ready (t : Ledger.Table) (a : Artifact) w : Prop :=
  installs (art_Script a) = true ∧ follows (art_Generation a) w ∧ validateScript (art_Script a) = None ∧ art_Checksum a = Sha256.sha256_hex (art_Script a) ∧
  (table_wf t → Forall (live_in (w_ledger w)) (art_Provenance a)).
Lemma ready_admissible t a w : ready t a w → admissible a w.
Proof. intros (Hi & Hf & _). split; [done|by intros _]. Qed.
Lemma wsafe_artifactCurrent w0 d w : wired d → Safe w0 w → room w →
  wsafe (Safe w0) (artifactLockedCurrent range go_syntax listing_size d) (ready (w_ledger w)) w.
Proof.
  intros Hd HS Hr. unfold artifactLockedCurrent. destruct (dm_Ledger d) as [ro|]; [|by apply wsafe_throw].
  eapply wsafe_calm; [apply closed_Safe|done|apply Calm_audit_foreign|]. intros [] w1 HS1 He1 <-. apply (room_evolved _ _ He1) in Hr.
  eapply wsafe_calm; [apply closed_Safe|done|apply Calm_reserve|]. intros [] w2 HS2 He2 Hl. apply (room_evolved _ _ He2) in Hr. cbn beta in Hl.
  eapply wsafe_reads; [done|by apply reads_NextGeneration|]. intros id Hid. cbn beta in Hid.
  eapply wsafe_reads; [done|apply reads_clock|]. intros now _.
  eapply wsafe_reads with (Q := λ _, True); [done|eapply reads_True, reads_sys|]. intros claims _.
  eapply wsafe_reads; [done|by apply reads_endpoints|]. intros [[v4 v6] preferred] _.
  eapply wsafe_reads; [done|by apply reads_containerNets|]. intros docker _.
  eapply wsafe_reads; [done|apply reads_clock|]. intros now' _.
  eapply wsafe_reads; [done|apply reads_lift_check|]. intros sets _.
  eapply wsafe_mono; [by apply reads_lift_check|]. intros a w' _ [-> Ha].
  assert (validateScript (art_Script a) = None ∧ installs (art_Script a) = true) as [Hvs Hin].
  { eapply compiled_script; [..|exact Ha]; [reflexivity|apply (wi_clean _ Hd)]. }
  apply Compile_ok in Ha as (_ & _ & _ & _ & ->). split; [done|]. split; [done|]. split; [done|]. split; [done|]. cbn.
  intros Hwf. specialize (Hl Hwf). assert (map assignment_of (sortedInterfaces (Interfaces (dm_Config d))) ≡ₚ map assignment_of (Interfaces (dm_Config d))) as ->.
  { apply Permutation_map, sort_by_perm. }
  exact Hl.
Qed.
Lemma wsafe_artifact w0 d w : wired d → Safe w0 w → room w →
  wsafe (Safe w0) (artifactLocked range go_syntax listing_size d) (ready (w_ledger w)) w.
Proof.
  intros Hd HS Hr. unfold artifactLocked. eapply wsafe_reads; [done|by apply reads_currentConfiguration|]. intros d1 H1.
  pose proof (reconfigured_wired _ _ Hd H1) as Hd1.
  eapply wsafe_reads; [done|by apply reads_projectDockerConfiguration|]. intros d2 H2. apply wsafe_artifactCurrent; [|done..].
  by eapply reconfigured_wired.
Qed.

Lemma admissible_evolved a w w' : evolved w w' → admissible a w → admissible a w'.
Proof. intros [Hc _] [Hi Hf]. split; [done|]. by eapply fresh_calm. Qed.
Lemma unsynced_evolved id w w' : evolved w w' → ¬ unsynced id w → ¬ unsynced id w'.
Proof.
  intros [Hc _] Hn (g' & Hg' & Hst & Hp & Hd). apply Hn. pose proof (calm_gens _ _ Hc id) as E. rewrite Hg' in E.
  destruct (w_gens w !! id) as [g|] eqn:Hg; [|done]. simpl in E. injection E as E. exists g. split; [done|].
  rewrite (calm_pointer _ _ Hc) in Hp, Hd. destruct g, g'; unfold with_hash, row_pointer in *; simpl in *; simplify_eq. split; [done|]. split; [done|].
  destruct (calm_durable _ _ Hc); congruence.
Qed.
Lemma wsafe_locked {A} w0 (m : HM A) (P : A → World K → Prop) w : Safe w0 w → wsafe (Safe w0) m P w → wsafe (Safe w0) (with_publication_lock m) P w.
Proof.
  intros HS Hm. unfold with_publication_lock. eapply wsafe_reads with (Q := λ _, True); [done|eapply reads_True, reads_sys|]. intros [] _.
  apply wsafe_finally; [done|]. intros Q w' _ HS' HQ. by apply wsafe_sys_read.
Qed.

(** A failed refresh rolls the candidate back; [Manager.Apply] left it applied or
    committed, never prepared. *)
Lemma apply_done_synced a safe r w : apply_done a safe r w → ¬ unsynced (art_Generation a) w.
Proof.
  intros (_ & _ & _ & Hs). destruct safe.
  - destruct Hs as (g & Hg & Hst). eapply not_unsynced_status; [done|congruence].
  - destruct Hs as (g & Hg & Hst & _). eapply not_unsynced_status; [done|]. intros E. unfold committed in Hst. by rewrite E in Hst.
Qed.
Lemma wsafe_apply_request w0 d x safe w : wired d → Safe w0 w → room w →
  wsafe (Safe w0) (apply_request range go_syntax listing_size d x safe)
    (λ r w', res_Committed r = negb safe ∧ present (w_kernel w') ∧ if safe then applied (res_Generation r) w' else Safety.published (res_Generation r) w') w.
Proof.
  intros Hd HS Hr. unfold apply_request. eapply wsafe_reads with (Q := λ _, True); [done| |].
  { destruct safe; [|by apply reads_ret]. unfold PreflightSafeApply.
    destruct (m_SafeGuard _); [|apply reads_throw]. destruct (m_SafeGuardLocked _); [|apply reads_throw].
    eapply reads_bind; [apply reads_wrapped, reads_call_guard|]. intros [] _. by apply reads_ret. }
  intros y _. apply wsafe_locked; [done|]. apply wsafe_bind.
  eapply wsafe_mono; [by apply wsafe_artifact|]. clear HS Hr. intros a w' HS Ha%ready_admissible. clear w. rename w' into w.
  apply wsafe_then; [done|apply quiet_wrapped, quiet_prepare|]. intros _ w1 HS1 He1.
  apply (admissible_evolved _ _ _ He1) in Ha. clear w HS He1. cbv zeta. apply wsafe_bind.
  eapply wsafe_mono; [apply wsafe_Apply; [apply (wi_restores _ Hd)|done..]|]. intros r w2 HS2 Hdone.
  apply wsafe_catch with (J := λ w', Safe w0 w' ∧ evolved w2 w'); [by intros ? [? ?]| |].
  - apply wsafe_bind. eapply wsafe_mono.
    { apply quiet_refresh; [done|apply closed_evolved, closed_Safe|]. split; [done|apply evolved_refl]. }
    intros b w3 [HS3 He3] _. apply wsafe_ret; [done|]. destruct Hdone as (-> & Hc & Hp & Hs). split; [done|].
    split; [by apply He3|]. destruct He3 as [He3 _]. destruct safe; [by eapply applied_calm|by eapply published_calm].
  - intros e w3 [HS3 He3]. apply wsafe_bind. apply wsafe_catch with (J := Safe w0); [done| |].
    + eapply wsafe_mono; [apply wsafe_Rollback; [apply (wi_restores _ Hd)|done|]|].
      * eapply unsynced_evolved; [done|]. by eapply apply_done_synced.
      * intros _ w4 HS4 _. by apply wsafe_throw.
    + intros e' w4 HS4. by apply wsafe_throw.
Qed.

(** Every other operation keeps what it must, whatever it returns. *)
Definition secure {A} (m : HM A) : Prop := ∀ w0 w, Safe w0 w → room w → wsafe (Safe w0) m (λ _ _, True) w.
Lemma secure_quiet {A} (m : HM A) : quiet m → secure m.
Proof. intros Hm w0 w HS _. eapply wsafe_mono; [apply Hm; [apply closed_Safe|done]|done]. Qed.
Lemma secure_locked {A} (m : HM A) : secure m → secure (with_publication_lock m).
Proof. intros Hm w0 w HS Hr. apply wsafe_locked; [done|by apply Hm]. Qed.
Lemma secure_context {A} held x (m : Ctx → HM A) : (∀ y, secure (m y)) → secure (publicationContext held x m).
Proof. intros Hm. unfold publicationContext. destruct (held && ctx_locked x); [apply Hm|]. by apply secure_locked. Qed.
Lemma secure_after {A B} (p : HM A) (m : A → HM B) : quiet p → (∀ a, secure (m a)) → secure (bind p m).
Proof. intros Hp Hm w0 w HS Hr. apply wsafe_quiet; [done..|]. intros a w' HS' Hr'. by apply Hm. Qed.
(** Once the generations may have changed only quiet computations follow. *)
Lemma secure_then {A B} (p : HM A) (m : A → HM B) : secure p → (∀ a, quiet (m a)) → secure (bind p m).
Proof.
  intros Hp Hm w0 w HS Hr. apply wsafe_bind. eapply wsafe_mono; [by apply Hp|]. intros a w' HS' _.
  eapply wsafe_mono; [apply Hm; [apply closed_Safe|done]|done].
Qed.
Lemma secure_catch {A} (p : HM A) k : secure p → (∀ e, quiet (k e)) → secure (catch p k).
Proof.
  intros Hp Hk w0 w HS Hr. apply wsafe_catch with (J := Safe w0); [done|by apply Hp|]. intros e w' HS'.
  eapply wsafe_mono; [apply Hk; [apply closed_Safe|done]|done].
Qed.
Lemma secure_try {A} (p : HM A) : secure p → secure (try_ p).
Proof. intros Hp w0 w HS Hr. by apply wsafe_try with (J := Safe w0) (Q := λ _ _, True); [done|apply Hp| |]. Qed.
Lemma secure_of {A} (m : HM A) P : (∀ w0 w, Safe w0 w → wsafe (Safe w0) m (P w) w) → secure m.
Proof. intros Hm w0 w HS _. eapply wsafe_mono; [by apply Hm|done]. Qed.

Lemma secure_Commit d x id : wired d → secure (Commit_ range d x id).
Proof.
  intros Hd. unfold Commit_, refresh_after. apply secure_locked, secure_after; [quieting|intros _].
  apply secure_then; [|quieting]. eapply (secure_of _ (λ w _ w', committed_at id w w')). intros. apply wsafe_Commit; [apply (wi_restores _ Hd)|done].
Qed.
(** A roll back of a candidate that is not known to be durable is the one exception of
    the protocol. *)
Lemma wsafe_Rollback_ w0 d x id w : wired d → Safe w0 w → ¬ unsynced id w → wsafe (Safe w0) (Rollback_ range d x id) (λ _ _, True) w.
Proof.
  intros Hd HS Hn. unfold Rollback_. apply wsafe_locked; [done|].
  apply wsafe_then; [done|apply quiet_wrapped, quiet_prepare|]. intros _ w1 HS1 He1. apply wsafe_bind.
  eapply wsafe_mono; [apply wsafe_Rollback; [apply (wi_restores _ Hd)|done|by eapply unsynced_evolved]|]. intros _ w2 HS2 _.
  eapply wsafe_mono; [|done]. apply (quiet_bind (refresh_after range d x) (λ _, ret tt)); [by apply quiet_refresh|intros; apply quiet_ret|apply closed_Safe|done].
Qed.
Lemma secure_Reconcile d x repair : wired d → secure (Reconcile_ range d x repair).
Proof.
  intros Hd. assert (∀ c b, secure (Reconcile range (dm_Manager d) c b)) as Hm.
  { intros c b w0 w HS _. eapply wsafe_mono; [apply wsafe_Reconcile; [apply (wi_restores _ Hd)|done]|done]. }
  unfold Reconcile_. destruct repair; simpl; [|apply Hm]. apply secure_locked, secure_after; [quieting|intros _].
  apply secure_then; [apply Hm|]. intros r. unfold with_error, refresh_after. quieting.
Qed.
Lemma quiet_actionable : quiet actionable.
Proof.
  unfold actionable, pendingRecoveryActionable. apply quiet_bind; [eapply quiet_reads; intros w; eapply reads_True, reads_any_Pending|].
  intros [g|]; quieting. eapply quiet_reads. intros w. apply reads_CurrentBootID.
Qed.
Lemma secure_RollbackExpired d x : wired d → secure (RollbackExpired_ range d x).
Proof.
  intros Hd. unfold RollbackExpired_. apply secure_after; [apply quiet_actionable|]. intros due. destruct (negb due); [apply secure_quiet, quiet_ret|].
  apply secure_locked, secure_after; [apply quiet_actionable|]. intros due'. destruct (negb due'); [apply secure_quiet, quiet_ret|].
  apply secure_then; [|intros r; unfold with_error, refresh_after; quieting].
  intros w0 w HS _. eapply wsafe_mono; [apply wsafe_RollbackExpired; [apply (wi_restores _ Hd)|apply (wi_transparent _ Hd)|done]|done].
Qed.

Lemma secure_rebind d d' x : wired d → reconfigured d d' → secure (rebindDockerBridgesLocked range go_syntax listing_size d x d').
Proof.
  intros Hd Hr. pose proof (reconfigured_wired _ _ Hd Hr) as Hd'. unfold rebindDockerBridgesLocked.
  apply secure_after; [unfold set_docker; quieting|intros _]. intros w0 w HS Hroom. apply wsafe_bind.
  eapply wsafe_mono with (P := λ a w', admissible a w'); [|].
  { apply wsafe_catch with (J := Safe w0); [done|eapply wsafe_mono; [by apply wsafe_artifactCurrent|intros ?? _; apply ready_admissible]|]. intros e w' HS'.
    unfold failContainerRefresh. apply wsafe_then; [done|unfold set_docker; quieting|]. intros a w1 HS1 _. by apply wsafe_throw. }
  clear w HS Hroom. intros a w HS Ha. apply wsafe_then; [done|apply quiet_or_fail, quiet_wrapped, quiet_prepare|].
  intros _ w1 HS1 He1. apply (admissible_evolved _ _ _ He1) in Ha. clear w HS He1. apply wsafe_bind.
  eapply wsafe_mono with (P := λ _ _, True).
  { apply wsafe_catch with (J := Safe w0); [done| |].
    - apply wsafe_rethrow; [done|]. eapply wsafe_mono; [apply wsafe_Apply; [apply (wi_restores _ Hd)|done..]|done].
    - intros e w2 HS2. eapply wsafe_mono; [apply quiet_failContainer; [apply closed_Safe|done]|done]. }
  intros r w2 HS2 _. eapply wsafe_mono; [|by intros]. revert w2 HS2. apply quiet_safe.
  unfold set_docker. repeat first [apply quiet_or_fail | progress quieting]. by apply looks_quiet, (wi_write _ Hd).
Qed.

Lemma Calm_or_fail {A} d count (m : HM A) Q w : reads m Q w → Calm (or_fail d count m) (λ a _, Q a) w.
Proof.
  intros Hm. apply Calm_catch; [eapply Calm_mono; [by apply Calm_reads|by intros a w' _ [_ ?]]|].
  intros e w' _. unfold failContainerRefresh. eapply Calm_bind with (Q := λ _ _, True); [|intros; apply Calm_throw].
  refine ((_ : quiet _) w'). unfold set_docker. quieting.
Qed.
Lemma secure_refreshContainers d x : wired d → secure (refreshContainerSetsLocked range go_syntax listing_size d x).
Proof.
  intros Hd w0 w HS Hr. unfold refreshContainerSetsLocked.
  eapply wsafe_calm; [apply closed_Safe|done|by apply Calm_or_fail, reads_currentConfiguration|].
  intros d1 w1 HS1 He1 H1. cbn beta in H1. pose proof (reconfigured_wired _ _ Hd H1) as Hd1.
  eapply wsafe_calm; [apply closed_Safe|done|by apply Calm_or_fail, reads_projectDockerConfiguration|].
  intros d2 w2 HS2 He2 H2. cbn beta in H2. apply (room_evolved _ _ He1), (room_evolved _ _ He2) in Hr.
  destruct (_ && _); [by apply secure_rebind; [|by eapply reconfigured_trans| |]|].
  apply quiet_safe; [|done]. apply quiet_bind; [apply quiet_or_fail, quiet_lift_check|]. intros nets. apply quiet_replaceContainer.
Qed.
Lemma secure_RestoreRuntimeState d held x : wired d → secure (RestoreRuntimeState range go_syntax listing_size d held x).
Proof.
  intros Hd. apply secure_context. intros y. unfold failure.
  apply secure_after; [quieting|intros e1]. apply secure_after; [quieting|intros e2]. apply secure_then; [|quieting].
  apply secure_then; [|quieting]. by apply secure_try, secure_refreshContainers.
Qed.

Lemma secure_plan d : wired d → secure (plan_artifact range go_syntax listing_size d).
Proof. intros Hd. apply secure_locked. intros w0 w HS Hr. eapply wsafe_mono; [by apply wsafe_artifact|done]. Qed.
Lemma secure_apply d x safe : wired d → secure (apply_request range go_syntax listing_size d x safe).
Proof. intros Hd w0 w HS Hr. eapply wsafe_mono; [by apply wsafe_apply_request|done]. Qed.
(** The request, unless it rolls back a candidate whose pointer may not be durable. *)
Definition allowed (q : control_request) w : Prop := match q with ReqRollback id => ¬ unsynced id w | _ => True end.
Lemma wsafe_request w0 d x q w : wired d → Safe w0 w → room w → allowed q w →
  wsafe (Safe w0) (ControlRequest range go_syntax listing_size d x q) (λ _ _, True) w.
Proof.
  intros Hd HS Hr Hq. destruct q as [|safe|id|id|id| | |q]; cbn [ControlRequest].
  - apply secure_then; [by apply secure_plan| |done..]. unfold Manager.ignore. quieting.
  - apply secure_then; [by apply secure_apply|quieting|done..].
  - apply secure_then; [by apply secure_Commit|quieting|done..].
  - apply wsafe_bind. eapply wsafe_mono; [by apply wsafe_Rollback_|]. intros [] w' HS' _. by apply wsafe_ret.
  - apply secure_then; [|quieting|done..]. apply secure_quiet. eapply quiet_reads. intros w'. eapply reads_True, reads_GenerationByID.
  - apply secure_then; [by apply secure_Reconcile|quieting|done..].
  - apply secure_then; [|quieting|done..]. apply secure_quiet, quiet_context. intros y. by apply quiet_refreshEndpoints.
  - apply secure_then; [|quieting|done..]. by apply secure_quiet, quiet_claims.
Qed.

(** ** The life of a host

    A step is a complete or interrupted run of anything the daemon, its timers and the
    boot service do, a change of what the protocol does not own, or a power loss.  No
    step assumes anything of the policy that is applied. *)

Inductive daemon_step d : World K → World K → Prop :=
  | run_request x q o (h : Host K) : room (h_world h) → allowed q (h_world h) →
      daemon_step d (h_world h) (h_world (final (ControlRequest range go_syntax listing_size d x q o h)))
  | run_timer x o (h : Host K) : room (h_world h) → daemon_step d (h_world h) (h_world (final (RollbackExpired_ range d x o h)))
  | run_containers held x o (h : Host K) : room (h_world h) →
      daemon_step d (h_world h) (h_world (final (RefreshContainerSets range go_syntax listing_size d held x o h)))
  | run_restore held x o (h : Host K) : room (h_world h) →
      daemon_step d (h_world h) (h_world (final (RestoreRuntimeState range go_syntax listing_size d held x o h)))
  | run_claims held x o (h : Host K) : daemon_step d (h_world h) (h_world (final (RefreshClaimSets range (runtime_of d) held x o h)))
  | run_integrations held x o (h : Host K) :
      daemon_step d (h_world h) (h_world (final (RefreshIntegrations range (runtime_of d) fetch read_list held x o h)))
  | run_health o (h : Host K) : daemon_step d (h_world h) (h_world (final (RefreshWireGuardHealth d o h)))
  | run_boot x o (h : Host K) : daemon_step d (h_world h) (h_world (final (RecoverAtBoot range (dm_Manager d) x o h)))
  | run_elsewhere w w' : elsewhere w w' → daemon_step d w w'
  | run_power_loss w : daemon_step d w (power_lost w).
Lemma daemon_step_kept d w w' : wired d → daemon_step d w w' → Inv w → kept w w'.
Proof.
  intros Hd Hs HI. assert (∀ {A} (m : HM A) P o (h : Host K), Inv (h_world h) → wsafe (Safe (h_world h)) m P (h_world h) →
    kept (h_world h) (h_world (final (m o h)))) as Hrun.
  { intros A m P o h _ Hm. pose proof (wsafe_final _ _ _ h o Hm) as (? & ? & _). by split. }
  destruct Hs as [x q o h Hr Hq|x o h Hr|held x o h Hr|held x o h Hr|held x o h|held x o h|o h|x o h|w w' He|w].
  - eapply Hrun, wsafe_request; [done|done|by apply Safe_refl|done..].
  - eapply Hrun, secure_RollbackExpired; [done|done|by apply Safe_refl|done].
  - eapply Hrun, secure_context; [done|intros y; by apply secure_refreshContainers|by apply Safe_refl|done].
  - eapply Hrun, secure_RestoreRuntimeState; [done|done|by apply Safe_refl|done].
  - eapply Hrun, quiet_safe; [done|apply quiet_context; intros y; by apply quiet_refresh|by apply Safe_refl].
  - eapply Hrun, quiet_safe; [done|by apply quiet_RefreshIntegrations|by apply Safe_refl].
  - eapply Hrun, quiet_safe; [done|by apply quiet_health|by apply Safe_refl].
  - eapply Hrun, wsafe_RecoverAtBoot; [done|apply (wi_restores _ Hd)|apply (wi_transparent _ Hd)|by apply Safe_refl].
  - split; [by eapply elsewhere_Inv|]. by rewrite (el_gens _ _ He).
  - split; [by apply power_loss_Inv|done].
Qed.

(** No request, timer, refresh, restore or boot run, complete or interrupted at any
    call, with power losses and foreign changes in between, breaks the durable-state
    invariant or loses a committed generation: the artifacts that reach the manager are
    compiled by the runtime itself from whatever configuration it finds. *)
Theorem daemon_invariant d w w' : wired d → Inv w → rtc (daemon_step d) w w' → Inv w' ∧ committed_le (w_gens w) (w_gens w').
Proof.
  intros Hd HI Hs. revert HI. induction Hs as [w|w1 w2 w3 Hs _ IH]; intros HI; [done|].
  destruct (daemon_step_kept d w1 w2 Hd Hs HI) as [HI2 Hle]. destruct (IH HI2) as [HI3 Hle']. split; [done|by etransitivity].
Qed.


(** An apply request that succeeds has installed the owned tables, and its generation
    is applied and awaits its commit in safe mode, or else is committed and published. *)
Theorem apply_request_success d x safe o h r : wired d → Inv (h_world h) → room (h_world h) →
  result (apply_request range go_syntax listing_size d x safe o h) = Ret r →
  let w' := h_world (final (apply_request range go_syntax listing_size d x safe o h)) in
  res_Committed r = negb safe ∧ present (w_kernel w') ∧
  if safe then applied (res_Generation r) w' else Safety.published (res_Generation r) w'.
Proof.
  intros Hd HI Hr. apply wsafe_ret_elim with (I := Safe (h_world h)) (P := λ r w', res_Committed r = negb safe ∧ present (w_kernel w') ∧
    if safe then applied (res_Generation r) w' else Safety.published (res_Generation r) w').
  apply wsafe_apply_request; [done|by apply Safe_refl|done].
Qed.
End operations.

(** ** A sample: the sample configuration applied on a host whose Docker bridge moved *)

(** An nft that keeps the last installed ruleset and runs batches on its sets. *)
Abbreviation DaemonKernel := (option string * SetKernel)%type.
#[export] Instance daemon_nft : Nft DaemonKernel := {
  nft_check script _ := true;
  nft_file script k :=
    Some (if opens_all script then (Some script, ∅)
          else match read_batch script with Some l => (k.1, foldl run_command k.2 l) | None => (None, ∅) end);
  nft_list_tables k := Some (doc (match k.1 with Some _ => map (λ t, table_obj t "") OwnedTables | None => [] end));
  nft_list_table t k := match k.1 with Some _ => Some (doc (ruleset_of t "")) | None => None end;
  nft_list_ruleset k := Some (doc (match k.1 with Some _ => List.concat (map (λ t, ruleset_of t "") OwnedTables) | None => [] end))
}.
Lemma daemon_present s m : present (Some s, m).
Proof.
  assert (E : listed (Some s, m) = list_to_set (map table_key OwnedTables)) by (vm_compute; reflexivity).
  intros t Ht. rewrite E. by apply elem_of_list_to_set, list_elem_of_fmap_2.
Qed.
#[export] Instance daemon_laws : NftLaws DaemonKernel.
Proof.
  split. intros script existing k k' Hi. cbn [nft_file daemon_nft]. rewrite opens_all_installs by done. intros [= <-]. apply daemon_present.
Qed.
#[export] Instance daemon_batch : NftBatch DaemonKernel.
Proof.
  split. intros l k k' Hl. cbn [nft_file daemon_nft]. rewrite batch_read by done. intros [= <-] Hp.
  destruct (opens_all _); [apply daemon_present|]. destruct k as [[s|] m]; [apply daemon_present|exact Hp].
Qed.

Definition daemon_manager : Manager DaemonKernel :=
  Manager.mkManager 60000000000 None (Some (λ _, None)) (Some (λ _, None)) (Some (λ _, None)) None "/run/nftfw".
Definition sample_daemon : Daemon (K := DaemonKernel) :=
  mkDaemon sample true (Some (λ _, ret (["198.51.100.9"], None))) daemon_manager (Some false) (Some (ret sample)) (ret true) (ret None)
    (ret sample_commands) (λ _, inr "") (λ _, ret tt) None.
Definition daemon_host : Host DaemonKernel :=
  mkHost (mkWorld "/var/lib/nftfw" ∅ [] ∅ ∅ None None None false ∅ (None, ∅) false boot1 no_claims)
    (map (λ k, (63900000000 + k) * second) (map Z.of_nat (seq 0 60))) [].
Lemma sample_wired : wired sample_range sample_daemon.
Proof.
  split; try done; try (intros; by apply reads_ret).
  - intros resolve host [= <-] w. by apply reads_ret.
  - intros load w [= <-]. apply reads_ret, sample_clean.
  - apply sample_clean.
Qed.
Lemma daemon_room : room (h_world daemon_host).
Proof. intros id g. cbn. by rewrite lookup_empty. Qed.
Lemma daemon_Inv : Inv (h_world daemon_host).
Proof. by apply Inv_initial. Qed.
Definition one_artifact (o : outcome Artifact) : bool :=
  match o with Ret a => (art_Generation a =? 1)%N && (length (art_Provenance a) =? 4)%nat | _ => false end.

(** The apply is cut by a power loss at its thirty-first call, the boot service runs, and
    the rollback timer after it. *)
Definition cut_host : Host DaemonKernel :=
  final (ControlRequest sample_range (λ _, "sample") (λ _, 0%N) sample_daemon sample_ctx (ReqApply false) (replicate 30 FOk ++ [FCrash])%list daemon_host).
Definition booted_host : Host DaemonKernel :=
  final (RecoverAtBoot sample_range daemon_manager sample_ctx [] (mkHost (power_lost (h_world cut_host)) (h_clock daemon_host) [])).
Lemma daemon_invariant_witness : Inv (h_world booted_host).
Proof.
  refine (proj1 (daemon_invariant sample_range (λ _, "sample") (λ _, 0%N) (λ _ _ _, throw ErrIO) (λ _, throw ErrNotExist) _ _ sample_daemon
    (h_world daemon_host) _ sample_wired daemon_Inv _)).
  - intros url n b w. apply reads_throw.
  - intros file w. apply reads_throw.
  - eapply rtc_l; [exact (run_request _ _ _ _ _ sample_daemon sample_ctx (ReqApply false) (replicate 30 FOk ++ [FCrash])%list daemon_host daemon_room I)|].
    eapply rtc_l; [apply run_power_loss|]. apply rtc_once.
    exact (run_boot _ _ _ _ _ sample_daemon sample_ctx [] (mkHost (power_lost (h_world cut_host)) (h_clock daemon_host) [])).
Defined.
