(* ===== verification/Nftfwd.v ===== *)
(** The daemon's program (cmd/nftfwd/main.go) over the runtime (internal/app/runtime.go):
    what it answers on its two sockets, what its timers run, and the modes in which it
    is started by the boot services, the rollback timer and the initramfs handoff.

    [app.Open], the wiring of the runtime, is the record [Daemon]; opening the database
    is a system call that may fail.  Arguments, exit codes and messages are left out. *)

From S2P Require Import Prelude GoStrings GoTime GoPath Sha256 Json Claims Ledger Config Snapshot Host Store ClaimStore.
From S2P Require Import NftScript NftJson Backend Collision Manager Recovery ClaimRuntime Compiler Docker WgControl Api.
From S2P Require Import Invariant Reads Safety Sample Live Protocol Evidence Health RuntimeControl RuntimeSafety.
From Stdlib Require Import Ascii String.
Local Open Scope string_scope.
Local Open Scope Z_scope.
Local Open Scope host_scope.
Abbreviation length := List.length.
Abbreviation Config := Config.Config.
Abbreviation Join := Prelude.Join.
Abbreviation Manager := Manager.Manager.
Abbreviation Handler := Api.Handler.

Section program.
Context {K : Type} `{Nft K}.
Context (range : gset string → list string) (go_syntax : Config → string) (listing_size : K → N).
Context (quick_check : World K → string).
Abbreviation HM := (M (Host K)).
Implicit Types (d : Daemon (K := K)).

(** What the status shows of a managed intent and of the host's forwarding. *)
Context (projection : Daemon (K := K) → HM (option ManagedProjection)).

(** ** The answers of the runtime *)

Definition SecurityEvent (event detail : string) : HM unit := Manager.ignore (Audit "peer" event detail).

Definition activeIntegrationNames (c : Config) : gset string :=
  list_to_set (["runtime/claims"; "wireguard/" +:+ wg_Interface (WireGuard c)] ++
    (if DockerEnabled (Integrations c) then ["docker"] else []) ++
    (if ThreatFeed (Integrations c) then map (λ f, "threatfeed/" +:+ tf_Name f) (ThreatFeeds c) else []) ++
    (if GeoIP (Integrations c) then map (λ g, "geo/" +:+ geo_Name g) (GeoSets c) else []))%list.
Definition provider_of d (managed : option ManagedProjection) : Provider :=
  let c := dm_Config d in
  mkProvider (bool_decide (is_Some (dm_Ledger d))) true true (Observe <$> dm_WG d) (wg_Interface (WireGuard c))
    (HandshakeSecond (WireGuard c) * second) (Some (activeIntegrationNames c)) managed.
Definition statusCurrent d : HM HealthSnapshot :=
  managed <- projection d ;;
  Snapshot range listing_size quick_check (provider_of d managed).
Definition Status d : HM HealthSnapshot :=
  current <- currentConfiguration d ;;
  projected <- projectDockerConfiguration range current ;;
  statusCurrent projected.

Inductive answer :=
  | AnsStatus (s : HealthSnapshot)
  | AnsClaims (claims : list Claim) (total limit offset : Z)
  | AnsAudit (rows : list AuditRow)
  | AnsReply (r : reply).
Definition claims_page (limit offset : Z) : HM answer :=
  let limit := if limit =? 0 then 1000 else limit in
  now <- read_clock ;;
  claims <- ClaimsPage now limit offset ;;
  total <- ActiveClaimCount now ;;
  ret (AnsClaims claims total limit offset).
Definition control_of (r : Request) : option control_request :=
  let op := Op r in
  if String.eqb op "plan" then Some ReqPlan
  else if String.eqb op "apply" then Some (ReqApply (rq_Safe r))
  else if String.eqb op "commit" then Some (ReqCommit (rq_Generation r))
  else if String.eqb op "rollback" then Some (ReqRollback (rq_Generation r))
  else if String.eqb op "generation" then Some (ReqGeneration (rq_Generation r))
  else if String.eqb op "reconcile" then Some ReqReconcile
  else if String.eqb op "wg-refresh" then Some ReqRefresh
  else if String.eqb op "block-add" then Some (ReqClaim (BlockAdd (rq_Address r) (rq_Source r) (rq_Reason r) (ExpiresSec r)))
  else if String.eqb op "allow-add" then Some (ReqClaim (AllowAdd (rq_Address r) (rq_Reason r) (ExpiresSec r)))
  else if String.eqb op "block-remove" then Some (ReqClaim (BlockRemove (ClaimID r)))
  else if String.eqb op "allow-remove" then Some (ReqClaim (AllowRemove (ClaimID r)))
  else None.
Definition Control d (x : Ctx) (r : Request) : HM answer :=
  if String.eqb (Op r) "status" then s <- Status d ;; ret (AnsStatus s)
  else if String.eqb (Op r) "claims" then claims_page (Limit r) (Offset r)
  else if String.eqb (Op r) "audit" then rows <- RecentAudit 100 ;; ret (AnsAudit rows)
  else match control_of r with
       | Some q => a <- ControlRequest range go_syntax listing_size d x q ;; ret (AnsReply a)
       | None => throw (Errorf "unknown control operation %q" [ArgS (Op r)])
       end.
Definition handler d (x : Ctx) : Handler :=
  mkHandler (s <- Status d ;; ret (AnsStatus s)) (Control d x) SecurityEvent.

(** ** The timers *)

Context (fetch : string → Z → Z → HM (list string)) (read_list : string → HM string).
Inductive ticker := RollbackTick | ReconcileTick | EndpointTick | ClaimTick | IntegrationTick.
Definition reported {A} (m : HM A) : HM unit := try_ m ;; ret tt.
(** One case of the [select] of [rollbackLoop]; errors are only printed. *)
Definition tick d (x : Ctx) (t : ticker) : HM unit :=
  match t with
  | RollbackTick => reported (RollbackExpired_ range d x)
  | ReconcileTick => reported (Reconcile_ range d x true)
  | EndpointTick => reported (RefreshEndpoints range d false x) ;; reported (RefreshWireGuardHealth d)
  | ClaimTick =>
      reported (RefreshClaimSets range (runtime_of d) false x) ;; reported (RefreshContainerSets range go_syntax listing_size d false x)
  | IntegrationTick => reported (RefreshIntegrations range (runtime_of d) fetch read_list false x)
  end.

(** ** Starting *)

(** What [main] does between [app.Open] and serving the sockets. *)
Definition initial_reconcile d (x : Ctx) : HM unit :=
  r <- try_ (Reconcile_ range d x true) ;;
  match r with
  | inl e | inr (_, Some e) => if is_no_rows e then ret tt else throw e
  | inr (_, None) => ret tt
  end.
Definition restore_sets d (x : Ctx) : HM unit :=
  existing <- ExistingOwned ;;
  (if bool_decide (filter_key ∈ existing) then RestoreRuntimeState range go_syntax listing_size d false x else ret tt) ;;
  reported (RefreshWireGuardHealth d).
Definition startup d (x : Ctx) : HM unit := initial_reconcile d x ;; restore_sets d x.

(** *** The modes without a runtime *)

Definition canonicalStateDatabase (stateDirectory : string) : err + string :=
  let clean := Clean stateDirectory in
  if negb (IsAbs stateDirectory) || negb (String.eqb clean stateDirectory) || String.eqb clean "/" || contains_any stateDirectory "?#%"
  then inl (Errorf "state directory must be an absolute, canonical, non-root path" [])
  else inr (clean +:+ "/generation-state/state.db").
Definition foreignMarkGuard (w : World K) : option err :=
  match nft_list_ruleset (w_kernel w) with
  | Some out =>
      match foreignProvenanceAuditFromJSON (listing_size (w_kernel w)) out OwnedTables with inl e => Some e | inr _ => None end
  | None => Some ErrIO
  end.
Definition boot_manager (lockDirectory : string) : Manager K :=
  Manager.mkManager 0 None None None (Some foreignMarkGuard) None lockDirectory.
(** [state.OpenRecovery], [state.OpenReadOnly]. *)
Definition open_state (what : string) : HM unit := sys_read (EvDBRead what) (λ _, Ret tt).

Definition restoreVerifiedPointerWithoutDatabase (x : Ctx) : HM unit :=
  wrapped "foreign conntrack-mark ownership audit before database-failure restore: %w" (AuditForeignProvenanceMask listing_size) ;;
  script <- wrapped "load verified enforcement pointer without database: %w" LoadActiveSnapshot ;;
  match script with
  | None => throw (Errorf "database is unavailable and no verified enforcement pointer exists; refusing nftables mutation" [])
  | Some script =>
      wrapped "foreign conntrack-mark ownership audit before database-failure install: %w" (AuditForeignProvenanceMask listing_size) ;;
      wrapped "restore verified pointer snapshot without database: %w" (Backend.Apply x script) ;;
      r <- Integrity range ;;
      require r.1 (Errorf "restored pointer snapshot failed owned-table integrity: %s" [ArgS r.2])
  end.
(** Under the lock with the database open; without it only the pointer's snapshot is
    restored and the mode fails. *)
Definition with_database {A} (fmt blocked : string) (x : Ctx) (m : Ctx → HM A) : HM A :=
  with_publication_lock
    (opened <- try_ (open_state "recovery") ;;
     match opened with
     | inl e =>
         let openErr := Wrapf fmt [] e in
         catch (restoreVerifiedPointerWithoutDatabase (WithMutationLock x)) (λ e, throw (Join openErr e)) ;;
         throw (Join openErr (Errorf blocked []))
     | inr _ => m (WithMutationLock x)
     end).
Definition recoverAtBoot (stateDirectory lockDirectory : string) (x : Ctx) : HM (RecoveryResult * option err) :=
  lift_check (canonicalStateDatabase stateDirectory) ;;
  with_database "open current-schema recovery state: %w" "verified pointer snapshot restored, but readiness remains blocked until database recovery" x
    (RecoverAtBoot range (boot_manager lockDirectory)).
Definition rollbackExpiredStatic (stateDirectory lockDirectory : string) (x : Ctx) : HM (bool * option err) :=
  lift_check (canonicalStateDatabase stateDirectory) ;;
  with_database "open current-schema rollback state: %w" "verified pointer snapshot restored, but no database recovery transition was authorized" x
    (λ x,
      r <- RollbackExpired range (boot_manager lockDirectory) x ;;
      if fst r then
        prepared <- try_ PrepareClaimPublication ;;
        ret (match prepared with
             | inl e => let e := Wrapf "mark runtime claims unpublished after rollback: %w" [] e in
                        (true, Some (match snd r with Some cause => Join cause e | None => e end))
             | inr _ => r
             end)
      else ret r).
Context (database_bytes : gmap N Generation → list AuditRow → ClaimTables → string) (ledger_bytes : gmap string Alloc → string).
Definition verifyEnforcementState (stateDirectory : string) : HM unit :=
  lift_check (canonicalStateDatabase stateDirectory) ;;
  with_publication_lock
    (wrapped "open read-only enforcement state: %w" (open_state "read-only") ;;
     VerifyEnforcement range listing_size database_bytes ledger_bytes).
End program.

(** ** What it keeps *)

Section kept.
Context {K : Type} `{NftLaws K} `{!NftBatch K}.
Context (range : gset string → list string) (go_syntax : Config → string) (listing_size : K → N).
Context (quick_check : World K → string) (projection : Daemon (K := K) → M (Host K) (option ManagedProjection)).
Context (fetch : string → Z → Z → M (Host K) (list string)) (read_list : string → M (Host K) string).
Context (database_bytes : gmap N Generation → list AuditRow → ClaimTables → string) (ledger_bytes : gmap string Alloc → string).
Context (parse : string → option json).
(** What is looked up outside of the protocol is only read. *)
Hypothesis projected : ∀ d, looks (projection d).
Hypothesis fetched_only : ∀ url n b, looks (fetch url n b).
Hypothesis read_only : ∀ file, looks (read_list file).
Abbreviation HM := (M (Host K)).
Implicit Types (w : World K) (d : Daemon (K := K)) (x : Ctx).
Abbreviation the_handler d x := (handler range go_syntax listing_size quick_check projection d x).

(** *** Reading *)

Lemma looks_Status d : wired range d → looks (Status range listing_size quick_check projection d).
Proof.
  intros Hd w. unfold Status. eapply reads_bind; [by eapply reads_currentConfiguration|]. intros d1 H1. pose proof (reconfigured_wired _ _ _ Hd H1) as Hd1.
  eapply reads_bind; [by eapply reads_projectDockerConfiguration|]. intros d2 H2. pose proof (reconfigured_wired _ _ _ Hd1 H2) as Hd2.
  unfold statusCurrent. eapply reads_bind; [apply projected|]. intros managed _. eapply reads_True, reads_Snapshot.
  intros observe name within. cbn [WG provider_of]. destruct (dm_WG d2) as [wg|] eqn:E; [|done]. intros [= <-]. by apply (wi_observe _ _ Hd2).
Qed.
Lemma quiet_security event detail : quiet (SecurityEvent (K := K) event detail).
Proof. unfold SecurityEvent, Manager.ignore. quieting. Qed.
Lemma quiet_claims_page limit offset : quiet (claims_page (K := K) limit offset).
Proof. unfold claims_page, ClaimsPage, ActiveClaimCount. quieting. Qed.
#[local] Hint Resolve quiet_security : quiet.

(** *** The pointer's snapshot is one of a stored generation *)

Lemma pointer_row w p : Inv w → w_pointer w = Some p → ∃ g, w_gens w !! ptr_Generation p = Some g.
Proof.
  intros HI Hp. assert (∀ q, lkp (w_gens w) = Some q → ∃ g, w_gens w !! ptr_Generation q = Some g) as Hl.
  { intros q Hq. apply lkp_Some in Hq as (g & [Hg _] & ->); [by exists g|by apply Inv_keyed]. }
  destruct (decide (map_Exists (λ _ g, gen_Status g = CommitPrepared) (w_gens w))) as [(id & g & Hg & Hst)|Hno].
  - destruct (inv_prepared _ HI _ _ Hg Hst) as [[E _]|[E _]]; rewrite E in Hp; [by apply Hl|]. injection Hp as <-.
    exists g. cbn. by rewrite (ro_id _ _ _ (inv_rows _ HI _ _ Hg)).
  - destruct (inv_settled _ HI) as [E _]; [|apply Hl; congruence]. intros id g Hg Hst. apply Hno. by exists id, g.
Qed.
Lemma reads_LoadActiveSnapshot w : Inv w → reads LoadActiveSnapshot (λ o, ∀ script, o = Some script → installs script = true) w.
Proof.
  intros HI. unfold LoadActiveSnapshot. eapply reads_bind; [apply reads_ReadEnforcementPointer|]. intros o ->.
  destruct (w_pointer w) as [p|] eqn:Ep; [|by apply reads_ret]. destruct (pointer_row _ _ HI Ep) as [g Hg].
  eapply reads_bind; [eapply reads_catch; [apply reads_LoadVerified|intros e; apply reads_throw]|]. intros s Hs. cbn beta in Hs.
  eapply reads_bind; [apply reads_require|]. intros [] _. apply reads_ret. intros script [= <-].
  by destruct (snapshot_unique _ _ _ _ HI Hg Hs) as (_ & H' & _).
Qed.
Lemma quiet_audit_mask : quiet (AuditForeignProvenanceMask listing_size).
Proof.
  unfold AuditForeignProvenanceMask. apply quiet_bind; [|intros out; apply quiet_lift_check].
  apply quiet_catch; [apply quiet_sys_read|intros e; apply quiet_throw].
Qed.
Lemma secure_restoreVerified x : secure (restoreVerifiedPointerWithoutDatabase range listing_size x).
Proof.
  unfold restoreVerifiedPointerWithoutDatabase. apply secure_after; [apply quiet_wrapped, quiet_audit_mask|intros _].
  intros w0 w HS Hr. eapply wsafe_reads; [done|apply reads_wrapped, reads_LoadActiveSnapshot, HS|]. intros [script|] Hs; [|by apply wsafe_throw].
  specialize (Hs script eq_refl). revert w0 w HS Hr. apply secure_after; [apply quiet_wrapped, quiet_audit_mask|intros _].
  apply secure_quiet. apply quiet_bind; [apply quiet_wrapped|intros _].
  { intros w. eapply Calm_mono; [by apply Calm_Apply|done]. }
  apply quiet_bind; [eapply quiet_reads; intros w; eapply reads_True, reads_Integrity|]. intros r. apply quiet_require.
Qed.
Lemma secure_throw {A} e : secure (throw e : HM A).
Proof. apply secure_quiet, quiet_throw. Qed.
Lemma secure_with_database {A} fmt blocked x (m : Ctx → HM A) : (∀ y, secure (m y)) → secure (with_database range listing_size fmt blocked x m).
Proof.
  intros Hm. unfold with_database, open_state. apply secure_locked, secure_after; [quieting|]. intros [e|[]]; [|apply Hm].
  apply secure_then; [|intros _; apply quiet_throw]. apply secure_catch; [apply secure_restoreVerified|intros e'; apply quiet_throw].
Qed.

(** *** Each activity *)

Lemma boot_restores dir : restores_sets (boot_manager listing_size dir).
Proof. done. Qed.
Lemma boot_transparent dir : transparent range (boot_manager listing_size dir).
Proof. done. Qed.
Lemma secure_recoverAtBoot state lock x : secure (recoverAtBoot range listing_size state lock x).
Proof.
  unfold recoverAtBoot. apply secure_after; [quieting|intros _]. apply secure_with_database. intros y w0 w HS _.
  eapply wsafe_mono; [by apply wsafe_RecoverAtBoot; [apply boot_restores|apply boot_transparent|]|done].
Qed.
Lemma secure_rollbackStatic state lock x : secure (rollbackExpiredStatic range listing_size state lock x).
Proof.
  unfold rollbackExpiredStatic. apply secure_after; [quieting|intros _]. apply secure_with_database. intros y. apply secure_then.
  - intros w0 w HS _. by apply wsafe_RollbackExpired; [apply boot_restores|apply boot_transparent|].
  - intros r. quieting. apply quiet_prepare.
Qed.
Lemma quiet_verify state : quiet (verifyEnforcementState range listing_size database_bytes ledger_bytes state).
Proof.
  unfold verifyEnforcementState, open_state. quieting. eapply quiet_reads. intros w. eapply reads_True, exactly_VerifyEnforcement.
Qed.
Lemma secure_reported {A} (m : HM A) : secure m → secure (reported m).
Proof. intros Hm. apply secure_then; [by apply secure_try|intros; apply quiet_ret]. Qed.
Lemma quiet_reported {A} (m : HM A) : quiet m → quiet (reported m).
Proof. intros Hm. unfold reported. apply quiet_bind; [by apply quiet_try|]. intros. apply quiet_ret. Qed.
Lemma secure_initial d x : wired range d → secure (initial_reconcile range d x).
Proof.
  intros Hd. unfold initial_reconcile. apply secure_then; [by apply secure_try, secure_Reconcile|]. intros [e|[dr [e|]]]; [destruct (is_no_rows e)..|]; quieting.
Qed.
Lemma secure_restore_sets d x : wired range d → secure (restore_sets range go_syntax listing_size d x).
Proof.
  intros Hd. unfold restore_sets. apply secure_after; [apply quiet_ExistingOwned|]. intros existing.
  apply secure_then; [|intros _; by eapply quiet_reported, quiet_health]. destruct (bool_decide _); [by apply secure_RestoreRuntimeState|apply secure_quiet, quiet_ret].
Qed.
Lemma secure_tick d x t : wired range d → secure (tick range go_syntax listing_size fetch read_list d x t).
Proof.
  intros Hd. destruct t; cbn [tick].
  - by apply secure_reported, secure_RollbackExpired.
  - by apply secure_reported, secure_Reconcile.
  - apply secure_quiet, quiet_bind; [|intros _; by eapply quiet_reported, quiet_health].
    apply quiet_reported, quiet_context. intros y. by apply quiet_refreshEndpoints.
  - apply secure_after; [apply quiet_reported, quiet_context; intros y; by apply quiet_refresh|intros _].
    apply secure_reported, secure_context. intros y. by apply secure_refreshContainers.
  - by apply secure_quiet, quiet_reported, quiet_RefreshIntegrations.
Qed.

(** *** Connections *)

(** The request rolls back a candidate only when its pointer is durable. *)
Definition permitted (r : Request) w : Prop := ∀ q, control_of r = Some q → allowed q w.
Lemma wsafe_Control w0 d x r w : wired range d → Safe w0 w → room w → permitted r w →
  wsafe (Safe w0) (Control range go_syntax listing_size quick_check projection d x r) (λ _ _, True) w.
Proof.
  intros Hd HS Hr Hq. unfold Control.
  assert (∀ m : HM answer, quiet m → wsafe (Safe w0) m (λ _ _, True) w) as Hquiet.
  { intros m Hm. by apply secure_quiet. }
  destruct (String.eqb _ _); [apply Hquiet, quiet_bind; [by apply looks_quiet, looks_Status|quieting]|].
  destruct (String.eqb _ _); [apply Hquiet, quiet_claims_page|].
  destruct (String.eqb _ _); [apply Hquiet; unfold RecentAudit; quieting|].
  destruct (control_of r) as [q|] eqn:Eq; [|apply Hquiet, quiet_throw].
  apply wsafe_bind. eapply wsafe_mono; [apply wsafe_request; [done..|by apply Hq]|]. intros a w' HS' _. by apply wsafe_ret.
Qed.
Lemma wsafe_handle w0 d x control c w : wired range d → Safe w0 w → room w → (∀ r, admitted parse control c r → permitted r w) →
  wsafe (Safe w0) (handle parse (the_handler d x) control c) (λ _ _, True) w.
Proof.
  intros Hd HS Hr Hq. assert (∀ {A} (m : HM A) w, quiet m → Safe w0 w → wsafe (Safe w0) m (λ _ _, True) w) as Hquiet.
  { intros A m w' Hm HS'. eapply wsafe_mono; [apply Hm; [apply closed_Safe|done]|done]. }
  destruct (handle_cases parse (the_handler d x) control c) as [(r & Hadm & ->)|(m & e & Hm & ->)].
  - destruct control; [|rewrite (status_only _ _ _ _ Hadm); apply Hquiet; [|done]; apply quiet_try, quiet_bind; [by apply looks_quiet, looks_Status|quieting]].
    unfold Api.run_request. apply wsafe_bind. eapply wsafe_mono with (P := λ _ _, True).
    + apply wsafe_try with (J := Safe w0) (Q := λ _ _, True); [done|apply wsafe_Control; [done..|by apply Hq]|done|done].
    + intros [e|a] w' HS' _; apply Hquiet; [quieting; apply quiet_security|done|apply quiet_ret|done].
  - apply Hquiet; [|done]. apply quiet_bind; [|intros; apply quiet_ret]. destruct Hm as [-> |(_ & event & detail & ->)]; [apply quiet_ret|apply quiet_security].
Qed.
Lemma set_audit_same w : set_audit (w_audit w) w = w.
Proof. by destruct w. Qed.
Lemma audit_only w event detail w1 : (∃ a, w1 = set_audit a w) →
  wsafe (λ w', ∃ a, w' = set_audit a w) (SecurityEvent (K := K) event detail) (λ _ _, True) w1.
Proof.
  intros HI. unfold SecurityEvent, Manager.ignore. apply wsafe_bind.
  apply wsafe_try with (J := λ w', ∃ a, w' = set_audit a w) (Q := λ _ _, True); [done| |by intros; apply wsafe_ret|by intros; apply wsafe_ret].
  unfold Audit, write_audit. destruct (validateAuditRecord _ _ _) as [e|text]; [by apply wsafe_throw|].
  apply wsafe_sys_write; [done|]. intros [] w' [= <-]. split; [|done]. destruct HI as [a ->]. by eexists.
Qed.
Lemma handle_refused d x control c m e w : notes (the_handler d x) control m → handle parse (the_handler d x) control c = (m ;; ret (inl e)) →
  wsafe (λ w', if control then ∃ a, w' = set_audit a w else w' = w) (handle parse (the_handler d x) control c) (λ r _, ∃ e, r = inl e) w.
Proof.
  intros Hm ->. apply wsafe_bind. destruct Hm as [-> |(-> & event & detail & ->)].
  - apply wsafe_ret; [destruct control; [|done]; exists (w_audit w); by rewrite set_audit_same|].
    apply wsafe_ret; [destruct control; [|done]; exists (w_audit w); by rewrite set_audit_same|]. by exists e.
  - eapply wsafe_mono; [apply audit_only; exists (w_audit w); by rewrite set_audit_same|]. intros [] w' HI _. apply wsafe_ret; [done|]. by exists e.
Qed.

(** C9: A connection to the status socket changes nothing, whatever is sent; one to the
    control socket changes nothing but the audit log unless its peer is root and it sent
    a request that is accepted.  Data is answered only to an admitted request, which is
    one of the operations within its bounds: the status on the one socket, any of them to
    root on the other. *)
Theorem connections_confined d x control c o h : wired range d →
  let r := handle parse (the_handler d x) control c o h in
  (control = false → h_world (final r) = h_world h) ∧
  (control = true → (∀ req, ¬ admitted parse true c req) → ∃ a, h_world (final r) = set_audit a (h_world h)) ∧
  (∀ answer, result r = Ret (inr answer) → ∃ op, admitted parse control c (request_of op) ∧ bounded op ∧
     if control then peerUcred c = Some 0%N else op = OpStatus).
Proof.
  intros Hd. cbv zeta. destruct (handle_cases parse (the_handler d x) control c) as [(req & Hadm & E)|(m & e & Hm & E)].
  - assert (∃ op, req = request_of op ∧ bounded op ∧ (control = false → op = OpStatus)) as (op & -> & Hb & Hop).
    { destruct Hadm as (_ & frame & _ & _ & _ & _ & Hv). by apply validateRequest_iff in Hv. }
    split; [|split].
    + intros ->. rewrite E, (status_only _ _ _ _ Hadm). refine (wsafe_final (λ w', w' = h_world h) _ (λ _ _, True) h o _).
      assert (reads (Api.Status (the_handler d x)) (λ _, True) (h_world h)) as Hs.
      { eapply reads_bind; [by apply looks_Status|]. intros s _. by apply reads_ret. }
      eapply wsafe_mono; [exact (reads_try _ _ _ Hs (λ w', w' = h_world h) eq_refl)|done].
    + intros -> Hno. by destruct (Hno _ Hadm).
    + intros answer _. exists op. split; [done|]. split; [done|]. destruct control; [by apply Hadm|by apply Hop].
  - pose proof (handle_refused d x control c m e (h_world h) Hm E) as Hs. split; [|split].
    + intros ->. by apply (wsafe_final _ _ _ h o Hs).
    + intros -> _. by apply (wsafe_final _ _ _ h o Hs).
    + intros answer Hr. by destruct (wsafe_ret_elim _ _ _ h o _ Hs Hr).
Qed.

(** ** The life of a host *)

(** A step is a complete or interrupted run of anything the program does, a change of what
    the protocol does not own, or a power loss. *)
Inductive program_step d : World K → World K → Prop :=
  | step_connection x control c o (h : Host K) : room (h_world h) → (∀ r, admitted parse control c r → permitted r (h_world h)) →
      program_step d (h_world h) (h_world (final (handle parse (the_handler d x) control c o h)))
  | step_tick x t o (h : Host K) : room (h_world h) →
      program_step d (h_world h) (h_world (final (tick range go_syntax listing_size fetch read_list d x t o h)))
  | step_reconcile x o (h : Host K) : room (h_world h) → program_step d (h_world h) (h_world (final (initial_reconcile range d x o h)))
  | step_restore x o (h : Host K) : room (h_world h) →
      program_step d (h_world h) (h_world (final (restore_sets range go_syntax listing_size d x o h)))
  | step_recover state lock x o (h : Host K) : room (h_world h) →
      program_step d (h_world h) (h_world (final (recoverAtBoot range listing_size state lock x o h)))
  | step_rollback state lock x o (h : Host K) : room (h_world h) →
      program_step d (h_world h) (h_world (final (rollbackExpiredStatic range listing_size state lock x o h)))
  | step_verify state o (h : Host K) : room (h_world h) →
      program_step d (h_world h) (h_world (final (verifyEnforcementState range listing_size database_bytes ledger_bytes state o h))).
Definition host_step d w w' : Prop := program_step d w w' ∨ elsewhere w w' ∨ w' = power_lost w.

(** Nothing the program does, whatever fails and wherever it dies, breaks the durable
    state, loses a committed generation, or takes the owned tables out of the kernel once
    a generation is committed. *)
Lemma program_safe d w w' : wired range d → Inv w → program_step d w w' → Safe w w'.
Proof.
  intros Hd HI Hs. assert (∀ {A} (m : HM A) P o (h : Host K), wsafe (Safe (h_world h)) m P (h_world h) → Safe (h_world h) (h_world (final (m o h)))) as Hrun.
  { intros A m P o h Hm. exact (wsafe_final _ _ _ h o Hm). }
  pose proof (Safe_refl _ HI) as HS. destruct Hs as [x control c o h Hr Hq|x t o h Hr|x o h Hr|x o h Hr|state lock x o h Hr|state lock x o h Hr|state o h Hr]; eapply Hrun.
  - by apply wsafe_handle.
  - by apply secure_tick.
  - by apply secure_initial.
  - by apply secure_restore_sets.
  - by apply secure_recoverAtBoot.
  - by apply secure_rollbackStatic.
  - by apply secure_quiet; [apply quiet_verify|..].
Qed.

End kept.

(** ** A sample: clients of the sample daemon, a power loss and the boot after it *)

Definition request_json (fields : list (string * json)) : json := JObj fields.
Definition line (fields : list (string * json)) : string := json_text (request_json fields) +:+ of_chars [NftScript.lf].
Definition status_fields : list (string * json) := [("op", JStr "status")].
Definition apply_fields : list (string * json) := [("op", JStr "apply"); ("unsafe", JBool true)].
(** A parser of these two lines. *)
Definition sample_parse (frame : string) : option json :=
  option_map request_json (List.find (λ fields, String.eqb frame (line fields)) [status_fields; apply_fields]).
Definition sample_projection : Daemon (K := DaemonKernel) → M (Host DaemonKernel) (option ManagedProjection) := λ _, ret None.
Definition sample_serve (control : bool) (uid : N) (fields : list (string * json)) : M (Host DaemonKernel) (err + answer) :=
  handle sample_parse (handler sample_range (λ _, "sample") (λ _, 900%N) (λ _, "ok") sample_projection sample_daemon sample_ctx) control
    (mkConn (Some uid) (line fields) None).
Definition sample_fetch : string → Z → Z → M (Host DaemonKernel) (list string) := λ _ _ _, throw ErrIO.
Definition sample_read : string → M (Host DaemonKernel) string := λ _, throw ErrNotExist.

Definition answered (r : outcome (err + answer)) : string :=
  match r with
  | Ret (inr (AnsStatus s)) => Health.Status s
  | Ret (inr (AnsReply (RepApply _))) => "applied"
  | Ret (inl (Errorf text _)) => text
  | _ => ""
  end.
(** Root applies; another user is refused and audited; anyone reads the status. *)
Example sample_served :
  answered (result (sample_serve true 0 apply_fields [] daemon_host)) = "applied" ∧
  answered (result (sample_serve true 1000 apply_fields [] daemon_host)) = "control socket requires root peer credentials" ∧
  map aud_event (w_audit (h_world (final (sample_serve true 1000 apply_fields [] daemon_host)))) = ["control_access_denied"] ∧
  answered (result (sample_serve false 1000 status_fields [] daemon_host)) = "DEGRADED" ∧
  is_Some (w_gens (h_world (final (sample_serve true 0 apply_fields [] daemon_host))) !! 1%N).
Proof. vm_compute. split_and!; try reflexivity. by eexists. Qed.

Lemma connections_confined_witness :
  h_world (final (sample_serve false 1000 status_fields [] daemon_host)) = h_world daemon_host ∧
  ∃ a, h_world (final (sample_serve true 1000 apply_fields [] daemon_host)) = set_audit a (h_world daemon_host).
Proof.
  assert (∀ d, looks (sample_projection d)) as Hp by (intros d w; by apply reads_ret). split.
  - exact (proj1 (connections_confined sample_range (λ _, "sample") (λ _, 900%N) (λ _, "ok") sample_projection sample_parse Hp sample_daemon sample_ctx
      false (mkConn (Some 1000%N) (line status_fields) None) [] daemon_host sample_wired) eq_refl).
  - refine (proj1 (proj2 (connections_confined sample_range (λ _, "sample") (λ _, 900%N) (λ _, "ok") sample_projection sample_parse Hp sample_daemon sample_ctx
      true (mkConn (Some 1000%N) (line apply_fields) None) [] daemon_host sample_wired)) eq_refl _).
    intros req [Hroot _]. by specialize (Hroot eq_refl).
Defined.

(** The apply of root is cut by a power loss at its fortieth call; the boot service and
    the rollback timer run after it. *)
Definition cut_apply : oracle := (replicate 40 FOk ++ [FCrash])%list.
Definition cut_world : World DaemonKernel := Eval vm_compute in h_world (final (sample_serve true 0 apply_fields cut_apply daemon_host)).
Definition after_loss : Host DaemonKernel := mkHost (power_lost cut_world) (h_clock daemon_host) [].
Definition after_boot : World DaemonKernel :=
  Eval vm_compute in h_world (final (recoverAtBoot sample_range (λ _, 900%N) "/var/lib/nftfw" "/run/nftfw" sample_ctx [] after_loss)).
Definition after_timer : World DaemonKernel :=
  h_world (final (rollbackExpiredStatic sample_range (λ _, 900%N) "/var/lib/nftfw" "/run/nftfw" sample_ctx [] (mkHost after_boot (h_clock daemon_host) []))).
Lemma room_check {K} (w : World K) : bool_decide (map_Forall (λ id _, (id < 2 ^ 64 - 1)%N) (w_gens w)) = true → room w.
Proof. intros H id g Hg. exact (bool_decide_eq_true_1 _ H id g Hg). Qed.
